(* ===== verification/_CoqProject ===== *)
-Q . S2P
Prelude.v
Errors.v
Clock.v
Frame.v
Address.v
Table.v
Bloom.v
Wire.v
Handshake.v
LinkSet.v
Router.v
Hoare.v
Demo.v
Tree.v
BloomTree.v
Session.v
Pathfind.v
Protocol.v
Driver.v
Invariant.v
Delivery.v
Text.v
Words.v
Uri.v
Lan.v
Peers.v
Tun.v
Views.v
Node.v
Discover.v
LanTask.v
Config.v
PeerList.v
Admin.v
Carry.v
Rest.v
NodeRun.v
AdminRun.v
Ipv6.v
Ws.v
Dial.v
Report.v
Boot.v
Dump.v
Resolve.v
Mesh.v
Probe.v
Process.v
