(* ===== verification/Prelude.v ===== *)
(** * A verification of roots, a mesh router

    roots is a Rust implementation of a self-arranging IPv6 mesh. A node has an
    Ed25519 key, from which its address follows. It peers with others over
    streams, keeps with them a spanning tree of signed announces, forwards
    packets greedily by tree coordinates, finds unknown nodes by multicasting
    along the tree through Bloom filters, and encrypts end to end with a
    ratcheting session. The client around the library dials and accepts peers,
    discovers them on the local network, bridges to a TUN interface and answers
    questions of its operator.

    ** Parts and where they are modelled

    Paths are under [src/]: [core/src/] is the platform-free core, [src/] the
    router library and [client/src/] the client.

    - [Prelude]: machine integers and their wrap-around, lists, maps, tactics.
    - [Errors], [Clock]: [core/src/error.rs], [src/error.rs],
      [core/src/clock.rs], [src/clock.rs].
    - [Frame]: [src/frame.rs] and the framed reads and writes of [src/link.rs].
    - [Address], [Table]: [core/src/address.rs], [core/src/table.rs].
    - [Bloom]: the filters of [src/bloom.rs]; [BloomTree]: the router's use of
      them.
    - [Wire]: the message codecs of [src/tree.rs], [src/pathfind.rs] and
      [src/traffic.rs].
    - [Handshake]: [src/handshake.rs], [src/peer.rs] and [run_handshake] of
      [src/link.rs].
    - [LinkSet]: the connections of [src/link.rs].
    - [Router]: the router's state and the monad of its operations; [Hoare]: the
      logic used on them; [Demo]: concrete nodes.
    - [Tree], [Pathfind], [Session]: the tree protocol, coordinates and greedy
      forwarding, the session ratchet ([src/tree.rs], [src/pathfind.rs],
      [src/session.rs]).
    - [Protocol]: lookups, notifies, session layer and session protocol
      ([src/pathfind.rs], [src/session.rs], [src/proto.rs], [src/traffic.rs]).
    - [Driver]: [src/driver.rs]; [Invariant], [Delivery], [Resolve], [Rest]: what
      its runs keep, what they deliver, whom an address resolves to and that they
      end.
    - [Text], [Words]: the string operations of the standard library in use.
    - [Uri]: peering URIs and the redial policy ([src/link.rs],
      [src/supervisor.rs]).
    - [Lan]: the discovery state machine ([src/multicast.rs]); [Discover],
      [LanTask]: the sockets and the task around it
      ([client/src/multicast.rs], [client/src/listen.rs], [client/src/main.rs]).
    - [Peers], [Tun], [Views], [Node]: [client/src/links.rs],
      [client/src/tun.rs], [src/views.rs], [client/src/node.rs]; [Carry],
      [NodeRun]: what runs of the whole node keep; [Mesh]: several routers
      joined by cables.
    - [Config]: [client/src/config.rs] and the start-up of
      [client/src/main.rs].
    - [PeerList], [Admin], [AdminRun], [Report]: the admin socket of
      [client/src/admin.rs]: the order of peers, requests and answers, runs of
      connections, and responses as serialised, with the texts of errors.
    - [Ipv6]: the address parser of the standard library; [Ws]: the stream over a
      WebSocket ([src/ws.rs]); [Dial]: dialing, listening and accepting
      ([src/link.rs], [src/tls.rs], [src/ws.rs], [src/quic.rs],
      [client/src/listen.rs]).
    - [Probe]: the facade of [src/lib.rs] and the probe of one peer; [Process]:
      the whole of [client/src/main.rs], from its command line on.
    - [Boot]: [boot] of [client/src/main.rs] and the opening of the TUN interface;
      [Dump]: the diagnostic text of [src/views.rs] and the trait of
      [src/traits.rs].

    ** How the code is modelled

    Bytes are [Z]s in lists, as in a [Vec<u8>]; a [&str] is its UTF-8 bytes.
    Integers are [Z] with their width written out; arithmetic is that of a
    release build and wraps. A fallible function returns [result], with the
    error values of the code. A router operation is a function of a [World] (the
    router, the links it was handed and how often it consulted the environment)
    whose outcome is a new world with a result, a panic, or the exhaustion of
    its fuel; the environment [Env] supplies clock readings and randomness by
    index. A hash map is a [gmap], iterated in the order of [map_to_list], one
    of the orders the code allows.

    Code outside the repository is a parameter: the classes [Ed25519],
    [NaclBox], [Blake2], [Hex], [HexReport], [Regex], [Json], [JsonText],
    [FloatText], [Unicode] and [Texts], and for the kernel and the protocol stacks
    the records [Host], [SocketHost], [TunHost] and [Net], whose fields say what
    each call answers. Laws about them are separate classes ([Ed25519Laws] and so
    on) and state what their documentation promises: sizes, that honest signatures
    verify, that the two ends of a Diffie-Hellman exchange agree. Every property
    that uses them is evaluated on a concrete instance by its witness.

    ** Fuel and bounds

    The loops of the uvarint codec take ten turns, enough for 64 bits. Walks up
    the tree are bounded by the number of known infos, the depth view by 1025.
    The durations of URIs are read with the length of the text as fuel. The
    cycle of lookup, notify and send nests twice at most, and [SEND_FUEL] is 2:
    [protocol_terminates] proves that no operation runs out of it and that more
    fuel changes nothing. The loops of serving and resolving take one turn per
    element of the list of arrivals; running out of it is an outcome of its own,
    and [protocol_terminates] proves that they end before it when the list is long
    enough and time goes on ([ClockPasses]).

    ** What the theorems show

    - Soundness of runs: every reachable router holds only signed announces and
      paths and sound sessions ([Invariant]); the node's runs keep it and its
      link table consistent ([NodeRun], [Peers]).
    - Delivery and secrecy: sessions deliver through losses and rotations,
      refuse replays, and hand over only what the source sealed ([Session],
      [Delivery]).
    - Routing: announces converge, parents are well chosen, greedy forwarding
      progresses and does not loop among nodes with coordinates ([Tree],
      [Pathfind]); an address resolves only
      to its owner, and a held packet goes out to it ([Resolve]).
    - The whole mesh: every schedule of links, turns and deliveries keeps every
      node sound, and on a line of three a payload crosses both hops ([Mesh]).
    - Termination: the router's operations end, and serving and resolving come to
      their deadline on any clock that passes every time ([Rest]).
    - Refinement: the open-addressed table is a finite map ([Table]); the
      commands of discovery drive an abstract client ([Lan]).
    - Codecs and parsers: round trips, exact grammars, and well-formedness of
      what is accepted ([Frame], [Wire], [Bloom], [Handshake], [Uri], [Config]).
    - Discovery: only members are dialled, and who wants to be found is heard
      ([Lan], [LanTask]).
    - Peering: a link is opened only to a peer that proved the key wanted, by any
      transport and in both directions; a listener survives failed handshakes;
      a beacon leads to its sender, and neighbours with one password link up;
      bytes survive a WebSocket ([Dial], [Ws]).
    - The operator: requests are answered once and in any pieces, peers are
      listed in order, and no response depends on a password ([AdminRun],
      [PeerList], [Report]); a node that comes up is the one configured ([Config],
      [Boot]); a configuration that was printed runs under the key it was made
      for, and the probe prints what it found and nothing else ([Process],
      [Probe]).
    - Defects: what the code does where it does not do what it says
      ([forged_source_panics], [partial_frame_lost], [stale_dial_leaks],
      [moved_address_keeps_listener], [admin_key_panics], [lan_password_refused],
      [silent_client_stops_ws], [shutdown_drops_bytes] and others).

    ** Not modelled

    The TLS, WebSocket and QUIC stacks with their configurations, and sockets,
    which are the answers of a [Net]; the length of a deadline, whose passing is
    one of these answers; JSON text, between bytes and values; the log lines of
    [client/src/main.rs]; re-exports; tests and examples. *)
From stdpp Require Import base tactics list numbers sorting gmap.

Local Open Scope Z_scope.

Declare Scope rust_scope.
Delimit Scope rust_scope with rust.

(** ** Machine integers

    A Rust unsigned integer of width [w] is a [Z] in [0 <= x < 2^w]; the
    operations below write the wrap-around or the saturation out. *)

Definition U64_MAX : Z := 2 ^ 64 - 1.
Definition is_u8 (x : Z) : Prop := 0 <= x < 256.
Definition is_u16 (x : Z) : Prop := 0 <= x < 2 ^ 16.
Definition is_u32 (x : Z) : Prop := 0 <= x < 2 ^ 32.
Definition is_u64 (x : Z) : Prop := 0 <= x < 2 ^ 64.

Definition wrap8 (x : Z) : Z := x mod 256.
Definition wrap16 (x : Z) : Z := x mod 2 ^ 16.
Definition wrap64 (x : Z) : Z := x mod 2 ^ 64.

Definition wrapping_add (a b : Z) : Z := wrap64 (a + b).
Definition wrapping_sub (a b : Z) : Z := wrap64 (a - b).
Definition wrapping_mul (a b : Z) : Z := wrap64 (a * b).
Definition saturating_add (a b : Z) : Z := Z.min (a + b) U64_MAX.
Definition saturating_sub (a b : Z) : Z := Z.max (a - b) 0.
Definition saturating_mul (a b : Z) : Z := Z.min (a * b) U64_MAX.
Definition rotate_left (a : Z) (n : Z) : Z :=
  Z.lor (wrap64 (Z.shiftl a n)) (Z.shiftr a (64 - n)).

(** Bytes are integers below 256, byte strings are lists of them. *)
Abbreviation bytes := (list Z).
Definition bytes_ok (l : bytes) : Prop := Forall is_u8 l.

#[export] Instance is_u8_dec x : Decision (is_u8 x).
Proof. unfold is_u8. apply _. Defined.
#[export] Instance is_u64_dec x : Decision (is_u64 x).
Proof. unfold is_u64. apply _. Defined.
#[export] Instance bytes_ok_dec l : Decision (bytes_ok l).
Proof. unfold bytes_ok. apply _. Defined.

(** Big-endian and little-endian integers ([to_be_bytes], [from_be_bytes],
    [from_le_bytes] of the Rust standard library). *)
Fixpoint be_bytes (n : nat) (v : Z) : bytes :=
  match n with
  | O => []
  | S n' => wrap8 (Z.shiftr v (8 * Z.of_nat n')) :: be_bytes n' v
  end.

Definition be_val (l : bytes) : Z := fold_left (fun a b => a * 256 + b) l 0.

Fixpoint le_val (l : bytes) : Z :=
  match l with
  | [] => 0
  | b :: l' => b + 256 * le_val l'
  end.

(** [&buf[a..b]]; the callers establish [a <= b <= buf.len()] first. *)
Definition slice {A} (l : list A) (a b : nat) : list A := take (b - a) (drop a l).

(** ** Lexicographic order on byte strings

    [Ord] of Rust's fixed-size arrays and slices of [u8]. *)
Fixpoint lex_leb (a b : list Z) : bool :=
  match a, b with
  | [], _ => true
  | _ :: _, [] => false
  | x :: a', y :: b' => if x <? y then true else if x =? y then lex_leb a' b' else false
  end.

Definition lex_le (a b : list Z) : Prop := lex_leb a b = true.
Definition lex_lt (a b : list Z) : Prop := lex_leb b a = false.
Definition lex_ltb (a b : list Z) : bool := negb (lex_leb b a).

#[export] Instance lex_le_dec : RelDecision lex_le.
Proof. intros a b. unfold lex_le. apply _. Defined.

(** [keys.sort()] on a vector of arrays. *)
Definition sort_keys (l : list (list Z)) : list (list Z) := merge_sort lex_le l.

(** [Iterator::position] and [Iterator::find]. *)
Fixpoint position {A} (p : A -> bool) (l : list A) : option nat :=
  match l with
  | [] => None
  | x :: l' => if p x then Some O else S <$> position p l'
  end.

Fixpoint find_first {A} (p : A -> bool) (l : list A) : option A :=
  match l with
  | [] => None
  | x :: l' => if p x then Some x else find_first p l'
  end.

(** [Option::unwrap_or]. *)
Definition unwrap_or {A} (o : option A) (d : A) : A :=
  match o with Some x => x | None => d end.

(** ** Automation *)

Create HintDb roots discriminated.

Ltac unfold_ints :=
  unfold is_u8, is_u16, is_u32, is_u64, wrap8, wrap16, wrap64, U64_MAX in *.

(** Decides the boolean integer comparisons of the goal and the context. *)
Ltac zbool :=
  repeat match goal with
  | H : (_ <? _) = true |- _ => apply Z.ltb_lt in H
  | H : (_ <? _) = false |- _ => apply Z.ltb_ge in H
  | H : (_ <=? _) = true |- _ => apply Z.leb_le in H
  | H : (_ <=? _) = false |- _ => apply Z.leb_gt in H
  | H : (_ =? _) = true |- _ => apply Z.eqb_eq in H
  | H : (_ =? _) = false |- _ => apply Z.eqb_neq in H
  end.

(** Case analysis on the boolean integer test found in the goal. *)
Ltac zcase :=
  match goal with
  | |- context [?a <? ?b] => destruct (Z.ltb_spec a b)
  | |- context [?a <=? ?b] => destruct (Z.leb_spec a b)
  | |- context [?a =? ?b] => destruct (Z.eqb_spec a b)
  end.

(** ** Generic lemmas *)

Lemma bytes_ok_nil : bytes_ok [].
Proof. constructor. Qed.

Lemma bytes_ok_cons b l : bytes_ok (b :: l) <-> is_u8 b /\ bytes_ok l.
Proof. apply Forall_cons. Qed.

Lemma bytes_ok_app l k : bytes_ok (l ++ k) <-> bytes_ok l /\ bytes_ok k.
Proof. apply Forall_app. Qed.

Lemma bytes_ok_take n l : bytes_ok l -> bytes_ok (take n l).
Proof. apply Forall_take. Qed.

Lemma bytes_ok_drop n l : bytes_ok l -> bytes_ok (drop n l).
Proof. apply Forall_drop. Qed.

Lemma bytes_ok_replicate n b : is_u8 b -> bytes_ok (replicate n b).
Proof. intros. by apply Forall_replicate. Qed.

#[export] Hint Resolve bytes_ok_nil bytes_ok_take bytes_ok_drop bytes_ok_replicate : roots.

Lemma wrap8_range x : is_u8 (wrap8 x).
Proof. unfold_ints. apply Z.mod_pos_bound. lia. Qed.

Lemma wrap64_range x : is_u64 (wrap64 x).
Proof. unfold_ints. apply Z.mod_pos_bound. lia. Qed.

Lemma wrap64_small x : is_u64 x -> wrap64 x = x.
Proof. unfold_ints. apply Z.mod_small. Qed.

#[export] Hint Resolve wrap8_range wrap64_range : roots.

Lemma be_bytes_length n v : length (be_bytes n v) = n.
Proof. induction n; simpl; congruence. Qed.

Lemma be_bytes_ok n v : bytes_ok (be_bytes n v).
Proof. induction n; simpl; constructor; auto with roots. Qed.

#[export] Hint Resolve be_bytes_ok : roots.

Lemma be_val_acc l a : fold_left (fun a b => a * 256 + b) l a = a * 256 ^ Z.of_nat (length l) + be_val l.
Proof.
  unfold be_val. revert a. induction l as [|b l IH]; intros a.
  - simpl. lia.
  - cbn [fold_left length]. rewrite (IH (a * 256 + b)), (IH (0 * 256 + b)).
    rewrite Nat2Z.inj_succ, Z.pow_succ_r by lia. lia.
Qed.

Lemma be_val_cons b l : be_val (b :: l) = b * 256 ^ Z.of_nat (length l) + be_val l.
Proof. unfold be_val at 1. cbn [fold_left]. rewrite be_val_acc. lia. Qed.

Lemma be_val_bound l : bytes_ok l -> 0 <= be_val l < 256 ^ Z.of_nat (length l).
Proof.
  induction l as [|b l IH]; intros Hl.
  - unfold be_val; simpl; lia.
  - apply bytes_ok_cons in Hl as [Hb Hl]. specialize (IH Hl). unfold is_u8 in Hb.
    rewrite be_val_cons. cbn [length]. rewrite Nat2Z.inj_succ, Z.pow_succ_r by lia. nia.
Qed.

(** [from_be_bytes] undoes [to_be_bytes] on values of the width. *)
Lemma be_val_bytes n v : be_val (be_bytes n v) = v mod 256 ^ Z.of_nat n.
Proof.
  induction n as [|n IH].
  - simpl. by rewrite Z.mod_1_r.
  - cbn [be_bytes]. rewrite be_val_cons, be_bytes_length, IH.
    rewrite Nat2Z.inj_succ, Z.pow_succ_r by lia.
    unfold wrap8. rewrite Z.shiftr_div_pow2 by lia.
    replace (2 ^ (8 * Z.of_nat n)) with (256 ^ Z.of_nat n)
      by (rewrite Z.pow_mul_r by lia; f_equal).
    rewrite (Z.mul_comm 256 (256 ^ Z.of_nat n)).
    rewrite Z.rem_mul_r; lia.
Qed.

Lemma be_val_bytes_small n v : 0 <= v < 256 ^ Z.of_nat n -> be_val (be_bytes n v) = v.
Proof. intros. rewrite be_val_bytes. by apply Z.mod_small. Qed.

Lemma slice_length {A} (l : list A) a b : (a <= b <= length l)%nat -> length (slice l a b) = (b - a)%nat.
Proof. intros. unfold slice. rewrite length_take, length_drop. lia. Qed.

Lemma take_app_exact {A} (l k : list A) n : length l = n -> take n (l ++ k) = l.
Proof. intros <-. apply take_app_length. Qed.

Lemma drop_app_exact {A} (l k : list A) n : length l = n -> drop n (l ++ k) = k.
Proof. intros <-. apply drop_app_length. Qed.

Lemma slice_app {A} (a b c : list A) i j : length a = i -> (i + length b)%nat = j -> slice (a ++ b ++ c) i j = b.
Proof.
  intros Ha Hb. unfold slice. rewrite drop_app_exact by done. apply take_app_exact. lia.
Qed.

(** ** The order on byte strings is a total order *)

Lemma lex_leb_refl a : lex_leb a a = true.
Proof. induction a; simpl; [done|]. rewrite Z.ltb_irrefl, Z.eqb_refl. done. Qed.

Lemma lex_leb_total a b : lex_leb a b = false -> lex_leb b a = true.
Proof.
  revert b; induction a as [|x a IH]; intros [|y b]; simpl; try done.
  repeat zcase; try done; try lia. intros. by apply IH.
Qed.

Lemma lex_leb_antisym a b : lex_leb a b = true -> lex_leb b a = true -> a = b.
Proof.
  revert b; induction a as [|x a IH]; intros [|y b]; simpl; try done.
  repeat zcase; try done; try lia. intros; subst. f_equal. by apply IH.
Qed.

Lemma lex_leb_trans a b c : lex_leb a b = true -> lex_leb b c = true -> lex_leb a c = true.
Proof.
  revert b c; induction a as [|x a IH]; intros [|y b] [|z c]; simpl; try done.
  repeat zcase; try done; try lia. intros. eapply IH; eauto.
Qed.

#[export] Instance lex_le_preorder : PreOrder lex_le.
Proof.
  split; [intros a; apply lex_leb_refl|].
  intros a b c. apply lex_leb_trans.
Qed.

#[export] Instance lex_le_antisymm : AntiSymm eq lex_le.
Proof. intros a b. apply lex_leb_antisym. Qed.

#[export] Instance lex_le_total : Total lex_le.
Proof.
  intros a b. unfold lex_le. destruct (lex_leb a b) eqn:E; [by left|].
  right. by apply lex_leb_total.
Qed.

Lemma lex_ltb_lt a b : lex_ltb a b = true <-> lex_lt a b.
Proof. unfold lex_ltb, lex_lt. by destruct (lex_leb b a). Qed.

Lemma lex_lt_irrefl a : ~ lex_lt a a.
Proof. unfold lex_lt. rewrite lex_leb_refl. done. Qed.

Lemma lex_lt_le a b : lex_lt a b -> lex_le a b.
Proof. apply lex_leb_total. Qed.

Lemma lex_lt_trans a b c : lex_lt a b -> lex_lt b c -> lex_lt a c.
Proof.
  unfold lex_lt. intros H1 H2. destruct (lex_leb c a) eqn:E; [|done].
  assert (lex_leb c b = true) by (eapply lex_leb_trans; [done|by apply lex_leb_total]).
  congruence.
Qed.

Lemma lex_trichotomy a b : lex_lt a b \/ a = b \/ lex_lt b a.
Proof.
  unfold lex_lt. destruct (lex_leb a b) eqn:E1, (lex_leb b a) eqn:E2; auto.
  right; left. by apply lex_leb_antisym.
Qed.

Lemma sort_keys_perm l : sort_keys l ≡ₚ l.
Proof. apply merge_sort_Permutation. Qed.

Lemma sort_keys_sorted l : Sorted lex_le (sort_keys l).
Proof. apply Sorted_merge_sort. apply _. Qed.

Lemma sort_keys_elem k l : k ∈ sort_keys l <-> k ∈ l.
Proof. by rewrite sort_keys_perm. Qed.

(** Two enumerations of the same keys sort to the same vector: a sorted walk
    over a hash map does not depend on the map's iteration order. *)
Lemma sort_keys_unique l k : l ≡ₚ k -> sort_keys l = sort_keys k.
Proof.
  intros H. apply (Sorted_unique lex_le); [apply sort_keys_sorted..|].
  by rewrite !sort_keys_perm.
Qed.

Lemma find_first_Some {A} (p : A -> bool) l x :
  find_first p l = Some x -> x ∈ l /\ p x = true.
Proof.
  induction l as [|y l IH]; simpl; [done|].
  destruct (p y) eqn:E; intros H; simplify_eq.
  - split; [by left|done].
  - destruct (IH H). split; [by right|done].
Qed.

Lemma find_first_None {A} (p : A -> bool) l :
  find_first p l = None <-> (forall x, x ∈ l -> p x = false).
Proof.
  induction l as [|y l IH]; simpl.
  - split; [intros _ x Hx; by apply not_elem_of_nil in Hx|done].
  - destruct (p y) eqn:E.
    + split; [done|]. intros H. rewrite H in E; [done|by left].
    + rewrite IH. split; intros H x Hx.
      * apply elem_of_cons in Hx as [->|Hx]; auto.
      * apply H. by right.
Qed.

(** A boolean property of bytes holds of every byte once it is computed on the
    256 of them. *)
Lemma byte_forall (P : Z -> bool) :
  forallb P (seqZ 0 256) = true -> forall b, is_u8 b -> P b = true.
Proof.
  intros H b Hb. rewrite forallb_forall in H. apply H.
  apply list_elem_of_In. apply elem_of_seqZ. unfold is_u8 in Hb. lia.
Qed.

Lemma wrap8_ok b : is_u8 b -> wrap8 b = b.
Proof. unfold_ints. apply Z.mod_small. Qed.

(** Two bit fields that do not overlap: [x | (v << k)] is a sum. *)
Lemma lor_shiftl_add x v k : 0 <= k -> 0 <= x < 2 ^ k -> Z.lor x (Z.shiftl v k) = x + v * 2 ^ k.
Proof.
  intros Hk Hx. rewrite <-Z.shiftl_mul_pow2 by done.
  assert (Z.land x (Z.shiftl v k) = 0) as H0.
  { apply Z.bits_inj'. intros n Hn. rewrite Z.land_spec, Z.bits_0.
    destruct (Z.lt_ge_cases n k).
    - rewrite Z.shiftl_spec_low by done. apply andb_false_r.
    - destruct (decide (x = 0)) as [->|]; [by rewrite Z.bits_0|].
      rewrite (Z.bits_above_log2 x); [done|lia|].
      apply Z.log2_lt_pow2; [lia|]. eapply Z.lt_le_trans; [apply Hx|].
      apply Z.pow_le_mono_r; lia. }
  rewrite <-Z.lxor_lor by done. symmetry. by apply Z.add_nocarry_lxor.
Qed.

Lemma fold_left_ext_in {A B} (f g : A -> B -> A) l : (forall a b, b ∈ l -> f a b = g a b) ->
  forall a, fold_left f l a = fold_left g l a.
Proof.
  induction l as [|b l IH]; intros H a; [done|]. cbn [fold_left]. rewrite H by left.
  apply IH. intros a' b' Hb. apply H. by right.
Qed.

(** A loop over the indices of a vector is a loop over its elements. *)
Lemma fold_left_indices {A B} `{!Inhabited B} (g : A -> B -> A) (l : list B) a :
  fold_left (fun a i => g a (l !!! i)) (seq 0 (length l)) a = fold_left g l a.
Proof.
  induction l as [|b l IH] using rev_ind; [done|].
  rewrite length_app, seq_app, !fold_left_app. cbn [length seq fold_left]. rewrite <-IH. f_equal.
  - apply fold_left_ext_in. intros a' i Hi. apply elem_of_seq in Hi.
    by rewrite lookup_total_app_l by lia.
  - rewrite Nat.add_0_l, lookup_total_app_r, Nat.sub_diag by lia. done.
Qed.

Lemma position_Some {A} (p : A -> bool) l i : position p l = Some i ->
  exists l1 x l2, l = l1 ++ x :: l2 /\ length l1 = i /\ p x = true /\ Forall (fun y => p y = false) l1.
Proof.
  revert i. induction l as [|y l IH]; intros i; simpl; [done|]. destruct (p y) eqn:E.
  - intros [= <-]. by exists [], y, l.
  - destruct (position p l) as [j|]; [|done]. intros [= <-].
    destruct (IH j eq_refl) as (l1 & x & l2 & -> & <- & Hx & Hl). exists (y :: l1), x, l2. by repeat constructor.
Qed.

Lemma position_None {A} (p : A -> bool) l : position p l = None <-> Forall (fun y => p y = false) l.
Proof.
  induction l as [|y l IH]; simpl; [by split; constructor|]. rewrite Forall_cons, <-IH.
  destruct (p y); [by split; [|intros [? _]]|].
  destruct (position p l); split; [done|by intros [_ ?]|done|done].
Qed.

Lemma flat_map_elem {A B} (f : A -> list B) l y : y ∈ flat_map f l <-> exists x, x ∈ l /\ y ∈ f x.
Proof.
  induction l as [|a l IH]; cbn [flat_map].
  - split; [by intros ?%not_elem_of_nil|]. by intros (x & ?%not_elem_of_nil & _).
  - rewrite elem_of_app, IH. split.
    + intros [Hy|(x & Hx & Hy)]; [exists a; split; [by left|done]|exists x; split; [by right|done]].
    + intros (x & Hx & Hy). apply elem_of_cons in Hx as [->|Hx]; [by left|right; by exists x].
Qed.

Lemma fmap_alter_same {A B} (f : A -> B) (g : A -> A) (l : list A) i : (forall x, f (g x) = f x) -> f <$> alter g i l = f <$> l.
Proof.
  intros Hg. revert i. induction l as [|x l IH]; intros [|i]; cbn; [done..| |].
  - by rewrite Hg.
  - f_equal. apply IH.
Qed.
