(* ===== verification/Errors.v ===== *)
(** * Errors: the protocol refusals of [core/src/error.rs], the wrapper of
    [src/error.rs] and the [Result] type every fallible operation returns.

    A [std::io::Error] is opaque to the program except for its
    [UnexpectedEof] kind, which the framed readers turn into a protocol error;
    every other kind is a code. *)
From stdpp Require Import base tactics list.
From S2P Require Import Prelude.

Local Open Scope Z_scope.

Inductive CoreError : Type :=
  | InvalidPreamble
  | InvalidLength
  | BadPassword
  | BadVersion (theirs ours : Z)
  | SelfDial
  | KeyNotAllowed
  | PinnedMismatch
  | PasswordTooLong
  | UnrecognisedSchema
  | PinnedKeyInvalid
  | PriorityInvalid
  | PasswordInvalid
  | MaxBackoffInvalid
  | BadSubprotocol
  | Timeout
  | NoLink.

Inductive IoError : Type :=
  | UnexpectedEof
  | OtherIo (code : Z).

Inductive Error : Type :=
  | Core (e : CoreError)
  | Io (e : IoError)
  | BadUri (uri : bytes)
  | BadMaxBackoff (text : bytes).

#[export] Instance CoreError_eq_dec : EqDecision CoreError.
Proof. solve_decision. Defined.
#[export] Instance IoError_eq_dec : EqDecision IoError.
Proof. solve_decision. Defined.
#[export] Instance Error_eq_dec : EqDecision Error.
Proof. solve_decision. Defined.

Definition CoreError_is_link (e : CoreError) : bool :=
  match e with NoLink => true | _ => false end.

Definition Error_core (e : Error) : option CoreError :=
  match e with Core c => Some c | _ => None end.

Definition Error_is_link (e : Error) : bool :=
  match e with
  | Io _ => true
  | BadUri _ | BadMaxBackoff _ => false
  | other => unwrap_or (CoreError_is_link <$> Error_core other) false
  end.

(** [Result<A, Error>]. *)
Inductive result (A : Type) : Type :=
  | Ok (a : A)
  | Err (e : Error).
Arguments Ok {A} a.
Arguments Err {A} e.

#[export] Instance result_ret : MRet result := fun A a => Ok a.
#[export] Instance result_bind : MBind result := fun A B f m =>
  match m with Ok a => f a | Err e => Err e end.

(** [Option::ok_or]. *)
Definition ok_or {A} (o : option A) (e : Error) : result A :=
  match o with Some a => Ok a | None => Err e end.

Definition result_ok {A} (r : result A) : option A :=
  match r with Ok a => Some a | Err _ => None end.

(** A dead link is an I/O failure or the routing refusal [NoLink]; every other
    error is a reason to stop. *)
Lemma Error_is_link_iff e :
  Error_is_link e = true <-> (exists i, e = Io i) \/ e = Core NoLink.
Proof.
  destruct e as [[]|i| |]; simpl; split; intros H; try done;
    first [by right | by left; eexists | by destruct H as [[? ?]|?]].
Qed.
