(* ===== verification/Clock.v ===== *)
(** * Clock: the instants of [core/src/clock.rs] and the [StdClock] of
    [src/clock.rs].

    A core [Instant] is a [u64] of nanoseconds; a [Duration] is a non-negative
    number of nanoseconds (an [u128] in Rust, so never cut here). The monotonic
    [std::time::Instant] is a [Z] of nanoseconds from an arbitrary origin. *)
From stdpp Require Import base tactics numbers.
From S2P Require Import Prelude.

Local Open Scope Z_scope.

Definition from_secs (s : Z) : Z := s * 1000000000.
Definition from_millis (ms : Z) : Z := ms * 1000000.
Definition as_millis (d : Z) : Z := d / 1000000.

Record Instant : Type := mkInstant { nanos : Z }.

Definition EPOCH : Instant := mkInstant 0.
Definition from_nanos (n : Z) : Instant := mkInstant n.
Definition as_nanos (i : Instant) : Z := nanos i.

(** [d.as_nanos().min(u64::MAX as u128) as u64]. *)
Definition clamp_nanos (d : Z) : Z := Z.min d U64_MAX.

Definition from_since_epoch (d : Z) : Instant := mkInstant (clamp_nanos d).
Definition Instant_saturating_add (i : Instant) (d : Z) : Instant :=
  mkInstant (saturating_add (nanos i) (clamp_nanos d)).
Definition Instant_saturating_sub (i : Instant) (d : Z) : Instant :=
  mkInstant (saturating_sub (nanos i) (clamp_nanos d)).
Definition ago_exact (i : Instant) (d : Z) : option Instant :=
  if clamp_nanos d <=? nanos i then Some (mkInstant (nanos i - clamp_nanos d)) else None.
Definition duration_since (i earlier : Instant) : Z := saturating_sub (nanos i) (nanos earlier).
Definition elapsed_since (i earlier : Instant) : Z := duration_since i earlier.

Definition FLOOR_NANOS : Z := 3600000000000.

Record StdClock : Type := mkStdClock { origin : Z }.

(** [std::time::Instant::duration_since] saturates at zero. *)
Definition std_duration_since (now earlier : Z) : Z := Z.max (now - earlier) 0.

Definition StdClock_now (c : StdClock) (std_now : Z) : Instant :=
  from_nanos (saturating_add FLOOR_NANOS (clamp_nanos (std_duration_since std_now (origin c)))).

Definition is_instant (i : Instant) : Prop := is_u64 (nanos i).

(** ** Lemmas *)

Lemma saturating_add_range a b : 0 <= a -> 0 <= b -> is_u64 (saturating_add a b).
Proof. unfold saturating_add. unfold_ints. lia. Qed.

Lemma StdClock_now_floor c t : FLOOR_NANOS <= nanos (StdClock_now c t).
Proof.
  unfold StdClock_now, from_nanos, saturating_add, clamp_nanos, std_duration_since, FLOOR_NANOS, U64_MAX.
  simpl. lia.
Qed.

Lemma StdClock_now_mono c t t' : t <= t' -> nanos (StdClock_now c t) <= nanos (StdClock_now c t').
Proof.
  unfold StdClock_now, from_nanos, saturating_add, clamp_nanos, std_duration_since. simpl. lia.
Qed.

(** Addition never moves an instant into the past, and it is exact below the
    end of the range; going back is either exact or refused. *)
Lemma Instant_arith i d :
  is_instant i -> 0 <= d ->
  nanos i <= nanos (Instant_saturating_add i d) /\
  is_instant (Instant_saturating_add i d) /\
  is_instant (Instant_saturating_sub i d) /\
  (nanos i + d <= U64_MAX -> duration_since (Instant_saturating_add i d) i = d) /\
  (forall j, ago_exact i d = Some j ->
     is_instant j /\ j = Instant_saturating_sub i d /\ (d <= U64_MAX -> duration_since i j = d)) /\
  (ago_exact i d = None <-> nanos i < clamp_nanos d).
Proof.
  unfold is_instant, Instant_saturating_add, Instant_saturating_sub, ago_exact, duration_since,
    saturating_add, saturating_sub, clamp_nanos.
  unfold_ints. simpl. intros Hi Hd.
  repeat split; intros; try lia.
  - destruct (Z.leb_spec (d `min` (2 ^ 64 - 1)) (nanos i)); [|done]. simplify_eq; simpl. lia.
  - destruct (Z.leb_spec (d `min` (2 ^ 64 - 1)) (nanos i)); [|done]. simplify_eq; simpl. lia.
  - destruct (Z.leb_spec (d `min` (2 ^ 64 - 1)) (nanos i)); [|done]. simplify_eq; simpl. f_equal. lia.
  - destruct (Z.leb_spec (d `min` (2 ^ 64 - 1)) (nanos i)); [|done]. simplify_eq; simpl. lia.
  - destruct (Z.leb_spec (d `min` (2 ^ 64 - 1)) (nanos i)); [done|lia].
  - destruct (Z.leb_spec (d `min` (2 ^ 64 - 1)) (nanos i)); [lia|done].
Qed.
