(* ===== verification/Frame.v ===== *)
(** * Frame: the link framing of [src/frame.rs] and the framed reads and
    writes of [src/link.rs].

    A frame is [uvarint(len(type + payload))], the type byte and the payload.
    The stores into caller buffers return [None] where the Rust index would
    panic. The loops of the uvarint codec shift a [u64] by seven bits per turn,
    so ten turns are enough; the theorems below show that the bound is never
    reached. *)
From stdpp Require Import base tactics list numbers.
From S2P Require Import Prelude Errors.

Local Open Scope Z_scope.

Definition MAX_MESSAGE_SIZE : Z := 65535 * 2.
Definition FRAME_KINDS : nat := 10.
Definition MAX_LEN_PREFIX : nat := 5.
Definition KEEPALIVE_DELAY : Z := 1000000000.

Inductive FrameType : Type :=
  | Dummy | KeepAlive | TSigReq | TSigRes | TAnnounce | TBloomFilter
  | TPathLookup | TPathNotify | TPathBroken | TTraffic.

#[export] Instance FrameType_eq_dec : EqDecision FrameType.
Proof. solve_decision. Defined.

(** [ftype as u8]. *)
Definition FrameType_byte (t : FrameType) : Z :=
  match t with
  | Dummy => 0 | KeepAlive => 1 | TSigReq => 2 | TSigRes => 3 | TAnnounce => 4
  | TBloomFilter => 5 | TPathLookup => 6 | TPathNotify => 7 | TPathBroken => 8
  | TTraffic => 9
  end.

Definition FrameType_ALL : list FrameType :=
  [Dummy; KeepAlive; TSigReq; TSigRes; TAnnounce; TBloomFilter;
   TPathLookup; TPathNotify; TPathBroken; TTraffic].

Definition from_byte (b : Z) : result FrameType :=
  if b =? 0 then Ok Dummy
  else if b =? 1 then Ok KeepAlive
  else if b =? 2 then Ok TSigReq
  else if b =? 3 then Ok TSigRes
  else if b =? 4 then Ok TAnnounce
  else if b =? 5 then Ok TBloomFilter
  else if b =? 6 then Ok TPathLookup
  else if b =? 7 then Ok TPathNotify
  else if b =? 8 then Ok TPathBroken
  else if b =? 9 then Ok TTraffic
  else Err (Core InvalidLength).

(** [out[i] = b]: [None] is the out-of-bounds panic. *)
Definition store (out : bytes) (i : nat) (b : Z) : option bytes :=
  if decide (i < length out)%nat then Some (<[i := b]> out) else None.

(** [out[at..at + src.len()].copy_from_slice(src)]. *)
Definition copy_into (out : bytes) (at_ : nat) (src : bytes) : option bytes :=
  if decide (at_ + length src <= length out)%nat
  then Some (take at_ out ++ src ++ drop (at_ + length src) out) else None.

Fixpoint write_uvarint_loop (fuel : nat) (out : bytes) (n : nat) (v : Z) : option (bytes * nat) :=
  match fuel with
  | O => None
  | S fuel' =>
    if v <? 128 then out' ← store out n (wrap8 v); Some (out', S n)
    else out' ← store out n (Z.lor (wrap8 v) 128);
         write_uvarint_loop fuel' out' (S n) (Z.shiftr v 7)
  end.

Definition write_uvarint (out : bytes) (v : Z) : option (bytes * nat) :=
  write_uvarint_loop 10 out 0 v.

Fixpoint uvarint_go (fuel : nat) (v : Z) : bytes :=
  match fuel with
  | O => []
  | S fuel' =>
    if 128 <=? v then Z.lor (wrap8 v) 128 :: uvarint_go fuel' (Z.shiftr v 7)
    else [wrap8 v]
  end.

Definition append_uvarint (out : bytes) (v : Z) : bytes := out ++ uvarint_go 10 v.

(** The body of the loop of [read_uvarint], at index [i] with accumulator [x]. *)
Fixpoint read_uvarint_loop (i : nat) (x : Z) (buf : bytes) : option (Z * nat) :=
  match buf with
  | [] => None
  | b :: rest =>
    if decide (10 <= i)%nat then None
    else if b <? 128 then
      if bool_decide (i = 9%nat) && (1 <? b) then None
      else Some (Z.lor x (wrap64 (Z.shiftl b (7 * Z.of_nat i))), S i)
    else read_uvarint_loop (S i) (Z.lor x (wrap64 (Z.shiftl (Z.land b 127) (7 * Z.of_nat i)))) rest
  end.

Definition read_uvarint (buf : bytes) : option (Z * nat) := read_uvarint_loop 0 0 buf.

Definition append_path (out : bytes) (path : list Z) : bytes :=
  append_uvarint (fold_left append_uvarint path out) 0.

(** The loop of [split_path]; a path of more than 128 ports is refused, so 130
    turns are enough. *)
Fixpoint split_path_loop (fuel : nat) (buf : bytes) (path : list Z) (off : nat)
  : option (list Z * nat) :=
  match fuel with
  | O => None
  | S fuel' =>
    '(v, n) ← read_uvarint (drop off buf);
    if v =? 0 then Some (path, off + n)%nat
    else let path' := path ++ [v] in
         if decide (128 < length path')%nat then None
         else split_path_loop fuel' buf path' (off + n)
  end.

Definition split_path (buf : bytes) : option (list Z * nat) := split_path_loop 130 buf [] 0.

Fixpoint wire_len_loop (fuel : nat) (prefix rest : Z) : Z :=
  match fuel with
  | O => prefix
  | S fuel' => if 128 <=? rest then wire_len_loop fuel' (prefix + 1) (Z.shiftr rest 7) else prefix
  end.

Definition wire_len (payload_len : nat) : Z :=
  let body := Z.of_nat payload_len + 1 in
  wire_len_loop 10 1 body + body.

(** Outer [None]: the function panics. *)
Definition encode_frame_to (ftype : FrameType) (payload out : bytes) : option (result (bytes * nat)) :=
  '(prefix, n) ← write_uvarint (replicate MAX_LEN_PREFIX 0) (Z.of_nat (length payload) + 1);
  let need := (n + 1 + length payload)%nat in
  if decide (length out < need)%nat then Some (Err (Core InvalidLength))
  else
    out1 ← copy_into out 0 (take n prefix);
    out2 ← store out1 n (FrameType_byte ftype);
    out3 ← copy_into out2 (n + 1) payload;
    Some (Ok (out3, need)).

Definition encode_frame (ftype : FrameType) (payload : bytes) : option bytes :=
  let out := replicate (Z.to_nat (wire_len (length payload)) + MAX_LEN_PREFIX) 0 in
  r ← encode_frame_to ftype payload out;
  match r with
  | Ok (out', n) => Some (take n out')
  | Err _ => None
  end.

Definition decode_body (body : bytes) : result (FrameType * bytes) :=
  match body with
  | [] => Err (Core InvalidLength)
  | b :: payload =>
    if MAX_MESSAGE_SIZE <? Z.of_nat (length body) then Err (Core InvalidLength)
    else t ← from_byte b; Ok (t, payload)
  end.

(** ** Framed I/O over a byte stream

    The readable side of a stream is the bytes that will arrive and the error
    [e] that follows them. *)
Definition read_exact (s : bytes) (e : IoError) (n : nat) : IoError + bytes * bytes :=
  if decide (n <= length s)%nat then inr (take n s, drop n s) else inl e.

Fixpoint read_prefix_loop (fuel : nat) (s : bytes) (e : IoError) (prefix : bytes) : result (bytes * bytes) :=
  match fuel with
  | O => Err (Core InvalidLength)
  | S fuel' =>
    match s with
    | [] => Err (Io e)
    | b :: s' =>
      let prefix' := prefix ++ [b] in
      if b <? 128 then Ok (prefix', s')
      else if decide (10 <= length prefix')%nat then Err (Core InvalidLength)
      else read_prefix_loop fuel' s' e prefix'
    end
  end.

(** Reads one frame; the bytes after it stay in the stream. *)
Definition read_frame_from (s : bytes) (e : IoError) : result ((FrameType * bytes) * bytes) :=
  '(prefix, s1) ← read_prefix_loop 10 s e [];
  '(len, _) ← ok_or (read_uvarint prefix) (Core InvalidLength);
  if (len =? 0) || (MAX_MESSAGE_SIZE <? len) then Err (Core InvalidLength)
  else
    match read_exact s1 e (Z.to_nat len) with
    | inl UnexpectedEof => Err (Core InvalidLength)
    | inl e' => Err (Io e')
    | inr (body, s2) => f ← decode_body body; Ok (f, s2)
    end.

(** What [write_frame_to] hands to the stream; [None] is a panic. *)
Definition write_frame_to (ftype : FrameType) (payload : bytes) : option bytes :=
  encode_frame ftype payload.

(** The reference encoding the optimised forms are compared with. *)
Definition frame_spec (ftype : FrameType) (payload : bytes) : bytes :=
  uvarint_go 10 (Z.of_nat (length payload) + 1) ++ FrameType_byte ftype :: payload.

(** ** Uvarints *)

Lemma uvarint_hi b : is_u8 b -> 128 <= Z.lor b 128 < 256 /\ Z.land (Z.lor b 128) 127 = b mod 128.
Proof.
  intros Hb.
  pose proof (byte_forall (fun b => (128 <=? Z.lor b 128) && (Z.lor b 128 <? 256)
    && (Z.land (Z.lor b 128) 127 =? b mod 128)) eq_refl b Hb) as H.
  apply andb_prop in H as [H ?]. apply andb_prop in H as [? ?]. zbool. lia.
Qed.

Lemma uvarint_go_S f v : 0 <= v ->
  uvarint_go (S f) v =
  if 128 <=? v then Z.lor (wrap8 v) 128 :: uvarint_go f (v / 128) else [v].
Proof.
  intros Hv. cbn [uvarint_go]. rewrite Z.shiftr_div_pow2 by lia.
  destruct (Z.leb_spec 128 v); [done|]. rewrite wrap8_ok; [done|unfold is_u8; lia].
Qed.

(** The invariant of the read loop against the write loop: at turn [i] the
    accumulator holds the low [7 * i] bits and the writer holds the rest. *)
Lemma read_uvarint_go f : forall i x v rest,
  (f + i = 10)%nat -> (0 < f)%nat ->
  0 <= x < 2 ^ (7 * Z.of_nat i) -> 0 <= v < 2 ^ (64 - 7 * Z.of_nat i) ->
  read_uvarint_loop i x (uvarint_go f v ++ rest)
  = Some (x + v * 2 ^ (7 * Z.of_nat i), (i + length (uvarint_go f v))%nat).
Proof.
  induction f as [|f IH]; [lia|]. intros i x v rest Hfi _ Hx Hv.
  assert (2 ^ 64 = 2 ^ (7 * Z.of_nat i) * 2 ^ (64 - 7 * Z.of_nat i)) as Hsplit.
  { rewrite <-Z.pow_add_r by lia. f_equal. lia. }
  rewrite uvarint_go_S by lia. destruct (Z.leb_spec 128 v) as [Hge|Hlt].
  - pose proof (uvarint_hi (wrap8 v) (wrap8_range v)) as [Hhi Hlo].
    cbn [app read_uvarint_loop length]. rewrite decide_False by lia.
    destruct (Z.ltb_spec (Z.lor (wrap8 v) 128) 128); [lia|].
    rewrite Hlo. unfold wrap8. rewrite Z.mod_mod_divide by (exists 2; lia).
    pose proof (Z.mod_pos_bound v 128 ltac:(lia)) as Hm.
    pose proof (Z.div_mod v 128 ltac:(lia)) as Hdm.
    assert (0 <= v / 128) as Hd by (apply Z.div_pos; lia).
    assert (0 < 2 ^ (7 * Z.of_nat i)) as Hpos by (apply Z.pow_pos_nonneg; lia).
    rewrite (wrap64_small (Z.shiftl _ _)); cycle 1.
    { rewrite Z.shiftl_mul_pow2 by lia. unfold is_u64. split; [nia|]. rewrite Hsplit.
      rewrite Z.mul_comm. apply Z.mul_lt_mono_pos_l; lia. }
    rewrite lor_shiftl_add by lia.
    assert (i < 9)%nat as Hi.
    { destruct (decide (i < 9)%nat); [done|]. assert (i = 9%nat) as -> by lia. simpl in Hv. lia. }
    assert (2 ^ (7 * Z.of_nat (S i)) = 2 ^ (7 * Z.of_nat i) * 128) as Hp.
    { replace (7 * Z.of_nat (S i)) with (7 * Z.of_nat i + 7) by lia. by rewrite Z.pow_add_r by lia. }
    assert (2 ^ (64 - 7 * Z.of_nat i) = 2 ^ (64 - 7 * Z.of_nat (S i)) * 128) as Hq.
    { replace (64 - 7 * Z.of_nat i) with ((64 - 7 * Z.of_nat (S i)) + 7) by lia.
      by rewrite Z.pow_add_r by lia. }
    rewrite IH; [|lia|lia| |].
    + do 2 f_equal; [|lia]. rewrite Hp.
      assert (forall P, v * P = (128 * (v / 128) + v mod 128) * P) as -> by (by rewrite <-Hdm). ring.
    + rewrite Hp. nia.
    + split; [apply Z.div_pos; lia|]. apply Z.div_lt_upper_bound; lia.
  - cbn [app read_uvarint_loop length]. rewrite decide_False by lia.
    destruct (Z.ltb_spec v 128); [|lia].
    replace (bool_decide (i = 9%nat) && (1 <? v)) with false; cycle 1.
    { symmetry. apply andb_false_iff. case_bool_decide; [right|by left].
      subst i. simpl in Hv. zcase; lia. }
    rewrite wrap64_small; cycle 1.
    { rewrite Z.shiftl_mul_pow2 by lia. unfold is_u64. nia. }
    rewrite lor_shiftl_add by lia. do 2 f_equal. lia.
Qed.

Lemma read_append_uvarint v rest : is_u64 v ->
  read_uvarint (uvarint_go 10 v ++ rest) = Some (v, length (uvarint_go 10 v)).
Proof.
  intros Hv. unfold read_uvarint. rewrite read_uvarint_go; [|lia..|simpl; lia|simpl; unfold is_u64 in Hv; lia].
  do 2 f_equal; lia.
Qed.

Lemma uvarint_go_length f v : (0 < f)%nat -> (1 <= length (uvarint_go f v) <= f)%nat.
Proof.
  revert v. induction f as [|f IH]; intros v Hf; [lia|]. cbn [uvarint_go].
  destruct (128 <=? v); cbn [length]; [|lia].
  destruct f as [|f]; [simpl; lia|]. specialize (IH (Z.shiftr v 7)). lia.
Qed.

Lemma uvarint_go_ok f v : bytes_ok (uvarint_go f v).
Proof.
  revert v. induction f as [|f IH]; intros v; cbn [uvarint_go]; [auto with roots|].
  destruct (128 <=? v).
  - apply bytes_ok_cons; split; [|done].
    pose proof (uvarint_hi (wrap8 v) (wrap8_range v)). unfold is_u8; lia.
  - apply bytes_ok_cons; split; auto with roots.
Qed.

#[export] Hint Resolve uvarint_go_ok : roots.

(** The bound of seven bits per byte. *)
Lemma uvarint_go_bits f v k : (0 < k <= f)%nat -> 0 <= v < 2 ^ (7 * Z.of_nat k) ->
  (length (uvarint_go f v) <= k)%nat.
Proof.
  revert f v. induction k as [|k IH]; intros f v Hk Hv; [lia|].
  destruct f as [|f]; [lia|]. rewrite uvarint_go_S by lia.
  destruct (Z.leb_spec 128 v); cbn [length]; [|lia].
  destruct k as [|k]; [simpl in Hv; lia|].
  apply le_n_S. apply IH; [lia|]. split; [apply Z.div_pos; lia|].
  apply Z.div_lt_upper_bound; [lia|].
  replace (7 * Z.of_nat (S (S k))) with (7 + 7 * Z.of_nat (S k)) in Hv by lia.
  rewrite Z.pow_add_r in Hv by lia. lia.
Qed.

Lemma read_uvarint_sound buf i x v n :
  bytes_ok buf -> is_u64 x -> read_uvarint_loop i x buf = Some (v, n) ->
  is_u64 v /\ (i < n <= 10)%nat /\ (n <= i + length buf)%nat.
Proof.
  revert i x. induction buf as [|b buf IH]; intros i x Hbuf Hx; cbn [read_uvarint_loop length]; [done|].
  apply bytes_ok_cons in Hbuf as [Hb Hbuf].
  case_decide as Hi; [done|].
  assert (forall y, is_u64 (Z.lor x (wrap64 y))) as Hlor.
  { intros y. pose proof (wrap64_range y) as Hy. unfold is_u64 in *. split.
    - apply Z.lor_nonneg; lia.
    - destruct (decide (Z.lor x (wrap64 y) = 0)) as [->|Hnz]; [lia|].
      apply Z.log2_lt_pow2; [pose proof (proj2 (Z.lor_nonneg x (wrap64 y))); lia|].
      rewrite Z.log2_lor by lia.
      assert (forall z, 0 <= z < 2 ^ 64 -> Z.log2 z < 64) as Hlog.
      { intros z Hz. destruct (decide (z = 0)) as [->|]; [simpl; lia|]. apply Z.log2_lt_pow2; lia. }
      apply Z.max_lub_lt; auto. }
  destruct (b <? 128).
  - case_match; [done|]. intros; simplify_eq. split; [done|]. lia.
  - intros H. apply IH in H as (? & ? & ?); [|done..]. split; [done|lia].
Qed.

(** ** Stores into caller buffers *)

Lemma copy_into_app pre mid post src :
  length mid = length src -> copy_into (pre ++ mid ++ post) (length pre) src = Some (pre ++ src ++ post).
Proof.
  intros Hlen. unfold copy_into. rewrite decide_True by (rewrite !length_app; lia).
  rewrite take_app_length, <-drop_drop, drop_app_length, drop_app_exact by done. done.
Qed.

Lemma store_app pre x post b : store (pre ++ x :: post) (length pre) b = Some (pre ++ b :: post).
Proof.
  unfold store. rewrite decide_True by (rewrite length_app; simpl; lia).
  by rewrite insert_app_r_alt, Nat.sub_diag by lia.
Qed.

Lemma split_at {A} (l : list A) n : (n <= length l)%nat -> exists a b, l = a ++ b /\ length a = n.
Proof. intros. exists (take n l), (drop n l). rewrite take_drop, length_take. split; [done|lia]. Qed.

Lemma write_uvarint_loop_spec f v pre mid post :
  (0 < f)%nat -> 0 <= v < 2 ^ (7 * Z.of_nat f) -> length mid = length (uvarint_go f v) ->
  write_uvarint_loop f (pre ++ mid ++ post) (length pre) v
  = Some (pre ++ uvarint_go f v ++ post, (length pre + length (uvarint_go f v))%nat).
Proof.
  revert v pre mid. induction f as [|f IH]; intros v pre mid Hf Hv; [lia|].
  pose proof (uvarint_go_S f v ltac:(lia)) as Hgo. rewrite Hgo. cbn [write_uvarint_loop].
  destruct (Z.leb_spec 128 v) as [Hge|Hlt].
  - destruct mid as [|m mid]; cbn [length]; [done|]. intros [= Hmid].
    destruct (Z.ltb_spec v 128); [lia|]. cbn [app]. rewrite store_app. cbn [mbind option_bind].
    rewrite Z.shiftr_div_pow2 by lia. change (2 ^ 7) with 128.
    destruct f as [|f']; [simpl in Hv; lia|].
    pose proof (IH (v / 128) (pre ++ [Z.lor (wrap8 v) 128]) mid) as IH'.
    rewrite <-!app_assoc, length_app in IH'. cbn [app length] in IH'.
    rewrite Nat.add_1_r in IH'. rewrite IH'; [do 2 f_equal; lia|lia| |done].
    split; [apply Z.div_pos; lia|]. apply Z.div_lt_upper_bound; [lia|].
    replace (7 * Z.of_nat (S (S f'))) with (7 + 7 * Z.of_nat (S f')) in Hv by lia.
    rewrite Z.pow_add_r in Hv by lia. lia.
  - destruct mid as [|m [|]]; cbn [length]; try done. intros _.
    destruct (Z.ltb_spec v 128); [|lia]. cbn [app]. rewrite store_app. cbn [mbind option_bind].
    rewrite wrap8_ok by (unfold is_u8; lia). do 2 f_equal. lia.
Qed.

(** [write_uvarint] fills a buffer that is long enough with exactly the bytes
    [append_uvarint] appends. *)
Lemma write_uvarint_spec v mid post :
  is_u64 v -> length mid = length (uvarint_go 10 v) ->
  write_uvarint (mid ++ post) v = Some (uvarint_go 10 v ++ post, length (uvarint_go 10 v)).
Proof.
  intros Hv Hm. apply (write_uvarint_loop_spec 10 v [] mid post); [lia| |done].
  unfold is_u64 in Hv. simpl. lia.
Qed.

Lemma wire_len_loop_spec f p r :
  (0 < f)%nat -> 0 <= r < 2 ^ (7 * Z.of_nat f) ->
  wire_len_loop f p r = p + Z.of_nat (length (uvarint_go f r)) - 1.
Proof.
  revert p r. induction f as [|f IH]; intros p r Hf Hr; [lia|].
  rewrite uvarint_go_S by lia. cbn [wire_len_loop].
  destruct (Z.leb_spec 128 r); cbn [length]; [|lia].
  rewrite Z.shiftr_div_pow2 by lia. change (2 ^ 7) with 128.
  destruct f as [|f]; [simpl in Hr; lia|].
  rewrite IH; [lia|lia|]. split; [apply Z.div_pos; lia|].
  apply Z.div_lt_upper_bound; [lia|].
  replace (7 * Z.of_nat (S (S f))) with (7 + 7 * Z.of_nat (S f)) in Hr by lia.
  rewrite Z.pow_add_r in Hr by lia. lia.
Qed.

Lemma wire_len_spec t p : is_u64 (Z.of_nat (length p) + 1) ->
  wire_len (length p) = Z.of_nat (length (frame_spec t p)).
Proof.
  intros Hp. unfold wire_len, frame_spec. rewrite length_app. cbn [length].
  rewrite wire_len_loop_spec; [lia|lia|]. unfold is_u64 in Hp. simpl. lia.
Qed.

(** The whole behaviour of the buffer form: a payload whose length fits the
    five-byte prefix is refused exactly when the buffer is too short, and
    otherwise written at the front of the buffer, the tail untouched. *)
Lemma encode_frame_to_cases t p out :
  Z.of_nat (length p) + 1 < 2 ^ 35 ->
  encode_frame_to t p out =
  Some (if decide (length out < length (frame_spec t p))%nat then Err (Core InvalidLength)
        else Ok (frame_spec t p ++ drop (length (frame_spec t p)) out, length (frame_spec t p))).
Proof.
  intros Hp. unfold encode_frame_to, frame_spec.
  set (v := Z.of_nat (length p) + 1) in *.
  assert (is_u64 v) as Hv by (unfold is_u64, v; lia).
  assert (length (uvarint_go 10 v) <= 5)%nat as H5.
  { apply uvarint_go_bits; [lia|]. unfold v in *. simpl. lia. }
  destruct (split_at (replicate MAX_LEN_PREFIX 0) (length (uvarint_go 10 v))) as (m & q & -> & Hm).
  { rewrite length_replicate. unfold MAX_LEN_PREFIX. lia. }
  rewrite write_uvarint_spec by done. cbn [mbind option_bind].
  set (u := uvarint_go 10 v) in *. rewrite length_app. cbn [length].
  replace (length u + 1 + length p)%nat with (length u + S (length p))%nat by lia.
  case_decide as Hlt; [done|].
  destruct (split_at out (length u)) as (o1 & r1 & -> & H1); [lia|].
  rewrite length_app in Hlt. destruct r1 as [|x r1]; [simpl in Hlt; lia|].
  destruct (split_at r1 (length p)) as (o2 & o3 & -> & H2); [cbn [length] in Hlt; lia|].
  rewrite take_app_length. 
  pose proof (copy_into_app [] o1 (x :: o2 ++ o3) u H1) as C1. cbn [app length] in C1. rewrite C1.
  cbn [mbind option_bind]. rewrite store_app. cbn [mbind option_bind].
  pose proof (copy_into_app (u ++ [FrameType_byte t]) o2 o3 p H2) as C2.
  rewrite <-!app_assoc, length_app in C2. cbn [app length] in C2. rewrite C2.
  cbn [mbind option_bind]. do 3 f_equal. rewrite <-app_assoc. do 2 f_equal.
  rewrite <-drop_drop, drop_app_exact by done. cbn [drop]. by rewrite drop_app_exact.
Qed.

Lemma encode_frame_eq t p :
  Z.of_nat (length p) + 1 < 2 ^ 35 -> encode_frame t p = Some (frame_spec t p).
Proof.
  intros Hp. unfold encode_frame. rewrite encode_frame_to_cases by done. cbn [mbind option_bind].
  rewrite (wire_len_spec t) by (unfold is_u64; lia). rewrite Nat2Z.id.
  rewrite decide_False by (rewrite length_replicate; lia). by rewrite take_app_length.
Qed.

#[global] Arguments uvarint_go : simpl never.

(** ** Tree paths *)

Definition is_port (p : Z) : Prop := 0 < p < 2 ^ 64.

(** A path the decoder accepts: at most 128 non-zero ports. *)
Definition path_ok (path : list Z) : Prop := Forall is_port path /\ (length path <= 128)%nat.

#[export] Instance path_ok_dec path : Decision (path_ok path).
Proof. unfold path_ok, is_port. apply _. Defined.

Definition path_bytes (path : list Z) : bytes := concat (map (uvarint_go 10) path) ++ [0].

Lemma append_path_spec out path : append_path out path = out ++ path_bytes path.
Proof.
  unfold append_path, append_uvarint, path_bytes. change (uvarint_go 10 0) with [0].
  rewrite app_assoc. f_equal. revert out. induction path as [|p path IH]; intros out; simpl.
  - by rewrite app_nil_r.
  - by rewrite IH, app_assoc.
Qed.

Lemma path_bytes_ok path : bytes_ok (path_bytes path).
Proof.
  unfold path_bytes. apply bytes_ok_app. split; [|by repeat constructor].
  induction path; simpl; [auto with roots|]. apply bytes_ok_app; auto with roots.
Qed.

#[export] Hint Resolve path_bytes_ok : roots.

Lemma split_path_loop_spec f pre path rest acc :
  Forall is_port path -> (length acc + length path <= 128)%nat -> (length path < f)%nat ->
  split_path_loop f (pre ++ path_bytes path ++ rest) acc (length pre)
  = Some (acc ++ path, (length pre + length (path_bytes path))%nat).
Proof.
  revert pre path acc. induction f as [|f IH]; intros pre path acc Hp Hl Hf; [lia|].
  cbn [split_path_loop]. rewrite drop_app_length. destruct path as [|p path].
  - change (path_bytes []) with (uvarint_go 10 0).
    rewrite read_append_uvarint by (unfold is_u64; lia). cbn -[Nat.add]. by rewrite app_nil_r.
  - apply Forall_cons_1 in Hp as [Hp Hps]. unfold path_bytes. cbn [map concat].
    rewrite <-!app_assoc. rewrite read_append_uvarint by (unfold is_u64, is_port in *; lia).
    cbn [mbind option_bind]. destruct (Z.eqb_spec p 0); [unfold is_port in Hp; lia|].
    case_decide as Hd; [rewrite length_app in Hd; cbn [length] in *; lia|]. cbn [length] in Hl.
    specialize (IH (pre ++ uvarint_go 10 p) path (acc ++ [p])).
    rewrite !length_app, <-!app_assoc in IH. cbn [length app] in IH.
    unfold path_bytes in IH. rewrite <-!app_assoc in IH. cbn [app] in IH |- *.
    rewrite IH; [|done|lia|cbn [length] in Hf; lia].
    do 2 f_equal. rewrite !length_app. cbn [length]. lia.
Qed.

(** Decoding a path that was appended gives it back and consumes exactly its
    bytes, whatever follows. *)
Lemma split_append_path path rest : path_ok path ->
  split_path (path_bytes path ++ rest) = Some (path, length (path_bytes path)).
Proof.
  intros [Hp Hl]. unfold split_path.
  apply (split_path_loop_spec 130 [] path rest []); simpl; [done|lia|lia].
Qed.

Lemma split_path_loop_sound f buf acc off path n :
  bytes_ok buf -> Forall is_port acc -> (length acc <= 128)%nat -> (off <= length buf)%nat ->
  split_path_loop f buf acc off = Some (path, n) ->
  Forall is_port path /\ (length path <= 128)%nat /\ (off < n <= length buf)%nat.
Proof.
  revert acc off. induction f as [|f IH]; intros acc off Hb Ha Hl Ho; cbn [split_path_loop]; [done|].
  destruct (read_uvarint (drop off buf)) as [[v m]|] eqn:E; [|done]. cbn [mbind option_bind].
  apply read_uvarint_sound in E as (Hv & Hm & Hm2); [|by apply bytes_ok_drop|unfold is_u64; lia].
  rewrite length_drop in Hm2.
  destruct (Z.eqb_spec v 0); intros H.
  - simplify_eq. repeat split; try done; lia.
  - case_decide as Hd; [done|]. apply IH in H; try done; try lia.
    + destruct H as (? & ? & ?). repeat split; try done; lia.
    + apply Forall_app. split; [done|]. constructor; [|done]. unfold is_port, is_u64 in *. lia.
Qed.

Lemma split_path_sound buf path n :
  bytes_ok buf -> split_path buf = Some (path, n) -> path_ok path /\ (0 < n <= length buf)%nat.
Proof.
  intros Hb H. by apply split_path_loop_sound in H as (? & ? & ?); try done; simpl; try lia.
Qed.

(** ** Frames on a stream *)

Lemma from_byte_to_byte t : from_byte (FrameType_byte t) = Ok t.
Proof. by destruct t. Qed.

Lemma FrameType_byte_range t : 0 <= FrameType_byte t < Z.of_nat FRAME_KINDS.
Proof. unfold FRAME_KINDS. destruct t; simpl; lia. Qed.

Lemma uvarint_go_snoc f v : (0 < f)%nat -> 0 <= v < 2 ^ (7 * Z.of_nat f) ->
  exists h l, uvarint_go f v = h ++ [l] /\ l < 128 /\ Forall (fun b => 128 <= b) h.
Proof.
  revert v. induction f as [|f IH]; intros v Hf Hv; [lia|]. rewrite uvarint_go_S by lia.
  destruct (Z.leb_spec 128 v).
  - destruct f as [|f]; [simpl in Hv; lia|].
    destruct (IH (v / 128)) as (h & l & -> & Hl & Hh); [lia| |].
    + split; [apply Z.div_pos; lia|]. apply Z.div_lt_upper_bound; [lia|].
      replace (7 * Z.of_nat (S (S f))) with (7 + 7 * Z.of_nat (S f)) in Hv by lia.
      rewrite Z.pow_add_r in Hv by lia. lia.
    + exists (Z.lor (wrap8 v) 128 :: h), l. split; [done|]. split; [done|]. constructor; [|done].
      apply uvarint_hi. auto with roots.
  - by exists [], v.
Qed.

Lemma read_prefix_loop_spec f h l s e acc :
  l < 128 -> Forall (fun b => 128 <= b) h -> (length acc + length h < 10)%nat -> (length h < f)%nat ->
  read_prefix_loop f (h ++ l :: s) e acc = Ok (acc ++ h ++ [l], s).
Proof.
  revert f acc. induction h as [|b h IH]; intros f acc Hl Hh Hlen Hf; (destruct f as [|f]; [simpl in Hf; lia|]).
  - simpl. destruct (Z.ltb_spec l 128); [done|lia].
  - apply Forall_cons_1 in Hh as [Hb Hh]. cbn [app read_prefix_loop].
    destruct (Z.ltb_spec b 128); [lia|]. cbn [length] in *. rewrite length_app; cbn [length].
    rewrite decide_False by lia. rewrite IH; [|done|done|rewrite length_app; simpl; lia|lia].
    by rewrite <-app_assoc.
Qed.

Lemma decode_body_spec t p : Z.of_nat (length p) + 1 <= MAX_MESSAGE_SIZE ->
  decode_body (FrameType_byte t :: p) = Ok (t, p).
Proof.
  intros Hp. cbn [decode_body length]. destruct (Z.ltb_spec MAX_MESSAGE_SIZE (Z.of_nat (S (length p)))); [lia|].
  by rewrite from_byte_to_byte.
Qed.

Lemma read_frame_spec t p rest e : Z.of_nat (length p) + 1 <= MAX_MESSAGE_SIZE ->
  read_frame_from (frame_spec t p ++ rest) e = Ok ((t, p), rest).
Proof.
  intros Hp. unfold MAX_MESSAGE_SIZE in Hp. unfold read_frame_from, frame_spec.
  set (v := Z.of_nat (length p) + 1).
  destruct (uvarint_go_snoc 10 v) as (h & l & Hu & Hl & Hh); [lia|unfold v; simpl; lia|].
  pose proof (uvarint_go_length 10 v ltac:(lia)) as Hlen. rewrite Hu, length_app in Hlen. simpl in Hlen.
  rewrite Hu, <-!app_assoc. cbn [app]. rewrite read_prefix_loop_spec; [|done|done|simpl; lia|lia].
  cbn [app mbind result_bind]. rewrite <-Hu.
  pose proof (read_append_uvarint v []) as Hr. rewrite app_nil_r in Hr.
  rewrite Hr by (unfold is_u64, v; lia). cbn [ok_or mbind result_bind].
  destruct (Z.eqb_spec v 0); [unfold v in *; lia|].
  destruct (Z.ltb_spec MAX_MESSAGE_SIZE v); [unfold MAX_MESSAGE_SIZE, v in *; lia|]. cbn [orb].
  unfold read_exact. replace (Z.to_nat v) with (length (FrameType_byte t :: p)) by (unfold v; simpl; lia).
  change (FrameType_byte t :: p ++ rest) with ((FrameType_byte t :: p) ++ rest).
  rewrite decide_True by (rewrite length_app; lia). rewrite take_app_length, drop_app_length.
  rewrite decode_body_spec by (unfold MAX_MESSAGE_SIZE; lia). done.
Qed.

Lemma read_prefix_loop_suffix f s e acc pre s' :
  read_prefix_loop f s e acc = Ok (pre, s') -> exists c, s = c ++ s' /\ (0 < length c)%nat.
Proof.
  revert s acc. induction f as [|f IH]; intros s acc; cbn [read_prefix_loop]; [done|].
  destruct s as [|b s]; [done|]. destruct (b <? 128).
  - intros; simplify_eq. exists [b]. split; [done|simpl; lia].
  - case_decide; [done|]. intros (c & -> & Hc)%IH. exists (b :: c). split; [done|simpl; lia].
Qed.

Lemma read_frame_sound s e t p rest :
  read_frame_from s e = Ok ((t, p), rest) ->
  Z.of_nat (length p) + 1 <= MAX_MESSAGE_SIZE /\
  exists c, s = c ++ FrameType_byte t :: p ++ rest /\ (0 < length c)%nat.
Proof.
  unfold read_frame_from.
  destruct (read_prefix_loop 10 s e []) as [[pre s1]|] eqn:E1; [|done]. cbn [mbind result_bind].
  destruct (read_uvarint pre) as [[len n]|] eqn:E2; [|done]. cbn [ok_or mbind result_bind].
  destruct (_ || _) eqn:E3; [done|]. apply orb_false_iff in E3 as [E3 E4]. zbool.
  unfold read_exact. case_decide as Hd; [|by destruct e]. intros H.
  apply read_prefix_loop_suffix in E1 as (c & -> & Hc).
  destruct (take (Z.to_nat len) s1) as [|b body] eqn:Et; [done|]. cbn [decode_body] in H.
  destruct (Z.ltb_spec MAX_MESSAGE_SIZE (Z.of_nat (length (b :: body)))); [done|].
  destruct (from_byte b) as [t'|] eqn:Ef; [|done]. cbn [mbind result_bind] in H. simplify_eq.
  assert (b = FrameType_byte t) as ->.
  { revert Ef. unfold from_byte. repeat (zcase; [intros; by simplify_eq|]). done. }
  cbn [length] in *. split; [lia|]. exists c. split; [|done]. f_equal.
  rewrite <-(take_drop (Z.to_nat len) s1) at 1. by rewrite Et.
Qed.

Lemma read_prefix_loop_short f h e acc :
  Forall (fun b => 128 <= b) h -> (length acc + length h < 10)%nat -> (length h < f)%nat ->
  read_prefix_loop f h e acc = Err (Io e).
Proof.
  revert f acc. induction h as [|b h IH]; intros f acc Hh Hlen Hf; (destruct f as [|f]; [simpl in Hf; lia|]); [done|].
  apply Forall_cons_1 in Hh as [Hb Hh]. cbn [read_prefix_loop].
  destruct (Z.ltb_spec b 128); [lia|]. cbn [length] in *. rewrite length_app; cbn [length].
  rewrite decide_False by lia. apply IH; [done|rewrite length_app; simpl; lia|lia].
Qed.

(** A read that meets the end of the bytes inside a frame fails with the
    stream's error. *)
Lemma read_frame_partial t p a b c : Z.of_nat (length p) + 1 <= MAX_MESSAGE_SIZE ->
  frame_spec t p = a ++ b -> b <> [] -> read_frame_from a (OtherIo c) = Err (Io (OtherIo c)).
Proof.
  intros Hp Eab Hb. unfold MAX_MESSAGE_SIZE in Hp. unfold read_frame_from.
  unfold frame_spec in Eab. set (v := Z.of_nat (length p) + 1) in *.
  destruct (uvarint_go_snoc 10 v) as (h & l & Hu & Hl & Hh); [lia|unfold v; simpl; lia|].
  pose proof (uvarint_go_length 10 v ltac:(lia)) as Hlen. rewrite Hu, length_app in Hlen. simpl in Hlen.
  rewrite Hu in Eab. destruct (decide (length a <= length h)%nat) as [Hs|Hs].
  - assert (a = take (length a) h) as Ha.
    { rewrite <-app_assoc in Eab. apply (f_equal (take (length a))) in Eab.
      rewrite take_app_length, take_app_le in Eab by done. done. }
    rewrite read_prefix_loop_short; [done|rewrite Ha; by apply Forall_take|simpl; lia|lia].
  - assert (exists a', a = h ++ l :: a' /\ FrameType_byte t :: p = a' ++ b) as (a' & -> & Eb).
    { exists (drop (length (h ++ [l])) a).
      assert (a = (h ++ [l]) ++ drop (length (h ++ [l])) a) as Ha.
      { rewrite <-(take_drop (length (h ++ [l])) a) at 1. f_equal.
        apply (f_equal (take (length (h ++ [l])))) in Eab.
        rewrite take_app_length, take_app_le in Eab by (rewrite length_app; simpl; lia). done. }
      split; [by rewrite Ha at 1; rewrite <-app_assoc|]. rewrite Ha, <-(app_assoc (h ++ [l])) in Eab. by apply app_inv_head in Eab. }
    rewrite read_prefix_loop_spec; [|done|done|simpl; lia|lia]. cbn [app mbind result_bind]. rewrite <-Hu.
    pose proof (read_append_uvarint v []) as Hr. rewrite app_nil_r in Hr.
    rewrite Hr by (unfold is_u64, v; lia). cbn [ok_or mbind result_bind].
    destruct (Z.eqb_spec v 0); [unfold v in *; lia|].
    destruct (Z.ltb_spec MAX_MESSAGE_SIZE v); [unfold MAX_MESSAGE_SIZE, v in *; lia|]. cbn [orb].
    unfold read_exact. apply (f_equal length) in Eb. rewrite length_app in Eb. cbn [length] in Eb.
    rewrite decide_False; [done|]. destruct b; [done|]. cbn [length] in Eb. unfold v. lia.
Qed.

(** The frames on a stream, one after the other. *)
Definition write_frames (fs : list (FrameType * bytes)) : option bytes :=
  (fun frames => concat frames) <$> mapM (fun '(t, p) => write_frame_to t p) fs.

Definition frame_fits (f : FrameType * bytes) : Prop := Z.of_nat (length f.2) + 1 <= MAX_MESSAGE_SIZE.

(** Reading until the stream ends. *)
Fixpoint read_all (fuel : nat) (s : bytes) (e : IoError) : list (FrameType * bytes) * Error :=
  match fuel with
  | O => ([], Io e)
  | S fuel' =>
    match read_frame_from s e with
    | Ok (f, rest) => let '(fs, er) := read_all fuel' rest e in (f :: fs, er)
    | Err er => ([], er)
    end
  end.

(** ** Properties *)

(** Uvarints round-trip. Every [u64] is appended as one to ten bytes and
    reads back, whatever follows it; and every value the reader accepts fits 64
    bits and was read from at most ten bytes, all of them in the buffer. *)
Theorem uvarint_roundtrip v rest : is_u64 v ->
  read_uvarint (append_uvarint [] v ++ rest) = Some (v, length (append_uvarint [] v)) /\
  (1 <= length (append_uvarint [] v) <= 10)%nat /\
  (forall buf x n, bytes_ok buf -> read_uvarint buf = Some (x, n) ->
     is_u64 x /\ (0 < n <= 10)%nat /\ (n <= length buf)%nat).
Proof.
  intros Hv. split; [by apply read_append_uvarint|]. split; [apply uvarint_go_length; lia|].
  intros buf x n Hb H. apply (read_uvarint_sound buf 0 0); [done|unfold is_u64; lia|done].
Qed.

Lemma uvarint_roundtrip_witness :
  is_u64 U64_MAX /\ read_uvarint (append_uvarint [] U64_MAX ++ [5]) = Some (U64_MAX, 10%nat).
Proof.
  assert (is_u64 U64_MAX) as H by (unfold is_u64, U64_MAX; lia). split; [exact H|].
  exact (proj1 (uvarint_roundtrip U64_MAX [5] H)).
Defined.

(** Paths round-trip, and the decoder accepts exactly what an encoder can
    produce: at most 128 non-zero ports with their terminator. *)
Theorem path_roundtrip path out rest buf q n : path_ok path -> bytes_ok buf ->
  (exists enc, append_path out path = out ++ enc /\ split_path (enc ++ rest) = Some (path, length enc)) /\
  (split_path buf = Some (q, n) -> path_ok q /\ (0 < n <= length buf)%nat).
Proof.
  intros Hp Hb. split; [|by apply split_path_sound].
  exists (path_bytes path). split; [apply append_path_spec|by apply split_append_path].
Qed.

Lemma path_roundtrip_witness :
  exists enc, append_path [9] [1; 300] = [9] ++ enc /\ split_path (enc ++ [7]) = Some ([1; 300], length enc).
Proof.
  apply (path_roundtrip [1; 300] [9] [7] [] [] 0); apply (bool_decide_unpack _); vm_compute; exact I.
Defined.

(** The two frame encoders agree with the reference layout and with
    [wire_len]. The buffer form never panics for a payload whose length fits
    its five-byte prefix; it refuses a buffer that is too short and otherwise
    writes the frame at the front and nothing beyond it. *)
Theorem encode_frame_exact t p out : Z.of_nat (length p) + 1 < 2 ^ 35 ->
  encode_frame t p = Some (frame_spec t p) /\ wire_len (length p) = Z.of_nat (length (frame_spec t p)) /\
  encode_frame_to t p out =
    Some (if decide (length out < length (frame_spec t p))%nat then Err (Core InvalidLength)
          else Ok (frame_spec t p ++ drop (length (frame_spec t p)) out, length (frame_spec t p))).
Proof.
  intros Hp. split; [by apply encode_frame_eq|]. split; [apply wire_len_spec; unfold is_u64; lia|].
  by apply encode_frame_to_cases.
Qed.

Lemma encode_frame_exact_witness :
  encode_frame KeepAlive [] = Some [1; 1] /\ encode_frame_to KeepAlive [] [7] = Some (Err (Core InvalidLength)).
Proof.
  destruct (encode_frame_exact KeepAlive [] [7]) as (H1 & _ & H3); [simpl; lia|]. split; [exact H1|exact H3].
Defined.

Lemma write_frames_cons t p fs : frame_fits (t, p) ->
  write_frames ((t, p) :: fs) = (fun out => frame_spec t p ++ out) <$> write_frames fs.
Proof.
  unfold frame_fits, MAX_MESSAGE_SIZE. cbn [snd]. intros Hp. unfold write_frames. cbn [mapM]. unfold write_frame_to at 1.
  rewrite encode_frame_eq by lia. cbn [mbind option_bind]. by destruct (mapM _ fs).
Qed.

(** C34: what [write_frame_to] writes for a list of frames that fit, one after
    the other, never panics and is read back frame by frame, in order, and the
    end of the stream is then reported: no sequence of payloads can make the
    reader see other frames than those written, none is lost and none is split. *)
Theorem frame_stream_roundtrip fs e : Forall frame_fits fs ->
  exists stream, write_frames fs = Some stream /\ read_all (S (length fs)) stream e = (fs, Io e).
Proof.
  induction 1 as [|[t p] fs Hf _ (stream & Es & IH)]; [by exists []|].
  exists (frame_spec t p ++ stream). rewrite write_frames_cons, Es by done. split; [done|].
  cbn [length read_all]. rewrite read_frame_spec by done. cbn [read_all] in IH. by rewrite IH.
Qed.

Lemma frame_stream_roundtrip_witness : exists stream,
  write_frames [(TSigReq, [1; 2]); (KeepAlive, []); (TTraffic, replicate 200 7)] = Some stream /\
  read_all 4 stream UnexpectedEof = ([(TSigReq, [1; 2]); (KeepAlive, []); (TTraffic, replicate 200 7)], Io UnexpectedEof).
Proof.
  apply (frame_stream_roundtrip [(TSigReq, [1; 2]); (KeepAlive, []); (TTraffic, replicate 200 7)]).
  repeat constructor; unfold frame_fits, MAX_MESSAGE_SIZE; simpl; lia.
Defined.

(** Whatever bytes arrive, an accepted frame is a kind and a payload whose
    body is at most [MAX_MESSAGE_SIZE] long, taken verbatim from the stream
    after a non-empty prefix; the rest of the stream is untouched. *)
Theorem read_frame_bounded s e t p rest : read_frame_from s e = Ok ((t, p), rest) ->
  Z.of_nat (length p) + 1 <= MAX_MESSAGE_SIZE /\
  exists c, s = c ++ FrameType_byte t :: p ++ rest /\ (0 < length c)%nat.
Proof. apply read_frame_sound. Qed.

Lemma read_frame_bounded_witness :
  Z.of_nat (length [42]) + 1 <= MAX_MESSAGE_SIZE /\ exists c, [2; 9; 42; 5] = c ++ 9 :: [42] ++ [5] /\ (0 < length c)%nat.
Proof. apply (read_frame_bounded [2; 9; 42; 5] UnexpectedEof TTraffic [42] [5]). vm_compute. reflexivity. Defined.
