(* ===== verification/Address.v ===== *)
(** * Address: node addresses and routed subnets derived from public keys
    ([core/src/address.rs]).

    The derivation embeds the bits of the inverted key: a count of leading
    ones, then the bits after the first zero. [addr_for_key] and
    [key_for_addr] are translated loop by loop, on byte arrays; the lemmas
    relate both to the list of bits of the inverted key, from which the round
    trips the routing layer relies on follow. *)
From stdpp Require Import base tactics list numbers.
From S2P Require Import Prelude.

Local Open Scope Z_scope.

Definition NODE_PREFIX : Z := 2.
Definition SUBNET_BIT : Z := 1.
Definition KEY_LEN : nat := 32.
Definition ADDR_LEN : nat := 16.
Definition SUBNET_LEN : nat := 8.
Definition PREFIX_LEN : nat := 1.
Definition ADDR_PAYLOAD_LEN : nat := ADDR_LEN - PREFIX_LEN - 1.
Definition PAYLOAD_BIT_OFFSET : nat := 8 * (PREFIX_LEN + 1).
Definition KEY_BITS : nat := 8 * KEY_LEN.

Record Address : Type := mkAddress { addr_octets : bytes }.
Record Subnet : Type := mkSubnet { snet_octets : bytes }.

#[export] Instance Address_eq_dec : EqDecision Address.
Proof. solve_decision. Defined.
#[export] Instance Subnet_eq_dec : EqDecision Subnet.
Proof. solve_decision. Defined.

(** [!b] on a [u8]. *)
Definition u8_not (b : Z) : Z := wrap8 (Z.lnot b).

(** [(l[idx / 8] >> (7 - (idx % 8))) & 1]. *)
Definition bit_at (l : bytes) (idx : nat) : Z :=
  Z.land (Z.shiftr (l !!! (idx / 8)%nat) (7 - Z.of_nat (idx mod 8))) 1.

(** The variables of the loop of [addr_for_key]. *)
Record addr_acc : Type := mkAcc {
  acc_temp : bytes; acc_len : nat; acc_bits : Z; acc_nbits : nat;
  acc_seen_zero : bool; acc_ones : Z }.

Definition addr_step (inv : bytes) (a : addr_acc) (idx : nat) : addr_acc :=
  let bit := bit_at inv idx in
  if negb (acc_seen_zero a) && (bit =? 1) then
    mkAcc (acc_temp a) (acc_len a) (acc_bits a) (acc_nbits a) false (Z.min (acc_ones a + 1) 255)
  else if negb (acc_seen_zero a) then
    mkAcc (acc_temp a) (acc_len a) (acc_bits a) (acc_nbits a) true (acc_ones a)
  else
    let bits := Z.lor (wrap8 (Z.shiftl (acc_bits a) 1)) bit in
    let nbits := S (acc_nbits a) in
    if decide (nbits = 8%nat) then
      if decide (acc_len a < length (acc_temp a))%nat then
        mkAcc (<[acc_len a := bits]> (acc_temp a)) (S (acc_len a)) 0 0 true (acc_ones a)
      else mkAcc (acc_temp a) (acc_len a) 0 0 true (acc_ones a)
    else mkAcc (acc_temp a) (acc_len a) bits nbits true (acc_ones a).

Definition addr_for_key (public_key : bytes) : Address :=
  let inv := u8_not <$> public_key in
  let a := fold_left (addr_step inv) (seq 0 KEY_BITS)
             (mkAcc (replicate KEY_LEN 0) 0 0 0 false 0) in
  let n := Nat.min (acc_len a) ADDR_PAYLOAD_LEN in
  mkAddress (NODE_PREFIX :: acc_ones a :: take n (acc_temp a) ++ replicate (ADDR_PAYLOAD_LEN - n) 0).

Definition subnet_for_key (public_key : bytes) : Subnet :=
  let snet := take SUBNET_LEN (addr_octets (addr_for_key public_key)) in
  mkSubnet (<[0%nat := Z.lor (snet !!! 0%nat) SUBNET_BIT]> snet).

(** [key[idx / 8] |= bit << (7 - (idx % 8))]. *)
Definition or_bit (key : bytes) (idx : nat) (bit : Z) : bytes :=
  <[(idx / 8)%nat := Z.lor (key !!! (idx / 8)%nat) (Z.shiftl bit (7 - Z.of_nat (idx mod 8)))]> key.

(** The second loop of [key_for_addr], with its [break]. *)
Fixpoint key_payload_loop (addr : bytes) (key_offset : nat) (idxs : list nat) (key : bytes) : bytes :=
  match idxs with
  | [] => key
  | idx :: idxs' =>
    let key_idx := (key_offset + (idx - PAYLOAD_BIT_OFFSET))%nat in
    if decide (KEY_LEN <= key_idx / 8)%nat then key
    else key_payload_loop addr key_offset idxs' (or_bit key key_idx (bit_at addr idx))
  end.

Definition key_for_addr (addr : Address) : bytes :=
  let ones := Nat.min (Z.to_nat (addr_octets addr !!! PREFIX_LEN)) KEY_BITS in
  let key := fold_left
    (fun key idx => <[(idx / 8)%nat := Z.lor (key !!! (idx / 8)%nat) (Z.shiftr 128 (Z.of_nat (idx mod 8)))]> key)
    (seq 0 ones) (replicate KEY_LEN 0) in
  let key := key_payload_loop (addr_octets addr) (ones + 1)
    (seq PAYLOAD_BIT_OFFSET (8 * ADDR_LEN - PAYLOAD_BIT_OFFSET)) key in
  u8_not <$> key.

Definition key_for_subnet (snet : Subnet) : bytes :=
  key_for_addr (mkAddress (take SUBNET_LEN (snet_octets snet) ++ replicate (ADDR_LEN - SUBNET_LEN) 0)).

Definition Address_is_valid (a : Address) : bool := addr_octets a !!! 0%nat =? NODE_PREFIX.
Definition Address_is_subnet (a : Address) : bool :=
  addr_octets a !!! 0%nat =? Z.lor NODE_PREFIX SUBNET_BIT.
Definition Subnet_is_valid (s : Subnet) : bool :=
  snet_octets s !!! 0%nat =? Z.lor NODE_PREFIX SUBNET_BIT.

Definition lookup_key_for_addr (addr : Address) : bytes :=
  if Address_is_subnet addr then key_for_subnet (mkSubnet (take SUBNET_LEN (addr_octets addr)))
  else key_for_addr addr.

(** The DHT transform of [src/bloom.rs]. *)
Definition xkey (key : bytes) : bytes := key_for_subnet (subnet_for_key key).

(** The 16-byte address whose first half is a subnet, as an operator writes it. *)
Definition subnet_addr (s : Subnet) (host : bytes) : Address := mkAddress (snet_octets s ++ host).

Definition key_ok (k : bytes) : Prop := bytes_ok k /\ length k = KEY_LEN.

#[export] Instance key_ok_dec k : Decision (key_ok k).
Proof. unfold key_ok. apply _. Defined.

(** ** Test vectors of the Go implementation, from the unit tests *)

Definition PUB : bytes :=
  [189; 186; 207; 216; 34; 64; 222; 61; 205; 18; 57; 36; 203; 181; 82; 86; 251; 141; 171; 8;
   170; 152; 227; 5; 82; 138; 184; 79; 65; 158; 110; 251].

Example addr_vector :
  addr_octets (addr_for_key PUB) = [2; 0; 132; 138; 96; 79; 187; 126; 67; 132; 101; 219; 141; 182; 104; 149].
Proof. vm_compute. reflexivity. Qed.

Example getkey_vector :
  key_for_addr (addr_for_key PUB) =
  [189; 186; 207; 216; 34; 64; 222; 61; 205; 18; 57; 36; 203; 181; 127; 255; 255; 255;
   255; 255; 255; 255; 255; 255; 255; 255; 255; 255; 255; 255; 255; 255].
Proof. vm_compute. reflexivity. Qed.

Example subnet_vector :
  snet_octets (subnet_for_key PUB) = [3; 0; 132; 138; 96; 79; 187; 126] /\
  xkey PUB = [189; 186; 207; 216; 34; 64] ++ replicate 26 255.
Proof. vm_compute. split; reflexivity. Qed.

(** ** Bits of a byte string, most significant first *)

Definition kbit (l : bytes) (j : nat) : bool :=
  Z.testbit (l !!! (j / 8)%nat) (7 - Z.of_nat (j mod 8)).

Definition bits_of (l : bytes) : list bool := kbit l <$> seq 0 (8 * length l).

Definition byte_of_bits (bs : list bool) : Z :=
  fold_left (fun a b => Z.lor (wrap8 (Z.shiftl a 1)) (Z.b2z b)) bs 0.

(** The whole bytes at the front of a list of bits. *)
Fixpoint full_bytes (R : list bool) : bytes :=
  match R with
  | b0 :: b1 :: b2 :: b3 :: b4 :: b5 :: b6 :: b7 :: R' =>
    byte_of_bits [b0; b1; b2; b3; b4; b5; b6; b7] :: full_bytes R'
  | _ => []
  end.

Definition pad_payload (l : bytes) : bytes :=
  take ADDR_PAYLOAD_LEN l ++ replicate (ADDR_PAYLOAD_LEN - length l) 0.

Lemma div8_S n : ((8 + n) / 8)%nat = S (n / 8).
Proof. change (8 + n)%nat with (1 * 8 + n)%nat. rewrite Nat.div_add_l by lia. lia. Qed.

Lemma mod8_S n : ((8 + n) mod 8)%nat = (n mod 8)%nat.
Proof. change (8 + n)%nat with (1 * 8 + n)%nat. by rewrite Nat.add_comm, Nat.Div0.mod_add. Qed.

(** Induction by chunks of eight bits. *)
Lemma chunk_ind (P : list bool -> Prop) :
  (forall R, (length R < 8)%nat -> P R) ->
  (forall bs R, length bs = 8%nat -> P R -> P (bs ++ R)) -> forall R, P R.
Proof.
  intros Hs Hc R. remember (length R) as n eqn:Hn. revert R Hn.
  induction (lt_wf n) as [n _ IH]. intros R ->.
  destruct (decide (length R < 8)%nat); [auto|].
  rewrite <-(take_drop 8 R). apply Hc; [rewrite length_take; lia|].
  eapply IH; [|done]. rewrite length_drop. lia.
Qed.

Lemma full_bytes_short R : (length R < 8)%nat -> full_bytes R = [].
Proof. intros. do 8 (destruct R as [|? R]; [done|]). simpl in *. lia. Qed.

Lemma full_bytes_chunk bs R : length bs = 8%nat -> full_bytes (bs ++ R) = byte_of_bits bs :: full_bytes R.
Proof. intros. do 8 (destruct bs as [|? bs]; [done|]). destruct bs; [done|]. simpl in *. lia. Qed.

Lemma full_bytes_length R : length (full_bytes R) = (length R / 8)%nat.
Proof.
  induction R as [R HR|bs R Hb IH] using chunk_ind.
  - rewrite full_bytes_short by done. symmetry. by apply Nat.div_small.
  - rewrite full_bytes_chunk, length_app, Hb by done. cbn [length]. by rewrite IH, div8_S.
Qed.

Lemma full_bytes_take R n : full_bytes (take n R) = take (n / 8) (full_bytes R).
Proof.
  revert n. induction R as [R HR|bs R Hb IH] using chunk_ind; intros n.
  - rewrite !full_bytes_short; [by rewrite take_nil|done|]. rewrite length_take. lia.
  - rewrite full_bytes_chunk by done. destruct (decide (n < 8)%nat).
    + rewrite Nat.div_small by done. rewrite full_bytes_short; [done|]. rewrite length_take. lia.
    + rewrite take_app, Hb. rewrite take_ge by lia. rewrite full_bytes_chunk, IH by done.
      replace n with (8 + (n - 8))%nat at 2 by lia. by rewrite div8_S.
Qed.

Lemma b2z_land x s : 0 <= s -> Z.land (Z.shiftr x s) 1 = Z.b2z (Z.testbit x s).
Proof.
  intros Hs. change 1 with (Z.ones 1) at 1. rewrite Z.land_ones by lia.
  rewrite Z.testbit_spec' by lia. by rewrite Z.shiftr_div_pow2 by lia.
Qed.

Lemma bit_at_kbit l i : bit_at l i = Z.b2z (kbit l i).
Proof.
  unfold bit_at, kbit. apply b2z_land. pose proof (Nat.mod_upper_bound i 8). lia.
Qed.

Lemma bits_of_length l : length (bits_of l) = (8 * length l)%nat.
Proof. unfold bits_of. by rewrite length_fmap, length_seq. Qed.

Lemma kbit_cons b l j : kbit (b :: l) (8 + j) = kbit l j.
Proof.
  unfold kbit. by rewrite div8_S, mod8_S.
Qed.

Lemma bits_of_cons b l : bits_of (b :: l) = bits_of [b] ++ bits_of l.
Proof.
  unfold bits_of. cbn [length]. replace (8 * S (length l))%nat with (8 + 8 * length l)%nat by lia.
  rewrite seq_app, fmap_app. f_equal.
  change (0 + 8)%nat with (8 + 0)%nat. rewrite <-fmap_add_seq, <-list_fmap_compose.
  apply list_fmap_ext. intros i j _. apply (kbit_cons b l j).
Qed.

Lemma byte_of_bits_of b : is_u8 b -> byte_of_bits (bits_of [b]) = b.
Proof.
  intros Hb. apply Z.eqb_eq.
  apply (byte_forall (fun b => byte_of_bits (bits_of [b]) =? b)); [vm_compute; reflexivity|done].
Qed.

Lemma full_bytes_bits_of l R : bytes_ok l -> full_bytes (bits_of l ++ R) = l ++ full_bytes R.
Proof.
  induction l as [|b l IH]; intros Hl; [done|]. apply bytes_ok_cons in Hl as [Hb Hl].
  rewrite bits_of_cons, <-app_assoc, full_bytes_chunk by done.
  by rewrite byte_of_bits_of, IH.
Qed.

Lemma full_bytes_false n : full_bytes (replicate n false) = replicate (n / 8) 0.
Proof.
  induction (lt_wf n) as [n _ IH]. destruct (decide (n < 8)%nat).
  - rewrite Nat.div_small, full_bytes_short by (by rewrite ?length_replicate). done.
  - replace n with (8 + (n - 8))%nat by lia. rewrite div8_S, replicate_add.
    rewrite full_bytes_chunk, IH by (done || lia). done.
Qed.

(** ** The loop of [addr_for_key], on bits *)

Definition bit_step (a : addr_acc) (b : bool) : addr_acc := addr_step [if b then 1 else 0] a 7.

Lemma bit_step_spec inv a i : addr_step inv a i = bit_step a (kbit inv i).
Proof.
  unfold bit_step, addr_step. rewrite !bit_at_kbit.
  replace (kbit [if kbit inv i then 1 else 0] 7) with (kbit inv i); [done|].
  by destruct (kbit inv i).
Qed.

Lemma addr_loop_bits inv a :
  fold_left (addr_step inv) (seq 0 (8 * length inv)) a = fold_left bit_step (bits_of inv) a.
Proof.
  unfold bits_of. generalize (seq 0 (8 * length inv)) as l. intros l. revert a.
  induction l as [|i l IH]; intros a; [done|]. cbn [fold_left fmap list_fmap].
  by rewrite bit_step_spec, IH.
Qed.

Lemma bit_loop_ones t n o :
  0 <= o <= 255 ->
  fold_left bit_step (replicate n true) (mkAcc t 0 0 0 false o)
  = mkAcc t 0 0 0 false (Z.min (o + Z.of_nat n) 255).
Proof.
  revert o. induction n as [|n IH]; intros o Ho; cbn [replicate fold_left].
  - f_equal. lia.
  - change (bit_step (mkAcc t 0 0 0 false o) true) with (mkAcc t 0 0 0 false (Z.min (o + 1) 255)).
    rewrite IH by lia. f_equal. lia.
Qed.

Lemma kbit_single (b : bool) : kbit [if b then 1 else 0] 7 = b.
Proof. by destruct b. Qed.

Lemma bit_step_more t len x nb o b : (nb < 7)%nat ->
  bit_step (mkAcc t len x nb true o) b
  = mkAcc t len (Z.lor (wrap8 (Z.shiftl x 1)) (Z.b2z b)) (S nb) true o.
Proof.
  intros Hn. unfold bit_step, addr_step. rewrite bit_at_kbit, kbit_single.
  cbn [acc_seen_zero acc_nbits acc_temp acc_len acc_bits acc_ones negb andb].
  by rewrite decide_False by lia.
Qed.

Lemma bit_step_store t len x o b : (len < length t)%nat ->
  bit_step (mkAcc t len x 7 true o) b
  = mkAcc (<[len := Z.lor (wrap8 (Z.shiftl x 1)) (Z.b2z b)]> t) (S len) 0 0 true o.
Proof.
  intros Hl. unfold bit_step, addr_step. rewrite bit_at_kbit, kbit_single.
  cbn [acc_seen_zero acc_nbits acc_temp acc_len acc_bits acc_ones negb andb].
  by rewrite decide_True, decide_True by done.
Qed.

Lemma bit_step_partial bs t len x nb o :
  (nb + length bs < 8)%nat ->
  fold_left bit_step bs (mkAcc t len x nb true o)
  = mkAcc t len (fold_left (fun a b => Z.lor (wrap8 (Z.shiftl a 1)) (Z.b2z b)) bs x) (nb + length bs) true o.
Proof.
  revert x nb. induction bs as [|b bs IH]; intros x nb Hn; cbn [fold_left length] in *.
  - by rewrite Nat.add_0_r.
  - rewrite bit_step_more, IH by lia. f_equal. lia.
Qed.

Lemma bit_step_chunk bs t len o :
  length bs = 8%nat -> (len < length t)%nat ->
  fold_left bit_step bs (mkAcc t len 0 0 true o) = mkAcc (<[len := byte_of_bits bs]> t) (S len) 0 0 true o.
Proof.
  intros Hb Hl. destruct bs as [|b bs _] using rev_ind; [done|].
  rewrite length_app in Hb. cbn [length] in Hb.
  unfold byte_of_bits. rewrite !fold_left_app. cbn [fold_left]. rewrite bit_step_partial by lia.
  replace (0 + length bs)%nat with 7%nat by lia. by rewrite bit_step_store.
Qed.

Lemma bit_loop_bytes R done k o :
  (length (full_bytes R) <= k)%nat ->
  exists x nb, fold_left bit_step R (mkAcc (done ++ replicate k 0) (length done) 0 0 true o)
  = mkAcc (done ++ full_bytes R ++ replicate (k - length (full_bytes R)) 0)
          (length done + length (full_bytes R)) x nb true o.
Proof.
  revert done k. induction R as [R HR|bs R Hb IH] using chunk_ind; intros dn k Hk.
  - rewrite full_bytes_short by done. cbn [length app]. rewrite Nat.sub_0_r, Nat.add_0_r.
    rewrite bit_step_partial by lia. by eexists _, _.
  - rewrite full_bytes_chunk in * by done. cbn [length] in Hk. destruct k as [|k]; [lia|].
    rewrite fold_left_app, bit_step_chunk; [|done|rewrite length_app, length_replicate; lia].
    rewrite insert_app_r_alt, Nat.sub_diag by lia. cbn [replicate insert list_insert].
    destruct (IH (dn ++ [byte_of_bits bs]) k) as (x & nb & E); [lia|].
    rewrite <-!app_assoc, length_app in E. cbn [app length] in E |- *.
    rewrite Nat.add_1_r in E. rewrite E. exists x, nb. f_equal. lia.
Qed.

Lemma leading_ones (B : list bool) :
  (exists n R, B = replicate n true ++ false :: R) \/ B = replicate (length B) true.
Proof.
  induction B as [|[] B [(n & R & ->)|IH]]; simpl.
  - by right.
  - left. by exists (S n), R.
  - right. by f_equal.
  - left. by exists 0%nat, (replicate n true ++ false :: R).
  - left. by exists 0%nat, B.
Qed.

Lemma pad_payload_spec l k : (length l <= k)%nat -> (ADDR_PAYLOAD_LEN <= k)%nat ->
  take (Nat.min (length l) ADDR_PAYLOAD_LEN) (l ++ replicate (k - length l) 0)
    ++ replicate (ADDR_PAYLOAD_LEN - Nat.min (length l) ADDR_PAYLOAD_LEN) 0 = pad_payload l.
Proof.
  intros Hl Hk. unfold pad_payload. destruct (decide (length l <= ADDR_PAYLOAD_LEN)%nat).
  - rewrite Nat.min_l, take_app_length by done. by rewrite take_ge.
  - rewrite Nat.min_r by lia. rewrite take_app_le by lia. do 2 f_equal. lia.
Qed.

Lemma u8_not_ok b : is_u8 (u8_not b).
Proof. apply wrap8_range. Qed.

Lemma full_bytes_fits R : (length R <= 256)%nat -> (length (full_bytes R) <= KEY_LEN)%nat.
Proof.
  intros. rewrite full_bytes_length. apply Nat.Div0.div_le_upper_bound. unfold KEY_LEN. lia.
Qed.

Lemma addr_for_key_of_bits k n R :
  key_ok k -> bits_of (u8_not <$> k) = replicate n true ++ false :: R ->
  length R = (255 - n)%nat /\ (n <= 255)%nat /\
  addr_octets (addr_for_key k) = NODE_PREFIX :: Z.of_nat n :: pad_payload (full_bytes R).
Proof.
  intros [Hk Hlen] E. unfold addr_for_key. set (inv := u8_not <$> k) in *.
  assert (length inv = KEY_LEN) as Hinv by (unfold inv; by rewrite length_fmap).
  pose proof (bits_of_length inv) as HB. rewrite E, Hinv, length_app, length_replicate in HB.
  cbn [length] in HB. unfold KEY_LEN in HB.
  split; [lia|]. split; [lia|]. unfold KEY_BITS. rewrite <-Hinv, addr_loop_bits, Hinv.
  rewrite E, fold_left_app, bit_loop_ones by lia. cbn [fold_left]. rewrite Z.min_l by lia.
  change (bit_step (mkAcc ?t 0 0 0 false ?o) false) with (mkAcc t 0 0 0 true o).
  destruct (bit_loop_bytes R [] KEY_LEN (0 + Z.of_nat n)) as (x & nb & El); [apply full_bytes_fits; lia|].
  cbn [app length] in El. rewrite El. cbn [acc_len acc_temp acc_ones addr_octets].
  rewrite Nat.add_0_l, Z.add_0_l. do 2 f_equal. apply pad_payload_spec; [apply full_bytes_fits; lia|].
  unfold ADDR_PAYLOAD_LEN, ADDR_LEN, PREFIX_LEN, KEY_LEN. lia.
Qed.

(** What [addr_for_key] computes: the prefix, the count [o] of leading ones of
    the inverted key (cut at 255) and the whole bytes of the [255 - o] bits that
    follow its first zero, padded with zeros to fourteen bytes. *)
Lemma addr_for_key_bits k : key_ok k ->
  exists (o : nat) R, (o <= 255)%nat /\ length R = (255 - o)%nat /\
    addr_octets (addr_for_key k) = NODE_PREFIX :: Z.of_nat o :: pad_payload (full_bytes R).
Proof.
  intros Hk. destruct (leading_ones (bits_of (u8_not <$> k))) as [(n & R & E)|E].
  - destruct (addr_for_key_of_bits k n R Hk E) as (H1 & H2 & H3). exists n, R.
    split; [exact H2|]. split; [exact H1|exact H3].
  - destruct Hk as [Hk Hlen]. exists 255%nat, []. split; [lia|]. split; [done|].
    rewrite bits_of_length, length_fmap, Hlen in E.
    unfold addr_for_key, KEY_BITS. rewrite <-Hlen, <-(length_fmap u8_not k), addr_loop_bits, E.
    rewrite length_fmap, Hlen, bit_loop_ones by lia. vm_compute. reflexivity.
Qed.

(** ** The loops of [key_for_addr], on bits *)

Lemma idx_split i : (i = 8 * (i / 8) + i mod 8)%nat.
Proof. apply Nat.div_mod_eq. Qed.

Lemma kbit_or_bit key i b j :
  (i / 8 < length key)%nat ->
  kbit (or_bit key i (Z.b2z b)) j = kbit key j || (bool_decide (j = i) && b).
Proof.
  intros Hl. unfold kbit, or_bit in *.
  pose proof (Nat.mod_upper_bound i 8). pose proof (Nat.mod_upper_bound j 8).
  pose proof (idx_split i). pose proof (idx_split j).
  destruct (decide (j / 8 = i / 8)%nat) as [E|E].
  - rewrite E, list_lookup_total_insert_eq by lia. rewrite Z.lor_spec. f_equal.
    rewrite Z.shiftl_spec by lia. case_bool_decide as Hji.
    + subst j. rewrite Z.sub_diag. by destruct b.
    + destruct (decide (j mod 8 < i mod 8)%nat).
      * replace (7 - Z.of_nat (j mod 8) - (7 - Z.of_nat (i mod 8)))
          with (Z.succ (Z.of_nat (i mod 8) - Z.of_nat (j mod 8) - 1)) by lia.
        destruct b; [|apply Z.bits_0]. change (Z.b2z true) with (2 * 0 + 1).
        rewrite Z.testbit_odd_succ by lia. apply Z.bits_0.
      * apply Z.testbit_neg_r. lia.
  - rewrite list_lookup_total_insert_ne by done. rewrite bool_decide_eq_false_2 by (intros ->; done).
    by rewrite orb_false_r.
Qed.

Lemma key_idx (key : bytes) i : length key = KEY_LEN -> (i < KEY_BITS)%nat -> (i / 8 < length key)%nat.
Proof. intros ->. intros. by apply Nat.Div0.div_lt_upper_bound. Qed.

Lemma or_bit_length key i x : length (or_bit key i x) = length key.
Proof. apply length_insert. Qed.

Lemma lor_u8 a b : is_u8 a -> is_u8 b -> is_u8 (Z.lor a b).
Proof.
  unfold is_u8. intros Ha Hb. split; [apply Z.lor_nonneg; lia|].
  destruct (decide (Z.lor a b = 0)) as [->|Hnz]; [lia|].
  change 256 with (2 ^ 8). apply Z.log2_lt_pow2; [pose proof (proj2 (Z.lor_nonneg a b)); lia|].
  rewrite Z.log2_lor by lia.
  assert (forall z, 0 <= z < 256 -> Z.log2 z < 8) as Hlog.
  { intros z Hz. destruct (decide (z = 0)) as [->|]; [simpl; lia|]. apply Z.log2_lt_pow2; simpl; lia. }
  apply Z.max_lub_lt; auto.
Qed.

Lemma bytes_ok_lookup_total l i : bytes_ok l -> is_u8 (l !!! i).
Proof.
  intros Hl. rewrite list_lookup_total_alt. destruct (l !! i) as [b|] eqn:E; simpl.
  - by eapply Forall_lookup_1 in E.
  - unfold is_u8. simpl. lia.
Qed.

Lemma or_bit_ok key i b : bytes_ok key -> bytes_ok (or_bit key i (Z.b2z b)).
Proof.
  intros Hk. apply Forall_insert; [done|]. apply lor_u8; [by apply bytes_ok_lookup_total|].
  pose proof (Nat.mod_upper_bound i 8). remember (i mod 8)%nat as m.
  do 8 (destruct m as [|m]; [destruct b; vm_compute; intuition congruence|]). lia.
Qed.

Lemma ones_loop_step key i :
  <[(i / 8)%nat := Z.lor (key !!! (i / 8)%nat) (Z.shiftr 128 (Z.of_nat (i mod 8)))]> key
  = or_bit key i (Z.b2z true).
Proof.
  unfold or_bit. do 2 f_equal. pose proof (Nat.mod_upper_bound i 8). remember (i mod 8)%nat as m.
  do 8 (destruct m as [|m]; [done|]). lia.
Qed.

(** A key array being filled: 32 bytes whose bits are given by [f]. *)
Definition key_bits (key : bytes) (f : nat -> bool) : Prop :=
  length key = KEY_LEN /\ bytes_ok key /\ forall j, (j < KEY_BITS)%nat -> kbit key j = f j.

Lemma ones_loop n : (n <= KEY_BITS)%nat ->
  key_bits (fold_left (fun key idx =>
    <[(idx / 8)%nat := Z.lor (key !!! (idx / 8)%nat) (Z.shiftr 128 (Z.of_nat (idx mod 8)))]> key)
    (seq 0 n) (replicate KEY_LEN 0)) (fun j => bool_decide (j < n)%nat).
Proof.
  induction n as [|n IH]; intros Hn.
  - split; [done|]. split; [apply bytes_ok_replicate; unfold is_u8; lia|].
    intros j Hj. rewrite bool_decide_eq_false_2 by lia. unfold kbit. cbn [seq fold_left].
    rewrite lookup_total_replicate_2; [apply Z.bits_0|]. unfold KEY_BITS in Hj.
    apply Nat.Div0.div_lt_upper_bound. lia.
  - rewrite seq_S, fold_left_app. cbn [fold_left]. rewrite Nat.add_0_l, ones_loop_step.
    destruct IH as (Hl & Ho & Hb); [lia|]. split; [by rewrite or_bit_length|].
    split; [by apply or_bit_ok|]. intros j Hj. rewrite kbit_or_bit by (apply key_idx; done || lia).
    rewrite Hb by done. repeat case_bool_decide; simpl; try done; lia.
Qed.

Lemma payload_loop addr off n f : forall s key,
  key_bits key f -> (PAYLOAD_BIT_OFFSET <= s)%nat ->
  key_bits (key_payload_loop addr off (seq s n) key)
    (fun j => f j || (bool_decide (off + (s - PAYLOAD_BIT_OFFSET) <= j < off + (s - PAYLOAD_BIT_OFFSET) + n)%nat
                      && kbit addr (PAYLOAD_BIT_OFFSET + (j - off)))).
Proof.
  revert f. induction n as [|n IH]; intros f s key Hk Hs.
  - destruct Hk as (Hl & Ho & Hb). split; [done|]. split; [done|]. intros j Hj. cbn [seq key_payload_loop].
    rewrite bool_decide_eq_false_2 by lia. by rewrite Hb, orb_false_r.
  - cbn [seq key_payload_loop]. destruct Hk as (Hl & Ho & Hb).
    set (i := (off + (s - PAYLOAD_BIT_OFFSET))%nat). case_decide as Hi.
    + split; [done|]. split; [done|]. intros j Hj. rewrite Hb by done.
      rewrite bool_decide_eq_false_2; [by rewrite orb_false_r|]. intros Hr.
      assert (i <= j)%nat by (unfold i in *; lia).
      assert (i / 8 <= j / 8)%nat by (by apply Nat.Div0.div_le_mono).
      assert (j / 8 < KEY_LEN)%nat by (apply Nat.Div0.div_lt_upper_bound; unfold KEY_BITS in Hj; lia). lia.
    + rewrite bit_at_kbit.
      assert (i < KEY_BITS)%nat as HiB.
      { destruct (decide (i < KEY_BITS)%nat); [done|]. exfalso. apply Hi.
        apply Nat.div_le_lower_bound; [lia|]. unfold KEY_BITS in *. lia. }
      destruct (IH (fun j => f j || (bool_decide (j = i) && kbit addr s)) (S s) (or_bit key i (Z.b2z (kbit addr s))))
        as (Hl' & Ho' & Hb'); [|lia|].
      { split; [by rewrite or_bit_length|]. split; [by apply or_bit_ok|].
        intros j Hj. rewrite kbit_or_bit by (by apply key_idx). by rewrite Hb. }
      split; [done|]. split; [done|]. intros j Hj. rewrite Hb' by done. unfold i. rewrite <-orb_assoc. f_equal.
      destruct (decide (j = i)) as [->|Hne].
      * replace (PAYLOAD_BIT_OFFSET + (i - off))%nat with s by (unfold i; lia).
        repeat case_bool_decide; try (exfalso; unfold i in *; lia). cbn [andb]. by rewrite orb_false_r.
      * repeat case_bool_decide; try (exfalso; unfold i in *; lia); done.
Qed.

Lemma u8_not_not b : is_u8 b -> u8_not (u8_not b) = b.
Proof.
  intros Hb. apply Z.eqb_eq.
  apply (byte_forall (fun b => u8_not (u8_not b) =? b)); [vm_compute; reflexivity|done].
Qed.

Lemma u8_not_list l : bytes_ok l -> u8_not <$> (u8_not <$> l) = l.
Proof.
  induction l as [|b l IH]; intros Hl; [done|]. apply bytes_ok_cons in Hl as [Hb Hl].
  cbn [fmap list_fmap]. by rewrite u8_not_not, IH.
Qed.

Lemma u8_not_bytes l : bytes_ok (u8_not <$> l).
Proof. apply Forall_fmap, Forall_true. intros. apply u8_not_ok. Qed.

(** What [key_for_addr] computes: a key whose inverted bits are [o] ones, a
    zero, and the payload bits of the address followed by zeros. *)
Lemma key_for_addr_bits x o P :
  (o <= 255)%nat -> length P = ADDR_PAYLOAD_LEN ->
  let k := key_for_addr (mkAddress (x :: Z.of_nat o :: P)) in
  key_ok k /\
  bits_of (u8_not <$> k) = replicate o true ++ false :: take (255 - o) (bits_of P ++ replicate 256 false).
Proof.
  intros Ho HP. cbv zeta. unfold key_for_addr. cbn [addr_octets].
  replace (Nat.min (Z.to_nat ((x :: Z.of_nat o :: P) !!! PREFIX_LEN)) KEY_BITS) with o
    by (unfold PREFIX_LEN, KEY_BITS, KEY_LEN; cbn -[Nat.mul Nat.min]; rewrite Nat2Z.id; lia).
  set (key1 := fold_left _ (seq 0 o) _).
  destruct (payload_loop (x :: Z.of_nat o :: P) (o + 1) (8 * ADDR_LEN - PAYLOAD_BIT_OFFSET)
    (fun j => bool_decide (j < o)%nat) PAYLOAD_BIT_OFFSET key1) as (Hl & Hok & Hb);
    [apply ones_loop; unfold KEY_BITS, KEY_LEN; lia|done|].
  set (key2 := key_payload_loop _ _ _ _) in *. split.
  { split; [apply u8_not_bytes|]. by rewrite length_fmap. }
  rewrite u8_not_list by done. apply list_eq_same_length with 256%nat.
  { rewrite length_app. cbn [length]. rewrite length_replicate, length_take, length_app, bits_of_length, length_replicate. lia. }
  { rewrite bits_of_length, Hl. done. }
  intros j b b' Hj. unfold bits_of at 1. rewrite list_lookup_fmap, lookup_seq_lt by (rewrite Hl; unfold KEY_LEN; lia).
  cbn [fmap option_fmap option_map]. intros [= <-] Hb'. rewrite Hb by (unfold KEY_BITS, KEY_LEN; lia).
  destruct (decide (j < o)%nat) as [Hlt|Hge].
  - rewrite lookup_app_l, lookup_replicate_2 in Hb' by (rewrite ?length_replicate; lia). simplify_eq.
    by rewrite bool_decide_eq_true_2.
  - rewrite (bool_decide_eq_false_2 (j < o)%nat) by done. cbn [orb].
    rewrite lookup_app_r in Hb' by (rewrite length_replicate; lia). rewrite length_replicate in Hb'.
    destruct (decide (j = o)) as [->|Hne].
    + rewrite Nat.sub_diag in Hb'. simpl in Hb'. simplify_eq. rewrite bool_decide_eq_false_2 by lia. done.
    + replace (j - o)%nat with (S (j - o - 1)) in Hb' by lia.
      change ((?b0 :: ?l0) !! S ?i0) with (l0 !! i0) in Hb'.
      rewrite lookup_take_lt in Hb' by lia.
      unfold PAYLOAD_BIT_OFFSET, PREFIX_LEN, ADDR_LEN, ADDR_PAYLOAD_LEN in *.
      change (8 * (1 + 1))%nat with 16%nat. change (8 * 16 - 16)%nat with 112%nat. rewrite Nat.sub_diag.
      replace (16 + (j - (o + 1)))%nat with (8 + (8 + (j - o - 1)))%nat by lia. rewrite !kbit_cons.
      destruct (decide (j - o - 1 < 112)%nat).
      * rewrite lookup_app_l in Hb' by (rewrite bits_of_length, HP; cbn; lia). unfold bits_of in Hb'.
        rewrite list_lookup_fmap, lookup_seq_lt in Hb' by (rewrite HP; cbn; lia).
        cbn [fmap option_fmap option_map] in Hb'. simplify_eq. rewrite bool_decide_eq_true_2 by lia. done.
      * rewrite lookup_app_r in Hb' by (rewrite bits_of_length, HP; cbn; lia).
        rewrite lookup_replicate_2 in Hb' by (rewrite bits_of_length, HP; cbn; lia). simplify_eq.
        rewrite bool_decide_eq_false_2 by lia. done.
Qed.

#[local] Opaque addr_for_key key_for_addr.

(** ** Round trips *)

(** The payload is zero beyond its first [m] bytes. *)
Definition zero_beyond (m : nat) (P : bytes) : Prop := drop m P = replicate (length P - m) 0.

Lemma pad_payload_length l : length (pad_payload l) = ADDR_PAYLOAD_LEN.
Proof. unfold pad_payload. rewrite length_app, length_take, length_replicate. lia. Qed.

Lemma pad_payload_zero l : zero_beyond (length l) (pad_payload l).
Proof.
  unfold zero_beyond. rewrite pad_payload_length. unfold pad_payload.
  rewrite drop_app, length_take, (drop_ge (take _ _)) by (rewrite length_take; lia).
  cbn [app]. rewrite drop_replicate. f_equal. lia.
Qed.

Lemma full_bytes_ok R : bytes_ok (full_bytes R).
Proof.
  induction R as [R HR|bs R Hb IH] using chunk_ind.
  - rewrite full_bytes_short by done. constructor.
  - rewrite full_bytes_chunk by done. constructor; [|done].
    do 8 (destruct bs as [|[] bs]; [done| |]);
      (destruct bs; [vm_compute; split; congruence|simpl in Hb; lia]).
Qed.

Lemma pad_payload_ok l : bytes_ok l -> bytes_ok (pad_payload l).
Proof.
  intros. apply bytes_ok_app. split; [by apply bytes_ok_take|].
  apply bytes_ok_replicate. unfold is_u8. lia.
Qed.

(** The payload bits of an address survive the trip through a key. *)
Lemma pad_payload_rebuild m P :
  bytes_ok P -> length P = ADDR_PAYLOAD_LEN -> zero_beyond (m / 8) P -> (m <= 255)%nat ->
  pad_payload (full_bytes (take m (bits_of P ++ replicate 256 false))) = P.
Proof.
  intros HP Hl Hz Hm. rewrite full_bytes_take, full_bytes_bits_of, full_bytes_false by done.
  change (256 / 8)%nat with 32%nat. remember (m / 8)%nat as q eqn:Eq.
  assert (q < 32)%nat by (subst; apply Nat.Div0.div_lt_upper_bound; lia). clear Eq Hm m.
  unfold pad_payload. unfold ADDR_PAYLOAD_LEN, ADDR_LEN, PREFIX_LEN in *.
  rewrite take_take, length_take, length_app, length_replicate, Hl.
  destruct (decide (q <= 14)%nat).
  - rewrite Nat.min_r, take_app_le by lia.
    replace (16 - 1 - 1 - Nat.min q (16 - 1 - 1 + 32))%nat with (length P - q)%nat by lia.
    rewrite <-Hz. apply take_drop.
  - rewrite Nat.min_l, take_app_le by lia. rewrite take_ge by lia.
    replace (16 - 1 - 1 - Nat.min q (16 - 1 - 1 + 32))%nat with 0%nat by lia.
    apply app_nil_r.
Qed.

Lemma addr_rebuild x o P :
  (o <= 255)%nat -> bytes_ok P -> length P = ADDR_PAYLOAD_LEN -> zero_beyond ((255 - o) / 8) P ->
  addr_for_key (key_for_addr (mkAddress (x :: Z.of_nat o :: P)))
  = mkAddress (NODE_PREFIX :: Z.of_nat o :: P).
Proof.
  intros Ho HP Hl Hz. destruct (key_for_addr_bits x o P Ho Hl) as [Hk E].
  destruct (addr_for_key_of_bits _ _ _ Hk E) as (_ & _ & Ha).
  rewrite (pad_payload_rebuild (255 - o) P HP Hl Hz) in Ha by lia.
  revert Ha. destruct (addr_for_key _). simpl. by intros ->.
Qed.

Lemma addr_for_key_shape k : key_ok k -> exists (o : nat) P,
  (o <= 255)%nat /\ bytes_ok P /\ length P = ADDR_PAYLOAD_LEN /\ zero_beyond ((255 - o) / 8) P /\
  addr_for_key k = mkAddress (NODE_PREFIX :: Z.of_nat o :: P).
Proof.
  intros Hk. destruct (addr_for_key_bits k Hk) as (o & R & Ho & HR & E).
  exists o, (pad_payload (full_bytes R)). split; [done|].
  split; [by apply pad_payload_ok, full_bytes_ok|]. split; [apply pad_payload_length|].
  split.
  - rewrite <-HR, <-full_bytes_length. apply pad_payload_zero.
  - revert E. destruct (addr_for_key k). simpl. by intros ->.
Qed.

Lemma zero_beyond_take m n P :
  zero_beyond m P -> zero_beyond m (take n P ++ replicate (length P - n) 0).
Proof.
  unfold zero_beyond. intros Hz.
  rewrite length_app, length_take, length_replicate, drop_app, length_take.
  rewrite skipn_firstn_comm, Hz, take_replicate, drop_replicate, <-replicate_add. f_equal. lia.
Qed.

(** What the subnet of a key is, and the 16-byte address [key_for_subnet] reads. *)
Lemma subnet_shape k : key_ok k -> exists (o : nat) P,
  (o <= 255)%nat /\ bytes_ok P /\ length P = 6%nat /\
  zero_beyond ((255 - o) / 8) (P ++ replicate 8 0) /\
  subnet_for_key k = mkSubnet (3 :: Z.of_nat o :: P).
Proof.
  intros Hk. destruct (addr_for_key_shape k Hk) as (o & P & Ho & HP & Hl & Hz & E).
  exists o, (take 6 P). split; [done|]. split; [by apply bytes_ok_take|].
  unfold ADDR_PAYLOAD_LEN, ADDR_LEN, PREFIX_LEN in Hl.
  split; [rewrite length_take; lia|]. split.
  - apply (zero_beyond_take _ 6) in Hz. by rewrite Hl in Hz.
  - unfold subnet_for_key. rewrite E. reflexivity.
Qed.

Lemma key_for_subnet_addr x o P host :
  length P = 6%nat -> length host = 8%nat ->
  key_for_subnet (mkSubnet (take SUBNET_LEN ((x :: o :: P) ++ host)))
  = key_for_addr (mkAddress (x :: o :: P ++ replicate 8 0)).
Proof.
  intros HP Hh. unfold key_for_subnet, SUBNET_LEN. cbn [snet_octets].
  rewrite take_take, take_app_exact by (cbn; lia). reflexivity.
Qed.

Lemma subnet_octets_addr x o P :
  length P = 6%nat ->
  key_for_subnet (mkSubnet (x :: o :: P)) = key_for_addr (mkAddress (x :: o :: P ++ replicate 8 0)).
Proof.
  intros HP. unfold key_for_subnet, SUBNET_LEN. cbn [snet_octets].
  rewrite take_ge by (cbn; lia). reflexivity.
Qed.

(** The key a subnet stands for gives the same subnet back. *)
Lemma subnet_rebuild x o P :
  (o <= 255)%nat -> bytes_ok P -> length P = 6%nat ->
  zero_beyond ((255 - o) / 8) (P ++ replicate 8 0) ->
  subnet_for_key (key_for_subnet (mkSubnet (x :: Z.of_nat o :: P))) = mkSubnet (3 :: Z.of_nat o :: P).
Proof.
  intros Ho HP Hl Hz. rewrite subnet_octets_addr by done. unfold subnet_for_key.
  rewrite addr_rebuild; try done.
  - cbn [addr_octets]. unfold SUBNET_LEN. cbn [take]. rewrite take_app_exact by done. reflexivity.
  - apply bytes_ok_app. split; [done|]. apply bytes_ok_replicate. unfold is_u8; lia.
  - rewrite length_app, Hl. done.
Qed.

Lemma key_for_addr_octet0 x y o P : key_for_addr (mkAddress (x :: o :: P)) = key_for_addr (mkAddress (y :: o :: P)).
Proof. reflexivity. Qed.

(** ** Properties *)

(** The address, the subnet and the key recovered from either have the
    shape the rest of the program assumes: 16 and 8 bytes with the right
    prefix (so [is_valid] holds and the two ranges are disjoint), and 32 bytes. *)
Theorem addr_for_key_valid k : key_ok k ->
  length (addr_octets (addr_for_key k)) = ADDR_LEN /\ bytes_ok (addr_octets (addr_for_key k)) /\
  Address_is_valid (addr_for_key k) = true /\ Address_is_subnet (addr_for_key k) = false /\
  length (snet_octets (subnet_for_key k)) = SUBNET_LEN /\ Subnet_is_valid (subnet_for_key k) = true /\
  key_ok (key_for_addr (addr_for_key k)) /\ key_ok (xkey k).
Proof.
  intros Hk. destruct (addr_for_key_shape k Hk) as (o & P & Ho & HP & Hl & Hz & E).
  destruct (subnet_shape k Hk) as (o' & P' & Ho' & HP' & Hl' & Hz' & E').
  unfold xkey. rewrite E, E', subnet_octets_addr by done. cbn [addr_octets snet_octets].
  split; [cbn; by rewrite Hl|]. split.
  { apply bytes_ok_cons. split; [unfold is_u8, NODE_PREFIX; lia|].
    apply bytes_ok_cons. split; [unfold is_u8; lia|exact HP]. }
  split; [done|]. split; [done|]. split; [cbn; by rewrite Hl'|]. split; [done|].
  split; apply key_for_addr_bits; [exact Ho|exact Hl|exact Ho'|]. rewrite length_app, Hl'. reflexivity.
Qed.

Lemma addr_for_key_valid_witness :
  key_ok PUB /\ Address_is_valid (addr_for_key PUB) = true.
Proof.
  assert (key_ok PUB) as H by (apply (bool_decide_unpack _); vm_compute; exact I).
  split; [exact H|]. apply (addr_for_key_valid PUB H).
Defined.

(** The partial key recovered from a node's address derives that very
    address again: replacing a destination key by [key_for_addr] of its
    address never changes the address the node answers to. *)
Theorem addr_key_addr k : key_ok k -> addr_for_key (key_for_addr (addr_for_key k)) = addr_for_key k.
Proof.
  intros Hk. destruct (addr_for_key_shape k Hk) as (o & P & Ho & HP & Hl & Hz & ->).
  by apply addr_rebuild.
Qed.

Lemma addr_key_addr_witness :
  key_ok PUB /\ addr_for_key (key_for_addr (addr_for_key PUB)) = addr_for_key PUB.
Proof.
  assert (key_ok PUB) as H by (apply (bool_decide_unpack _); vm_compute; exact I).
  split; [exact H|]. exact (addr_key_addr PUB H).
Defined.

(** The DHT transform is idempotent and keeps the subnet: a lookup sent
    for a transformed key names the same subnet as the original key. *)
Theorem xkey_idempotent k : key_ok k ->
  subnet_for_key (xkey k) = subnet_for_key k /\ xkey (xkey k) = xkey k.
Proof.
  intros Hk. destruct (subnet_shape k Hk) as (o & P & Ho & HP & Hl & Hz & E).
  assert (subnet_for_key (xkey k) = subnet_for_key k) as Hs.
  { unfold xkey. rewrite E. by apply subnet_rebuild. }
  split; [exact Hs|]. unfold xkey at 1. rewrite Hs. unfold xkey. reflexivity.
Qed.

Lemma xkey_idempotent_witness : key_ok PUB /\ xkey (xkey PUB) = xkey PUB.
Proof.
  assert (key_ok PUB) as H by (apply (bool_decide_unpack _); vm_compute; exact I).
  split; [exact H|]. apply (xkey_idempotent PUB H).
Defined.

(** A node's address and its key are one to the DHT. *)
Lemma lookup_addr_xkey k : key_ok k -> xkey (lookup_key_for_addr (addr_for_key k)) = xkey k.
Proof.
  intros Hk. destruct (addr_for_key_shape k Hk) as (o & P & Ho & HP & Hl & Hz & E).
  unfold lookup_key_for_addr. rewrite E. change (Address_is_subnet _) with false. unfold xkey, subnet_for_key.
  rewrite addr_rebuild by done. rewrite E. reflexivity.
Qed.

(** C15: sender and owner meet in the DHT. The key a sender looks up, whether
    it knows the node's address or any address inside its /64, has the same
    transform as the owner's own key. *)
Theorem dht_rendezvous k host : key_ok k -> length host = 8%nat ->
  xkey (lookup_key_for_addr (addr_for_key k)) = xkey k /\
  lookup_key_for_addr (subnet_addr (subnet_for_key k) host) = xkey k.
Proof.
  intros Hk Hh. split; [by apply lookup_addr_xkey|].
  destruct (subnet_shape k Hk) as (o & P & Ho & HP & Hl & Hz & E).
  unfold lookup_key_for_addr, subnet_addr, xkey. rewrite E. cbn [snet_octets addr_octets].
  change (Address_is_subnet _) with true. rewrite key_for_subnet_addr by done.
  rewrite subnet_octets_addr by done. reflexivity.
Qed.

Lemma dht_rendezvous_witness :
  key_ok PUB /\ lookup_key_for_addr (subnet_addr (subnet_for_key PUB) (replicate 8 7)) = xkey PUB.
Proof.
  assert (key_ok PUB) as H by (apply (bool_decide_unpack _); vm_compute; exact I).
  split; [exact H|]. exact (proj2 (dht_rendezvous PUB (replicate 8 7) H eq_refl)).
Defined.
