(* ===== verification/Table.v ===== *)
(** * Table: the fixed-capacity open-addressed map of the core
    ([core/src/table.rs]).

    Linear probing over [N] slots with three slot states; a removal leaves a
    tombstone. The operations are translated probe by probe. The invariant
    [table_inv] says that every live key is reached from its probe start
    without meeting a never-used slot; under it every operation implements the
    operation of the same name on the finite map [table_map]. *)
From stdpp Require Import base tactics list numbers gmap.
From S2P Require Import Prelude.

Local Open Scope Z_scope.

(** ** FNV-1a *)

Definition Fnv_default : Z := 0xcbf29ce484222325.

Definition Fnv_write (h : Z) (bs : bytes) : Z :=
  fold_left (fun h b => wrapping_mul (Z.lxor h b) 0x100000001b3) bs h.

(** What [Hash::hash] feeds the hasher for a key. *)
Class HashKey (K : Type) := hash_bytes : K -> bytes.

(** [Hash for \[u8; L\]]: the length as a native-endian [usize] (little-endian
    here), then the bytes. *)
#[export] Instance array_hash : HashKey bytes :=
  fun k => rev (be_bytes 8 (Z.of_nat (length k))) ++ k.

Inductive TableFull : Type := TableFull_.

Definition NEVER_USED : Z := 0.
Definition LIVE : Z := 1.
Definition TOMBSTONE : Z := 2.

Record Table (K V : Type) : Type := mkTable {
  table_slots : list (option (K * V)); table_state : list Z; table_tombs : Z }.
Arguments mkTable {K V} _ _ _.
Arguments table_slots {K V} _.
Arguments table_state {K V} _.
Arguments table_tombs {K V} _.

Section table.
Context {K V : Type} `{!EqDecision K} `{!Countable K} `{!HashKey K}.
Variable N : nat.
Implicit Types (t : Table K V) (key : K) (v : V).

Definition Table_new : Table K V := mkTable (replicate N None) (replicate N NEVER_USED) 0.

Definition Table_occupied t : Z := Z.of_nat (length (filter (fun s => s <> NEVER_USED) (table_state t))).

Definition Table_len t : Z := Table_occupied t - table_tombs t.

Definition Table_is_empty t : bool := Table_len t =? 0.

Definition probe_start key : nat :=
  match N with
  | O => O
  | _ => Z.to_nat (Fnv_write Fnv_default (hash_bytes key) mod Z.of_nat N)
  end.

Definition next_slot (i : nat) : nat := ((i + 1) mod N)%nat.

(** The loops run at most [N] times ([for _ in 0..N]). *)
Fixpoint get_loop t key (n i : nat) : option V :=
  match n with
  | O => None
  | S n' =>
    let st := table_state t !!! i in
    if st =? NEVER_USED then None
    else if st =? LIVE then
      match table_slots t !!! i with
      | Some (k, v) => if decide (k = key) then Some v else get_loop t key n' (next_slot i)
      | None => get_loop t key n' (next_slot i)
      end
    else get_loop t key n' (next_slot i)
  end.

Definition Table_get t key : option V := get_loop t key N (probe_start key).

Fixpoint contains_loop t key (n i : nat) : bool :=
  match n with
  | O => false
  | S n' =>
    let st := table_state t !!! i in
    if st =? NEVER_USED then false
    else if st =? LIVE then
      match table_slots t !!! i with
      | Some (k, _) => if decide (k = key) then true else contains_loop t key n' (next_slot i)
      | None => contains_loop t key n' (next_slot i)
      end
    else contains_loop t key n' (next_slot i)
  end.

Definition Table_contains t key : bool := contains_loop t key N (probe_start key).

(** [slots\[i\] = Some((key, value))] on a slot that is not live. *)
Definition fill_slot t key v (i : nat) (was_tomb : bool) : Table K V :=
  mkTable (<[i := Some (key, v)]> (table_slots t)) (<[i := LIVE]> (table_state t))
    (if was_tomb then table_tombs t - 1 else table_tombs t).

Fixpoint insert_loop t key v (n i : nat) (first_tomb : option nat)
  : Table K V * (TableFull + option V) :=
  match n with
  | O =>
    match first_tomb with
    | Some j => (fill_slot t key v j true, inr None)
    | None => (t, inl TableFull_)
    end
  | S n' =>
    let st := table_state t !!! i in
    if st =? LIVE then
      match table_slots t !!! i with
      | Some (k, old) =>
        if decide (k = key) then
          (mkTable (<[i := Some (key, v)]> (table_slots t)) (table_state t) (table_tombs t), inr (Some old))
        else insert_loop t key v n' (next_slot i) first_tomb
      | None => insert_loop t key v n' (next_slot i) first_tomb
      end
    else if st =? TOMBSTONE then
      insert_loop t key v n' (next_slot i)
        (match first_tomb with Some j => Some j | None => Some i end)
    else
      let target := unwrap_or first_tomb i in
      (fill_slot t key v target (table_state t !!! target =? TOMBSTONE), inr None)
  end.

Definition Table_insert t key v : Table K V * (TableFull + option V) :=
  insert_loop t key v N (probe_start key) None.

Fixpoint remove_loop t key (n i : nat) : Table K V * option V :=
  match n with
  | O => (t, None)
  | S n' =>
    let st := table_state t !!! i in
    if st =? NEVER_USED then (t, None)
    else if st =? LIVE then
      match table_slots t !!! i with
      | Some (k, v) =>
        if decide (k = key) then
          (mkTable (<[i := None]> (table_slots t)) (<[i := TOMBSTONE]> (table_state t)) (table_tombs t + 1), Some v)
        else remove_loop t key n' (next_slot i)
      | None => remove_loop t key n' (next_slot i)
      end
    else remove_loop t key n' (next_slot i)
  end.

Definition Table_remove t key : Table K V * option V := remove_loop t key N (probe_start key).

(** [Table_for_each], the callback's captured table_state threaded. *)
Definition Table_for_each {S} t (f : S -> K -> V -> S) (s : S) : S :=
  fold_left (fun s i =>
    if table_state t !!! i =? LIVE then
      match table_slots t !!! i with Some (k, v) => f s k v | None => s end
    else s) (seq 0 N) s.

Definition Table_compact t : Table K V :=
  if table_tombs t =? 0 then t
  else Table_for_each t (fun fresh k v => (Table_insert fresh k v).1) Table_new.

(** ** The abstract map and the invariant *)

Definition slot_entries (l : list (option (K * V))) : list (K * V) := omap id l.

Definition table_map t : gmap K V := list_to_map (slot_entries (table_slots t)).

(** The [d]-th slot probed for a key. *)
Definition probe key (d : nat) : nat := ((probe_start key + d) mod N)%nat.

Definition slot_ok (st : Z) (s : option (K * V)) : Prop :=
  match s with
  | Some _ => st = LIVE
  | None => st = NEVER_USED \/ st = TOMBSTONE
  end.

Record table_inv t : Prop := {
  inv_len : length (table_slots t) = N;
  inv_slots : Forall2 slot_ok (table_state t) (table_slots t);
  inv_tombs : table_tombs t = Z.of_nat (length (filter (fun s => s = TOMBSTONE) (table_state t)));
  inv_nodup : NoDup (slot_entries (table_slots t)).*1;
  inv_chain : forall i key v, table_slots t !! i = Some (Some (key, v)) ->
    exists d, (d < N)%nat /\ i = probe key d /\
      forall d', (d' < d)%nat -> table_state t !!! (probe key d') <> NEVER_USED }.
End table.

(** ** Entries and counts under an update *)

Section updates.
Context {K V : Type} `{!EqDecision K} `{!Countable K}.
Implicit Types (l : list (option (K * V))).

Lemma slot_entries_split l i x : l !! i = Some x ->
  exists rest, slot_entries l ≡ₚ option_list x ++ rest /\
    forall y, slot_entries (<[i := y]> l) ≡ₚ option_list y ++ rest.
Proof.
  intros Hi. apply list_elem_of_split_length in Hi as (l1 & l2 & -> & ->).
  exists (slot_entries l1 ++ slot_entries l2).
  assert (forall y, slot_entries (l1 ++ y :: l2) ≡ₚ option_list y ++ slot_entries l1 ++ slot_entries l2) as H.
  { intros y. unfold slot_entries. rewrite omap_app. simpl. destruct y; simpl; [|done].
    by rewrite Permutation_middle. }
  split; [apply H|]. intros y. rewrite insert_app_r_alt, Nat.sub_diag by lia. apply H.
Qed.

Lemma slot_entries_some (p : K * V) l : slot_entries (Some p :: l) = p :: slot_entries l.
Proof. done. Qed.

Lemma slot_entries_none l : slot_entries (None :: l) = slot_entries l.
Proof. done. Qed.

Lemma slot_entries_elem l i k (v : V) : l !! i = Some (Some (k, v)) -> (k, v) ∈ slot_entries l.
Proof. intros H. apply list_elem_of_omap. exists (Some (k, v)). split; [by eapply list_elem_of_lookup_2|done]. Qed.

Lemma slot_entries_index l k (v : V) : (k, v) ∈ slot_entries l -> exists i, l !! i = Some (Some (k, v)).
Proof.
  intros H. apply list_elem_of_omap in H as (x & Hx & E). simpl in E. subst.
  by apply list_elem_of_lookup_1.
Qed.

Lemma count_insert (P : Z -> Prop) `{!forall x, Decision (P x)} (l : list Z) i x y :
  l !! i = Some x ->
  Z.of_nat (length (filter P (<[i := y]> l))) =
  Z.of_nat (length (filter P l)) - (if decide (P x) then 1 else 0) + (if decide (P y) then 1 else 0).
Proof.
  intros Hi. apply list_elem_of_split_length in Hi as (l1 & l2 & -> & ->).
  rewrite insert_app_r_alt, Nat.sub_diag by lia. cbn [insert list_insert].
  rewrite !filter_app, !length_app, !filter_cons. repeat case_decide; simpl; lia.
Qed.
End updates.

(** ** The operations implement the map *)

Section refinement.
Context {K V : Type} `{!EqDecision K} `{!Countable K} `{!HashKey K}.
Variable N : nat.
Implicit Types (t : Table K V) (key : K) (v : V).

(** The probe loop all operations share: the index of a live slot with the key. *)
Fixpoint find_loop t key (n i : nat) : option nat :=
  match n with
  | O => None
  | S n' =>
    let st := table_state t !!! i in
    if st =? NEVER_USED then None
    else if st =? LIVE then
      match table_slots t !!! i with
      | Some (k, _) => if decide (k = key) then Some i else find_loop t key n' (next_slot N i)
      | None => find_loop t key n' (next_slot N i)
      end
    else find_loop t key n' (next_slot N i)
  end.

(** Case analysis on the tests of a probe loop. *)
Ltac loop_cases :=
  repeat match goal with
  | |- context [?a =? ?b] => destruct (Z.eqb_spec a b)
  | |- context [match ?x !!! ?i with _ => _ end] => destruct (x !!! i) as [[? ?]|] eqn:?
  | |- context [decide (?k = ?key)] => destruct (decide (k = key))
  end; simplify_eq.

Ltac use_slot := match goal with H : _ !!! _ = Some _ |- _ => rewrite H end.

Lemma get_find t key n : forall i,
  get_loop N t key n i = (find_loop t key n i ≫= fun j => snd <$> table_slots t !!! j).
Proof.
  induction n as [|n IH]; intros i; [done|]. cbn [get_loop find_loop].
  loop_cases; cbn; rewrite ?IH; try done; by use_slot.
Qed.

Lemma contains_find t key n : forall i,
  contains_loop N t key n i = bool_decide (is_Some (find_loop t key n i)).
Proof.
  induction n as [|n IH]; intros i; [done|]. cbn [contains_loop find_loop].
  loop_cases; rewrite ?IH; done.
Qed.

Lemma remove_find t key n : forall i,
  remove_loop N t key n i =
  match find_loop t key n i with
  | Some j => (mkTable (<[j := None]> (table_slots t)) (<[j := TOMBSTONE]> (table_state t)) (table_tombs t + 1),
               snd <$> table_slots t !!! j)
  | None => (t, None)
  end.
Proof.
  induction n as [|n IH]; intros i; [done|]. cbn [remove_loop find_loop].
  loop_cases; cbn; rewrite ?IH; try done; by use_slot.
Qed.

Lemma slot_state t i s : table_inv N t -> table_slots t !! i = Some s ->
  exists st, table_state t !! i = Some st /\ table_state t !!! i = st /\ slot_ok st s.
Proof.
  intros Hinv Hs. destruct (Forall2_lookup_r _ _ _ _ _ (inv_slots _ _ Hinv) Hs) as (st & E & Hok).
  exists st. split; [done|]. split; [|done]. by apply list_lookup_total_correct.
Qed.

Lemma state_slot t i st : table_inv N t -> table_state t !! i = Some st ->
  exists s, table_slots t !! i = Some s /\ table_slots t !!! i = s /\ slot_ok st s.
Proof.
  intros Hinv Hs. destruct (Forall2_lookup_l _ _ _ _ _ (inv_slots _ _ Hinv) Hs) as (s & E & Hok).
  exists s. split; [done|]. split; [|done]. by apply list_lookup_total_correct.
Qed.

Lemma state_len t : table_inv N t -> length (table_state t) = N.
Proof. intros H. rewrite (Forall2_length _ _ _ (inv_slots _ _ H)). apply H. Qed.

Lemma probe_lt key d : (0 < N)%nat -> (probe N key d < N)%nat.
Proof. intros. apply Nat.mod_upper_bound. lia. Qed.

Lemma probe_0 key : (0 < N)%nat -> probe_start N key = probe N key 0.
Proof.
  intros. unfold probe. rewrite Nat.add_0_r. symmetry. apply Nat.mod_small.
  unfold probe_start. destruct N as [|n]; [lia|].
  pose proof (Z.mod_pos_bound (Fnv_write Fnv_default (hash_bytes key)) (Z.of_nat (S n))). lia.
Qed.

Lemma probe_next key d : next_slot N (probe N key d) = probe N key (S d).
Proof. unfold next_slot, probe. rewrite Nat.Div0.add_mod_idemp_l. f_equal. lia. Qed.

(** Every slot is probed for every key. *)
Lemma probe_surj key i : (i < N)%nat -> exists d, (d < N)%nat /\ i = probe N key d.
Proof.
  intros Hi. exists ((i + N - probe_start N key) mod N)%nat.
  split; [apply Nat.mod_upper_bound; lia|]. unfold probe.
  assert (probe_start N key < N)%nat by (rewrite probe_0 by lia; apply probe_lt; lia).
  rewrite Nat.Div0.add_mod_idemp_r.
  replace (probe_start N key + (i + N - probe_start N key))%nat with (i + 1 * N)%nat by lia.
  rewrite Nat.Div0.mod_add. symmetry. by apply Nat.mod_small.
Qed.

(** The slot [i] is in range, with its state and contents. *)
Lemma probe_cell t key d : table_inv N t -> (d < N)%nat ->
  exists st s, table_state t !! (probe N key d) = Some st /\ table_slots t !! (probe N key d) = Some s /\
    table_state t !!! (probe N key d) = st /\ table_slots t !!! (probe N key d) = s /\ slot_ok st s.
Proof.
  intros Hinv Hd. destruct (lookup_lt_is_Some_2 (table_state t) (probe N key d)) as [st Hst].
  { rewrite state_len by done. apply probe_lt. lia. }
  destruct (state_slot t _ st Hinv Hst) as (s & H1 & H2 & H3). exists st, s.
  repeat split; try done. by apply list_lookup_total_correct.
Qed.

Definition holds t key (i : nat) : Prop := exists v, table_slots t !! i = Some (Some (key, v)).

(** The search finds the key's slot if the table holds the key at all. *)
Lemma find_loop_spec t key n : table_inv N t -> forall d, (n + d = N)%nat ->
  (forall d', (d' < d)%nat -> ~ holds t key (probe N key d')) ->
  match find_loop t key n (probe N key d) with
  | Some j => holds t key j
  | None => forall j, ~ holds t key j
  end.
Proof.
  intros Hinv. induction n as [|n IH]; intros d Hd Hno; cbn [find_loop].
  - intros j [v Hj]. destruct (inv_chain _ _ Hinv j key v Hj) as (e & He & -> & _).
    apply (Hno e); [lia|]. by exists v.
  - destruct (probe_cell t key d Hinv) as (st & s & E1 & E2 & -> & -> & Hok); [lia|].
    assert (~ holds t key (probe N key d) -> match find_loop t key n (next_slot N (probe N key d)) with
      | Some j => holds t key j | None => forall j, ~ holds t key j end) as Hnext.
    { intros Hn. rewrite probe_next. apply IH; [lia|]. intros d' Hd'.
      destruct (decide (d' = d)) as [->|]; [done|]. apply Hno. lia. }
    unfold holds in Hnext at 1. rewrite E2 in Hnext.
    destruct (Z.eqb_spec st NEVER_USED) as [->|Hn0].
    + intros j [v Hj]. destruct (inv_chain _ _ Hinv j key v Hj) as (e & He & -> & Hch).
      destruct (Nat.lt_trichotomy e d) as [Hlt|[->|Hgt]].
      * apply (Hno e Hlt). by exists v.
      * rewrite E2 in Hj. simplify_eq. done.
      * apply (Hch d Hgt). by apply list_lookup_total_correct.
    + destruct (Z.eqb_spec st LIVE), s as [[k v]|]; [case_decide as Hk|..].
      * subst. by exists v.
      * apply Hnext. intros [? ?]. simplify_eq.
      * apply Hnext. intros [? ?]. simplify_eq.
      * simpl in Hok. done.
      * apply Hnext. intros [? ?]. simplify_eq.
Qed.

Lemma find_spec t key : table_inv N t ->
  match find_loop t key N (probe_start N key) with
  | Some j => exists v, table_slots t !! j = Some (Some (key, v)) /\ table_map t !! key = Some v
  | None => table_map t !! key = None
  end.
Proof.
  intros Hinv. destruct (decide (N = 0)%nat) as [HN|HN].
  { rewrite HN. cbn [find_loop]. unfold table_map. pose proof (inv_len _ _ Hinv) as Hl.
    destruct (table_slots t); [done|]. simpl in Hl. lia. }
  rewrite (probe_0 key) by lia.
  pose proof (find_loop_spec t key N Hinv 0 (Nat.add_0_r _)) as Hf.
  destruct (find_loop t key N (probe N key 0)) as [j|].
  - destruct Hf as [v Hv]; [lia|]. exists v. split; [done|].
    apply elem_of_list_to_map; [apply Hinv|]. by eapply slot_entries_elem.
  - apply not_elem_of_list_to_map. intros Hin. apply list_elem_of_fmap in Hin as ([k v] & -> & Hin).
    apply slot_entries_index in Hin as [i Hi]. eapply Hf; [lia|]. by exists v.
Qed.

(** An update of one slot: what changes in the map, in the counts and in the
    probe chains. The slot does not go back to never-used. *)
Lemma update_inv t i s s' st st' tb :
  table_inv N t -> table_slots t !! i = Some s -> table_state t !! i = Some st ->
  slot_ok st' s' -> (st <> NEVER_USED -> st' <> NEVER_USED) ->
  tb = table_tombs t - (if decide (st = TOMBSTONE) then 1 else 0) + (if decide (st' = TOMBSTONE) then 1 else 0) ->
  NoDup (slot_entries (<[i := s']> (table_slots t))).*1 ->
  (forall key v, s' = Some (key, v) -> exists d, (d < N)%nat /\ i = probe N key d /\
      forall d', (d' < d)%nat -> table_state t !!! (probe N key d') <> NEVER_USED) ->
  table_inv N (mkTable (<[i := s']> (table_slots t)) (<[i := st']> (table_state t)) tb).
Proof.
  intros Hinv Hs Hst Hok Hnever Htb Hnd Hch.
  assert (forall j, table_state t !!! j <> NEVER_USED -> <[i := st']> (table_state t) !!! j <> NEVER_USED) as Hmono.
  { intros j Hj. destruct (decide (i = j)) as [<-|Hne].
    - rewrite list_lookup_total_insert_eq by (by eapply lookup_lt_Some).
      apply Hnever. by rewrite (list_lookup_total_correct _ _ _ Hst) in Hj.
    - by rewrite list_lookup_total_insert_ne. }
  split; cbn [table_slots table_state table_tombs].
  - rewrite length_insert. apply Hinv.
  - apply Forall2_insert; [apply Hinv|done].
  - rewrite (count_insert _ _ _ _ _ Hst), <-(inv_tombs _ _ Hinv). done.
  - done.
  - intros j key v Hj. assert (exists d, (d < N)%nat /\ j = probe N key d /\
      forall d', (d' < d)%nat -> table_state t !!! (probe N key d') <> NEVER_USED) as (d & Hd & -> & Hd').
    { destruct (decide (i = j)) as [<-|Hne].
      - rewrite list_lookup_insert_eq in Hj by (by eapply lookup_lt_Some). simplify_eq. by eapply Hch.
      - rewrite list_lookup_insert_ne in Hj by done. by eapply inv_chain. }
    exists d. split; [done|]. split; [done|]. intros d' Hlt. by apply Hmono, Hd'.
Qed.
(** Writing an entry in a free slot, or over the same key. *)
Lemma map_fill t i s key v : table_inv N t -> table_slots t !! i = Some s ->
  (s = None /\ table_map t !! key = None \/ exists old, s = Some (key, old)) ->
  NoDup (slot_entries (<[i := Some (key, v)]> (table_slots t))).*1 /\
  list_to_map (slot_entries (<[i := Some (key, v)]> (table_slots t))) = <[key := v]> (table_map t).
Proof.
  intros Hinv Hs Hcase. destruct (slot_entries_split _ _ _ Hs) as (rest & E & E').
  specialize (E' (Some (key, v))). pose proof (inv_nodup _ _ Hinv) as Hnd. unfold table_map in *.
  assert ((key ∉ rest.*1) /\ NoDup rest.*1 /\
    <[key := v]> (list_to_map (slot_entries (table_slots t)) : gmap K V) = <[key := v]> (list_to_map rest : gmap K V)) as (Hk & Hr & Hm).
  { destruct Hcase as [[-> Hno]|[old ->]]; simpl in E.
    - rewrite <-(list_to_map_proper _ _ Hnd E). rewrite E in Hnd. split; [|done].
      apply not_elem_of_list_to_map in Hno. by rewrite E in Hno.
    - rewrite (list_to_map_proper _ _ Hnd E). rewrite E in Hnd. simpl in *.
      apply NoDup_cons in Hnd as [? ?]. split; [done|]. split; [done|]. apply insert_insert_eq. }
  assert (NoDup (slot_entries (<[i := Some (key, v)]> (table_slots t))).*1) as Hnd'.
  { rewrite E'. simpl. by apply NoDup_cons. }
  split; [done|]. rewrite (list_to_map_proper _ _ Hnd' E'). simpl. by rewrite Hm.
Qed.

Lemma map_clear t i key v : table_inv N t -> table_slots t !! i = Some (Some (key, v)) ->
  NoDup (slot_entries (<[i := None]> (table_slots t))).*1 /\
  list_to_map (slot_entries (<[i := None]> (table_slots t))) = delete key (table_map t).
Proof.
  intros Hinv Hs. destruct (slot_entries_split _ _ _ Hs) as (rest & E & E').
  specialize (E' None). pose proof (inv_nodup _ _ Hinv) as Hnd. unfold table_map in *. simpl in *.
  rewrite (list_to_map_proper _ _ Hnd E). rewrite E in Hnd. simpl in Hnd.
  apply NoDup_cons in Hnd as [? ?].
  assert (NoDup (slot_entries (<[i := None]> (table_slots t))).*1) as Hnd' by (by rewrite E').
  split; [done|]. rewrite (list_to_map_proper _ _ Hnd' E'). simpl.
  rewrite delete_insert_id; [done|]. by apply not_elem_of_list_to_map.
Qed.

(** A table without the key is full when the walk meets live slots only. *)
Definition all_live t : Prop := forall i, (i < N)%nat -> table_state t !!! i = LIVE.

(** Where a fresh key goes: the first slot of its chain that is not live. *)
Lemma insert_loop_fresh t key v n : table_inv N t -> table_map t !! key = None ->
  forall d ft, (n + d = N)%nat ->
  (forall d', (d' < d)%nat -> table_state t !!! (probe N key d') <> NEVER_USED) ->
  match ft with
  | Some j => exists e, (e < d)%nat /\ j = probe N key e /\ table_state t !!! j = TOMBSTONE
  | None => forall d', (d' < d)%nat -> table_state t !!! (probe N key d') = LIVE
  end ->
  (exists e, (e < N)%nat /\ table_state t !!! (probe N key e) <> LIVE /\
     (forall d', (d' < e)%nat -> table_state t !!! (probe N key d') <> NEVER_USED) /\
     insert_loop N t key v n (probe N key d) ft
       = (fill_slot t key v (probe N key e) (table_state t !!! (probe N key e) =? TOMBSTONE), inr None)) \/
  (all_live t /\ insert_loop N t key v n (probe N key d) ft = (t, inl TableFull_)).
Proof.
  intros Hinv Hno. induction n as [|n IH]; intros d ft Hd Hch Hft; cbn [insert_loop].
  - destruct ft as [j|].
    + left. destruct Hft as (e & He & -> & Est). exists e. rewrite Est.
      split; [lia|]. split; [done|]. split; [|done]. intros. apply Hch. lia.
    + right. split; [|done]. intros i Hi. destruct (probe_surj key i Hi) as (e & He & ->). apply Hft. lia.
  - destruct (probe_cell t key d Hinv) as (st & s & E1 & E2 & E3 & E4 & Hok); [lia|]. rewrite E3, E4.
    assert (st <> NEVER_USED -> forall d', (d' < S d)%nat -> table_state t !!! (probe N key d') <> NEVER_USED) as Hch'.
    { intros. destruct (decide (d' = d)) as [->|]; [by rewrite E3|]. apply Hch. lia. }
    destruct (Z.eqb_spec st LIVE) as [->|Hl].
    + assert (match ft with
        | Some j => exists e, (e < S d)%nat /\ j = probe N key e /\ table_state t !!! j = TOMBSTONE
        | None => forall d', (d' < S d)%nat -> table_state t !!! (probe N key d') = LIVE end) as Hft'.
      { destruct ft as [j|].
        - destruct Hft as (e & He & Hj). exists e. split; [lia|done].
        - intros d' Hd'. destruct (decide (d' = d)) as [->|]; [done|]. apply Hft. lia. }
      rewrite probe_next. destruct s as [[k old]|]; [|by apply IH; auto with lia].
      case_decide as Hk; [|by apply IH; auto with lia]. subst k. exfalso.
      apply (slot_entries_elem _ _ _ _) in E2. apply elem_of_list_to_map in E2; [|apply Hinv].
      unfold table_map in Hno. congruence.
    + destruct (Z.eqb_spec st TOMBSTONE) as [->|Ht].
      * rewrite probe_next. apply IH; [lia|by apply Hch'|]. destruct ft as [j|].
        -- destruct Hft as (e & He & Hj). exists e. split; [lia|done].
        -- exists d. split; [lia|done].
      * left. destruct ft as [j|]; simpl.
        -- destruct Hft as (e & He & -> & Est). exists e. rewrite Est.
           split; [lia|]. split; [done|]. split; [|done]. intros. apply Hch. lia.
        -- exists d. rewrite E3. split; [lia|]. split; [done|]. split; [done|]. done.
Qed.

Lemma state_cases t i : table_inv N t ->
  table_state t !!! i = NEVER_USED \/ table_state t !!! i = LIVE \/ table_state t !!! i = TOMBSTONE.
Proof.
  intros Hinv. rewrite list_lookup_total_alt. destruct (table_state t !! i) as [st|] eqn:E; [|by right; left].
  destruct (state_slot t i st Hinv E) as ([[k v]|] & _ & _ & Hok); simpl in *; intuition.
Qed.

(** An insertion of a key that is there overwrites its slot. *)
Lemma insert_loop_found t key v n : table_inv N t -> forall i ft j,
  find_loop t key n i = Some j ->
  exists old, table_slots t !!! j = Some (key, old) /\ insert_loop N t key v n i ft
    = (mkTable (<[j := Some (key, v)]> (table_slots t)) (table_state t) (table_tombs t), inr (Some old)).
Proof.
  intros Hinv. induction n as [|n IH]; intros i ft j; cbn [find_loop insert_loop]; [done|].
  destruct (state_cases t i Hinv) as [E|[E|E]]; rewrite E; cbn [Z.eqb NEVER_USED LIVE TOMBSTONE Pos.eqb]; [done| |apply IH].
  destruct (table_slots t !!! i) as [[k old]|] eqn:Es; [|apply IH].
  case_decide; [|apply IH]. intros. simplify_eq. by exists old.
Qed.

Lemma live_entries (l : list Z) (s : list (option (K * V))) : Forall2 slot_ok l s ->
  Z.of_nat (length (slot_entries s)) =
  Z.of_nat (length (filter (fun st => st <> NEVER_USED) l)) - Z.of_nat (length (filter (fun st => st = TOMBSTONE) l)).
Proof.
  induction 1 as [|st x l s Hok _ IH]; [done|]. rewrite !filter_cons.
  destruct x as [p|]; rewrite ?slot_entries_some, ?slot_entries_none; simpl in Hok; [subst st|destruct Hok as [->| ->]];
    repeat case_decide; try done; cbn [length]; lia.
Qed.

Lemma size_entries t : table_inv N t -> size (table_map t) = length (slot_entries (table_slots t)).
Proof.
  intros Hinv. unfold table_map. rewrite <-length_map_to_list.
  by rewrite map_to_list_to_map by apply Hinv.
Qed.

Lemma live_full (l : list Z) (s : list (option (K * V))) : Forall2 slot_ok l s ->
  (length (slot_entries s) <= length s)%nat /\ (length (slot_entries s) = length s <-> Forall (fun st => st = LIVE) l).
Proof.
  induction 1 as [|st x l s Hok _ [IH1 IH2]]; [split; [done|by split]|].
  rewrite Forall_cons, <-IH2.
  destruct x as [p|]; rewrite ?slot_entries_some, ?slot_entries_none; cbn [length slot_ok] in *; [|destruct Hok as [->| ->]]; (split; [lia|split; intros]);
    repeat match goal with H : _ /\ _ |- _ => destruct H end; try split; try done; lia.
Qed.

Lemma all_live_size t : table_inv N t -> all_live t <-> size (table_map t) = N.
Proof.
  intros Hinv. rewrite size_entries by done. rewrite <-(inv_len _ _ Hinv) at 1.
  rewrite (proj2 (live_full _ _ (inv_slots _ _ Hinv))), Forall_lookup. unfold all_live.
  rewrite <-(state_len t Hinv). split.
  - intros H i st Hi. rewrite <-(H i) by (by eapply lookup_lt_Some). symmetry. by apply list_lookup_total_correct.
  - intros H i Hi. apply (H i). by apply list_lookup_lookup_total_lt.
Qed.

Lemma get_spec t key : table_inv N t -> Table_get N t key = table_map t !! key.
Proof.
  intros Hinv. unfold Table_get. rewrite get_find. pose proof (find_spec t key Hinv) as Hf.
  destruct (find_loop _ _ _ _) as [j|]; simpl; [|done].
  destruct Hf as (v & Hj & ->). by rewrite (list_lookup_total_correct _ _ _ Hj).
Qed.

(** The slot a fresh key is written to is free, and filling it keeps the
    invariant. *)
Lemma fill_fresh t key v e : table_inv N t -> table_map t !! key = None -> (e < N)%nat ->
  table_state t !!! (probe N key e) <> LIVE ->
  (forall d', (d' < e)%nat -> table_state t !!! (probe N key d') <> NEVER_USED) ->
  let t' := fill_slot t key v (probe N key e) (table_state t !!! (probe N key e) =? TOMBSTONE) in
  table_inv N t' /\ table_map t' = <[key := v]> (table_map t).
Proof.
  intros Hinv Hno He Hfree Hch. cbv zeta.
  destruct (probe_cell t key e Hinv He) as (st & s & E1 & E2 & E3 & E4 & Hok). rewrite E3 in *.
  destruct s as [p|]; [done|].
  destruct (map_fill t (probe N key e) None key v Hinv E2) as [Hnd Hm]; [by left|].
  split; [|exact Hm]. unfold fill_slot. eapply update_inv; try done.
  - rewrite Z.add_0_r. destruct (Z.eqb_spec st TOMBSTONE); case_decide; try done. lia.
  - intros key' v' [= <- <-]. exists e. done.
Qed.

Lemma insert_spec t key v : table_inv N t ->
  match Table_insert N t key v with
  | (t', inr old) => table_inv N t' /\ old = table_map t !! key /\ table_map t' = <[key := v]> (table_map t)
  | (t', inl _) => t' = t /\ table_map t !! key = None /\ size (table_map t) = N
  end.
Proof.
  intros Hinv. unfold Table_insert. pose proof (find_spec t key Hinv) as Hf.
  destruct (find_loop t key N (probe_start N key)) as [j|] eqn:Ej.
  - destruct Hf as (old & Hj & Hm).
    destruct (insert_loop_found t key v N Hinv _ None _ Ej) as (old' & Hj' & ->).
    rewrite (list_lookup_total_correct _ _ _ Hj) in Hj'. simplify_eq.
    destruct (map_fill t j (Some (key, old')) key v Hinv Hj) as [Hnd Hmap]; [by right; eauto|].
    split; [|by rewrite Hm]. destruct (slot_state t _ _ Hinv Hj) as (st & Hst & _ & Hok).
    simpl in Hok. subst st.
    rewrite <-(list_insert_id (table_state t) j LIVE) by done.
    eapply update_inv; try done.
    + repeat case_decide; try done; lia.
    + intros key' v' [= <- <-]. by eapply inv_chain.
  - destruct (decide (N = 0)%nat) as [HN|HN].
    + pose proof (proj1 (all_live_size t Hinv)) as Hfull. rewrite HN in *. cbn [insert_loop].
      split; [done|]. split; [done|]. apply Hfull. intros i. lia.
    + rewrite (probe_0 key) by lia.
      destruct (insert_loop_fresh t key v N Hinv Hf 0 None) as [(e & He & Hfree & Hch & ->)|[Hlive ->]];
        [lia|lia|intros; lia|..].
      * destruct (fill_fresh t key v e Hinv Hf He Hfree Hch). by rewrite Hf.
      * split; [done|]. split; [done|]. by apply all_live_size.
Qed.

Lemma remove_spec t key : table_inv N t ->
  let '(t', old) := Table_remove N t key in
  table_inv N t' /\ old = table_map t !! key /\ table_map t' = delete key (table_map t).
Proof.
  intros Hinv. unfold Table_remove. rewrite remove_find. pose proof (find_spec t key Hinv) as Hf.
  destruct (find_loop _ _ _ _) as [j|].
  - destruct Hf as (v & Hj & Hm). destruct (map_clear t j key v Hinv Hj) as [Hnd Hmap].
    rewrite (list_lookup_total_correct _ _ _ Hj), Hm. split; [|split; [done|exact Hmap]].
    destruct (slot_state t _ _ Hinv Hj) as (st & Hst & _ & Hok). simpl in Hok. subst st.
    eapply update_inv; try done; [by right|]. repeat case_decide; try done; lia.
  - split; [done|]. split; [done|]. by rewrite delete_id.
Qed.

Lemma new_spec : table_inv N (Table_new N : Table K V) /\ table_map (Table_new N : Table K V) = ∅.
Proof.
  assert (slot_entries (replicate N (@None (K * V))) = []) as He by (induction N; [done|]; cbn; done).
  split; [|unfold table_map, Table_new; cbn [table_slots]; by rewrite He].
  split; cbn [table_slots table_state table_tombs Table_new].
  - apply length_replicate.
  - apply Forall2_replicate. simpl. by left.
  - clear He. induction N as [|n IH]; [done|]. cbn [replicate]. rewrite filter_cons_False by done. apply IH.
  - rewrite He. constructor.
  - intros i key v Hi. apply lookup_replicate in Hi as [? _]. done.
Qed.

Lemma for_each_entries {S} t (f : S -> K -> V -> S) s : table_inv N t ->
  Table_for_each N t f s = fold_left (fun s kv => f s kv.1 kv.2) (slot_entries (table_slots t)) s.
Proof.
  intros Hinv. unfold Table_for_each.
  assert (forall i x, table_slots t !! i = Some x ->
    table_slots t !!! i = x /\ (table_state t !!! i =? LIVE) = bool_decide (is_Some x)) as Hcell.
  { intros i x Hi. split; [by apply list_lookup_total_correct|].
    destruct (slot_state t i x Hinv Hi) as (st & _ & -> & Hok).
    destruct x as [p|]; simpl in Hok; [by subst|]. by destruct Hok as [->| ->]. }
  rewrite <-(inv_len _ _ Hinv).
  rewrite (fold_left_ext_in _ (fun s i => match table_slots t !!! i with Some (k, v) => f s k v | None => s end)).
  - rewrite (fold_left_indices (fun s x => match x with Some (k, v) => f s k v | None => s end)).
    generalize (table_slots t) as l. intros l. revert s.
    induction l as [|[[k v]|] l IH]; intros s; cbn; [done|apply IH|apply IH].
  - intros a i Hi. apply elem_of_seq in Hi.
    destruct (lookup_lt_is_Some_2 (table_slots t) i) as [x Hx]; [lia|].
    destruct (Hcell i x Hx) as [-> ->]. by destruct x as [[k v]|].
Qed.

Lemma insert_loop_tombs t key v n : forall i ft,
  table_tombs (insert_loop N t key v n i ft).1 <= table_tombs t.
Proof.
  induction n as [|n IH]; intros i ft; cbn [insert_loop].
  - destruct ft; cbn; lia.
  - loop_cases; try apply IH; cbn; try case_match; lia.
Qed.

Lemma insert_tombs t key v : table_tombs (Table_insert N t key v).1 <= table_tombs t.
Proof. apply insert_loop_tombs. Qed.

(** Rebuilding: inserting distinct entries one by one into a table with room. *)
Lemma insert_all_spec (l : list (K * V)) : forall t, table_inv N t ->
  NoDup l.*1 -> (forall k, k ∈ l.*1 -> table_map t !! k = None) ->
  (size (table_map t) + length l <= N)%nat ->
  let t' := fold_left (fun fresh kv => (Table_insert N fresh kv.1 kv.2).1) l t in
  table_inv N t' /\ table_map t' = list_to_map l ∪ table_map t /\ table_tombs t' <= table_tombs t.
Proof.
  induction l as [|[k v] l IH]; intros t Hinv Hnd Hno Hroom; cbn [fold_left fst snd].
  - split; [done|]. split; [by rewrite list_to_map_nil, (left_id_L ∅ (∪))|done].
  - cbn in Hnd, Hroom. apply NoDup_cons in Hnd as [Hk Hnd].
    assert (table_map t !! k = None) as Hkn by (apply Hno; by left).
    pose proof (insert_spec t k v Hinv) as Hi. pose proof (insert_tombs t k v) as Ht.
    destruct (Table_insert N t k v) as [t' [e|old]]; cbn [fst] in *.
    + exfalso. destruct Hi as (-> & _ & Hs). lia.
    + destruct Hi as (Hinv' & _ & Hm).
      destruct (IH t' Hinv' Hnd) as (HI & HM & HT).
      * intros k' Hk'. rewrite Hm. rewrite lookup_insert_ne by (intros ->; done). apply Hno. by right.
      * rewrite Hm, map_size_insert, Hkn. lia.
      * split; [done|]. split; [|lia]. rewrite HM, Hm, list_to_map_cons.
        rewrite <-insert_union_l, insert_union_r; [done|]. by apply not_elem_of_list_to_map.
Qed.

Lemma compact_spec t : table_inv N t ->
  table_inv N (Table_compact N t) /\ table_map (Table_compact N t) = table_map t /\
  table_tombs (Table_compact N t) = 0.
Proof.
  intros Hinv. unfold Table_compact. destruct (Z.eqb_spec (table_tombs t) 0); [done|].
  rewrite for_each_entries by done. destruct new_spec as [Hn Hm].
  pose proof (live_full _ _ (inv_slots _ _ Hinv)) as [Hle _]. rewrite (inv_len _ _ Hinv) in Hle.
  destruct (insert_all_spec (slot_entries (table_slots t)) (Table_new N) Hn) as (HI & HM & HT).
  - apply Hinv.
  - intros k _. by rewrite Hm.
  - rewrite Hm, map_size_empty. lia.
  - split; [done|]. split.
    + rewrite HM, Hm. apply (right_id_L ∅ (∪)).
    + pose proof (inv_tombs _ _ HI). cbn in HT |- *. lia.
Qed.

Lemma insert_full t key v : table_inv N t ->
  (Table_insert N t key v).2 = inl TableFull_ <-> table_map t !! key = None /\ size (table_map t) = N.
Proof.
  intros Hinv. pose proof (insert_spec t key v Hinv) as H.
  destruct (Table_insert N t key v) as [t' [[]|old]]; cbn [snd].
  - split; [intros _; apply H|done].
  - destruct H as (Hinv' & -> & Hm). split; [done|]. intros [Hno Hs]. exfalso.
    pose proof (live_full _ _ (inv_slots _ _ Hinv')) as [Hle _].
    rewrite (inv_len _ _ Hinv'), <-size_entries, Hm, map_size_insert, Hno in Hle by done. lia.
Qed.

(** ** A run of operations against the abstract map *)

Inductive TableOp : Type :=
  | OpInsert (key : K) (v : V) | OpRemove (key : K) | OpGet (key : K) | OpContains (key : K)
  | OpCompact | OpLen.

Inductive TableAns : Type :=
  | AnsFull | AnsOld (old : option V) | AnsVal (v : option V) | AnsBool (b : bool) | AnsUnit | AnsLen (n : Z).

Definition table_step t (op : TableOp) : Table K V * TableAns :=
  match op with
  | OpInsert key v =>
    match Table_insert N t key v with
    | (t', inr old) => (t', AnsOld old)
    | (t', inl _) => (t', AnsFull)
    end
  | OpRemove key => let '(t', old) := Table_remove N t key in (t', AnsOld old)
  | OpGet key => (t, AnsVal (Table_get N t key))
  | OpContains key => (t, AnsBool (Table_contains N t key))
  | OpCompact => (Table_compact N t, AnsUnit)
  | OpLen => (t, AnsLen (Table_len t))
  end.

(** The contract: a finite map that holds at most [N] keys. *)
Definition map_step (m : gmap K V) (op : TableOp) : gmap K V * TableAns :=
  match op with
  | OpInsert key v =>
    if decide (m !! key = None /\ size m = N) then (m, AnsFull) else (<[key := v]> m, AnsOld (m !! key))
  | OpRemove key => (delete key m, AnsOld (m !! key))
  | OpGet key => (m, AnsVal (m !! key))
  | OpContains key => (m, AnsBool (bool_decide (is_Some (m !! key))))
  | OpCompact => (m, AnsUnit)
  | OpLen => (m, AnsLen (Z.of_nat (size m)))
  end.

Fixpoint run_ops {A} (step : A -> TableOp -> A * TableAns) (a : A) (ops : list TableOp) : A * list TableAns :=
  match ops with
  | [] => (a, [])
  | op :: ops' => let '(a', ans) := step a op in let '(a'', r) := run_ops step a' ops' in (a'', ans :: r)
  end.

Lemma len_spec t : table_inv N t -> Table_len t = Z.of_nat (size (table_map t)).
Proof.
  intros Hinv. rewrite size_entries by done. unfold Table_len, Table_occupied.
  rewrite (inv_tombs _ _ Hinv). symmetry. apply live_entries. apply Hinv.
Qed.

Lemma contains_spec t key : table_inv N t ->
  Table_contains N t key = bool_decide (is_Some (table_map t !! key)).
Proof.
  intros Hinv. unfold Table_contains. rewrite contains_find. pose proof (find_spec t key Hinv) as Hf.
  destruct (find_loop _ _ _ _).
  - destruct Hf as (v & _ & ->). by rewrite !bool_decide_eq_true_2 by done.
  - by rewrite Hf.
Qed.

Lemma step_refines t op : table_inv N t ->
  table_inv N (table_step t op).1 /\
  map_step (table_map t) op = (table_map (table_step t op).1, (table_step t op).2).
Proof.
  intros Hinv. destruct op as [key v|key|key|key| |]; cbn [table_step map_step].
  - pose proof (insert_spec t key v Hinv) as H. pose proof (insert_full t key v Hinv) as Hfull.
    destruct (Table_insert N t key v) as [t' [[]|old]]; cbn [snd fst] in *.
    + rewrite decide_True by (by apply Hfull). by destruct H as (-> & _).
    + destruct H as (? & -> & ->). split; [done|]. rewrite decide_False; [done|]. by intros ?%Hfull.
  - pose proof (remove_spec t key Hinv) as H. destruct (Table_remove N t key) as [t' old].
    cbn [fst snd]. destruct H as (? & -> & ->). done.
  - by rewrite get_spec.
  - by rewrite contains_spec.
  - destruct (compact_spec t Hinv) as (? & HM & _). cbn [fst snd]. by rewrite HM.
  - by rewrite len_spec.
Qed.

Lemma run_refines ops : forall t, table_inv N t ->
  table_inv N (run_ops table_step t ops).1 /\
  run_ops map_step (table_map t) ops
  = (table_map (run_ops table_step t ops).1, (run_ops table_step t ops).2).
Proof.
  induction ops as [|op ops IH]; intros t Hinv; cbn [run_ops]; [done|].
  destruct (step_refines t op Hinv) as [Hinv' Hs]. rewrite Hs.
  destruct (table_step t op) as [t' ans]. cbn [fst snd] in *.
  destruct (IH t' Hinv') as [HI HR]. rewrite HR. by destruct (run_ops table_step t' ops).
Qed.

(** ** Properties *)

(** C10: the open-addressed table is a finite map of capacity [N]. Any sequence
    of insertions, removals, compactions and queries on a new table answers
    exactly what the bounded map answers, [TableFull] included (refused exactly
    when the key is absent and [N] keys are live), and ends in a table that
    represents the map the abstract run ends in. *)
Theorem table_run_refines ops :
  let '(t, ans) := run_ops table_step (Table_new N) ops in
  run_ops map_step ∅ ops = (table_map t, ans) /\ table_inv N t.
Proof.
  destruct new_spec as [Hn Hm]. destruct (run_refines ops (Table_new N) Hn) as [HI HR].
  rewrite Hm in HR. destruct (run_ops table_step (Table_new N) ops). done.
Qed.

(** The walk visits every live entry exactly once, in the order of the
    slots: the callback is applied to a permutation of the map's bindings. *)
Theorem for_each_visits {S} t (f : S -> K -> V -> S) s : table_inv N t ->
  exists visited, visited ≡ₚ map_to_list (table_map t) /\
    Table_for_each N t f s = fold_left (fun s kv => f s kv.1 kv.2) visited s.
Proof.
  intros Hinv. exists (slot_entries (table_slots t)). split; [|by apply for_each_entries].
  symmetry. apply map_to_list_to_map. apply Hinv.
Qed.

(** Compaction keeps every binding and the invariant, and reclaims every
    tombstone: the slots occupied afterwards are the live ones. *)
Theorem compact_reclaims t : table_inv N t ->
  table_map (Table_compact N t) = table_map t /\ table_inv N (Table_compact N t) /\
  Table_occupied (Table_compact N t) = Table_len t.
Proof.
  intros Hinv. destruct (compact_spec t Hinv) as (HI & HM & HT). split; [done|]. split; [done|].
  rewrite (len_spec t Hinv), <-HM, <-(len_spec _ HI). unfold Table_len. lia.
Qed.
End refinement.

(** A table of four slots over byte-string keys after some churn. *)
Definition table_ex : Table bytes Z :=
  (run_ops (table_step 4) (Table_new 4)
    [OpInsert [1] 10; OpInsert [2] 20; OpRemove [1]; OpInsert [3] 30; OpRemove [2]]).1.

Lemma table_ex_inv : table_inv 4 table_ex.
Proof. apply run_refines, new_spec. Qed.

Lemma for_each_visits_witness : exists visited, visited ≡ₚ map_to_list (table_map table_ex) /\
  Table_for_each 4 table_ex (fun s _ v => s + v) 0 = fold_left (fun s kv => s + kv.2) visited 0 /\
  Table_for_each 4 table_ex (fun s _ v => s + v) 0 = 30.
Proof.
  destruct (for_each_visits 4 table_ex (fun s _ v => s + v) 0 table_ex_inv) as (vs & Hp & E).
  exists vs. split; [exact Hp|]. split; [exact E|]. vm_compute. reflexivity.
Defined.

Lemma compact_reclaims_witness :
  Table_occupied table_ex = 3 /\ Table_occupied (Table_compact 4 table_ex) = 1 /\
  table_map (Table_compact 4 table_ex) = table_map table_ex.
Proof.
  split; [vm_compute; reflexivity|]. split; [vm_compute; reflexivity|].
  exact (proj1 (compact_reclaims 4 table_ex table_ex_inv)).
Defined.
