(* ===== verification/Bloom.v ===== *)
(** * Bloom: the multicast filters and their wire encoding ([src/bloom.rs]).

    The Murmur3 hashing, the filter operations and the flag-compressed
    encoding; the router's use of the filters is in [BloomTree]. A filter is
    characterised by its bits: [add] sets the key's eight locations, [merge] is
    the union, and [test] asks for all eight. *)
From stdpp Require Import base tactics list numbers.
From S2P Require Import Prelude Errors Frame Address.

Local Open Scope Z_scope.

Definition BLOOM_M : Z := 8192.
Definition BLOOM_K : nat := 8.
Definition BLOOM_WORDS : nat := 128.
Definition BLOOM_FLAGS : nat := 16.

Definition C1 : Z := 0x87c37b91114253d5.
Definition C2 : Z := 0x4cf5ad432745937f.

Definition mix_k1 (k1 : Z) : Z := wrapping_mul (rotate_left (wrapping_mul k1 C1) 31) C2.
Definition mix_k2 (k2 : Z) : Z := wrapping_mul (rotate_left (wrapping_mul k2 C2) 33) C1.

Definition bmix_words (h : Z * Z) (k1 k2 : Z) : Z * Z :=
  let '(h1, h2) := h in
  let h1 := Z.lxor h1 (mix_k1 k1) in
  let h1 := rotate_left h1 27 in
  let h1 := wrapping_add h1 h2 in
  let h1 := wrapping_add (wrapping_mul h1 5) 0x52dce729 in
  let h2 := Z.lxor h2 (mix_k2 k2) in
  let h2 := rotate_left h2 31 in
  let h2 := wrapping_add h2 h1 in
  let h2 := wrapping_add (wrapping_mul h2 5) 0x38495ab5 in
  (h1, h2).

Definition fmix (k : Z) : Z :=
  let k := Z.lxor k (Z.shiftr k 33) in
  let k := wrapping_mul k 0xff51afd7ed558ccd in
  let k := Z.lxor k (Z.shiftr k 33) in
  let k := wrapping_mul k 0xc4ceb9fe1a85ec53 in
  Z.lxor k (Z.shiftr k 33).

Definition le_u64 (b : bytes) : Z := le_val b.

(** [k ^= (b as u64) << (8 * i)] over a slice of at most eight bytes. *)
Definition xor_bytes (k : Z) (l : bytes) : Z :=
  (fold_left (fun '(k, i) b => (Z.lxor k (Z.shiftl b (8 * i)), i + 1)) l (k, 0)).1.

(** The pad byte of the second pass: new [(h1, h2, k1, k2)]. *)
Definition pad_tail_switch (tail_len : nat) (h1 h2 : Z) : Z * Z * Z * Z :=
  match ((tail_len + 1) mod 16)%nat with
  | 15%nat => (h1, h2, 0, Z.shiftl 1 48)
  | 14%nat => (h1, h2, 0, Z.shiftl 1 40)
  | 13%nat => (h1, h2, 0, Z.shiftl 1 32)
  | 12%nat => (h1, h2, 0, Z.shiftl 1 24)
  | 11%nat => (h1, h2, 0, Z.shiftl 1 16)
  | 10%nat => (h1, h2, 0, Z.shiftl 1 8)
  | 9%nat => (h1, Z.lxor h2 (mix_k2 1), 0, mix_k2 1)
  | 8%nat => (h1, h2, Z.shiftl 1 56, 0)
  | 7%nat => (h1, h2, Z.shiftl 1 48, 0)
  | 6%nat => (h1, h2, Z.shiftl 1 40, 0)
  | 5%nat => (h1, h2, Z.shiftl 1 32, 0)
  | 4%nat => (h1, h2, Z.shiftl 1 24, 0)
  | 3%nat => (h1, h2, Z.shiftl 1 16, 0)
  | 2%nat => (h1, h2, Z.shiftl 1 8, 0)
  | 1%nat => (Z.lxor h1 (mix_k1 1), h2, mix_k1 1, 0)
  | _ => (h1, h2, 0, 0)
  end.

Definition sum128 (h1 h2 : Z) (pad_tail : bool) (len : nat) (tail : bytes) : Z * Z :=
  let '(h1, h2, k1, k2) := if pad_tail then pad_tail_switch (length tail) h1 h2 else (h1, h2, 0, 0) in
  let h2 := if decide (9 <= length tail mod 16)%nat
            then Z.lxor h2 (mix_k2 (xor_bytes k2 (drop 8 tail))) else h2 in
  let lo := Nat.min (length tail) 8 in
  let k1 := xor_bytes k1 (take lo tail) in
  let h1 := if decide (0 < lo)%nat then Z.lxor h1 (mix_k1 k1) else h1 in
  let h1 := Z.lxor h1 (Z.of_nat len) in
  let h2 := Z.lxor h2 (Z.of_nat len) in
  let h1 := wrapping_add h1 h2 in
  let h2 := wrapping_add h2 h1 in
  let h1 := fmix h1 in
  let h2 := fmix h2 in
  let h1 := wrapping_add h1 h2 in
  let h2 := wrapping_add h2 h1 in
  (h1, h2).

Definition base_hashes (data : bytes) : list Z :=
  let nblocks := (length data / 16)%nat in
  let h := fold_left (fun h i =>
    bmix_words h (le_u64 (slice data (i * 16) (i * 16 + 8))) (le_u64 (slice data (i * 16 + 8) (i * 16 + 16))))
    (seq 0 nblocks) (0, 0) in
  let len := length data in
  let tail := drop (nblocks * 16) data in
  let '(hash1, hash2) := sum128 h.1 h.2 false len tail in
  let '(hash3, hash4) :=
    if decide (length tail + 1 = 16)%nat then
      let word1 := le_u64 (take 8 tail) in
      let tmp := tail ++ [1] in
      let word2 := le_u64 (drop 8 tmp) in
      let hb := bmix_words h word1 word2 in
      sum128 hb.1 hb.2 false (len + 1) []
    else sum128 h.1 h.2 true (len + 1) tail in
  [hash1; hash2; hash3; hash4].

Definition location (h : list Z) (i : Z) : Z :=
  wrapping_add (h !!! Z.to_nat (i mod 2))
    (wrapping_mul i (h !!! Z.to_nat (2 + ((i + i mod 2) mod 4) / 2))).

Definition locations_for (data : bytes) : list Z :=
  let h := base_hashes data in
  (fun i => location h (Z.of_nat i) mod BLOOM_M) <$> seq 0 BLOOM_K.

Record BloomFilter : Type := mkBloom { words : list Z }.

#[export] Instance BloomFilter_eq_dec : EqDecision BloomFilter.
Proof. solve_decision. Defined.

Definition BloomFilter_new : BloomFilter := mkBloom (replicate BLOOM_WORDS 0).

Definition word_of (l : Z) : nat := Z.to_nat (Z.shiftr l 6).
Definition mask_of (l : Z) : Z := Z.shiftl 1 (Z.land l 63).

Definition BloomFilter_add (b : BloomFilter) (data : bytes) : BloomFilter :=
  mkBloom (fold_left (fun ws l => <[word_of l := Z.lor (ws !!! word_of l) (mask_of l)]> ws)
    (locations_for data) (words b)).

Definition BloomFilter_test (b : BloomFilter) (data : bytes) : bool :=
  forallb (fun l => negb (Z.land (words b !!! word_of l) (mask_of l) =? 0)) (locations_for data).

Definition BloomFilter_merge (b other : BloomFilter) : BloomFilter :=
  mkBloom (zip_with Z.lor (words b) (words other)).

Definition MAX_ENCODED_LEN : nat := 2 * BLOOM_FLAGS + 8 * BLOOM_WORDS.

(** A word that is neither flagged all-zero nor flagged all-ones. *)
Definition is_data_word (w : Z) : bool := negb (w =? 0) && negb (w =? U64_MAX).

(** [flags\[idx / 8\] |= 0x80 >> (idx % 8)]. *)
Definition set_flag (flags : bytes) (idx : nat) : bytes :=
  <[(idx / 8)%nat := Z.lor (flags !!! (idx / 8)%nat) (Z.shiftr 128 (Z.of_nat (idx mod 8)))]> flags.

(** [flags\[idx / 8\] & (0x80 >> (idx % 8)) != 0]. *)
Definition get_flag (flags : bytes) (idx : nat) : bool :=
  negb (Z.land (flags !!! (idx / 8)%nat) (Z.shiftr 128 (Z.of_nat (idx mod 8))) =? 0).

Definition encode_flags (ws : list Z) : bytes * bytes :=
  fold_left (fun '(flags0, flags1) idx =>
    let w := ws !!! idx in
    if w =? 0 then (set_flag flags0 idx, flags1)
    else if w =? U64_MAX then (flags0, set_flag flags1 idx)
    else (flags0, flags1))
    (seq 0 (length ws)) (replicate BLOOM_FLAGS 0, replicate BLOOM_FLAGS 0).

Definition put_words (ws : list Z) (out : bytes) (at_ : nat) : option (bytes * nat) :=
  fold_left (fun acc w => '(out, at_) ← acc;
    if is_data_word w then out' ← copy_into out at_ (be_bytes 8 w); Some (out', at_ + 8)%nat
    else Some (out, at_)) ws (Some (out, at_)).

Definition encode_to (b : BloomFilter) (out : bytes) : option (result (bytes * nat)) :=
  let data_words := length (filter (fun w => is_data_word w = true) (words b)) in
  let need := (2 * BLOOM_FLAGS + 8 * data_words)%nat in
  if decide (length out < need)%nat then Some (Err (Core InvalidLength))
  else
    let '(flags0, flags1) := encode_flags (words b) in
    out1 ← copy_into out 0 flags0;
    out2 ← copy_into out1 BLOOM_FLAGS flags1;
    '(out3, at_) ← put_words (words b) out2 (2 * BLOOM_FLAGS);
    Some (Ok (out3, at_)).

Definition BloomFilter_encode (b : BloomFilter) : option bytes :=
  r ← encode_to b (replicate MAX_ENCODED_LEN 0);
  match r with
  | Ok (out, n) => Some (take n out)
  | Err _ => None
  end.

Fixpoint decode_words (flags0 flags1 : bytes) (idxs : list nat) (rest : bytes) : result (list Z * bytes) :=
  match idxs with
  | [] => Ok ([], rest)
  | idx :: idxs' =>
    match get_flag flags0 idx, get_flag flags1 idx with
    | true, true => Err (Core InvalidLength)
    | true, false => '(ws, r) ← decode_words flags0 flags1 idxs' rest; Ok (0 :: ws, r)
    | false, true => '(ws, r) ← decode_words flags0 flags1 idxs' rest; Ok (U64_MAX :: ws, r)
    | false, false =>
      if decide (length rest < 8)%nat then Err (Core InvalidLength)
      else '(ws, r) ← decode_words flags0 flags1 idxs' (drop 8 rest);
           Ok (be_val (take 8 rest) :: ws, r)
    end
  end.

Definition BloomFilter_decode_exact (buf : bytes) : result BloomFilter :=
  if decide (length buf < 2 * BLOOM_FLAGS)%nat then Err (Core InvalidLength)
  else
    let flags0 := take BLOOM_FLAGS buf in
    let flags1 := take BLOOM_FLAGS (drop BLOOM_FLAGS buf) in
    '(ws, rest) ← decode_words flags0 flags1 (seq 0 BLOOM_WORDS) (drop (2 * BLOOM_FLAGS) buf);
    match rest with
    | [] => Ok (mkBloom ws)
    | _ :: _ => Err (Core InvalidLength)
    end.

(** The invariant of the array type [\[u64; BLOOM_WORDS\]]. *)
Definition bloom_ok (b : BloomFilter) : Prop := length (words b) = BLOOM_WORDS /\ Forall is_u64 (words b).

(** ** Test vectors of the Go implementation, from the unit tests *)

Definition RPUB : bytes :=
  [138; 136; 227; 221; 116; 9; 241; 149; 253; 82; 219; 45; 60; 186; 93; 114; 202; 103; 9; 191;
   29; 148; 18; 27; 243; 116; 136; 1; 180; 15; 111; 92].

Definition PPUB : bytes :=
  [129; 57; 119; 14; 168; 125; 23; 95; 86; 163; 84; 102; 195; 76; 126; 204; 203; 141; 138; 145;
   180; 238; 55; 162; 93; 246; 15; 91; 143; 201; 179; 148].

Definition BLOOM : bytes :=
  [219; 239; 255; 251; 255; 255; 247; 251; 223; 127; 127; 253; 254; 223; 223; 191; 0; 0; 0; 0; 0;
   0; 0; 0; 0; 0; 0; 0; 0; 0; 0; 0; 0; 0; 0; 0; 0; 0; 0; 8; 0; 0; 0; 0; 0; 4; 0; 0; 0; 0; 0; 0;
   0; 64; 0; 0; 0; 0; 0; 0; 0; 0; 128; 0; 0; 64; 0; 0; 0; 0; 0; 0; 0; 0; 2; 0; 0; 0; 0; 0; 0; 0;
   128; 0; 4; 0; 0; 0; 0; 0; 0; 2; 0; 0; 0; 0; 0; 0; 0; 0; 0; 0; 0; 4; 0; 0; 0; 0; 4; 0; 0; 0; 0;
   0; 0; 0; 0; 0; 32; 0; 0; 32; 0; 0; 0; 0; 0; 64; 0; 0; 0; 0; 0; 64; 0; 0; 0; 8; 0; 0; 0; 0; 0;
   0].

Definition GO_BLOOM : bytes :=
  [254; 239; 222; 255; 247; 255; 125; 255; 255; 255; 255; 255; 255; 253; 255; 255; 0; 0; 0; 0; 0;
   0; 0; 0; 0; 0; 0; 0; 0; 0; 0; 0; 0; 0; 0; 0; 0; 0; 0; 16; 0; 0; 0; 64; 0; 0; 0; 0; 0; 0; 0; 0;
   0; 32; 0; 0; 0; 0; 32; 0; 0; 0; 0; 0; 0; 0; 0; 1; 0; 0; 0; 0; 0; 64; 0; 0; 0; 0; 0; 0; 0; 0;
   0; 0; 0; 0; 64; 0; 0; 0; 0; 0; 0; 0; 4; 0].

Example bloom_vector_matches_go :
  BloomFilter_encode (BloomFilter_add (BloomFilter_add BloomFilter_new RPUB) PPUB) = Some BLOOM.
Proof. vm_compute. reflexivity. Qed.

Example go_bloom_payload_round_trips :
  match BloomFilter_decode_exact GO_BLOOM with
  | Ok b => BloomFilter_encode b = Some GO_BLOOM
  | Err _ => False
  end.
Proof. vm_compute. reflexivity. Qed.

Example bloom_test_semantics :
  let b := BloomFilter_add BloomFilter_new RPUB in
  BloomFilter_test b RPUB = true /\ BloomFilter_test b PPUB = false.
Proof. vm_compute. split; reflexivity. Qed.

(** ** Bits of a filter *)

Definition bloom_bit (b : BloomFilter) (l : Z) : bool :=
  Z.testbit (words b !!! word_of l) (Z.land l 63).

Definition is_location (l : Z) : Prop := 0 <= l < BLOOM_M.

Lemma locations_range data l : l ∈ locations_for data -> is_location l.
Proof.
  intros H. apply list_elem_of_fmap in H as (i & -> & _). apply Z.mod_pos_bound. unfold BLOOM_M. lia.
Qed.

Lemma location_split l : is_location l ->
  (word_of l < BLOOM_WORDS)%nat /\ 0 <= Z.land l 63 < 64 /\ l = 64 * Z.of_nat (word_of l) + Z.land l 63.
Proof.
  unfold is_location, BLOOM_M, word_of, BLOOM_WORDS. intros Hl.
  rewrite Z.shiftr_div_pow2 by lia. change 63 with (Z.ones 6). rewrite Z.land_ones by lia.
  change (2 ^ 6) with 64. pose proof (Z.div_mod l 64). pose proof (Z.mod_pos_bound l 64).
  assert (0 <= l / 64 < 128) by (split; [apply Z.div_pos; lia|apply Z.div_lt_upper_bound; lia]).
  rewrite Z2Nat.id by lia. lia.
Qed.

Lemma land_pow2 x k : 0 <= k -> negb (Z.land x (Z.shiftl 1 k) =? 0) = Z.testbit x k.
Proof.
  intros Hk. rewrite Z.shiftl_1_l. destruct (Z.testbit x k) eqn:E.
  - apply negb_true_iff, Z.eqb_neq. intros H0. apply (f_equal (fun z => Z.testbit z k)) in H0.
    rewrite Z.land_spec, Z.pow2_bits_true, E, Z.bits_0 in H0 by done. done.
  - apply negb_false_iff, Z.eqb_eq. apply Z.bits_inj'. intros n Hn.
    rewrite Z.land_spec, Z.bits_0, Z.pow2_bits_eqb by done.
    destruct (Z.eqb_spec k n) as [->|]; [by rewrite E|apply andb_false_r].
Qed.

Lemma test_bits b data : BloomFilter_test b data = forallb (bloom_bit b) (locations_for data).
Proof.
  unfold BloomFilter_test. pose proof (locations_range data) as H.
  induction (locations_for data) as [|l ls IH]; [done|]. cbn [forallb]. f_equal.
  - unfold mask_of. apply land_pow2. destruct (location_split l); [apply H; by left|]. lia.
  - apply IH. intros l' Hl'. apply H. by right.
Qed.

Lemma set_loc_bit ws l m : length ws = BLOOM_WORDS -> is_location l -> is_location m ->
  bloom_bit (mkBloom (<[word_of m := Z.lor (ws !!! word_of m) (mask_of m)]> ws)) l
  = bloom_bit (mkBloom ws) l || (l =? m).
Proof.
  intros Hl Hloc Hm. destruct (location_split l Hloc) as (Hw & Hr & El).
  destruct (location_split m Hm) as (Hw' & Hr' & Em).
  unfold bloom_bit. cbn [words]. destruct (decide (word_of l = word_of m)) as [E|E].
  - rewrite E, list_lookup_total_insert_eq by (by rewrite Hl). rewrite Z.lor_spec. f_equal.
    unfold mask_of. rewrite Z.shiftl_1_l, Z.pow2_bits_eqb by lia.
    repeat zcase; try done; lia.
  - rewrite list_lookup_total_insert_ne by done. destruct (Z.eqb_spec l m) as [->|]; [done|].
    by rewrite orb_false_r.
Qed.

Lemma add_bit b data l : bloom_ok b -> is_location l ->
  bloom_bit (BloomFilter_add b data) l = bloom_bit b l || bool_decide (l ∈ locations_for data).
Proof.
  intros [Hlen _] Hl. unfold BloomFilter_add. destruct b as [ws]. cbn [words] in *.
  pose proof (locations_range data) as Hr. revert ws Hlen.
  induction (locations_for data) as [|m ls IH]; intros ws Hlen; cbn [fold_left].
  - rewrite bool_decide_eq_false_2 by apply not_elem_of_nil. by rewrite orb_false_r.
  - rewrite IH; [|intros; apply Hr; by right|by rewrite length_insert].
    rewrite set_loc_bit by (done || (apply Hr; by left)). rewrite <-orb_assoc. f_equal.
    destruct (Z.eqb_spec l m) as [->|Hne].
    + rewrite (bool_decide_eq_true_2 (m ∈ m :: ls)) by left. done.
    + cbn [orb]. apply bool_decide_ext. rewrite elem_of_cons. split; [by right|by intros [?|?]].
Qed.

Lemma lor_u64 a b : is_u64 a -> is_u64 b -> is_u64 (Z.lor a b).
Proof.
  unfold is_u64. intros Ha Hb. split; [apply Z.lor_nonneg; lia|].
  destruct (decide (Z.lor a b = 0)) as [->|Hnz]; [lia|].
  apply Z.log2_lt_pow2; [pose proof (proj2 (Z.lor_nonneg a b)); lia|].
  rewrite Z.log2_lor by lia.
  assert (forall z, 0 <= z < 2 ^ 64 -> Z.log2 z < 64) as Hlog.
  { intros z Hz. destruct (decide (z = 0)) as [->|]; [simpl; lia|]. apply Z.log2_lt_pow2; lia. }
  apply Z.max_lub_lt; auto.
Qed.

Lemma add_ok b data : bloom_ok b -> bloom_ok (BloomFilter_add b data).
Proof.
  unfold BloomFilter_add. destruct b as [ws]. pose proof (locations_range data) as Hr. revert ws.
  induction (locations_for data) as [|m ls IH]; intros ws [Hlen Hw]; cbn [words fold_left] in *; [done|].
  apply IH; [intros; apply Hr; by right|]. destruct (location_split m) as (Hlt & Hm & _); [apply Hr; by left|].
  split; cbn [words]; [by rewrite length_insert|]. apply Forall_insert; [done|]. apply lor_u64.
  - eapply Forall_lookup_1; [done|]. apply list_lookup_lookup_total_lt. by rewrite Hlen.
  - unfold is_u64, mask_of. rewrite Z.shiftl_1_l. split; [lia|]. apply Z.pow_lt_mono_r; lia.
Qed.

Lemma merge_ok b c : bloom_ok b -> bloom_ok c -> bloom_ok (BloomFilter_merge b c).
Proof.
  intros [Hb Hb'] [Hc Hc']. split; cbn [BloomFilter_merge words].
  - rewrite length_zip_with, Hb, Hc. done.
  - apply Forall_lookup. intros i w Hi. apply lookup_zip_with_Some in Hi as (x & y & -> & Hx & Hy).
    apply lor_u64; [exact (Forall_lookup_1 _ _ _ _ Hb' Hx)|exact (Forall_lookup_1 _ _ _ _ Hc' Hy)].
Qed.

Lemma merge_bit b c l : bloom_ok b -> bloom_ok c -> is_location l ->
  bloom_bit (BloomFilter_merge b c) l = bloom_bit b l || bloom_bit c l.
Proof.
  intros [Hb _] [Hc _] Hl. destruct (location_split l Hl) as (Hw & Hr & _).
  unfold bloom_bit, BloomFilter_merge. cbn [words].
  destruct (lookup_lt_is_Some_2 (words b) (word_of l)) as [x Hx]; [by rewrite Hb|].
  destruct (lookup_lt_is_Some_2 (words c) (word_of l)) as [y Hy]; [by rewrite Hc|].
  rewrite (list_lookup_total_correct _ _ _ Hx), (list_lookup_total_correct _ _ _ Hy).
  erewrite list_lookup_total_correct by (by apply lookup_zip_with_Some; eauto). apply Z.lor_spec.
Qed.

Lemma new_ok : bloom_ok BloomFilter_new.
Proof. split; [done|]. apply Forall_replicate. unfold is_u64. lia. Qed.

Lemma new_bit l : is_location l -> bloom_bit BloomFilter_new l = false.
Proof.
  intros Hl. destruct (location_split l Hl) as (Hw & _). unfold bloom_bit, BloomFilter_new. cbn [words].
  rewrite lookup_total_replicate_2 by done. apply Z.bits_0.
Qed.

(** ** The encoding *)

Definition data_bytes (ws : list Z) : bytes :=
  concat ((fun w => if is_data_word w then be_bytes 8 w else []) <$> ws).

Definition bloom_spec (ws : list Z) : bytes :=
  (encode_flags ws).1 ++ (encode_flags ws).2 ++ data_bytes ws.

Lemma set_flag_or flags i : set_flag flags i = or_bit flags i (Z.b2z true).
Proof. apply ones_loop_step. Qed.

Lemma get_flag_kbit flags i : get_flag flags i = kbit flags i.
Proof.
  unfold get_flag, kbit. rewrite <-land_pow2 by (pose proof (Nat.mod_upper_bound i 8); lia).
  do 3 f_equal. pose proof (Nat.mod_upper_bound i 8). remember (i mod 8)%nat as m.
  do 8 (destruct m as [|m]; [done|]). lia.
Qed.

(** What the flag loop computes, bit by bit. *)
Lemma encode_flags_loop ws n : length ws = BLOOM_WORDS -> (n <= BLOOM_WORDS)%nat ->
  let '(f0, f1) := fold_left (fun '(flags0, flags1) idx =>
    let w := ws !!! idx in
    if w =? 0 then (set_flag flags0 idx, flags1)
    else if w =? U64_MAX then (flags0, set_flag flags1 idx)
    else (flags0, flags1)) (seq 0 n) (replicate BLOOM_FLAGS 0, replicate BLOOM_FLAGS 0) in
  length f0 = BLOOM_FLAGS /\ length f1 = BLOOM_FLAGS /\ bytes_ok f0 /\ bytes_ok f1 /\
  forall j, (j < BLOOM_WORDS)%nat ->
    kbit f0 j = bool_decide (j < n)%nat && (ws !!! j =? 0) /\
    kbit f1 j = bool_decide (j < n)%nat && (ws !!! j =? U64_MAX).
Proof.
  intros Hl. induction n as [|n IH]; intros Hn.
  - cbn [seq fold_left]. split; [done|]. split; [done|].
    split; [apply bytes_ok_replicate; unfold is_u8; lia|].
    split; [apply bytes_ok_replicate; unfold is_u8; lia|]. intros j Hj.
    rewrite bool_decide_eq_false_2 by lia. unfold kbit.
    rewrite lookup_total_replicate_2; [by rewrite Z.bits_0|].
    apply Nat.Div0.div_lt_upper_bound. unfold BLOOM_WORDS in Hj. unfold BLOOM_FLAGS. lia.
  - rewrite seq_S, fold_left_app. cbn [fold_left]. rewrite Nat.add_0_l.
    destruct (fold_left _ (seq 0 n) _) as [f0 f1]. destruct IH as (L0 & L1 & O0 & O1 & IH); [lia|].
    assert (n / 8 < 16)%nat by (apply Nat.Div0.div_lt_upper_bound; unfold BLOOM_WORDS in Hn; lia).
    cbv zeta. rewrite !set_flag_or.
    destruct (Z.eqb_spec (ws !!! n) 0) as [E0|E0]; [|destruct (Z.eqb_spec (ws !!! n) U64_MAX) as [E1|E1]];
      rewrite ?or_bit_length; repeat (split; [first [done | by apply or_bit_ok]|]);
      intros j Hj; rewrite ?kbit_or_bit by (rewrite ?L0, ?L1; done); destruct (IH j Hj) as [-> ->];
      (destruct (decide (j = n)) as [->|Hne];
        [rewrite ?(bool_decide_eq_false_2 (n < n)%nat), ?(bool_decide_eq_true_2 (n < S n)%nat),
           ?(bool_decide_eq_true_2 (n = n)) by lia
        |rewrite ?(bool_decide_eq_false_2 (j = n)) by done;
         rewrite (bool_decide_ext (j < S n)%nat (j < n)%nat) by lia; cbn [andb]; by rewrite ?orb_false_r]);
      cbn [andb orb]; rewrite ?E0, ?E1; try done; repeat zcase; done.
Qed.

Lemma encode_flags_spec ws : length ws = BLOOM_WORDS ->
  length (encode_flags ws).1 = BLOOM_FLAGS /\ length (encode_flags ws).2 = BLOOM_FLAGS /\
  bytes_ok (encode_flags ws).1 /\ bytes_ok (encode_flags ws).2 /\
  forall j, (j < BLOOM_WORDS)%nat ->
    get_flag (encode_flags ws).1 j = (ws !!! j =? 0) /\
    get_flag (encode_flags ws).2 j = (ws !!! j =? U64_MAX).
Proof.
  intros Hl. pose proof (encode_flags_loop ws BLOOM_WORDS Hl (le_n _)) as H.
  unfold encode_flags. rewrite Hl. destruct (fold_left _ _ _) as [f0 f1].
  destruct H as (? & ? & ? & ? & H). cbn [fst snd]. repeat (split; [done|]). intros j Hj.
  rewrite !get_flag_kbit. destruct (H j Hj) as [-> ->]. by rewrite !bool_decide_eq_true_2.
Qed.

Lemma data_bytes_cons w ws :
  data_bytes (w :: ws) = (if is_data_word w then be_bytes 8 w else []) ++ data_bytes ws.
Proof. done. Qed.

Lemma data_bytes_length ws :
  length (data_bytes ws) = (8 * length (filter (fun w => is_data_word w = true) ws))%nat.
Proof.
  unfold data_bytes. induction ws as [|w ws IH]; [done|]. cbn [fmap list_fmap concat].
  rewrite length_app, IH, filter_cons. destruct (is_data_word w).
  - rewrite decide_True, be_bytes_length by done. cbn [length]. lia.
  - rewrite decide_False by done. done.
Qed.

Lemma put_words_spec ws : forall pre mid post, length mid = length (data_bytes ws) ->
  put_words ws (pre ++ mid ++ post) (length pre)
  = Some (pre ++ data_bytes ws ++ post, (length pre + length (data_bytes ws))%nat).
Proof.
  unfold put_words. induction ws as [|w ws IH]; intros pre mid post Hm.
  - destruct mid; [|done]. cbn. by rewrite Nat.add_0_r.
  - unfold data_bytes in *. cbn [fmap list_fmap concat fold_left mbind option_bind] in *.
    destruct (is_data_word w); [|by apply IH].
    rewrite length_app, be_bytes_length in Hm.
    destruct (split_at mid 8) as (m1 & m2 & -> & H1); [lia|].
    rewrite <-app_assoc, (copy_into_app pre m1 (m2 ++ post) (be_bytes 8 w)) by (by rewrite be_bytes_length).
    rewrite length_app in Hm.
    rewrite app_assoc. replace (length pre + 8)%nat with (length (pre ++ be_bytes 8 w))
      by (by rewrite length_app, be_bytes_length).
    cbn [mbind option_bind]. rewrite (IH (pre ++ be_bytes 8 w) m2 post) by lia.
    rewrite <-!app_assoc, !length_app. do 2 f_equal. lia.
Qed.

Lemma encode_to_spec b out : length (words b) = BLOOM_WORDS ->
  encode_to b out = Some (
    let need := length (bloom_spec (words b)) in
    if decide (length out < need)%nat then Err (Core InvalidLength)
    else Ok (bloom_spec (words b) ++ drop need out, need)).
Proof.
  intros Hl. destruct (encode_flags_spec _ Hl) as (L0 & L1 & _). unfold encode_to, bloom_spec.
  destruct (encode_flags (words b)) as [f0 f1]. cbn [fst snd] in *. cbv zeta.
  assert (length (f0 ++ f1 ++ data_bytes (words b))
    = 2 * BLOOM_FLAGS + 8 * length (filter (fun w => is_data_word w = true) (words b)))%nat as Hneed.
  { rewrite !length_app, data_bytes_length, L0, L1. lia. }
  rewrite <-Hneed. case_decide as Hd; [done|].
  destruct (split_at out (length (f0 ++ f1 ++ data_bytes (words b)))) as (o & post & -> & Ho); [lia|].
  rewrite !length_app, L0, L1 in Ho. unfold BLOOM_FLAGS in *.
  destruct (split_at o 16) as (m0 & o' & -> & H0); [lia|]. rewrite length_app in Ho.
  destruct (split_at o' 16) as (m1 & m2 & -> & H1); [lia|]. rewrite length_app in Ho.
  rewrite drop_app_exact by (rewrite !length_app; lia).
  rewrite <-!app_assoc.
  pose proof (copy_into_app [] m0 (m1 ++ m2 ++ post) f0) as C0. cbn [length app] in C0. rewrite C0 by lia.
  cbn [mbind option_bind].
  rewrite <-L0 at 1. rewrite (copy_into_app f0 m1 (m2 ++ post) f1) by lia. cbn [mbind option_bind].
  rewrite app_assoc. replace (2 * 16)%nat with (length (f0 ++ f1)) by (rewrite length_app; lia).
  rewrite (put_words_spec (words b) (f0 ++ f1) m2 post) by lia. cbn [mbind option_bind].
  rewrite <-!app_assoc, !length_app. do 3 f_equal. lia.
Qed.

Lemma bloom_spec_bound ws : length ws = BLOOM_WORDS -> (length (bloom_spec ws) <= MAX_ENCODED_LEN)%nat.
Proof.
  intros Hl. destruct (encode_flags_spec _ Hl) as (L0 & L1 & _). unfold bloom_spec.
  rewrite !length_app, L0, L1, data_bytes_length. pose proof (length_filter (fun w => is_data_word w = true) ws).
  unfold MAX_ENCODED_LEN. rewrite Hl in *. lia.
Qed.

Lemma encode_spec b : length (words b) = BLOOM_WORDS -> BloomFilter_encode b = Some (bloom_spec (words b)).
Proof.
  intros Hl. unfold BloomFilter_encode. rewrite encode_to_spec by done. cbn [mbind option_bind]. cbv zeta.
  rewrite length_replicate, decide_False by (pose proof (bloom_spec_bound _ Hl); lia).
  by rewrite take_app_length.
Qed.

Lemma decode_words_spec ws f0 f1 rest n : forall k, (k + n = length ws)%nat ->
  Forall is_u64 ws ->
  (forall j, (j < length ws)%nat -> get_flag f0 j = (ws !!! j =? 0) /\ get_flag f1 j = (ws !!! j =? U64_MAX)) ->
  decode_words f0 f1 (seq k n) (data_bytes (drop k ws) ++ rest) = Ok (drop k ws, rest).
Proof.
  induction n as [|n IH]; intros k Hk Hws Hfl.
  - rewrite drop_ge by lia. done.
  - cbn [seq decode_words]. destruct (Hfl k) as [-> ->]; [lia|].
    destruct (lookup_lt_is_Some_2 ws k) as [w Hw]; [lia|].
    rewrite (list_lookup_total_correct _ _ _ Hw), (drop_S _ _ _ Hw).
    specialize (IH (S k) ltac:(lia) Hws Hfl). rewrite data_bytes_cons.
    unfold is_data_word. destruct (Z.eqb_spec w 0) as [->|H0]; cbn [negb andb app].
    + change (0 =? U64_MAX) with false. cbn [negb andb app]. by rewrite IH.
    + destruct (Z.eqb_spec w U64_MAX) as [->|H1]; cbn [negb app]; [by rewrite IH|].
      rewrite <-app_assoc, decide_False by (rewrite length_app, be_bytes_length; lia).
      rewrite drop_app_exact, take_app_exact by apply be_bytes_length. rewrite IH. cbn [mbind result_bind].
      rewrite be_val_bytes_small; [done|]. exact (Forall_lookup_1 _ _ _ _ Hws Hw).
Qed.

Lemma decode_bloom_spec b : bloom_ok b -> BloomFilter_decode_exact (bloom_spec (words b)) = Ok b.
Proof.
  intros [Hl Hw]. destruct (encode_flags_spec _ Hl) as (L0 & L1 & _ & _ & Hf).
  unfold BloomFilter_decode_exact, bloom_spec.
  rewrite decide_False by (rewrite !length_app; lia).
  rewrite take_app_exact by done. rewrite drop_app_exact by done. rewrite take_app_exact by done.
  rewrite app_assoc, drop_app_exact by (rewrite length_app; lia).
  rewrite <-(app_nil_r (data_bytes _)). rewrite <-Hl in Hf |- *.
  pose proof (decode_words_spec (words b) (encode_flags (words b)).1 (encode_flags (words b)).2 []
    (length (words b)) 0 eq_refl Hw Hf) as E. rewrite drop_0 in E. rewrite E.
  cbn [mbind result_bind]. by destruct b.
Qed.

Lemma decode_words_ok f0 f1 idxs : forall rest ws r, bytes_ok rest ->
  decode_words f0 f1 idxs rest = Ok (ws, r) -> length ws = length idxs /\ Forall is_u64 ws.
Proof.
  induction idxs as [|i idxs IH]; intros rest ws r Hr; cbn [decode_words]; [by intros [= <- <-]|].
  assert (forall w rest', bytes_ok rest' -> is_u64 w ->
    ('(ws, r) ← decode_words f0 f1 idxs rest'; Ok (w :: ws, r)) = Ok (ws, r) ->
    length ws = S (length idxs) /\ Forall is_u64 ws) as Hstep.
  { intros w rest' Hr' Hw. destruct (decode_words f0 f1 idxs rest') as [[ws' r']|e] eqn:E; [|done].
    cbn [mbind result_bind]. intros [= <- <-]. destruct (IH _ _ _ Hr' E). cbn. split; [lia|by constructor]. }
  destruct (get_flag f0 i), (get_flag f1 i); [done|..].
  - apply Hstep; [done|]. unfold is_u64; lia.
  - apply Hstep; [done|]. unfold is_u64, U64_MAX; lia.
  - case_decide; [done|]. apply Hstep; [by apply bytes_ok_drop|]. unfold is_u64.
    pose proof (be_val_bound (take 8 rest) (bytes_ok_take _ _ Hr)) as Hb.
    rewrite length_take, Nat.min_l in Hb by lia. exact Hb.
Qed.

(** ** Properties *)

(** C39: filters have no false negatives, and their answers are exactly those of
    the sets of locations: after adding the keys [ds] one by one to an empty
    filter, a key tests positive iff each of its eight locations is a location
    of one of the [ds]. *)
Theorem test_after_adds ds d :
  BloomFilter_test (fold_left BloomFilter_add ds BloomFilter_new) d = true <->
  (forall l, l ∈ locations_for d -> exists k, k ∈ ds /\ l ∈ locations_for k).
Proof.
  rewrite test_bits, forallb_forall.
  assert (bloom_ok (fold_left BloomFilter_add ds BloomFilter_new) /\ forall l, is_location l ->
    bloom_bit (fold_left BloomFilter_add ds BloomFilter_new) l = true <->
    exists k, k ∈ ds /\ l ∈ locations_for k) as [_ H].
  { induction ds as [|k ds [IHok IH]] using rev_ind.
    - split; [apply new_ok|]. intros l Hl. cbn [fold_left]. rewrite new_bit by done.
      split; [done|]. intros (k & Hk & _). by apply not_elem_of_nil in Hk.
    - rewrite fold_left_app. cbn [fold_left]. split; [by apply add_ok|]. intros l Hl.
      rewrite add_bit, orb_true_iff, IH, bool_decide_eq_true by done.
      split.
      + intros [(k' & Hk' & Hin)|Hin]; [exists k'|exists k]; (split; [|done]); apply elem_of_app;
          [by left|right; by apply list_elem_of_singleton].
      + intros (k' & [Hk'|Hk']%elem_of_app & Hin); [left; by exists k'|right].
        apply list_elem_of_singleton in Hk'. by subst. }
  setoid_rewrite <-list_elem_of_In. split; intros Ht l Hl.
  - apply H; [by eapply locations_range|]. by apply Ht.
  - apply H; [by eapply locations_range|]. by apply Ht.
Qed.

(** Merging never loses a key: the merge tests positive for everything
    either filter tests positive for, and its bits are their union. *)
Theorem merge_is_union b c d l : bloom_ok b -> bloom_ok c -> is_location l ->
  bloom_bit (BloomFilter_merge b c) l = bloom_bit b l || bloom_bit c l /\
  (BloomFilter_test b d = true \/ BloomFilter_test c d = true ->
   BloomFilter_test (BloomFilter_merge b c) d = true).
Proof.
  intros Hb Hc Hl. split; [by apply merge_bit|]. rewrite !test_bits, !forallb_forall.
  setoid_rewrite <-list_elem_of_In. intros H x Hx. rewrite merge_bit; [|done|done|by eapply locations_range].
  apply orb_true_iff. destruct H as [H|H]; [left|right]; by apply H.
Qed.

Lemma merge_is_union_witness :
  BloomFilter_test (BloomFilter_merge (BloomFilter_add BloomFilter_new RPUB) (BloomFilter_add BloomFilter_new PPUB)) RPUB
  = true.
Proof.
  apply (merge_is_union (BloomFilter_add BloomFilter_new RPUB) (BloomFilter_add BloomFilter_new PPUB) RPUB 5).
  - apply add_ok, new_ok.
  - apply add_ok, new_ok.
  - unfold is_location, BLOOM_M. lia.
  - left. vm_compute. reflexivity.
Defined.

(** The filter encoding round-trips. The encoder never panics, its output
    fits [MAX_ENCODED_LEN], and the decoder gives the same filter back. *)
Theorem bloom_roundtrip b : bloom_ok b ->
  exists enc, BloomFilter_encode b = Some enc /\ (length enc <= MAX_ENCODED_LEN)%nat /\
    BloomFilter_decode_exact enc = Ok b.
Proof.
  intros Hb. exists (bloom_spec (words b)). split; [apply encode_spec, Hb|].
  split; [apply bloom_spec_bound, Hb|]. by apply decode_bloom_spec.
Qed.

Lemma bloom_roundtrip_witness :
  exists enc, BloomFilter_encode (BloomFilter_add BloomFilter_new RPUB) = Some enc /\
    BloomFilter_decode_exact enc = Ok (BloomFilter_add BloomFilter_new RPUB).
Proof.
  destruct (bloom_roundtrip (BloomFilter_add BloomFilter_new RPUB)) as (enc & H1 & _ & H2).
  - apply add_ok, new_ok.
  - exists enc. split; [exact H1|exact H2].
Defined.

(** Encoding into a caller's buffer. It never panics; a buffer shorter
    than the encoding is refused untouched, and otherwise the buffer's front is
    overwritten with the same bytes [encode] returns and nothing beyond them. *)
Theorem encode_to_exact b out enc : bloom_ok b -> BloomFilter_encode b = Some enc ->
  encode_to b out = Some (if decide (length out < length enc)%nat then Err (Core InvalidLength)
                          else Ok (enc ++ drop (length enc) out, length enc)).
Proof.
  intros [Hl _]. rewrite encode_spec by done. intros [= <-]. by apply encode_to_spec.
Qed.

Lemma encode_to_exact_witness :
  encode_to BloomFilter_new (replicate 31 7) = Some (Err (Core InvalidLength)) /\
  encode_to BloomFilter_new (replicate 34 7) = Some (Ok (replicate 16 255 ++ replicate 16 0 ++ [7; 7], 32%nat)).
Proof.
  split.
  - exact (encode_to_exact BloomFilter_new (replicate 31 7) (replicate 16 255 ++ replicate 16 0) new_ok
      ltac:(vm_compute; reflexivity)).
  - exact (encode_to_exact BloomFilter_new (replicate 34 7) (replicate 16 255 ++ replicate 16 0) new_ok
      ltac:(vm_compute; reflexivity)).
Defined.

(** Whatever bytes a peer sends, an accepted filter is a well-formed array of
    128 words, so every later index into it is in range. *)
Lemma decode_bloom_ok buf b : bytes_ok buf -> BloomFilter_decode_exact buf = Ok b -> bloom_ok b.
Proof.
  intros Hbuf. unfold BloomFilter_decode_exact. case_decide; [done|].
  destruct (decode_words _ _ _ _) as [[ws rest]|e] eqn:E; cbn [mbind result_bind]; [|done].
  destruct rest; [|done]. intros [= <-].
  apply decode_words_ok in E as [Hl Hw]; [|by apply bytes_ok_drop]. split; [exact Hl|exact Hw].
Qed.
