(* ===== verification/Wire.v ===== *)
(** * Wire: the messages of the tree, of the pathfinder and of the traffic layer
    (the codecs of [src/tree.rs], [src/pathfind.rs] and [src/traffic.rs]).

    Signing is the interface [Ed25519]: the functions of [ed25519_dalek] the
    code calls, with the laws it relies on: sizes, and that an honest signature
    verifies. Encoders append to a vector, as in the code; the [*_spec] lemmas
    name the bytes they append. *)
From stdpp Require Import base tactics list numbers.
From S2P Require Import Prelude Errors Frame Address.

Local Open Scope Z_scope.

(** ** The signature scheme *)

Class Ed25519 := {
  (** [SigningKey::verifying_key().to_bytes()], from the 32-byte seed. *)
  verifying_key : bytes -> bytes;
  (** [Signer::sign(..).to_bytes()]. *)
  ed_sign : bytes -> bytes -> bytes;
  (** [VerifyingKey::from_bytes(k).and_then(|k| k.verify_strict(msg, sig)).is_ok()]. *)
  ed_verify : bytes -> bytes -> bytes -> bool;
  (** [VerifyingKey::from_bytes(k).is_ok()]. *)
  ed_key_valid : bytes -> bool }.

Class Ed25519Laws `{!Ed25519} : Prop := {
  verifying_key_ok sk : key_ok (verifying_key sk);
  ed_sign_ok sk msg : bytes_ok (ed_sign sk msg) /\ length (ed_sign sk msg) = 64%nat;
  ed_sign_verify sk msg : ed_verify (verifying_key sk) msg (ed_sign sk msg) = true;
  ed_verify_valid pk msg sig : ed_verify pk msg sig = true -> ed_key_valid pk = true }.

Definition sig_ok (s : bytes) : Prop := bytes_ok s /\ length s = 64%nat.

#[export] Instance sig_ok_dec s : Decision (sig_ok s).
Proof. unfold sig_ok. apply _. Defined.

(** ** Tree messages *)

Record SigReq : Type := mkSigReq { req_seq : Z; req_nonce : Z }.

#[export] Instance SigReq_eq_dec : EqDecision SigReq.
Proof. solve_decision. Defined.

Definition SigReq_encode (r : SigReq) (out : bytes) : bytes :=
  append_uvarint (append_uvarint out (req_seq r)) (req_nonce r).

Definition SigReq_decode (buf : bytes) : result (SigReq * nat) :=
  '(seq, n) ← ok_or (read_uvarint buf) (Core InvalidLength);
  '(nonce, m) ← ok_or (read_uvarint (drop n buf)) (Core InvalidLength);
  Ok (mkSigReq seq nonce, n + m)%nat.

Definition SigReq_bytes_for_sig (r : SigReq) (node parent : bytes) : bytes :=
  SigReq_encode r (node ++ parent).

Record SigRes : Type := mkSigRes { res_req : SigReq; res_port : Z; res_psig : bytes }.

#[export] Instance SigRes_eq_dec : EqDecision SigRes.
Proof. solve_decision. Defined.

Definition SigRes_bytes_for_sig (r : SigRes) (node parent : bytes) : bytes :=
  append_uvarint (SigReq_bytes_for_sig (res_req r) node parent) (res_port r).

Definition SigRes_encode (r : SigRes) (out : bytes) : bytes :=
  append_uvarint (SigReq_encode (res_req r) out) (res_port r) ++ res_psig r.

Definition SigRes_decode (buf : bytes) : result (SigRes * nat) :=
  '(req, n) ← SigReq_decode buf;
  let rest := drop n buf in
  '(port, m) ← ok_or (read_uvarint rest) (Core InvalidLength);
  let rest := drop m rest in
  if decide (length rest < 64)%nat then Err (Core InvalidLength)
  else Ok (mkSigRes req port (take 64 rest), n + m + 64)%nat.

Record Announce : Type := mkAnnounce {
  ann_key : bytes; ann_parent : bytes; ann_res : SigRes; ann_sig : bytes }.

#[export] Instance Announce_eq_dec : EqDecision Announce.
Proof. solve_decision. Defined.

Definition Announce_encode (a : Announce) (out : bytes) : bytes :=
  SigRes_encode (ann_res a) (out ++ ann_key a ++ ann_parent a) ++ ann_sig a.

Definition Announce_decode_exact (buf : bytes) : result Announce :=
  if decide (length buf < 2 * KEY_LEN)%nat then Err (Core InvalidLength)
  else
    let key := take KEY_LEN buf in
    let parent := slice buf KEY_LEN (2 * KEY_LEN) in
    '(res, n) ← SigRes_decode (drop (2 * KEY_LEN) buf);
    let rest := drop (2 * KEY_LEN + n) buf in
    if decide (length rest = 64)%nat then Ok (mkAnnounce key parent res rest)
    else Err (Core InvalidLength).

(** ** Path messages *)

Record PathLookup : Type := mkPathLookup { lk_source : bytes; lk_dest : bytes; lk_from : list Z }.

Definition PathLookup_encode (l : PathLookup) (out : bytes) : bytes :=
  append_path (out ++ lk_source l ++ lk_dest l) (lk_from l).

Definition PathLookup_decode_exact (buf : bytes) : result PathLookup :=
  if decide (length buf < 2 * KEY_LEN)%nat then Err (Core InvalidLength)
  else
    '(from, _) ← ok_or (split_path (drop (2 * KEY_LEN) buf)) (Core InvalidLength);
    Ok (mkPathLookup (take KEY_LEN buf) (slice buf KEY_LEN (2 * KEY_LEN)) from).

Record NotifyInfo : Type := mkNotifyInfo { ni_seq : Z; ni_path : list Z; ni_sig : bytes }.

#[export] Instance NotifyInfo_eq_dec : EqDecision NotifyInfo.
Proof. solve_decision. Defined.

Definition NotifyInfo_bytes_for_sig (i : NotifyInfo) : bytes :=
  append_path (append_uvarint [] (ni_seq i)) (ni_path i).

Definition NotifyInfo_encode (i : NotifyInfo) (out : bytes) : bytes :=
  append_path (append_uvarint out (ni_seq i)) (ni_path i) ++ ni_sig i.

Definition NotifyInfo_decode (buf : bytes) : result (NotifyInfo * nat) :=
  '(seq, n) ← ok_or (read_uvarint buf) (Core InvalidLength);
  '(path, m) ← ok_or (split_path (drop n buf)) (Core InvalidLength);
  let rest := drop (n + m) buf in
  if decide (length rest < 64)%nat then Err (Core InvalidLength)
  else Ok (mkNotifyInfo seq path (take 64 rest), n + m + 64)%nat.

Record PathNotify : Type := mkPathNotify {
  pn_path : list Z; pn_watermark : Z; pn_source : bytes; pn_dest : bytes; pn_info : NotifyInfo }.

Definition PathNotify_encode (p : PathNotify) (out : bytes) : bytes :=
  NotifyInfo_encode (pn_info p)
    (append_uvarint (append_path out (pn_path p)) (pn_watermark p) ++ pn_source p ++ pn_dest p).

Definition PathNotify_decode_exact (buf : bytes) : result PathNotify :=
  '(path, n) ← ok_or (split_path buf) (Core InvalidLength);
  '(watermark, m) ← ok_or (read_uvarint (drop n buf)) (Core InvalidLength);
  let rest := drop (n + m) buf in
  if decide (length rest < 2 * KEY_LEN)%nat then Err (Core InvalidLength)
  else
    '(info, k) ← NotifyInfo_decode (drop (2 * KEY_LEN) rest);
    if decide (k = length (drop (2 * KEY_LEN) rest)) then
      Ok (mkPathNotify path watermark (take KEY_LEN rest) (slice rest KEY_LEN (2 * KEY_LEN)) info)
    else Err (Core InvalidLength).

Record PathBroken : Type := mkPathBroken {
  pb_path : list Z; pb_watermark : Z; pb_source : bytes; pb_dest : bytes }.

Definition PathBroken_encode (p : PathBroken) (out : bytes) : bytes :=
  append_uvarint (append_path out (pb_path p)) (pb_watermark p) ++ pb_source p ++ pb_dest p.

Definition PathBroken_decode_exact (buf : bytes) : result PathBroken :=
  '(path, n) ← ok_or (split_path buf) (Core InvalidLength);
  '(watermark, m) ← ok_or (read_uvarint (drop n buf)) (Core InvalidLength);
  let rest := drop (n + m) buf in
  if decide (length rest = 2 * KEY_LEN)%nat then
    Ok (mkPathBroken path watermark (take KEY_LEN rest) (drop KEY_LEN rest))
  else Err (Core InvalidLength).

(** ** Traffic *)

Fixpoint uvarint_len_loop (fuel : nat) (n : nat) (rest : Z) : nat :=
  match fuel with
  | O => n
  | S fuel' => if rest =? 0 then n else uvarint_len_loop fuel' (S n) (Z.shiftr rest 7)
  end.

(** [v >> 7] is below [2^57]: nine turns empty it. *)
Definition uvarint_len (v : Z) : nat := uvarint_len_loop 10 1 (Z.shiftr v 7).

Definition path_len (path : list Z) : nat := (sum_list (uvarint_len <$> path) + 1)%nat.

(** [f(&mut out\[at..\])]. *)
Definition on_tail {A} (at_ : nat) (f : bytes -> option (bytes * A)) (out : bytes) : option (bytes * A) :=
  if decide (at_ <= length out)%nat then
    '(tail, a) ← f (drop at_ out); Some (take at_ out ++ tail, a)
  else None.

Definition write_path (out : bytes) (path : list Z) : option bytes :=
  '(out, at_) ← fold_left (fun acc p => '(out, at_) ← acc;
      '(out', n) ← on_tail at_ (fun tl => write_uvarint tl p) out; Some (out', at_ + n)%nat)
    path (Some (out, 0%nat));
  store out at_ 0.

Record Traffic : Type := mkTraffic {
  tr_path : list Z; tr_from : list Z; tr_source : bytes; tr_dest : bytes;
  tr_watermark : Z; tr_payload : bytes }.

Definition FIXED_LEN : nat := 2 * KEY_LEN.

Definition encoded_len (t : Traffic) : nat :=
  (path_len (tr_path t) + path_len (tr_from t) + FIXED_LEN + uvarint_len (tr_watermark t)
   + length (tr_payload t))%nat.

(** Outer [None]: a slice or an index out of range, that is, a panic. *)
Definition Traffic_encode_to (t : Traffic) (out : bytes) : option (result (bytes * nat)) :=
  if decide (length out < encoded_len t)%nat then Some (Err (Core InvalidLength))
  else
    '(out, _) ← on_tail 0 (fun tl => (fun o => (o, ())) <$> write_path tl (tr_path t)) out;
    let at_ := path_len (tr_path t) in
    '(out, _) ← on_tail at_ (fun tl => (fun o => (o, ())) <$> write_path tl (tr_from t)) out;
    let at_ := (at_ + path_len (tr_from t))%nat in
    out ← copy_into out at_ (tr_source t);
    let at_ := (at_ + KEY_LEN)%nat in
    out ← copy_into out at_ (tr_dest t);
    let at_ := (at_ + KEY_LEN)%nat in
    '(out, n) ← on_tail at_ (fun tl => write_uvarint tl (tr_watermark t)) out;
    let at_ := (at_ + n)%nat in
    out ← copy_into out at_ (tr_payload t);
    Some (Ok (out, at_ + length (tr_payload t))%nat).

Definition Traffic_encode (t : Traffic) : option bytes :=
  r ← Traffic_encode_to t (replicate (encoded_len t) 0);
  match r with
  | Ok (out, _) => Some out
  | Err _ => None
  end.

Definition Traffic_decode (buf : bytes) : result Traffic :=
  '(path, n) ← ok_or (split_path buf) (Core InvalidLength);
  '(from, m) ← ok_or (split_path (drop n buf)) (Core InvalidLength);
  let rest := drop (n + m) buf in
  if decide (length rest < 2 * KEY_LEN)%nat then Err (Core InvalidLength)
  else
    let tail := drop (2 * KEY_LEN) rest in
    '(watermark, k) ← ok_or (read_uvarint tail) (Core InvalidLength);
    Ok (mkTraffic path from (take KEY_LEN rest) (slice rest KEY_LEN (2 * KEY_LEN)) watermark (drop k tail)).

Section signed.
Context `{!Ed25519}.

Definition SigRes_seal (req : SigReq) (port : Z) (node parent parent_key : bytes) : SigRes :=
  let res := mkSigRes req port (replicate 64 0) in
  mkSigRes req port (ed_sign parent (SigRes_bytes_for_sig res node parent_key)).

Definition SigRes_check (r : SigRes) (node parent : bytes) : bool :=
  ed_verify parent (SigRes_bytes_for_sig r node parent) (res_psig r).

Definition Announce_check (a : Announce) : bool :=
  if (res_port (ann_res a) =? 0) && negb (bool_decide (ann_key a = ann_parent a)) then false
  else
    ed_verify (ann_key a) (SigRes_bytes_for_sig (ann_res a) (ann_key a) (ann_parent a)) (ann_sig a)
    && SigRes_check (ann_res a) (ann_key a) (ann_parent a).

Definition NotifyInfo_sign (i : NotifyInfo) (key : bytes) : NotifyInfo :=
  mkNotifyInfo (ni_seq i) (ni_path i) (ed_sign key (NotifyInfo_bytes_for_sig i)).

Definition NotifyInfo_check (i : NotifyInfo) (source : bytes) : bool :=
  ed_verify source (NotifyInfo_bytes_for_sig i) (ni_sig i).

Definition PathNotify_check (p : PathNotify) : bool := NotifyInfo_check (pn_info p) (pn_source p).
End signed.

(** ** Well-formed messages: the ranges of the Rust types, and the paths and
    ports the decoder accepts *)

Definition SigReq_ok (r : SigReq) : Prop := is_u64 (req_seq r) /\ is_u64 (req_nonce r).
Definition SigRes_ok (r : SigRes) : Prop := SigReq_ok (res_req r) /\ is_u64 (res_port r) /\ sig_ok (res_psig r).
Definition Announce_ok (a : Announce) : Prop :=
  key_ok (ann_key a) /\ key_ok (ann_parent a) /\ SigRes_ok (ann_res a) /\ sig_ok (ann_sig a).
Definition PathLookup_ok (l : PathLookup) : Prop :=
  key_ok (lk_source l) /\ key_ok (lk_dest l) /\ path_ok (lk_from l).
Definition NotifyInfo_ok (i : NotifyInfo) : Prop :=
  is_u64 (ni_seq i) /\ path_ok (ni_path i) /\ sig_ok (ni_sig i).
Definition PathNotify_ok (p : PathNotify) : Prop :=
  path_ok (pn_path p) /\ is_u64 (pn_watermark p) /\ key_ok (pn_source p) /\ key_ok (pn_dest p) /\
  NotifyInfo_ok (pn_info p).
Definition PathBroken_ok (p : PathBroken) : Prop :=
  path_ok (pb_path p) /\ is_u64 (pb_watermark p) /\ key_ok (pb_source p) /\ key_ok (pb_dest p).
Definition Traffic_ok (t : Traffic) : Prop :=
  path_ok (tr_path t) /\ path_ok (tr_from t) /\ key_ok (tr_source t) /\ key_ok (tr_dest t) /\
  is_u64 (tr_watermark t) /\ bytes_ok (tr_payload t).

(** What a decoder of a message of type [A] promises to the dispatcher: it
    undoes the encoder on well-formed messages, and whatever bytes arrive, an
    accepted message is well-formed. *)
Class ExactCodec {A} (ok : A -> Prop) (enc : A -> bytes) (dec : bytes -> result A) : Prop := {
  codec_roundtrip a : ok a -> dec (enc a) = Ok a;
  codec_sound buf a : bytes_ok buf -> dec buf = Ok a -> ok a }.

Class PrefixCodec {A} (ok : A -> Prop) (enc : A -> bytes) (dec : bytes -> result (A * nat)) : Prop := {
  prefix_roundtrip a rest : ok a -> dec (enc a ++ rest) = Ok (a, length (enc a));
  prefix_sound buf a n : bytes_ok buf -> dec buf = Ok (a, n) -> ok a /\ (n <= length buf)%nat }.

(** ** The bytes the encoders append *)

Definition SigReq_bytes (r : SigReq) : bytes := uvarint_go 10 (req_seq r) ++ uvarint_go 10 (req_nonce r).
Definition SigRes_bytes (r : SigRes) : bytes :=
  SigReq_bytes (res_req r) ++ uvarint_go 10 (res_port r) ++ res_psig r.
Definition NotifyInfo_bytes (i : NotifyInfo) : bytes :=
  uvarint_go 10 (ni_seq i) ++ path_bytes (ni_path i) ++ ni_sig i.
Definition Traffic_bytes (t : Traffic) : bytes :=
  path_bytes (tr_path t) ++ path_bytes (tr_from t) ++ tr_source t ++ tr_dest t
  ++ uvarint_go 10 (tr_watermark t) ++ tr_payload t.

Lemma SigReq_encode_spec r out : SigReq_encode r out = out ++ SigReq_bytes r.
Proof. unfold SigReq_encode, SigReq_bytes, append_uvarint. by rewrite app_assoc. Qed.

Lemma SigRes_encode_spec r out : SigRes_encode r out = out ++ SigRes_bytes r.
Proof. unfold SigRes_encode, SigRes_bytes, append_uvarint. by rewrite SigReq_encode_spec, <-!app_assoc. Qed.

Lemma SigRes_bytes_for_sig_spec r node parent :
  SigRes_bytes_for_sig r node parent = node ++ parent ++ SigReq_bytes (res_req r) ++ uvarint_go 10 (res_port r).
Proof.
  unfold SigRes_bytes_for_sig, SigReq_bytes_for_sig, append_uvarint.
  by rewrite SigReq_encode_spec, <-!app_assoc.
Qed.

Lemma Announce_encode_spec a out :
  Announce_encode a out = out ++ ann_key a ++ ann_parent a ++ SigRes_bytes (ann_res a) ++ ann_sig a.
Proof. unfold Announce_encode. by rewrite SigRes_encode_spec, <-!app_assoc. Qed.

Lemma PathLookup_encode_spec l out :
  PathLookup_encode l out = out ++ lk_source l ++ lk_dest l ++ path_bytes (lk_from l).
Proof. unfold PathLookup_encode. by rewrite append_path_spec, <-!app_assoc. Qed.

Lemma NotifyInfo_encode_spec i out : NotifyInfo_encode i out = out ++ NotifyInfo_bytes i.
Proof. unfold NotifyInfo_encode, NotifyInfo_bytes, append_uvarint. by rewrite append_path_spec, <-!app_assoc. Qed.

Lemma PathNotify_encode_spec p out :
  PathNotify_encode p out = out ++ path_bytes (pn_path p) ++ uvarint_go 10 (pn_watermark p)
    ++ pn_source p ++ pn_dest p ++ NotifyInfo_bytes (pn_info p).
Proof.
  unfold PathNotify_encode, append_uvarint. by rewrite NotifyInfo_encode_spec, append_path_spec, <-!app_assoc.
Qed.

Lemma PathBroken_encode_spec p out :
  PathBroken_encode p out = out ++ path_bytes (pb_path p) ++ uvarint_go 10 (pb_watermark p)
    ++ pb_source p ++ pb_dest p.
Proof. unfold PathBroken_encode, append_uvarint. by rewrite append_path_spec, <-!app_assoc. Qed.

(** ** Decoding what was encoded *)

Lemma uvarint_head v rest e : is_u64 v ->
  ok_or (read_uvarint (uvarint_go 10 v ++ rest)) e = Ok (v, length (uvarint_go 10 v)).
Proof. intros. by rewrite read_append_uvarint. Qed.

Lemma path_head path rest e : path_ok path ->
  ok_or (split_path (path_bytes path ++ rest)) e = Ok (path, length (path_bytes path)).
Proof. intros. by rewrite split_append_path. Qed.

Lemma uvarint_nil_head v e : is_u64 v ->
  ok_or (read_uvarint (uvarint_go 10 v)) e = Ok (v, length (uvarint_go 10 v)).
Proof. intros. rewrite <-(app_nil_r (uvarint_go 10 v)) at 1. by apply uvarint_head. Qed.

Lemma drop_app_add {A} (l k : list A) n m : length l = n -> drop (n + m) (l ++ k) = drop m k.
Proof. intros <-. by rewrite <-drop_drop, drop_app_length. Qed.

(** The two key fields at the front of a buffer. *)
Lemma two_keys (s d rest : bytes) : length s = KEY_LEN -> length d = KEY_LEN ->
  take KEY_LEN (s ++ d ++ rest) = s /\ slice (s ++ d ++ rest) KEY_LEN (2 * KEY_LEN) = d /\
  drop (2 * KEY_LEN) (s ++ d ++ rest) = rest /\ ~ (length (s ++ d ++ rest) < 2 * KEY_LEN)%nat.
Proof.
  intros Hs Hd. split; [by apply take_app_exact|]. split.
  - unfold slice. rewrite drop_app_exact by done. by apply take_app_exact.
  - split; [|rewrite !length_app; lia].
    rewrite app_assoc. apply drop_app_exact. rewrite length_app. lia.
Qed.

Lemma sig_head (s rest : bytes) : sig_ok s -> take 64 (s ++ rest) = s /\ ~ (length (s ++ rest) < 64)%nat.
Proof. intros [_ H]. split; [by apply take_app_exact|]. rewrite length_app. lia. Qed.

#[export] Instance SigReq_codec : PrefixCodec SigReq_ok SigReq_bytes SigReq_decode.
Proof.
  split.
  - intros r rest [H1 H2]. unfold SigReq_decode, SigReq_bytes. rewrite <-app_assoc, uvarint_head by done.
    cbn [mbind result_bind]. rewrite drop_app_length, uvarint_head by done. cbn [mbind result_bind].
    rewrite length_app. by destruct r.
  - intros buf r n Hb. unfold SigReq_decode.
    destruct (read_uvarint buf) as [[s k]|] eqn:E1; cbn [ok_or mbind result_bind]; [|done].
    destruct (read_uvarint (drop k buf)) as [[o m]|] eqn:E2; cbn [ok_or mbind result_bind]; [|done].
    intros [= <- <-].
    apply (read_uvarint_sound _ 0 0) in E1 as (Hs & _ & Hk); [|done|unfold is_u64; lia].
    apply (read_uvarint_sound _ 0 0) in E2 as (Ho & _ & Hm); [|by apply bytes_ok_drop|unfold is_u64; lia].
    rewrite length_drop in Hm. split; [done|]. lia.
Qed.

Lemma uvarint_inv buf v n e : bytes_ok buf -> ok_or (read_uvarint buf) e = Ok (v, n) ->
  is_u64 v /\ (0 < n <= length buf)%nat.
Proof.
  intros Hb. destruct (read_uvarint buf) as [[v' n']|] eqn:E; [|done]. intros [= <- <-].
  apply (read_uvarint_sound _ 0 0) in E as (? & ? & ?); [|done|unfold is_u64; lia]. split; [done|lia].
Qed.

Lemma path_inv buf p n e : bytes_ok buf -> ok_or (split_path buf) e = Ok (p, n) ->
  path_ok p /\ (0 < n <= length buf)%nat.
Proof.
  intros Hb. destruct (split_path buf) as [[v' n']|] eqn:E; [|done]. intros [= <- <-].
  by apply split_path_sound.
Qed.

(** Inverts one bind of a decoder in the hypothesis [H]. *)
Ltac dec_inv H :=
  match type of H with
  | mbind _ ?m = Ok _ => let E := fresh "E" in
    destruct m as [[? ?]|?] eqn:E; cbn [mbind result_bind] in H; [|discriminate H]
  | (if ?d then _ else _) = Ok _ => destruct d; [try discriminate H|try discriminate H]
  end.

#[export] Hint Extern 2 (bytes_ok (slice _ _ _)) => unfold slice : roots.

Lemma key_ok_take buf : bytes_ok buf -> (KEY_LEN <= length buf)%nat -> key_ok (take KEY_LEN buf).
Proof. intros. split; [by apply bytes_ok_take|]. rewrite length_take. lia. Qed.

Lemma key_ok_slice buf : bytes_ok buf -> (2 * KEY_LEN <= length buf)%nat -> key_ok (slice buf KEY_LEN (2 * KEY_LEN)).
Proof.
  intros. split; [unfold slice; auto with roots|]. rewrite slice_length by (unfold KEY_LEN in *; lia).
  unfold KEY_LEN. lia.
Qed.

Lemma sig_ok_take buf : bytes_ok buf -> (64 <= length buf)%nat -> sig_ok (take 64 buf).
Proof. intros. split; [by apply bytes_ok_take|]. rewrite length_take. lia. Qed.

#[export] Instance SigRes_codec : PrefixCodec SigRes_ok SigRes_bytes SigRes_decode.
Proof.
  split.
  - intros r rest (Hr & Hp & Hs). unfold SigRes_decode, SigRes_bytes.
    rewrite <-!app_assoc, (prefix_roundtrip (dec := SigReq_decode)) by done. cbn [mbind result_bind].
    rewrite drop_app_length, uvarint_head by done. cbn [mbind result_bind]. rewrite drop_app_length.
    destruct (sig_head (res_psig r) rest Hs) as [-> Hl]. rewrite decide_False by done.
    rewrite !length_app. destruct Hs as [_ ->]. destruct r. do 2 f_equal. cbn. lia.
  - intros buf r n Hb H. unfold SigRes_decode in H. dec_inv H.
    apply (prefix_sound (dec := SigReq_decode)) in E as [Hreq Hn0]; [|done]. dec_inv H.
    apply uvarint_inv in E as [Hp Hn1]; [|by apply bytes_ok_drop]. dec_inv H.
    injection H as <- <-. rewrite !length_drop in *. split; [|lia].
    split; [done|]. split; [done|]. apply sig_ok_take; [auto with roots|]. rewrite !length_drop. lia.
Qed.

#[export] Instance Announce_codec : ExactCodec Announce_ok (fun a => Announce_encode a []) Announce_decode_exact.
Proof.
  split.
  - intros a ([_ Hk] & [_ Hp] & Hr & Hs). rewrite Announce_encode_spec. cbn [app].
    unfold Announce_decode_exact.
    destruct (two_keys _ _ (SigRes_bytes (ann_res a) ++ ann_sig a) Hk Hp) as (-> & -> & E & Hl).
    rewrite decide_False by done. rewrite E.
    rewrite (prefix_roundtrip (dec := SigRes_decode)) by done. cbn [mbind result_bind].
    rewrite <-drop_drop, E, drop_app_length, decide_True by apply Hs. by destruct a.
  - intros buf a Hb H. unfold Announce_decode_exact in H. dec_inv H. dec_inv H.
    apply (prefix_sound (dec := SigRes_decode)) in E as [Hr _]; [|by apply bytes_ok_drop]. dec_inv H.
    injection H as <-. split; [apply key_ok_take; [done|lia]|]. split; [apply key_ok_slice; [done|lia]|].
    split; [done|]. split; [by apply bytes_ok_drop|done].
Qed.

#[export] Instance PathLookup_codec : ExactCodec PathLookup_ok (fun l => PathLookup_encode l []) PathLookup_decode_exact.
Proof.
  split.
  - intros l ([_ Hk] & [_ Hp] & Hf). rewrite PathLookup_encode_spec. cbn [app]. unfold PathLookup_decode_exact.
    destruct (two_keys _ _ (path_bytes (lk_from l)) Hk Hp) as (-> & -> & -> & Hl).
    rewrite decide_False by done. rewrite <-(app_nil_r (path_bytes _)), path_head by done. by destruct l.
  - intros buf l Hb H. unfold PathLookup_decode_exact in H. dec_inv H. dec_inv H.
    apply path_inv in E as [Hp _]; [|by apply bytes_ok_drop]. injection H as <-.
    split; [apply key_ok_take; [done|lia]|]. split; [apply key_ok_slice; [done|lia]|]. done.
Qed.

#[export] Instance NotifyInfo_codec : PrefixCodec NotifyInfo_ok NotifyInfo_bytes NotifyInfo_decode.
Proof.
  split.
  - intros i rest (Hq & Hp & Hs). unfold NotifyInfo_decode, NotifyInfo_bytes.
    rewrite <-!app_assoc, uvarint_head by done. cbn [mbind result_bind].
    rewrite drop_app_length, path_head by done. cbn [mbind result_bind].
    rewrite drop_app_add, drop_app_length by done.
    destruct (sig_head (ni_sig i) rest Hs) as [-> Hl]. rewrite decide_False by done.
    rewrite !length_app. destruct Hs as [_ ->]. destruct i. do 2 f_equal. cbn. lia.
  - intros buf i n Hb H. unfold NotifyInfo_decode in H. dec_inv H. apply uvarint_inv in E as [Hq Hn]; [|done].
    dec_inv H. apply path_inv in E as [Hp Hm]; [|by apply bytes_ok_drop]. dec_inv H. injection H as <- <-.
    rewrite !length_drop in *. split; [|lia]. split; [done|]. split; [done|].
    apply sig_ok_take; [auto with roots|]. rewrite !length_drop. lia.
Qed.

#[export] Instance PathNotify_codec : ExactCodec PathNotify_ok (fun p => PathNotify_encode p []) PathNotify_decode_exact.
Proof.
  split.
  - intros p (Hp & Hw & [_ Hs] & [_ Hd] & Hi). rewrite PathNotify_encode_spec. cbn [app].
    unfold PathNotify_decode_exact. rewrite path_head by done. cbn [mbind result_bind].
    rewrite drop_app_length, uvarint_head by done. cbn [mbind result_bind].
    rewrite drop_app_add, drop_app_length by done.
    destruct (two_keys _ _ (NotifyInfo_bytes (pn_info p)) Hs Hd) as (-> & -> & -> & Hl).
    rewrite decide_False by done. rewrite <-(app_nil_r (NotifyInfo_bytes _)).
    rewrite (prefix_roundtrip (dec := NotifyInfo_decode)) by done. cbn [mbind result_bind].
    rewrite app_nil_r, decide_True by done. by destruct p.
  - intros buf p Hb H. unfold PathNotify_decode_exact in H. dec_inv H. apply path_inv in E as [Hp Hn]; [|done].
    dec_inv H. apply uvarint_inv in E as [Hw Hm]; [|by apply bytes_ok_drop]. dec_inv H. dec_inv H.
    apply (prefix_sound (dec := NotifyInfo_decode)) in E as [Hi _]; [|auto with roots]. dec_inv H.
    injection H as <-. split; [done|]. split; [done|].
    split; [apply key_ok_take; [auto with roots|lia]|]. split; [apply key_ok_slice; [auto with roots|lia]|done].
Qed.

#[export] Instance PathBroken_codec : ExactCodec PathBroken_ok (fun p => PathBroken_encode p []) PathBroken_decode_exact.
Proof.
  split.
  - intros p (Hp & Hw & [_ Hs] & [_ Hd]). rewrite PathBroken_encode_spec. cbn [app].
    unfold PathBroken_decode_exact. rewrite path_head by done. cbn [mbind result_bind].
    rewrite drop_app_length, uvarint_head by done. cbn [mbind result_bind].
    rewrite drop_app_add, drop_app_length by done.
    rewrite decide_True by (rewrite length_app; lia).
    rewrite take_app_exact, drop_app_exact by done. by destruct p.
  - intros buf p Hb H. unfold PathBroken_decode_exact in H. dec_inv H. apply path_inv in E as [Hp Hn]; [|done].
    dec_inv H. apply uvarint_inv in E as [Hw Hm]; [|by apply bytes_ok_drop]. dec_inv H. injection H as <-.
    split; [done|]. split; [done|]. split; [apply key_ok_take; [auto with roots|lia]|].
    cbn [pb_dest]. split; [auto with roots|]. rewrite length_drop. unfold KEY_LEN in *. lia.
Qed.

(** ** The traffic encoder *)

Lemma uvarint_len_loop_spec f : forall n v, 0 <= v -> v / 128 < 2 ^ (7 * Z.of_nat f) ->
  uvarint_len_loop (S f) n (Z.shiftr v 7) = (n + length (uvarint_go (S f) v) - 1)%nat.
Proof.
  induction f as [|f IH]; intros n v Hv Hb; cbn [uvarint_len_loop]; rewrite Z.shiftr_div_pow2 by lia;
    change (2 ^ 7) with 128; rewrite uvarint_go_S by done.
  - simpl in Hb. assert (v / 128 = 0) as -> by (pose proof (Z.div_pos v 128); lia). cbn [Z.eqb].
    assert (v < 128) by (destruct (decide (v < 128)); [done|]; pose proof (Z.div_le_lower_bound v 128 1); lia).
    destruct (Z.leb_spec 128 v); [lia|]. cbn. lia.
  - destruct (Z.eqb_spec (v / 128) 0) as [E|E].
    + assert (v < 128) by (apply Z.div_small_iff in E; lia).
      destruct (Z.leb_spec 128 v); [lia|]. cbn. lia.
    + assert (128 <= v) by (destruct (decide (v < 128)); [rewrite Z.div_small in E by lia; lia|lia]).
      destruct (Z.leb_spec 128 v); [|lia]. cbn [length].
      change (uvarint_len_loop (S f) (S n) (Z.shiftr (v / 128) 7) = (n + S (length (uvarint_go (S f) (v / 128))) - 1)%nat).
      rewrite IH; [lia|apply Z.div_pos; lia|].
      apply Z.div_lt_upper_bound; [lia|]. replace (7 * Z.of_nat (S f)) with (7 + 7 * Z.of_nat f) in Hb by lia.
      rewrite Z.pow_add_r in Hb by lia. exact Hb.
Qed.

Lemma uvarint_len_spec v : is_u64 v -> uvarint_len v = length (uvarint_go 10 v).
Proof.
  intros Hv. unfold uvarint_len. rewrite (uvarint_len_loop_spec 9); [|unfold is_u64 in Hv; lia|].
  - lia.
  - apply Z.div_lt_upper_bound; [lia|]. unfold is_u64 in Hv. simpl. lia.
Qed.

Lemma port_u64 p : is_port p -> is_u64 p.
Proof. unfold is_port, is_u64. lia. Qed.

Lemma path_len_spec path : Forall is_port path -> path_len path = length (path_bytes path).
Proof.
  intros H. unfold path_len, path_bytes. rewrite length_app. cbn [length]. f_equal.
  induction H as [|p path Hp _ IH]; [done|]. rewrite fmap_cons. cbn [map concat].
  change (sum_list (?a :: ?l)) with (a + sum_list l)%nat. rewrite length_app, IH. by rewrite uvarint_len_spec by (by apply port_u64).
Qed.

Lemma on_tail_app {A} pre tl (f : bytes -> option (bytes * A)) tl' a :
  f tl = Some (tl', a) -> on_tail (length pre) f (pre ++ tl) = Some (pre ++ tl', a).
Proof.
  intros E. unfold on_tail. rewrite decide_True by (rewrite length_app; lia).
  rewrite drop_app_length, E. cbn [mbind option_bind]. by rewrite take_app_length.
Qed.

Lemma write_path_spec path mid post : Forall is_port path -> length mid = length (path_bytes path) ->
  write_path (mid ++ post) path = Some (path_bytes path ++ post).
Proof.
  intros Hp Hm. unfold write_path.
  set (body := concat (map (uvarint_go 10) path)).
  assert (forall pre m rest, length m = length body ->
    fold_left (fun acc p => '(out, at_) ← acc;
      '(out', n) ← on_tail at_ (fun tl => write_uvarint tl p) out; Some (out', at_ + n)%nat)
      path (Some (pre ++ m ++ rest, length pre)) = Some (pre ++ body ++ rest, (length pre + length body)%nat)) as H.
  { subst body. clear Hm mid post. induction Hp as [|p path Hp _ IH]; intros pre m rest Hm.
    - destruct m; [|done]. cbn. by rewrite Nat.add_0_r.
    - cbn [map concat fold_left mbind option_bind] in *. rewrite length_app in Hm.
      destruct (split_at m (length (uvarint_go 10 p))) as (m1 & m2 & -> & H1); [lia|]. rewrite length_app in Hm.
      rewrite (on_tail_app pre _ _ (uvarint_go 10 p ++ m2 ++ rest) (length (uvarint_go 10 p))).
      2: { rewrite <-app_assoc. apply write_uvarint_spec; [by apply port_u64|done]. }
      cbn [mbind option_bind]. rewrite app_assoc, <-length_app.
      rewrite (IH (pre ++ uvarint_go 10 p) m2 rest) by lia. rewrite <-!app_assoc, !length_app. do 2 f_equal. lia. }
  unfold path_bytes in *. rewrite length_app in Hm. cbn [length] in Hm. fold body in Hm |- *.
  destruct (split_at mid (length body)) as (m & x & -> & H1); [lia|]. rewrite length_app in Hm.
  destruct x as [|x [|]]; cbn [length] in Hm; try lia. rewrite <-!app_assoc.
  specialize (H [] m ([x] ++ post) H1). cbn [app length] in H. rewrite Nat.add_0_l in H.
  cbn [app]. rewrite H. cbn [mbind option_bind]. apply store_app.
Qed.

Lemma encoded_len_spec t : Traffic_ok t -> encoded_len t = length (Traffic_bytes t).
Proof.
  intros ([Hp _] & [Hf _] & [_ Hs] & [_ Hd] & Hw & _). unfold encoded_len, Traffic_bytes, FIXED_LEN.
  rewrite !path_len_spec, uvarint_len_spec, !length_app, Hs, Hd by done. lia.
Qed.

Lemma on_tail_at {A} at_ pre tl (f : bytes -> option (bytes * A)) tl' a :
  at_ = length pre -> f tl = Some (tl', a) -> on_tail at_ f (pre ++ tl) = Some (pre ++ tl', a).
Proof. intros ->. apply on_tail_app. Qed.

Lemma on_tail_0 {A} tl (f : bytes -> option (bytes * A)) tl' a :
  f tl = Some (tl', a) -> on_tail 0 f tl = Some (tl', a).
Proof. apply (on_tail_app []). Qed.

Lemma copy_into_at at_ pre mid post src : at_ = length pre ->
  length mid = length src -> copy_into (pre ++ mid ++ post) at_ src = Some ((pre ++ src) ++ post).
Proof. intros ->. rewrite <-app_assoc. apply copy_into_app. Qed.

Lemma Traffic_encode_to_spec t out : Traffic_ok t ->
  Traffic_encode_to t out = Some (
    if decide (length out < length (Traffic_bytes t))%nat then Err (Core InvalidLength)
    else Ok (Traffic_bytes t ++ drop (length (Traffic_bytes t)) out, length (Traffic_bytes t))).
Proof.
  intros Hok. pose proof (encoded_len_spec t Hok) as Hlen. unfold Traffic_encode_to. rewrite Hlen.
  destruct Hok as ([Hp _] & [Hf _] & [_ Hs] & [_ Hd] & Hw & _). case_decide as Hdec; [done|].
  rewrite !path_len_spec by done. unfold Traffic_bytes in *.
  destruct (split_at out (length (Traffic_bytes t))) as (o & post & -> & Ho);
    unfold Traffic_bytes in *; [lia|]. rewrite drop_app_exact by done. clear Hdec Hlen.
  rewrite !length_app in Ho.
  destruct (split_at o (length (path_bytes (tr_path t)))) as (m1 & o1 & -> & H1); [lia|]. rewrite length_app in Ho.
  destruct (split_at o1 (length (path_bytes (tr_from t)))) as (m2 & o2 & -> & H2); [lia|]. rewrite length_app in Ho.
  destruct (split_at o2 (length (tr_source t))) as (m3 & o3 & -> & H3); [lia|]. rewrite length_app in Ho.
  destruct (split_at o3 (length (tr_dest t))) as (m4 & o4 & -> & H4); [lia|]. rewrite length_app in Ho.
  destruct (split_at o4 (length (uvarint_go 10 (tr_watermark t)))) as (m5 & m6 & -> & H5); [lia|].
  rewrite length_app in Ho. rewrite <-!app_assoc.
  rewrite (on_tail_0 _ _ (path_bytes (tr_path t) ++ m2 ++ m3 ++ m4 ++ m5 ++ m6 ++ post) ())
    by (by rewrite write_path_spec by done).
  cbn [mbind option_bind].
  rewrite (on_tail_at _ (path_bytes (tr_path t)) _ _ (path_bytes (tr_from t) ++ m3 ++ m4 ++ m5 ++ m6 ++ post) ())
    by (done || by rewrite write_path_spec by done).
  cbn [mbind option_bind]. rewrite app_assoc.
  rewrite (copy_into_at _ _ m3 _ (tr_source t)) by (done || by rewrite length_app). cbn [mbind option_bind].
  rewrite (copy_into_at _ _ m4 _ (tr_dest t)) by (done || by rewrite !length_app, Hs). cbn [mbind option_bind].
  rewrite (on_tail_at _ _ _ _ (uvarint_go 10 (tr_watermark t) ++ m6 ++ post) (length (uvarint_go 10 (tr_watermark t)))).
  2: by rewrite !length_app, Hs, Hd.
  2: by apply write_uvarint_spec.
  cbn [mbind option_bind]. rewrite app_assoc.
  rewrite (copy_into_at _ _ m6 post (tr_payload t)) by (rewrite ?length_app, ?Hs, ?Hd; lia).
  cbn [mbind option_bind]. rewrite <-!app_assoc, !length_app, Hs, Hd. do 3 f_equal. lia.
Qed.

Lemma Traffic_encode_spec t : Traffic_ok t -> Traffic_encode t = Some (Traffic_bytes t).
Proof.
  intros Hok. unfold Traffic_encode. rewrite Traffic_encode_to_spec, encoded_len_spec by done.
  rewrite length_replicate, decide_False by lia. cbn [mbind option_bind].
  by rewrite drop_ge, app_nil_r by (rewrite length_replicate; lia).
Qed.

#[export] Instance Traffic_codec : ExactCodec Traffic_ok Traffic_bytes Traffic_decode.
Proof.
  split.
  - intros t (Hp & Hf & [_ Hs] & [_ Hd] & Hw & _). unfold Traffic_decode, Traffic_bytes.
    rewrite path_head by done. cbn [mbind result_bind]. rewrite drop_app_length, path_head by done.
    cbn [mbind result_bind]. rewrite drop_app_add, drop_app_length by done.
    destruct (two_keys _ _ (uvarint_go 10 (tr_watermark t) ++ tr_payload t) Hs Hd) as (-> & -> & -> & Hl).
    rewrite decide_False, uvarint_head by done. cbn [mbind result_bind]. rewrite drop_app_length. by destruct t.
  - intros buf t Hb H. unfold Traffic_decode in H. dec_inv H. apply path_inv in E as [Hp Hn]; [|done].
    dec_inv H. apply path_inv in E as [Hf Hm]; [|by apply bytes_ok_drop]. dec_inv H. dec_inv H.
    apply uvarint_inv in E as [Hw _]; [|auto with roots]. injection H as <-.
    split; [done|]. split; [done|]. split; [apply key_ok_take; [auto with roots|lia]|].
    split; [apply key_ok_slice; [auto with roots|lia]|]. split; [done|]. cbn [tr_payload]. auto with roots.
Qed.

(** ** A concrete scheme, for the witnesses *)

Definition pad_bytes (n : nat) (l : bytes) : bytes := take n ((wrap8 <$> l) ++ replicate n 0).

Lemma pad_bytes_ok n l : bytes_ok (pad_bytes n l) /\ length (pad_bytes n l) = n.
Proof.
  split.
  - apply bytes_ok_take, bytes_ok_app. split; [|apply bytes_ok_replicate; unfold is_u8; lia].
    apply Forall_fmap, Forall_true. intros. apply wrap8_range.
  - unfold pad_bytes. rewrite length_take, length_app, length_replicate. lia.
Qed.

Definition toy_ed25519 : Ed25519 := {|
  verifying_key sk := pad_bytes 32 sk;
  ed_sign sk msg := pad_bytes 64 (pad_bytes 32 sk ++ rev msg);
  ed_verify pk msg sig := bool_decide (sig = pad_bytes 64 (pk ++ rev msg));
  ed_key_valid _ := true |}.

Lemma toy_ed25519_laws : @Ed25519Laws toy_ed25519.
Proof.
  split; intros.
  - apply (pad_bytes_ok 32).
  - apply pad_bytes_ok.
  - by apply bool_decide_eq_true_2.
  - done.
Qed.

Definition ex_res : SigRes := mkSigRes (mkSigReq 7 300) 2 (replicate 64 5).
Definition ex_ann : Announce := mkAnnounce PUB (replicate 32 9) ex_res (replicate 64 6).
Definition ex_traffic : Traffic := mkTraffic [1; 200] [3] PUB (replicate 32 9) U64_MAX [1; 2; 3].

(** Decides a closed well-formedness goal. *)
Ltac wire_ok := repeat match goal with
  | |- _ /\ _ => split
  | |- Announce_ok _ => unfold Announce_ok
  | |- SigRes_ok _ => unfold SigRes_ok
  | |- SigReq_ok _ => unfold SigReq_ok
  | |- Traffic_ok _ => unfold Traffic_ok
  | |- PathLookup_ok _ => unfold PathLookup_ok
  | |- PathNotify_ok _ => unfold PathNotify_ok
  | |- NotifyInfo_ok _ => unfold NotifyInfo_ok
  | |- PathBroken_ok _ => unfold PathBroken_ok
  | |- _ => apply (bool_decide_unpack _); vm_compute; exact I
  end.

(** ** Properties *)

(** The bytes a signature covers determine what is signed. Two tree
    responses with the same signed bytes are the same response to the same
    request, for the same node and parent: a signature cannot be reused for
    another port, sequence number, nonce, node or parent. *)
Theorem signed_bytes_injective r r' node node' parent parent' :
  SigRes_ok r -> SigRes_ok r' -> key_ok node -> key_ok node' -> key_ok parent -> key_ok parent' ->
  SigRes_bytes_for_sig r node parent = SigRes_bytes_for_sig r' node' parent' ->
  node = node' /\ parent = parent' /\ res_req r = res_req r' /\ res_port r = res_port r'.
Proof.
  intros (Hr & Hp & _) (Hr' & Hp' & _) [_ Hn] [_ Hn'] [_ Hq] [_ Hq'].
  rewrite !SigRes_bytes_for_sig_spec. intros E.
  apply app_inj_1 in E as [-> E]; [|congruence]. apply app_inj_1 in E as [-> E]; [|congruence].
  split; [done|]. split; [done|].
  pose proof (prefix_roundtrip (dec := SigReq_decode) (res_req r) (uvarint_go 10 (res_port r)) Hr) as D.
  pose proof (prefix_roundtrip (dec := SigReq_decode) (res_req r') (uvarint_go 10 (res_port r')) Hr') as D'.
  rewrite E, D' in D. injection D as Ereq _. split; [done|]. rewrite Ereq in E. apply app_inv_head in E.
  pose proof (read_append_uvarint (res_port r) [] Hp) as R.
  pose proof (read_append_uvarint (res_port r') [] Hp') as R'. rewrite E in R. congruence.
Qed.

Lemma signed_bytes_injective_witness : exists r', r' = mkSigRes (mkSigReq 7 300) 2 (replicate 64 1) /\
  res_port ex_res = res_port r'.
Proof.
  exists (mkSigRes (mkSigReq 7 300) 2 (replicate 64 1)). split; [reflexivity|].
  apply (signed_bytes_injective ex_res (mkSigRes (mkSigReq 7 300) 2 (replicate 64 1)) PUB PUB PUB PUB);
    [wire_ok..|reflexivity].
Defined.

(** C36: every message of the tree and path protocols comes back from the
    decoder its receiver applies: signature requests and responses, which are
    read with their length and accepted if nothing follows, announces, lookups,
    notifies and broken reports. *)
Theorem messages_roundtrip q r a l p b :
  SigReq_ok q -> SigRes_ok r -> Announce_ok a -> PathLookup_ok l -> PathNotify_ok p -> PathBroken_ok b ->
  SigReq_decode (SigReq_encode q []) = Ok (q, length (SigReq_encode q [])) /\
  SigRes_decode (SigRes_encode r []) = Ok (r, length (SigRes_encode r [])) /\
  Announce_decode_exact (Announce_encode a []) = Ok a /\
  PathLookup_decode_exact (PathLookup_encode l []) = Ok l /\
  PathNotify_decode_exact (PathNotify_encode p []) = Ok p /\
  PathBroken_decode_exact (PathBroken_encode b []) = Ok b.
Proof.
  intros Hq Hr Ha Hl Hp Hb. split.
  { rewrite SigReq_encode_spec. pose proof (prefix_roundtrip (dec := SigReq_decode) q [] Hq) as D. by rewrite app_nil_r in D. }
  split. { rewrite SigRes_encode_spec. pose proof (prefix_roundtrip (dec := SigRes_decode) r [] Hr) as D. by rewrite app_nil_r in D. }
  split; [exact (@codec_roundtrip _ _ _ _ Announce_codec a Ha)|].
  split; [exact (@codec_roundtrip _ _ _ _ PathLookup_codec l Hl)|].
  split; [exact (@codec_roundtrip _ _ _ _ PathNotify_codec p Hp)|].
  exact (@codec_roundtrip _ _ _ _ PathBroken_codec b Hb).
Qed.

Lemma messages_roundtrip_witness :
  SigReq_decode (SigReq_encode (mkSigReq 7 300) []) = Ok (mkSigReq 7 300, 3%nat) /\
  SigRes_decode (SigRes_encode ex_res []) = Ok (ex_res, length (SigRes_encode ex_res [])) /\
  Announce_decode_exact (Announce_encode ex_ann []) = Ok ex_ann /\
  PathLookup_decode_exact (PathLookup_encode (mkPathLookup PUB PUB [3; 400]) []) = Ok (mkPathLookup PUB PUB [3; 400]) /\
  PathNotify_decode_exact
    (PathNotify_encode (mkPathNotify [4] 9 PUB PUB (mkNotifyInfo 5 [1; 2] (replicate 64 3))) [])
  = Ok (mkPathNotify [4] 9 PUB PUB (mkNotifyInfo 5 [1; 2] (replicate 64 3))) /\
  PathBroken_decode_exact (PathBroken_encode (mkPathBroken [4] 9 PUB PUB) []) = Ok (mkPathBroken [4] 9 PUB PUB).
Proof.
  apply (messages_roundtrip (mkSigReq 7 300) ex_res ex_ann (mkPathLookup PUB PUB [3; 400])
    (mkPathNotify [4] 9 PUB PUB (mkNotifyInfo 5 [1; 2] (replicate 64 3))) (mkPathBroken [4] 9 PUB PUB)); wire_ok.
Defined.

(** C37: whatever bytes a peer sends, an accepted message is well-formed: keys
    of 32 bytes, signatures of 64, integers in their width, paths of at most
    128 non-zero ports. No later index or slice on it can panic. *)
Theorem decoders_sound buf : bytes_ok buf ->
  (forall a, Announce_decode_exact buf = Ok a -> Announce_ok a) /\
  (forall l, PathLookup_decode_exact buf = Ok l -> PathLookup_ok l) /\
  (forall p, PathNotify_decode_exact buf = Ok p -> PathNotify_ok p) /\
  (forall b, PathBroken_decode_exact buf = Ok b -> PathBroken_ok b) /\
  (forall t, Traffic_decode buf = Ok t -> Traffic_ok t).
Proof.
  intros Hb. split; [intros a; by apply (codec_sound (dec := Announce_decode_exact))|].
  split; [intros a; by apply (codec_sound (dec := PathLookup_decode_exact))|].
  split; [intros a; by apply (codec_sound (dec := PathNotify_decode_exact))|].
  split; [intros a; by apply (codec_sound (dec := PathBroken_decode_exact))|].
  intros a. by apply (codec_sound (dec := Traffic_decode)).
Qed.

Lemma decoders_sound_witness : exists t, Traffic_decode (Traffic_bytes ex_traffic) = Ok t /\ Traffic_ok t.
Proof.
  exists ex_traffic. split; [vm_compute; reflexivity|].
  apply (decoders_sound (Traffic_bytes ex_traffic)); [wire_ok|vm_compute; reflexivity].
Defined.

(** The traffic encoder writes the documented layout and decodes back. The
    buffer form never panics, refuses a buffer shorter than [encoded_len] and
    otherwise writes the same bytes as [encode], leaving the rest untouched. *)
Theorem traffic_encode_exact t out : Traffic_ok t ->
  exists enc, Traffic_encode t = Some enc /\ length enc = encoded_len t /\ Traffic_decode enc = Ok t /\
    Traffic_encode_to t out = Some (if decide (length out < length enc)%nat then Err (Core InvalidLength)
                                    else Ok (enc ++ drop (length enc) out, length enc)).
Proof.
  intros Hok. exists (Traffic_bytes t). split; [by apply Traffic_encode_spec|].
  split; [symmetry; by apply encoded_len_spec|].
  split; [by apply (codec_roundtrip (dec := Traffic_decode))|by apply Traffic_encode_to_spec].
Qed.

Lemma traffic_encode_exact_witness : exists enc, Traffic_encode ex_traffic = Some enc /\ length enc = 83%nat /\
  Traffic_decode enc = Ok ex_traffic.
Proof.
  destruct (traffic_encode_exact ex_traffic []) as (enc & H1 & H2 & H3 & _); [wire_ok|].
  exists enc. split; [exact H1|]. split; [rewrite H2; vm_compute; reflexivity|exact H3].
Defined.

(** Honest announces verify. A parent's sealed response, countersigned by
    the node, passes [Announce::check] whenever the port is not zero or the node
    announces itself as root; a zero port under another parent never does. *)
Theorem sealed_announce_checks `{!Ed25519} `{!Ed25519Laws} sk psk req port :
  let node := verifying_key sk in
  let parent := verifying_key psk in
  let res := SigRes_seal req port node psk parent in
  let ann := mkAnnounce node parent res (ed_sign sk (SigRes_bytes_for_sig res node parent)) in
  Announce_check ann = negb ((port =? 0) && negb (bool_decide (node = parent))).
Proof.
  cbv zeta. unfold Announce_check, SigRes_check. cbn [ann_key ann_parent ann_res ann_sig res_port SigRes_seal res_psig].
  rewrite ed_sign_verify. destruct ((port =? 0) && _); [done|]. cbn [andb negb].
  change (SigRes_bytes_for_sig (SigRes_seal req port ?n ?s ?p) ?a ?b)
    with (SigRes_bytes_for_sig (mkSigRes req port (replicate 64 0)) a b).
  apply ed_sign_verify.
Qed.

Lemma sealed_announce_checks_witness :
  let _ := toy_ed25519 in
  let res := SigRes_seal (mkSigReq 1 2) 3 (verifying_key [1]) [2] (verifying_key [2]) in
  Announce_check (mkAnnounce (verifying_key [1]) (verifying_key [2]) res
    (ed_sign [1] (SigRes_bytes_for_sig res (verifying_key [1]) (verifying_key [2])))) = true.
Proof.
  exact (@sealed_announce_checks toy_ed25519 toy_ed25519_laws [1] [2] (mkSigReq 1 2) 3).
Defined.
