(* ===== verification/Handshake.v ===== *)
(** * Handshake: the [meta] exchange that opens a link ([src/handshake.rs], the
    implementation tags of [src/peer.rs] and [run_handshake] of [src/link.rs]).

    The exchange over a stream is a function of the bytes the peer will send
    and of the error that follows them; it returns what this side writes and
    how it ends. *)
From stdpp Require Import base tactics list numbers.
From S2P Require Import Prelude Errors Frame Address Wire.

Local Open Scope Z_scope.

(** BLAKE2b of the [blake2] crate: plain, and keyed (refused for long keys). *)
Class Blake2 := {
  blake2b512 : bytes -> bytes;
  blake2b_mac512 : bytes -> bytes -> option bytes }.

Class Blake2Laws `{!Blake2} : Prop := {
  blake2b_mac512_key key msg : (length key <= 64)%nat -> is_Some (blake2b_mac512 key msg) }.

Definition PREAMBLE : bytes := [109; 101; 116; 97].
Definition HEADER_LEN : nat := 6.
Definition SIG_LEN : nat := 64.
Definition MAX_PASSWORD_LEN : nat := 64.
Definition PROTOCOL_MAJOR : Z := 0.
Definition PROTOCOL_MINOR : Z := 5.
Definition TAG_MAJOR : Z := 0.
Definition TAG_MINOR : Z := 1.
Definition TAG_PUBKEY : Z := 2.
Definition TAG_PRIORITY : Z := 3.
Definition TAG_VENDOR : Z := 4.
Definition TAG_FEATURES : Z := 5.
Definition FIELD_HEADER_LEN : nat := 4.
Definition VENDOR_ROOTS : bytes := [114; 111; 111; 116; 115].
Definition VENDOR_MAX : nat := 32.
Definition FEAT_NONE : Z := 0.

Inductive PeerKind : Type := Go | Roots (features : Z).

#[export] Instance PeerKind_eq_dec : EqDecision PeerKind.
Proof. solve_decision. Defined.

Definition from_tlvs (vendor : option bytes) (features : option Z) : PeerKind :=
  match vendor with
  | Some v => if decide (v = VENDOR_ROOTS) then Roots (unwrap_or features FEAT_NONE) else Go
  | None => Go
  end.

Definition supports (k : PeerKind) (flag : Z) : bool :=
  match k with
  | Go => false
  | Roots features => Z.land features flag =? flag
  end.

Definition is_roots (k : PeerKind) : bool := match k with Roots _ => true | Go => false end.

Record Meta : Type := mkMeta {
  m_major : Z; m_minor : Z; m_public_key : bytes; m_priority : Z;
  m_vendor : option bytes; m_features : option Z }.

Definition Meta_local (public_key : bytes) (priority : Z) : Meta :=
  mkMeta PROTOCOL_MAJOR PROTOCOL_MINOR public_key priority (Some VENDOR_ROOTS) (Some FEAT_NONE).

Definition Meta_local_go (public_key : bytes) (priority : Z) : Meta :=
  mkMeta PROTOCOL_MAJOR PROTOCOL_MINOR public_key priority None None.

Definition push_field (out : bytes) (tag : Z) (val : bytes) : bytes :=
  out ++ be_bytes 2 tag ++ be_bytes 2 (wrap16 (Z.of_nat (length val))) ++ val.

(** The six fields, after the header. *)
Definition Meta_fields (m : Meta) (out : bytes) : bytes :=
  let out := push_field out TAG_MAJOR (be_bytes 2 (m_major m)) in
  let out := push_field out TAG_MINOR (be_bytes 2 (m_minor m)) in
  let out := push_field out TAG_PUBKEY (m_public_key m) in
  let out := push_field out TAG_PRIORITY [m_priority m] in
  let out := match m_vendor m with Some v => push_field out TAG_VENDOR v | None => out end in
  match m_features m with Some f => push_field out TAG_FEATURES (be_bytes 4 f) | None => out end.

(** One field of the decoder's loop: what it stores, or the refusal. *)
Definition store_field (m : Meta) (tag : Z) (val : bytes) : result Meta :=
  let '(mkMeta major minor public_key priority vendor features) := m in
  let n := length val in
  if (tag =? TAG_MAJOR) && bool_decide (n = 2%nat) then
    Ok (mkMeta (be_val val) minor public_key priority vendor features)
  else if (tag =? TAG_MINOR) && bool_decide (n = 2%nat) then
    Ok (mkMeta major (be_val val) public_key priority vendor features)
  else if (tag =? TAG_PUBKEY) && bool_decide (n = KEY_LEN) then
    Ok (mkMeta major minor val priority vendor features)
  else if (tag =? TAG_PRIORITY) && bool_decide (n = 1%nat) then
    Ok (mkMeta major minor public_key (val !!! 0%nat) vendor features)
  else if (tag =? TAG_MAJOR) || (tag =? TAG_MINOR) || (tag =? TAG_PUBKEY) || (tag =? TAG_PRIORITY) then
    Err (Core InvalidLength)
  else if tag =? TAG_VENDOR then
    if bool_decide (n <> 0%nat) && bool_decide (n <= VENDOR_MAX)%nat then
      Ok (mkMeta major minor public_key priority (Some val) features)
    else Ok m
  else if (tag =? TAG_FEATURES) && bool_decide (n = 4%nat) then
    Ok (mkMeta major minor public_key priority vendor (Some (be_val val)))
  else if tag =? TAG_FEATURES then Err (Core InvalidLength)
  else Ok m.

(** The [while] loop: every turn consumes at least the four header bytes, so
    the length of the input is enough fuel. *)
Fixpoint decode_fields (fuel : nat) (rest : bytes) (m : Meta) : result (Meta * bytes) :=
  match fuel with
  | O => Ok (m, rest)
  | S fuel' =>
    if decide (length rest < FIELD_HEADER_LEN)%nat then Ok (m, rest)
    else
      let tag := be_val (take 2 rest) in
      let len := Z.to_nat (be_val (slice rest 2 4)) in
      let rest := drop FIELD_HEADER_LEN rest in
      if decide (length rest < len)%nat then Err (Core InvalidLength)
      else
        m' ← store_field m tag (take len rest);
        decode_fields fuel' (drop len rest) m'
  end.

Record LinkOptions : Type := mkLinkOptions {
  o_password : bytes; o_priority : Z; o_pinned_key : option bytes; o_allowed_keys : list bytes }.

Section handshake.
Context `{!Ed25519} `{!Blake2}.

Definition keyed_hash (public_key password : bytes) : result bytes :=
  if decide (MAX_PASSWORD_LEN < length password)%nat then Err (Core PasswordTooLong)
  else match password with
       | [] => Ok (blake2b512 public_key)
       | _ => ok_or (blake2b_mac512 password public_key) (Core PasswordTooLong)
       end.

Definition Meta_encode (m : Meta) (secret password : bytes) : result bytes :=
  if decide (MAX_PASSWORD_LEN < length password)%nat then Err (Core PasswordTooLong)
  else
    let out := Meta_fields m (PREAMBLE ++ [0; 0]) in
    hash ← keyed_hash (m_public_key m) password;
    let out := out ++ ed_sign secret hash in
    let body_len := wrap16 (Z.of_nat (length out - HEADER_LEN)) in
    Ok (take 4 out ++ be_bytes 2 body_len ++ drop HEADER_LEN out).

Definition Meta_decode (msg password : bytes) : result Meta :=
  if bool_decide (length msg < HEADER_LEN)%nat || negb (bool_decide (take 4 msg = PREAMBLE)) then
    Err (Core InvalidPreamble)
  else
    let body_len := Z.to_nat (be_val (slice msg 4 6)) in
    if bool_decide (body_len < SIG_LEN)%nat || negb (bool_decide (length msg = HEADER_LEN + body_len)%nat) then
      Err (Core InvalidLength)
    else
      let body := drop HEADER_LEN msg in
      let fields := take (length body - SIG_LEN) body in
      let sig := drop (length body - SIG_LEN) body in
      '(meta, rest) ← decode_fields (length fields) fields (mkMeta 0 0 (replicate KEY_LEN 0) 0 None None);
      match rest with
      | _ :: _ => Err (Core InvalidLength)
      | [] =>
        hash ← keyed_hash (m_public_key meta) password;
        if negb (ed_key_valid (m_public_key meta)) then Err (Core InvalidLength)
        else if ed_verify (m_public_key meta) hash sig then Ok meta
        else Err (Core BadPassword)
      end.

Definition Meta_check (m : Meta) : result () :=
  if negb (m_major m =? PROTOCOL_MAJOR) || negb (m_minor m =? PROTOCOL_MINOR)
  then Err (Core (BadVersion (m_major m) (m_minor m))) else Ok ().

Definition Meta_peer_kind (m : Meta) : PeerKind := from_tlvs (m_vendor m) (m_features m).

(** Everything [run_handshake] does with what it read: decode, then the checks. *)
Definition accept_meta (local_key msg : bytes) (opts : LinkOptions) (is_inbound : bool)
  : result (bytes * Z * PeerKind) :=
  theirs ← Meta_decode msg (o_password opts);
  _ ← Meta_check theirs;
  let key := m_public_key theirs in
  if decide (key = local_key) then Err (Core SelfDial)
  else if match o_pinned_key opts with Some pin => negb (bool_decide (pin = key)) | None => false end
  then Err (Core PinnedMismatch)
  else if is_inbound && bool_decide (o_allowed_keys opts <> []) && bool_decide (key ∉ o_allowed_keys opts)
  then Err (Core KeyNotAllowed)
  else Ok (key, Z.max (m_priority theirs) (o_priority opts), Meta_peer_kind theirs).

(** The bytes this side writes, and the outcome: the stream gives the bytes
    [s], then fails with [e]; [werr] is the failure of the write or the flush. *)
Definition run_handshake (s : bytes) (e : IoError) (werr : option IoError)
  (local : bytes) (opts : LinkOptions) (is_inbound : bool)
  : bytes * result ((bytes * Z * PeerKind) * bytes) :=
  let local_key := verifying_key local in
  match Meta_encode (Meta_local local_key (o_priority opts)) local (o_password opts) with
  | Err er => ([], Err er)
  | Ok ours =>
    match werr with
    | Some we => (ours, Err (Io we))
    | None =>
      (ours,
       match read_exact s e HEADER_LEN with
       | inl e => Err (Io e)
       | inr (header, s1) =>
         if decide (take 4 header = PREAMBLE) then
           let body_len := Z.to_nat (be_val (slice header 4 6)) in
           match read_exact s1 e body_len with
           | inl UnexpectedEof => Err (Core InvalidLength)
           | inl e => Err (Io e)
           | inr (body, s2) =>
             r ← accept_meta local_key (header ++ body) opts is_inbound; Ok (r, s2)
           end
         else Err (Core InvalidPreamble)
       end)
    end
  end.
End handshake.

(** The ranges of the Rust types, and a vendor tag the decoder keeps. *)
Definition Meta_ok (m : Meta) : Prop :=
  is_u16 (m_major m) /\ is_u16 (m_minor m) /\ key_ok (m_public_key m) /\ is_u8 (m_priority m) /\
  match m_vendor m with Some v => (0 < length v <= VENDOR_MAX)%nat | None => True end /\
  match m_features m with Some f => is_u32 f | None => True end.

(** ** Round trip of the fields *)

Definition field (tag : Z) (val : bytes) : bytes :=
  be_bytes 2 tag ++ be_bytes 2 (wrap16 (Z.of_nat (length val))) ++ val.

Lemma decode_fields_fuel f : forall f' rest m, (length rest <= f)%nat -> (length rest <= f')%nat ->
  decode_fields f rest m = decode_fields f' rest m.
Proof.
  induction f as [|f IH]; intros f' rest m Hf Hf'; destruct f' as [|f']; cbn [decode_fields]; try done.
  - by rewrite decide_True by (unfold FIELD_HEADER_LEN; lia).
  - by rewrite decide_True by (unfold FIELD_HEADER_LEN; lia).
  - case_decide as Hr; [done|]. unfold FIELD_HEADER_LEN in *.
    case_decide; [done|]. destruct (store_field _ _ _) as [m'|]; [|done]. cbn [mbind result_bind].
    apply IH; rewrite !length_drop; lia.
Qed.

Definition dec_fields (rest : bytes) (m : Meta) : result (Meta * bytes) := decode_fields (length rest) rest m.

Lemma dec_fields_nil m : dec_fields [] m = Ok (m, []).
Proof. done. Qed.

Lemma be_val_2 v : is_u16 v -> be_val (be_bytes 2 v) = v.
Proof. intros. apply be_val_bytes_small. exact H. Qed.

Lemma dec_fields_field tag val tail m : is_u16 tag -> is_u16 (Z.of_nat (length val)) ->
  dec_fields (field tag val ++ tail) m = (m' ← store_field m tag val; dec_fields tail m').
Proof.
  intros Ht Hv. unfold dec_fields at 1, field.
  set (T := be_bytes 2 tag). set (L := be_bytes 2 _).
  assert (length T = 2%nat /\ length L = 2%nat) as [HT HL] by (split; apply be_bytes_length).
  rewrite (decode_fields_fuel _ (S (length ((T ++ L ++ val) ++ tail)))) by lia.
  cbn [decode_fields]. rewrite decide_False by (rewrite !length_app; unfold FIELD_HEADER_LEN; lia).
  rewrite <-!app_assoc. rewrite (take_app_exact T) by done.
  replace (slice (T ++ L ++ val ++ tail) 2 4) with L
    by (unfold slice; rewrite drop_app_exact, take_app_exact by done; done).
  replace (drop FIELD_HEADER_LEN (T ++ L ++ val ++ tail)) with (val ++ tail)
    by (rewrite app_assoc, drop_app_exact by (rewrite length_app, HT, HL; done); done).
  subst T L. rewrite (be_val_2 tag) by done.
  assert (wrap16 (Z.of_nat (length val)) = Z.of_nat (length val)) as -> by (by apply Z.mod_small).
  rewrite be_val_2, Nat2Z.id by done. rewrite decide_False by (rewrite length_app; lia).
  rewrite take_app_length, drop_app_length. destruct (store_field m tag val) as [m'|]; [|done].
  cbn [mbind result_bind]. apply decode_fields_fuel; [|done]. rewrite !length_app. lia.
Qed.

Definition fields_bytes (m : Meta) : bytes :=
  field TAG_MAJOR (be_bytes 2 (m_major m)) ++ field TAG_MINOR (be_bytes 2 (m_minor m))
  ++ field TAG_PUBKEY (m_public_key m) ++ field TAG_PRIORITY [m_priority m]
  ++ match m_vendor m with Some v => field TAG_VENDOR v | None => [] end
  ++ match m_features m with Some f => field TAG_FEATURES (be_bytes 4 f) | None => [] end.

Lemma Meta_fields_spec m out : Meta_fields m out = out ++ fields_bytes m.
Proof.
  unfold Meta_fields, fields_bytes, push_field, field.
  destruct (m_vendor m), (m_features m); rewrite <-?app_assoc, ?app_nil_r; done.
Qed.

Lemma field_length tag val : length (field tag val) = (4 + length val)%nat.
Proof. unfold field. rewrite !length_app, !be_bytes_length. lia. Qed.

Lemma fields_bytes_length m : Meta_ok m -> (length (fields_bytes m) <= 128)%nat.
Proof.
  intros (_ & _ & [_ Hk] & _ & Hv & _). unfold fields_bytes, VENDOR_MAX, KEY_LEN in *.
  destruct (m_vendor m), (m_features m); rewrite !length_app, !field_length, ?be_bytes_length, Hk; cbn [length]; lia.
Qed.

Ltac u16 := unfold is_u16, TAG_MAJOR, TAG_MINOR, TAG_PUBKEY, TAG_PRIORITY, TAG_VENDOR, TAG_FEATURES, KEY_LEN, VENDOR_MAX in *;
  rewrite ?be_bytes_length; cbn [length]; lia.

(** What each tag stores. *)
Ltac stores := intros; unfold store_field;
  cbn [Z.eqb TAG_MAJOR TAG_MINOR TAG_PUBKEY TAG_PRIORITY TAG_VENDOR TAG_FEATURES andb orb Pos.eqb];
  rewrite ?be_bytes_length; rewrite ?bool_decide_eq_true_2 by (done || lia); cbn [andb orb];
  rewrite ?be_val_bytes_small by assumption; done.

Lemma store_major maj min k p v f x : is_u16 x ->
  store_field (mkMeta maj min k p v f) TAG_MAJOR (be_bytes 2 x) = Ok (mkMeta x min k p v f).
Proof. stores. Qed.

Lemma store_minor maj min k p v f x : is_u16 x ->
  store_field (mkMeta maj min k p v f) TAG_MINOR (be_bytes 2 x) = Ok (mkMeta maj x k p v f).
Proof. stores. Qed.

Lemma store_pubkey maj min k p v f x : length x = KEY_LEN ->
  store_field (mkMeta maj min k p v f) TAG_PUBKEY x = Ok (mkMeta maj min x p v f).
Proof. stores. Qed.

Lemma store_priority maj min k p v f x : 
  store_field (mkMeta maj min k p v f) TAG_PRIORITY [x] = Ok (mkMeta maj min k x v f).
Proof. stores. Qed.

Lemma store_vendor maj min k p v f x : (0 < length x <= VENDOR_MAX)%nat ->
  store_field (mkMeta maj min k p v f) TAG_VENDOR x = Ok (mkMeta maj min k p (Some x) f).
Proof. stores. Qed.

Lemma store_features maj min k p v f x : is_u32 x ->
  store_field (mkMeta maj min k p v f) TAG_FEATURES (be_bytes 4 x) = Ok (mkMeta maj min k p v (Some x)).
Proof. stores. Qed.

Lemma fields_roundtrip m : Meta_ok m ->
  dec_fields (fields_bytes m) (mkMeta 0 0 (replicate KEY_LEN 0) 0 None None) = Ok (m, []).
Proof.
  intros (Hmaj & Hmin & [_ Hk] & Hp & Hv & Hf). destruct m as [maj min k p v f]. unfold fields_bytes.
  cbn [m_major m_minor m_public_key m_priority m_vendor m_features] in *.
  rewrite dec_fields_field by u16. rewrite store_major by done. cbn [mbind result_bind].
  rewrite dec_fields_field by u16. rewrite store_minor by done. cbn [mbind result_bind].
  rewrite dec_fields_field by (rewrite ?Hk; u16). rewrite store_pubkey by done. cbn [mbind result_bind].
  rewrite dec_fields_field by u16. rewrite store_priority. cbn [mbind result_bind].
  assert (forall v', dec_fields (match f with Some f => field TAG_FEATURES (be_bytes 4 f) | None => [] end)
    (mkMeta maj min k p v' None) = Ok (mkMeta maj min k p v' f, [])) as Hfeat.
  { intros v'. destruct f as [f|]; [|done]. rewrite <-(app_nil_r (field _ _)), dec_fields_field by u16.
    by rewrite store_features. }
  destruct v as [v|]; [|apply Hfeat]. rewrite dec_fields_field by u16.
  rewrite store_vendor by done. apply Hfeat.
Qed.

Section roundtrip.
Context `{!Ed25519} `{!Ed25519Laws} `{!Blake2} `{!Blake2Laws}.

Lemma keyed_hash_ok pk pw : (length pw <= MAX_PASSWORD_LEN)%nat -> exists h, keyed_hash pk pw = Ok h.
Proof.
  intros Hl. unfold keyed_hash. rewrite decide_False by lia. destruct pw as [|b pw]; [by eexists|].
  destruct (blake2b_mac512_key (b :: pw) pk Hl) as [h ->]. by exists h.
Qed.

(** The message on the wire: preamble, length, fields, signature. *)
Lemma Meta_encode_spec m secret pw h : Meta_ok m -> (length pw <= MAX_PASSWORD_LEN)%nat ->
  keyed_hash (m_public_key m) pw = Ok h ->
  Meta_encode m secret pw = Ok (PREAMBLE ++ be_bytes 2 (Z.of_nat (length (fields_bytes m) + SIG_LEN))
    ++ fields_bytes m ++ ed_sign secret h).
Proof.
  intros Hok Hl Hh. unfold Meta_encode. rewrite decide_False by lia. rewrite Hh. cbn [mbind result_bind].
  rewrite Meta_fields_spec, <-!app_assoc. pose proof (fields_bytes_length m Hok) as Hb.
  destruct (ed_sign_ok secret h) as [_ Hs]. f_equal.
  rewrite !length_app, Hs. cbn [length PREAMBLE app take drop HEADER_LEN].
  do 6 f_equal. unfold wrap16, SIG_LEN. rewrite Z.mod_small by lia. f_equal.
Qed.

Lemma Meta_decode_spec m secret pw h : Meta_ok m -> (length pw <= MAX_PASSWORD_LEN)%nat ->
  m_public_key m = verifying_key secret -> keyed_hash (m_public_key m) pw = Ok h ->
  Meta_decode (PREAMBLE ++ be_bytes 2 (Z.of_nat (length (fields_bytes m) + SIG_LEN))
    ++ fields_bytes m ++ ed_sign secret h) pw = Ok m.
Proof.
  intros Hok Hl Hpk Hh. destruct (ed_sign_ok secret h) as [_ Hs]. pose proof (fields_bytes_length m Hok) as Hb.
  unfold Meta_decode. set (B := be_bytes 2 _). assert (length B = 2%nat) as HB by apply be_bytes_length.
  rewrite (bool_decide_eq_false_2 (length _ < _)%nat) by (rewrite !length_app, HB; unfold HEADER_LEN; cbn [length PREAMBLE]; lia).
  rewrite (take_app_exact PREAMBLE), bool_decide_eq_true_2 by done. cbn [orb negb].
  replace (slice (PREAMBLE ++ B ++ fields_bytes m ++ ed_sign secret h) 4 6) with B
    by (unfold slice; rewrite (drop_app_exact PREAMBLE), take_app_exact by done; done).
  subst B. rewrite be_val_2 by (unfold is_u16, SIG_LEN; lia). rewrite Nat2Z.id.
  rewrite bool_decide_eq_false_2 by lia. rewrite !length_app, be_bytes_length, Hs, bool_decide_eq_true_2 by (unfold HEADER_LEN, SIG_LEN; cbn [length PREAMBLE]; lia).
  cbn [orb negb]. rewrite app_assoc, (drop_app_exact (PREAMBLE ++ _)) by (by rewrite length_app, be_bytes_length).
  rewrite length_app, Hs. replace (length (fields_bytes m) + 64 - SIG_LEN)%nat with (length (fields_bytes m))
    by (unfold SIG_LEN; lia).
  rewrite take_app_length, drop_app_length.
  rewrite (fields_roundtrip m Hok : decode_fields _ _ _ = _). cbn [mbind result_bind]. rewrite Hh. cbn [mbind result_bind].
  rewrite Hpk, (ed_verify_valid _ _ _ (ed_sign_verify secret h)), ed_sign_verify. done.
Qed.
End roundtrip.

(** ** A concrete hash, for the witnesses *)

Definition toy_blake2 : Blake2 := {|
  blake2b512 msg := pad_bytes 64 msg;
  blake2b_mac512 key msg := if decide (length key <= 64)%nat then Some (pad_bytes 64 (key ++ msg)) else None |}.

Lemma toy_blake2_laws : @Blake2Laws toy_blake2.
Proof. split. intros key msg Hk. simpl. by rewrite decide_True. Qed.

Section accept.
Context `{!Ed25519} `{!Blake2}.

Lemma accept_meta_inv local_key msg opts inb key prio kind :
  accept_meta local_key msg opts inb = Ok (key, prio, kind) ->
  exists m, Meta_decode msg (o_password opts) = Ok m /\ key = m_public_key m /\
    m_major m = PROTOCOL_MAJOR /\ m_minor m = PROTOCOL_MINOR /\ key <> local_key /\
    (forall pin, o_pinned_key opts = Some pin -> pin = key) /\
    (inb = true -> o_allowed_keys opts = [] \/ key ∈ o_allowed_keys opts) /\
    prio = Z.max (m_priority m) (o_priority opts) /\ kind = Meta_peer_kind m.
Proof.
  unfold accept_meta. destruct (Meta_decode _ _) as [m|]; cbn [mbind result_bind]; [|done].
  unfold Meta_check. destruct (Z.eqb_spec (m_major m) PROTOCOL_MAJOR), (Z.eqb_spec (m_minor m) PROTOCOL_MINOR);
    cbn [negb orb mbind result_bind]; try done.
  case_decide; [done|]. destruct (match o_pinned_key opts with Some _ => _ | None => false end) eqn:Ep; [done|].
  destruct (inb && _ && _) eqn:Ea; [done|]. intros [= <- <- <-]. exists m. repeat split; try done.
  - intros pin Hpin. rewrite Hpin in Ep. by apply negb_false_iff, bool_decide_eq_true in Ep.
  - intros ->. cbn [andb] in Ea. apply andb_false_iff in Ea as [Ea|Ea]; apply bool_decide_eq_false in Ea.
    + left. by apply dec_stable in Ea.
    + right. by apply dec_stable in Ea.
Qed.

Lemma Meta_decode_verified msg pw m : Meta_decode msg pw = Ok m ->
  exists hash, keyed_hash (m_public_key m) pw = Ok hash /\
    ed_verify (m_public_key m) hash (drop (length msg - SIG_LEN) msg) = true.
Proof.
  unfold Meta_decode. destruct (bool_decide (length msg < HEADER_LEN)%nat || _) eqn:E1; [done|].
  destruct (bool_decide (_ < SIG_LEN)%nat || _) eqn:E2; [done|].
  apply orb_false_iff in E1 as [E1 _]. apply bool_decide_eq_false in E1.
  apply orb_false_iff in E2 as [E2 E3]. apply bool_decide_eq_false in E2.
  apply negb_false_iff, bool_decide_eq_true in E3.
  destruct (decode_fields _ _ _) as [[m' rest]|]; cbn [mbind result_bind]; [|done].
  destruct rest; [|done]. destruct (keyed_hash (m_public_key m') pw) as [h|] eqn:Eh; cbn [mbind result_bind]; [|done].
  destruct (ed_key_valid _); [|done]. cbn [negb].
  destruct (ed_verify _ _ _) eqn:Ev; [|done]. intros [= <-]. exists h. split; [done|].
  rewrite drop_drop in Ev. rewrite length_drop in Ev. unfold HEADER_LEN, SIG_LEN in *.
  replace (length msg - 64)%nat with (6 + (length msg - 6 - 64))%nat by lia. exact Ev.
Qed.
End accept.

(** ** A node's opening message on the wire *)

Section hello.
Context `{!Ed25519} `{!Ed25519Laws} `{!Blake2} `{!Blake2Laws}.

Lemma read_header (B F t : bytes) : length B = 2%nat ->
  take HEADER_LEN ((PREAMBLE ++ B ++ F) ++ t) = PREAMBLE ++ B /\
  drop HEADER_LEN ((PREAMBLE ++ B ++ F) ++ t) = F ++ t /\ slice (PREAMBLE ++ B) 4 6 = B.
Proof.
  intros HB. rewrite <-!app_assoc, (app_assoc PREAMBLE).
  rewrite take_app_exact, drop_app_exact by (by rewrite length_app, HB).
  split; [done|]. split; [done|]. unfold slice. rewrite (drop_app_exact PREAMBLE), take_ge by (rewrite ?HB; done). done.
Qed.

(** The peer reads exactly the message, whatever follows it on the stream. *)
Lemma hello_spec sk p pw : is_u8 p -> (length pw <= MAX_PASSWORD_LEN)%nat ->
  exists msg, Meta_encode (Meta_local (verifying_key sk) p) sk pw = Ok msg /\
    Meta_decode msg pw = Ok (Meta_local (verifying_key sk) p) /\
    forall t e me opts inb ours,
      Meta_encode (Meta_local (verifying_key me) (o_priority opts)) me (o_password opts) = Ok ours ->
      run_handshake (msg ++ t) e None me opts inb
      = (ours, r ← accept_meta (verifying_key me) msg opts inb; Ok (r, t)).
Proof.
  intros Hp Hl. destruct (keyed_hash_ok (verifying_key sk) pw Hl) as [h Hh].
  assert (Meta_ok (Meta_local (verifying_key sk) p)) as Hok.
  { destruct (verifying_key_ok sk). unfold is_u8 in Hp.
    repeat split; try done; unfold is_u16, is_u8, is_u32, VENDOR_MAX; cbn; lia. }
  eexists. split; [by apply Meta_encode_spec|]. split; [by apply Meta_decode_spec|].
  intros t e me opts inb ours Eours. unfold run_handshake. rewrite Eours. f_equal.
  destruct (ed_sign_ok sk h) as [_ Hs]. pose proof (fields_bytes_length _ Hok) as HF128.
  set (F := fields_bytes _) in *. set (B := be_bytes 2 _).
  assert (length B = 2%nat) as HB by apply be_bytes_length.
  destruct (read_header B (F ++ ed_sign sk h) t HB) as (E1 & E2 & E3).
  unfold read_exact. rewrite decide_True, E1, E2 by (rewrite !length_app, HB; unfold HEADER_LEN; cbn [length PREAMBLE]; lia).
  rewrite decide_True, E3 by done. subst B. rewrite be_val_2 by (unfold is_u16, SIG_LEN; lia). rewrite Nat2Z.id.
  assert (length (F ++ ed_sign sk h) = length F + SIG_LEN)%nat as HF by (by rewrite length_app, Hs).
  rewrite decide_True by (rewrite length_app; lia).
  rewrite take_app_exact, drop_app_exact by done. by rewrite <-app_assoc.
Qed.
End hello.

(** ** Properties *)

(** A node's own [meta] message decodes back, under the same password, to
    the fields it was built from: every field within its type's range, a vendor
    tag of 1 to 32 bytes or none, and any password of at most 64 bytes. *)
Theorem meta_roundtrip `{!Ed25519} `{!Ed25519Laws} `{!Blake2} `{!Blake2Laws} m secret pw :
  Meta_ok m -> m_public_key m = verifying_key secret -> (length pw <= MAX_PASSWORD_LEN)%nat ->
  exists msg, Meta_encode m secret pw = Ok msg /\ Meta_decode msg pw = Ok m.
Proof.
  intros Hok Hpk Hl. destruct (keyed_hash_ok (m_public_key m) pw Hl) as [h Hh]. eexists.
  split; [by apply Meta_encode_spec|by apply Meta_decode_spec].
Qed.

Lemma meta_roundtrip_witness : exists msg,
  @Meta_encode toy_ed25519 toy_blake2 (Meta_local (@verifying_key toy_ed25519 [7]) 3) [7] [1; 2] = Ok msg /\
  @Meta_decode toy_ed25519 toy_blake2 msg [1; 2] = Ok (Meta_local (@verifying_key toy_ed25519 [7]) 3).
Proof.
  apply (@meta_roundtrip toy_ed25519 toy_ed25519_laws toy_blake2 toy_blake2_laws
    (Meta_local (@verifying_key toy_ed25519 [7]) 3) [7] [1; 2]).
  - unfold Meta_ok, is_u16, is_u8, is_u32, VENDOR_MAX.
    split; [vm_compute; split; [discriminate|reflexivity]|].
    split; [vm_compute; split; [discriminate|reflexivity]|].
    split; [apply (@verifying_key_ok _ toy_ed25519_laws)|].
    split; [vm_compute; split; [discriminate|reflexivity]|].
    split; [cbn; lia|vm_compute; split; [discriminate|reflexivity]].
  - reflexivity.
  - unfold MAX_PASSWORD_LEN. simpl. lia.
Defined.

(** What a completed handshake guarantees. The key it returns is not our
    own, is the pinned one if there is a pin and on the allow-list if the link
    is inbound and there is a list; the peer runs our protocol version; the
    message carried a valid signature, by that key, of the hash keyed with our
    password; and the priority is the larger of the two. *)
Theorem handshake_accepts_only `{!Ed25519} `{!Blake2} s e local opts inb out key prio kind rest :
  run_handshake s e None local opts inb = (out, Ok ((key, prio, kind), rest)) ->
  exists msg m hash, s = msg ++ rest /\ Meta_decode msg (o_password opts) = Ok m /\
    key = m_public_key m /\ key <> verifying_key local /\
    (forall pin, o_pinned_key opts = Some pin -> pin = key) /\
    (inb = true -> o_allowed_keys opts = [] \/ key ∈ o_allowed_keys opts) /\
    m_major m = PROTOCOL_MAJOR /\ m_minor m = PROTOCOL_MINOR /\
    keyed_hash key (o_password opts) = Ok hash /\
    ed_verify key hash (drop (length msg - SIG_LEN) msg) = true /\
    prio = Z.max (m_priority m) (o_priority opts).
Proof.
  unfold run_handshake. destruct (Meta_encode _ _ _); [|done]. intros [= <- Hr]. unfold read_exact in Hr.
  case_decide as H1; [|done]. case_decide as Hpre; [|done].
  case_decide as H2; [|by destruct e].
  destruct (accept_meta _ _ _ _) as [[[k p] kd]|] eqn:Ea; cbn [mbind result_bind] in Hr; [|done].
  injection Hr as -> -> -> <-. apply accept_meta_inv in Ea as (m & Hdec & -> & Hmaj & Hmin & Hself & Hpin & Hallow & -> & _).
  destruct (Meta_decode_verified _ _ _ Hdec) as (hash & Hh & Hv).
  eexists _, m, hash. split; [|done].
  rewrite <-app_assoc, take_drop, take_drop. done.
Qed.

(** A message from node 7 as node 8 reads it. *)
Definition ex_hello : bytes :=
  match @Meta_encode toy_ed25519 toy_blake2 (Meta_local (@verifying_key toy_ed25519 [7]) 3) [7] [1; 2] with
  | Ok msg => msg
  | Err _ => []
  end.

Lemma handshake_accepts_only_witness : exists out,
  @run_handshake toy_ed25519 toy_blake2 (ex_hello ++ [99]) UnexpectedEof None [8] (mkLinkOptions [1; 2] 5 None []) true
  = (out, Ok ((@verifying_key toy_ed25519 [7], 5, Roots 0), [99])) /\
  @verifying_key toy_ed25519 [7] <> @verifying_key toy_ed25519 [8].
Proof.
  eexists. split; [vm_compute; reflexivity|].
  destruct (@handshake_accepts_only toy_ed25519 toy_blake2 (ex_hello ++ [99]) UnexpectedEof [8]
    (mkLinkOptions [1; 2] 5 None []) true _ (@verifying_key toy_ed25519 [7]) 5 (Roots 0) [99]
    ltac:(vm_compute; reflexivity))
    as (msg & m & hash & _ & _ & _ & Hne & _). exact Hne.
Defined.

(** What a node lets link to it: the key it is pinned to, if any, and for an
    inbound link a key of its allow list, unless that is empty. *)
Definition permits (opts : LinkOptions) (is_inbound : bool) (key : bytes) : Prop :=
  (forall pin, o_pinned_key opts = Some pin -> pin = key) /\
  (is_inbound = true -> o_allowed_keys opts = [] \/ key ∈ o_allowed_keys opts).

Lemma accept_greeting `{!Ed25519} `{!Blake2} local msg k p opts inb :
  Meta_decode msg (o_password opts) = Ok (Meta_local k p) -> k <> local ->
  (permits opts inb k -> accept_meta local msg opts inb = Ok (k, Z.max p (o_priority opts), Roots 0)) /\
  (~ permits opts inb k -> exists e, accept_meta local msg opts inb = Err e).
Proof.
  intros Hd Hne. unfold accept_meta. rewrite Hd. cbn [mbind result_bind Meta_check Meta_local m_major m_minor m_public_key m_priority].
  cbn [Z.eqb PROTOCOL_MAJOR PROTOCOL_MINOR negb orb Pos.eqb mbind result_bind]. rewrite decide_False by done.
  destruct opts as [pw pr pin al]. unfold permits. cbn [o_pinned_key o_allowed_keys o_priority]. split.
  - intros [Hp Ha]. destruct pin as [pin|]; [rewrite (Hp pin) by done; rewrite bool_decide_eq_true_2 by done; cbn [negb]|].
    all: destruct inb; [|done]; destruct Ha as [->|Hin]; [done|done|..];
      rewrite (bool_decide_eq_false_2 (k ∉ al)) by (intros Hn; by apply Hn); by rewrite andb_false_r.
  - intros Hn. destruct pin as [pin|].
    { destruct (decide (pin = k)) as [->|]; [|rewrite bool_decide_eq_false_2 by done; eauto]. rewrite bool_decide_eq_true_2 by done. cbn [negb].
      destruct inb; [|destruct Hn; split; [congruence|done]].
      destruct (decide (al = [])) as [->|]; [destruct Hn; split; [congruence|auto]|].
      destruct (decide (k ∈ al)); [destruct Hn; split; [congruence|auto]|].
      rewrite !bool_decide_eq_true_2 by done. eauto. }
    destruct inb; [|destruct Hn; split; [congruence|done]].
    destruct (decide (al = [])) as [->|]; [destruct Hn; split; [congruence|auto]|].
    destruct (decide (k ∈ al)); [destruct Hn; split; [congruence|auto]|].
    rewrite !bool_decide_eq_true_2 by done. eauto.
Qed.

(** C12: two nodes with the same password (of at most 64 bytes) and different
    keys. Each writes one greeting, and each end completes with the other's key,
    at the greater of the two priorities and with what the stream carries
    afterwards left unread, exactly if its options permit that key: it pins
    nothing or that key, and the one that listens has an empty allow list or one
    that holds it. So compatible options always connect. *)
Theorem handshake_completes `{!Ed25519} `{!Ed25519Laws} `{!Blake2} `{!Blake2Laws}
  a b (dial listen : LinkOptions) e e' ta tb :
  is_u8 (o_priority dial) -> is_u8 (o_priority listen) -> o_password listen = o_password dial ->
  (length (o_password dial) <= MAX_PASSWORD_LEN)%nat -> verifying_key a <> verifying_key b ->
  exists ma mb outa outb,
    run_handshake (mb ++ tb) e None a dial false = (ma, outa) /\
    run_handshake (ma ++ ta) e' None b listen true = (mb, outb) /\
    (permits dial false (verifying_key b) ->
      outa = Ok ((verifying_key b, Z.max (o_priority listen) (o_priority dial), Roots 0), tb)) /\
    (permits listen true (verifying_key a) ->
      outb = Ok ((verifying_key a, Z.max (o_priority dial) (o_priority listen), Roots 0), ta)) /\
    (~ permits dial false (verifying_key b) -> exists er, outa = Err er) /\
    (~ permits listen true (verifying_key a) -> exists er, outb = Err er).
Proof.
  intros Hpa Hpb Hpw Hl Hne.
  destruct (hello_spec a _ _ Hpa Hl) as (ma & Ea & Da & Ra).
  destruct (hello_spec b _ _ Hpb Hl) as (mb & Eb & Db & Rb).
  destruct (accept_greeting (verifying_key a) mb _ _ dial false Db) as [Aok Aerr]; [congruence|].
  rewrite <-Hpw in Da. destruct (accept_greeting (verifying_key b) ma _ _ listen true Da) as [Bok Berr]; [congruence|].
  do 4 eexists. split; [by apply Rb|]. split; [apply Ra; by rewrite Hpw|].
  repeat split.
  - intros Hp. by rewrite (Aok Hp).
  - intros Hp. by rewrite (Bok Hp).
  - intros Hp. destruct (Aerr Hp) as [er ->]. by exists er.
  - intros Hp. destruct (Berr Hp) as [er ->]. by exists er.
Qed.

(** An unpinned dial, and a listener with an allow list of two. *)
Lemma handshake_completes_witness : exists ma mb outa outb,
  @run_handshake toy_ed25519 toy_blake2 (mb ++ [5]) UnexpectedEof None [7] (mkLinkOptions [1] 2 None [[9]]) false = (ma, outa) /\
  @run_handshake toy_ed25519 toy_blake2 (ma ++ []) UnexpectedEof None [8]
    (mkLinkOptions [1] 4 (Some (@verifying_key toy_ed25519 [7])) [[9]; @verifying_key toy_ed25519 [7]]) true = (mb, outb) /\
  outa = Ok ((@verifying_key toy_ed25519 [8], 4, Roots 0), [5]) /\ outb = Ok ((@verifying_key toy_ed25519 [7], 4, Roots 0), []).
Proof.
  destruct (@handshake_completes toy_ed25519 toy_ed25519_laws toy_blake2 toy_blake2_laws [7] [8]
    (mkLinkOptions [1] 2 None [[9]]) (mkLinkOptions [1] 4 (Some (@verifying_key toy_ed25519 [7])) [[9]; @verifying_key toy_ed25519 [7]])
    UnexpectedEof UnexpectedEof [] [5]) as (ma & mb & outa & outb & Ea & Eb & Oa & Ob & _);
    [unfold is_u8; cbn; lia|unfold is_u8; cbn; lia|reflexivity|unfold MAX_PASSWORD_LEN; simpl; lia|vm_compute; discriminate|].
  exists ma, mb, outa, outb. split; [exact Ea|]. split; [exact Eb|]. split.
  - apply Oa. split; [discriminate|discriminate].
  - apply Ob. split; [intros pin Hpin; injection Hpin as <-; reflexivity|]. intros _. right. right. left.
Defined.
