(* ===== verification/LinkSet.v ===== *)
(** * LinkSet: the set of live connections ([LinkId], [AnyConn] and [LinkSet]
    of [src/link.rs]).

    A stream is what has arrived and was not read yet, how it ends, what was
    written to it and the outcomes of the writes to come. Reading under a time
    budget is [read_frame_slice]: the read future is dropped when the budget
    ends, with the bytes it had taken from the stream. The functions that read
    the monotonic clock take the reading as an argument. *)
From stdpp Require Import base tactics list numbers gmap.
From S2P Require Import Prelude Errors Clock Frame Address Handshake.

Local Open Scope Z_scope.

Abbreviation LinkId := Z (only parsing).

Record LinkStream : Type := mkStream {
  st_in : bytes;  (** arrived, not read *)
  st_end : option IoError;  (** how the stream ends; [None]: still open *)
  st_out : bytes;  (** written *)
  st_wres : list (option IoError) }.  (** failures of the next writes; [\[\]]: none *)

Record AnyConn : Type := mkAnyConn {
  c_remote_key : bytes; c_priority : Z; c_kind : PeerKind; c_inbound : bool;
  c_id : LinkId; c_remote_addr : option bytes; c_stream : LinkStream }.

Record LinkEntry : Type := mkLinkEntry {
  le_peer : bytes; le_link : AnyConn; le_up : Z; le_rx : Z; le_tx : Z;
  le_lastrx : Z; le_lasttx : Z; le_rxrate : Z; le_txrate : Z }.

Record LinkStats : Type := mkLinkStats {
  ls_up : Z; ls_rx_bytes : Z; ls_tx_bytes : Z; ls_rx_rate : Z; ls_tx_rate : Z; ls_inbound : bool }.

Definition RATE_WINDOW : Z := from_secs 1.

Record LinkSet : Type := mkLinkSet {
  ls_entries : list LinkEntry; last_write : gmap LinkId Z; sampled_at : option Z }.

Definition LinkSet_new : LinkSet := mkLinkSet [] ∅ None.

Definition entry_id (e : LinkEntry) : LinkId := c_id (le_link e).

Definition set_stream (c : AnyConn) (s : LinkStream) : AnyConn :=
  mkAnyConn (c_remote_key c) (c_priority c) (c_kind c) (c_inbound c) (c_id c) (c_remote_addr c) s.

Definition set_link (e : LinkEntry) (c : AnyConn) : LinkEntry :=
  mkLinkEntry (le_peer e) c (le_up e) (le_rx e) (le_tx e) (le_lastrx e) (le_lasttx e) (le_rxrate e) (le_txrate e).

Definition LinkSet_add (now : Z) (ls : LinkSet) (conn : AnyConn) : LinkSet * LinkId :=
  let id := c_id conn in
  let lw := match last_write ls !! id with Some _ => last_write ls | None => <[id := now]> (last_write ls) end in
  (mkLinkSet (ls_entries ls ++ [mkLinkEntry (c_remote_key conn) conn now 0 0 0 0 0 0]) lw (sampled_at ls), id).

Definition LinkSet_single (now : Z) (conn : AnyConn) : LinkSet := (LinkSet_add now LinkSet_new conn).1.

Definition link_ids (ls : LinkSet) : list LinkId := entry_id <$> ls_entries ls.

Definition link_peers (ls : LinkSet) : list bytes :=
  fold_left (fun out e => if bool_decide (le_peer e ∈ out) then out else out ++ [le_peer e]) (ls_entries ls) [].

Definition links_to (ls : LinkSet) (peer : bytes) : list LinkId :=
  entry_id <$> filter (fun e => le_peer e = peer) (ls_entries ls).

Definition peer_of (ls : LinkSet) (id : LinkId) : option bytes :=
  le_peer <$> find_first (fun e => entry_id e =? id) (ls_entries ls).

Definition has_peer (ls : LinkSet) (peer : bytes) : bool :=
  existsb (fun e => bool_decide (le_peer e = peer)) (ls_entries ls).

Definition set_entries (ls : LinkSet) (es : list LinkEntry) : LinkSet :=
  mkLinkSet es (last_write ls) (sampled_at ls).

(** [Vec::remove]. *)
Definition vec_remove {A} (l : list A) (i : nat) : list A := take i l ++ drop (S i) l.

Definition LinkSet_remove (ls : LinkSet) (id : LinkId) : LinkSet * option AnyConn :=
  match position (fun e => entry_id e =? id) (ls_entries ls) with
  | None => (ls, None)
  | Some at_ => (set_entries ls (vec_remove (ls_entries ls) at_), le_link <$> ls_entries ls !! at_)
  end.

Definition LinkSet_is_empty (ls : LinkSet) : bool := bool_decide (ls_entries ls = []).
Definition LinkSet_len (ls : LinkSet) : nat := length (ls_entries ls).

Definition link_stats (now : Z) (ls : LinkSet) (id : LinkId) : option LinkStats :=
  (fun e => mkLinkStats (std_duration_since now (le_up e)) (le_rx e) (le_tx e) (le_rxrate e) (le_txrate e)
                        (c_inbound (le_link e)))
  <$> find_first (fun e => entry_id e =? id) (ls_entries ls).

Definition sample_entry (e : LinkEntry) : LinkEntry :=
  mkLinkEntry (le_peer e) (le_link e) (le_up e) (le_rx e) (le_tx e) (le_rx e) (le_tx e)
    (wrapping_sub (le_rx e) (le_lastrx e)) (wrapping_sub (le_tx e) (le_lasttx e)).

Definition update_rates (now : Z) (ls : LinkSet) : LinkSet :=
  let due := match sampled_at ls with
             | Some t => RATE_WINDOW <=? std_duration_since now t
             | None => true
             end in
  if due then mkLinkSet (sample_entry <$> ls_entries ls) (last_write ls) (Some now) else ls.

(** [write_frame_to] on a stream: the whole frame goes out, or the write fails. *)
Definition stream_write (s : LinkStream) (enc : bytes) : LinkStream * result () :=
  match st_wres s with
  | Some e :: rest => (mkStream (st_in s) (st_end s) (st_out s) rest, Err (Io e))
  | None :: rest => (mkStream (st_in s) (st_end s) (st_out s ++ enc) rest, Ok ())
  | [] => (mkStream (st_in s) (st_end s) (st_out s ++ enc) [], Ok ())
  end.

(** [Link::write_frame]; outer [None]: the encoder panics. *)
Definition conn_write_frame (c : AnyConn) (ftype : FrameType) (payload : bytes)
  : option (AnyConn * result ()) :=
  enc ← write_frame_to ftype payload;
  let '(s, r) := stream_write (c_stream c) enc in
  Some (set_stream c s, r).

Definition count_tx (e : LinkEntry) (n : Z) : LinkEntry :=
  mkLinkEntry (le_peer e) (le_link e) (le_up e) (le_rx e) (wrapping_add (le_tx e) n)
    (le_lastrx e) (le_lasttx e) (le_rxrate e) (le_txrate e).

Definition count_rx (e : LinkEntry) (n : Z) : LinkEntry :=
  mkLinkEntry (le_peer e) (le_link e) (le_up e) (wrapping_add (le_rx e) n) (le_tx e)
    (le_lastrx e) (le_lasttx e) (le_rxrate e) (le_txrate e).

Definition LinkSet_send (now : Z) (ls : LinkSet) (target : LinkId) (ftype : FrameType) (payload : bytes)
  : option (LinkSet * result bool) :=
  match position (fun e => entry_id e =? target) (ls_entries ls) with
  | None => Some (ls, Ok false)
  | Some at_ =>
    e ← ls_entries ls !! at_;
    '(conn, r) ← conn_write_frame (le_link e) ftype payload;
    match r with
    | Ok _ =>
      Some (mkLinkSet (<[at_ := count_tx (set_link e conn) (wire_len (length payload))]> (ls_entries ls))
              (<[target := now]> (last_write ls)) (sampled_at ls), Ok true)
    | Err er => Some (set_entries ls (vec_remove (ls_entries ls) at_), Err er)
    end
  end.

Definition LinkSet_write (now : Z) (ls : LinkSet) (target : LinkId) (ftype : FrameType) (payload : bytes)
  : option (LinkSet * result ()) :=
  '(ls, r) ← LinkSet_send now ls target ftype payload;
  Some (ls, sent ← r; if sent : bool then Ok () else Err (Core NoLink)).

(** The loop of [write_all]; one clock reading per send. *)
Fixpoint write_targets (nows : nat -> Z) (ls : LinkSet) (targets : list LinkId) (ftype : FrameType) (payload : bytes)
  : option (LinkSet * result ()) :=
  match targets with
  | [] => Some (ls, Ok ())
  | id :: targets' =>
    '(ls', r) ← LinkSet_write (nows 0%nat) ls id ftype payload;
    match r with
    | Ok _ => write_targets (fun n => nows (S n)) ls' targets' ftype payload
    | Err e => Some (ls', Err e)
    end
  end.

Definition LinkSet_write_all (nows : nat -> Z) (ls : LinkSet) (peer : bytes) (ftype : FrameType) (payload : bytes)
  : option (LinkSet * result ()) :=
  match links_to ls peer with
  | [] => Some (ls, Err (Core NoLink))
  | targets => write_targets nows ls targets ftype payload
  end.

Definition LinkSet_write_via (now : Z) (ls : LinkSet) (target : LinkId) (ftype : FrameType) (payload : bytes)
  : option (LinkSet * result bool) := LinkSet_send now ls target ftype payload.

(** ** Reading under a time budget *)

Inductive slice_read : Type :=
  | ReadFrame (ftype : FrameType) (payload : bytes)
  | ReadFailed (e : Error)
  | TimedOut.

(** The error that stands for "no more bytes before the budget ends". *)
Definition WOULD_BLOCK : IoError := OtherIo (-1).

Definition stream_read_slice (s : LinkStream) : LinkStream * slice_read :=
  match st_end s with
  | Some e =>
    match read_frame_from (st_in s) e with
    | Ok ((t, p), rest) => (mkStream rest (st_end s) (st_out s) (st_wres s), ReadFrame t p)
    | Err er => (s, ReadFailed er)
    end
  | None =>
    match read_frame_from (st_in s) WOULD_BLOCK with
    | Ok ((t, p), rest) => (mkStream rest (st_end s) (st_out s) (st_wres s), ReadFrame t p)
    | Err er =>
      if decide (er = Io WOULD_BLOCK)
      then (mkStream [] (st_end s) (st_out s) (st_wres s), TimedOut)
      else (s, ReadFailed er)
    end
  end.

(** [timeout(slice, links.read_frame(id))]. *)
Definition read_frame_slice (ls : LinkSet) (id : LinkId) : LinkSet * slice_read :=
  match position (fun e => entry_id e =? id) (ls_entries ls) with
  | None => (ls, ReadFailed (Core NoLink))
  | Some at_ =>
    match ls_entries ls !! at_ with
    | None => (ls, ReadFailed (Core NoLink))
    | Some e =>
      let '(s, r) := stream_read_slice (c_stream (le_link e)) in
      let e' := set_link e (set_stream (le_link e) s) in
      let e' := match r with ReadFrame _ p => count_rx e' (wire_len (length p)) | _ => e' end in
      (set_entries ls (<[at_ := e']> (ls_entries ls)), r)
    end
  end.

Definition idle_for (now : Z) (ls : LinkSet) (id : LinkId) : Z :=
  match last_write ls !! id with
  | Some t => std_duration_since now t
  | None => 0
  end.

(** ** One link of the set *)

Definition out_of (e : LinkEntry) : bytes := st_out (c_stream (le_link e)).

(** The writes to this link succeed. *)
Definition writable (e : LinkEntry) : Prop := Forall (fun r => r = None) (st_wres (c_stream (le_link e))).

(** [e'] is [e] after the frame was written to its stream and counted. *)
Definition wrote (t : FrameType) (p : bytes) (e : LinkEntry) : LinkEntry :=
  let s := c_stream (le_link e) in
  count_tx (set_link e (set_stream (le_link e)
    (mkStream (st_in s) (st_end s) (st_out s ++ frame_spec t p) (tail (st_wres s))))) (wire_len (length p)).

Lemma find_entry id es : NoDup (entry_id <$> es) -> id ∈ entry_id <$> es ->
  exists l1 e l2, es = l1 ++ e :: l2 /\ entry_id e = id /\
    position (fun e => entry_id e =? id) es = Some (length l1) /\ (id ∉ entry_id <$> l1) /\ (id ∉ entry_id <$> l2).
Proof.
  intros Hnd Hin. destruct (position (fun e => entry_id e =? id) es) as [i|] eqn:E.
  - apply position_Some in E as (l1 & e & l2 & -> & <- & He & Hl). zbool. exists l1, e, l2.
    split; [done|]. split; [done|]. split; [done|].
    rewrite fmap_app, fmap_cons, He in Hnd. apply NoDup_app in Hnd as (_ & Hd & Hnd2).
    apply NoDup_cons in Hnd2 as [H2 _]. split; [|done].
    intros H1. apply (Hd id H1). left.
  - exfalso. apply position_None in E. apply list_elem_of_fmap in Hin as (e & -> & He).
    rewrite Forall_forall in E. apply E in He. rewrite Z.eqb_refl in He. done.
Qed.

Lemma vec_remove_mid {A} (l1 l2 : list A) x : vec_remove (l1 ++ x :: l2) (length l1) = l1 ++ l2.
Proof.
  unfold vec_remove. rewrite take_app_length. f_equal.
  replace (S (length l1)) with (length (l1 ++ [x])) by (rewrite length_app; simpl; lia).
  rewrite (cons_middle x l1 l2), app_assoc. apply drop_app_length.
Qed.

Lemma send_ok now ls l1 e l2 t p : Z.of_nat (length p) + 1 < 2 ^ 35 ->
  ls_entries ls = l1 ++ e :: l2 ->
  position (fun x => entry_id x =? entry_id e) (ls_entries ls) = Some (length l1) -> writable e ->
  LinkSet_send now ls (entry_id e) t p
  = Some (mkLinkSet (l1 ++ wrote t p e :: l2) (<[entry_id e := now]> (last_write ls)) (sampled_at ls), Ok true).
Proof.
  intros Hp E Hpos Hw. unfold LinkSet_send. rewrite Hpos, E.
  rewrite list_lookup_middle by done. cbn [mbind option_bind].
  unfold conn_write_frame, write_frame_to. rewrite encode_frame_eq by done. cbn [mbind option_bind].
  unfold stream_write. unfold writable in Hw.
  destruct (st_wres (c_stream (le_link e))) as [|[er|] rest] eqn:Er.
  - cbn [mbind option_bind]. rewrite insert_app_r_alt, Nat.sub_diag by lia.
    unfold wrote. by rewrite Er.
  - by apply Forall_cons_1 in Hw as [? _].
  - cbn [mbind option_bind]. rewrite insert_app_r_alt, Nat.sub_diag by lia.
    unfold wrote. by rewrite Er.
Qed.

Lemma send_fail now ls l1 e l2 t p er rest : Z.of_nat (length p) + 1 < 2 ^ 35 ->
  ls_entries ls = l1 ++ e :: l2 ->
  position (fun x => entry_id x =? entry_id e) (ls_entries ls) = Some (length l1) ->
  st_wres (c_stream (le_link e)) = Some er :: rest ->
  LinkSet_send now ls (entry_id e) t p = Some (set_entries ls (l1 ++ l2), Err (Io er)).
Proof.
  intros Hp E Hpos Hw. unfold LinkSet_send. rewrite Hpos, E.
  rewrite list_lookup_middle by done. cbn [mbind option_bind].
  unfold conn_write_frame, write_frame_to. rewrite encode_frame_eq by done. cbn [mbind option_bind].
  unfold stream_write. rewrite Hw. cbn [mbind option_bind]. by rewrite vec_remove_mid.
Qed.

(** Marking the links of [id :: targets] is marking those of [targets] where no
    link is [id]. *)
Lemma mark_cons t p id targets (l : list LinkEntry) : (id ∉ entry_id <$> l) ->
  (fun e => if bool_decide (entry_id e ∈ id :: targets) then wrote t p e else e) <$> l
  = (fun e => if bool_decide (entry_id e ∈ targets) then wrote t p e else e) <$> l.
Proof.
  intros Hl. apply list_fmap_ext. intros i x Hx.
  rewrite (bool_decide_ext (entry_id x ∈ id :: targets) (entry_id x ∈ targets)); [done|].
  rewrite elem_of_cons. split; [|by right]. intros [Heq|?]; [|done]. exfalso. apply Hl.
  rewrite <-Heq. apply list_elem_of_fmap_2. by eapply list_elem_of_lookup_2.
Qed.

Lemma write_targets_ok nows t p targets : Z.of_nat (length p) + 1 < 2 ^ 35 ->
  forall ls, NoDup (link_ids ls) -> NoDup targets -> targets ⊆ link_ids ls ->
  (forall e, e ∈ ls_entries ls -> entry_id e ∈ targets -> writable e) ->
  exists ls', write_targets nows ls targets t p = Some (ls', Ok ()) /\
    ls_entries ls' = (fun e => if bool_decide (entry_id e ∈ targets) then wrote t p e else e) <$> ls_entries ls.
Proof.
  intros Hp. revert nows. induction targets as [|id targets IH]; intros nows ls Hnd Hnt Hsub Hw.
  - exists ls. split; [done|]. symmetry. rewrite <-(list_fmap_id (ls_entries ls)) at 2. apply list_fmap_ext.
    intros i e _. by rewrite bool_decide_eq_false_2 by apply not_elem_of_nil.
  - apply NoDup_cons in Hnt as [Hid Hnt].
    destruct (find_entry id (ls_entries ls) Hnd) as (l1 & e & l2 & E & <- & Hpos & H1 & H2); [apply Hsub; left|].
    cbn [write_targets]. unfold LinkSet_write.
    assert (writable e) by (apply Hw; [rewrite E; apply elem_of_app; right; left|left]).
    rewrite (send_ok _ _ l1 e l2) by done.
    cbn [mbind option_bind result_bind]. set (ls1 := mkLinkSet _ _ _).
    assert (link_ids ls1 = link_ids ls) as Eids.
    { unfold link_ids, ls1. cbn [ls_entries]. rewrite E, !fmap_app, !fmap_cons. done. }
    destruct (IH (fun n => nows (S n)) ls1) as (ls' & -> & Els').
    + by rewrite Eids.
    + done.
    + rewrite Eids. intros x Hx. apply Hsub. by right.
    + intros e' He' Hin. unfold ls1 in He'. cbn [ls_entries] in He'.
      apply elem_of_app in He' as [He'|[->|He']%elem_of_cons]; [|done|];
        (apply Hw; [rewrite E; apply elem_of_app; by (left + (right; right))|by right]).
    + exists ls'. split; [done|]. rewrite Els'. unfold ls1. cbn [ls_entries]. rewrite E, !fmap_app, !fmap_cons.
      rewrite <-(mark_cons t p (entry_id e) targets l1), <-(mark_cons t p (entry_id e) targets l2) by done.
      rewrite (bool_decide_eq_false_2 (entry_id (wrote t p e) ∈ targets)) by done.
      by rewrite (bool_decide_eq_true_2 (entry_id e ∈ entry_id e :: targets)) by left.
Qed.

Lemma links_to_elem ls peer : NoDup (link_ids ls) ->
  NoDup (links_to ls peer) /\ links_to ls peer ⊆ link_ids ls.
Proof.
  intros Hnd. unfold links_to, link_ids in *. split.
  - eapply sublist_NoDup; [apply Hnd|]. apply fmap_sublist, sublist_filter.
  - intros x Hx. apply list_elem_of_fmap in Hx as (e & -> & He). apply list_elem_of_filter in He as [_ He].
    by apply list_elem_of_fmap_2.
Qed.

Lemma links_to_peer ls e peer : NoDup (link_ids ls) -> e ∈ ls_entries ls ->
  entry_id e ∈ links_to ls peer <-> le_peer e = peer.
Proof.
  intros Hnd He. unfold links_to. split.
  - intros Hx. apply list_elem_of_fmap in Hx as (e' & Eid & He').
    apply list_elem_of_filter in He' as [<- He']. f_equal.
    apply list_elem_of_lookup in He as [i Hi]. apply list_elem_of_lookup in He' as [j Hj].
    assert (i = j) as ->; [|congruence]. eapply (NoDup_lookup _ i j (entry_id e) Hnd).
    + unfold link_ids. by rewrite list_lookup_fmap, Hi.
    + unfold link_ids. by rewrite list_lookup_fmap, Hj, Eid.
  - intros <-. apply list_elem_of_fmap_2. by apply list_elem_of_filter.
Qed.

Lemma has_peer_links ls peer : has_peer ls peer = negb (bool_decide (links_to ls peer = [])).
Proof.
  unfold has_peer, links_to. induction (ls_entries ls) as [|e es IH]; [done|]. cbn [existsb].
  rewrite filter_cons. case_decide as He; [by rewrite bool_decide_eq_true_2|].
  rewrite bool_decide_eq_false_2 by done. exact IH.
Qed.

Lemma mark_peer t p ls peer : NoDup (link_ids ls) ->
  (fun e => if bool_decide (entry_id e ∈ links_to ls peer) then wrote t p e else e) <$> ls_entries ls
  = (fun e => if bool_decide (le_peer e = peer) then wrote t p e else e) <$> ls_entries ls.
Proof.
  intros Hnd. apply list_fmap_ext. intros i e He. apply list_elem_of_lookup_2 in He.
  pose proof (links_to_peer ls e peer Hnd He) as Hiff.
  destruct (decide (le_peer e = peer)) as [Hp|Hp].
  - rewrite (bool_decide_eq_true_2 (le_peer e = peer)) by done.
    by rewrite (bool_decide_eq_true_2 (entry_id e ∈ _)) by (by apply Hiff).
  - rewrite (bool_decide_eq_false_2 (le_peer e = peer)) by done.
    by rewrite (bool_decide_eq_false_2 (entry_id e ∈ _)) by (by rewrite Hiff).
Qed.

Lemma peer_of_absent ls id : id ∉ link_ids ls -> peer_of ls id = None.
Proof.
  intros H. unfold peer_of. rewrite (proj2 (find_first_None _ _)); [done|].
  intros e He. apply Z.eqb_neq. intros <-. apply H. by apply list_elem_of_fmap_2.
Qed.

(** ** Properties *)

(** A send to a node reaches every live link to it. If none of its streams
    refuses, [write_all] succeeds, each link to the key has exactly the frame
    appended to what it had written (and counted), every other link is as it
    was, and no link is lost; a key without links is refused with [NoLink]. *)
Theorem write_all_fans_out nows ls peer t p : NoDup (link_ids ls) -> Z.of_nat (length p) + 1 < 2 ^ 35 ->
  (forall e, e ∈ ls_entries ls -> le_peer e = peer -> writable e) ->
  exists ls', LinkSet_write_all nows ls peer t p
      = Some (ls', if has_peer ls peer then Ok () else Err (Core NoLink)) /\
    ls_entries ls' = (fun e => if bool_decide (le_peer e = peer) then wrote t p e else e) <$> ls_entries ls.
Proof.
  intros Hnd Hp Hw. destruct (links_to_elem ls peer Hnd) as [Hnt Hsub].
  rewrite has_peer_links, <-mark_peer by done. unfold LinkSet_write_all.
  assert (forall T, T = links_to ls peer -> exists ls', write_targets nows ls T t p = Some (ls', Ok ()) /\
    ls_entries ls' = (fun e => if bool_decide (entry_id e ∈ T) then wrote t p e else e) <$> ls_entries ls) as Hok.
  { intros T ->. apply write_targets_ok; try done. intros e He Hin. apply Hw; [done|].
    by apply links_to_peer in Hin. }
  destruct (links_to ls peer) as [|id T]; [|by apply Hok].
  destruct (Hok [] eq_refl) as (ls' & [= <-] & E). by exists ls.
Qed.

(** Two links to one key and one to another. *)
Definition ex_conn (id : Z) (key : bytes) (wres : list (option IoError)) : AnyConn :=
  mkAnyConn key 0 Go false id None (mkStream [] None [] wres).
Definition ex_links (wres : list (option IoError)) : LinkSet :=
  (LinkSet_add 0 (LinkSet_add 0 (LinkSet_add 0 LinkSet_new (ex_conn 1 [1] [])).1 (ex_conn 2 [2] [])).1 (ex_conn 3 [1] wres)).1.

Lemma write_all_fans_out_witness : exists ls',
  LinkSet_write_all (fun _ => 5) (ex_links []) [1] KeepAlive [] = Some (ls', Ok ()) /\
  out_of <$> ls_entries ls' = [[1; 1]; []; [1; 1]].
Proof.
  destruct (write_all_fans_out (fun _ => 5) (ex_links []) [1] KeepAlive []) as (ls' & H1 & H2).
  - apply (bool_decide_unpack _). vm_compute. exact I.
  - simpl. lia.
  - intros e He _. cbn in He. repeat (apply elem_of_cons in He as [->|He]; [constructor|]).
    by apply not_elem_of_nil in He.
  - exists ls'. split; [exact H1|]. rewrite H2. vm_compute. reflexivity.
Defined.

(** A link that refuses a frame is retired. The write reports the socket's
    error, exactly that link leaves the set (so nothing addresses it again), and
    every other link keeps its state. *)
Theorem failed_write_retires now ls l1 e l2 t p er rest :
  NoDup (link_ids ls) -> Z.of_nat (length p) + 1 < 2 ^ 35 -> ls_entries ls = l1 ++ e :: l2 ->
  st_wres (c_stream (le_link e)) = Some er :: rest ->
  exists ls', LinkSet_write now ls (entry_id e) t p = Some (ls', Err (Io er)) /\
    ls_entries ls' = l1 ++ l2 /\ peer_of ls' (entry_id e) = None /\
    (forall peer, entry_id e ∉ links_to ls' peer) /\ Error_is_link (Io er) = true.
Proof.
  intros Hnd Hp E Hw. exists (set_entries ls (l1 ++ l2)). unfold LinkSet_write.
  destruct (find_entry (entry_id e) (ls_entries ls) Hnd) as (k1 & e' & k2 & E' & Eid & Hpos & H1 & H2).
  { rewrite E, fmap_app, fmap_cons. apply elem_of_app. right. left. }
  assert (k1 = l1 /\ e' = e /\ k2 = l2) as (-> & -> & ->).
  { rewrite E in E'. pose proof Hnd as Hnd'. unfold link_ids in Hnd'. rewrite E, fmap_app, fmap_cons in Hnd'.
    apply NoDup_app in Hnd' as (_ & Hd & Hnd2). apply NoDup_cons in Hnd2 as [Hn2 _].
    rewrite E in Hpos. assert (length k1 = length l1) as Hlen.
    { assert ((l1 ++ e :: l2) !! length k1 = Some e') as Hk by (by rewrite E', list_lookup_middle).
      apply (NoDup_lookup _ _ _ (entry_id e) Hnd); unfold link_ids; rewrite list_lookup_fmap, E.
      - by rewrite Hk, <-Eid.
      - by rewrite list_lookup_middle. }
    apply app_inj_1 in E' as [-> [= -> ->]]; done. }
  rewrite (send_fail now ls l1 e l2 t p er rest) by done. cbn [mbind option_bind result_bind].
  split; [done|]. split; [done|].
  assert (entry_id e ∉ link_ids (set_entries ls (l1 ++ l2))) as Hgone.
  { unfold link_ids. cbn [ls_entries set_entries]. rewrite fmap_app. by intros [?|?]%elem_of_app. }
  split; [by apply peer_of_absent|]. split; [|done]. intros peer Hin. apply Hgone.
  unfold links_to in Hin. apply list_elem_of_fmap in Hin as (x & -> & Hx). apply list_elem_of_filter in Hx as [_ Hx].
  by apply list_elem_of_fmap_2.
Qed.

Lemma failed_write_retires_witness : exists ls',
  LinkSet_write 9 (ex_links [Some (OtherIo 32)]) 3 KeepAlive [] = Some (ls', Err (Io (OtherIo 32))) /\
  link_ids ls' = [1; 2] /\ peer_of ls' 3 = None.
Proof.
  destruct (failed_write_retires 9 (ex_links [Some (OtherIo 32)])
    (take 2 (ls_entries (ex_links [Some (OtherIo 32)])))
    (mkLinkEntry [1] (ex_conn 3 [1] [Some (OtherIo 32)]) 0 0 0 0 0 0 0) [] KeepAlive [] (OtherIo 32) [])
    as (ls' & H1 & H2 & H3 & _).
  - apply (bool_decide_unpack _). vm_compute. exact I.
  - simpl. lia.
  - reflexivity.
  - reflexivity.
  - exists ls'. split; [exact H1|]. split; [unfold link_ids; rewrite H2; reflexivity|exact H3].
Defined.

(** A frame that straddles two read slices is lost. When the time budget
    ends before the whole frame has arrived, the read times out and the bytes it
    had taken are gone with it, so the rest of the frame is read as the start of
    the next one. *)
Theorem partial_frame_lost t p a b out w : Z.of_nat (length p) + 1 <= MAX_MESSAGE_SIZE ->
  frame_spec t p = a ++ b -> b <> [] ->
  stream_read_slice (mkStream a None out w) = (mkStream [] None out w, TimedOut).
Proof.
  intros Hp E Hb. unfold stream_read_slice. cbn [st_end st_in st_out st_wres].
  unfold WOULD_BLOCK. rewrite (read_frame_partial t p a b) by done. by rewrite decide_True.
Qed.

Lemma partial_frame_lost_witness :
  let s := mkStream [4; 9] None [] [] in
  stream_read_slice s = (mkStream [] None [] [], TimedOut) /\
  stream_read_slice (mkStream ((stream_read_slice s).1.(st_in) ++ [1; 0; 7]) None [] [])
  = (mkStream [7] None [] [], ReadFrame Dummy []) /\
  stream_read_slice (mkStream ([4; 9] ++ [1; 0; 7]) None [] []) = (mkStream [] None [] [], ReadFrame TTraffic [1; 0; 7]).
Proof.
  assert (stream_read_slice (mkStream [4; 9] None [] []) = (mkStream [] None [] [], TimedOut)) as H.
  { apply (partial_frame_lost TTraffic [1; 0; 7] [4; 9] [1; 0; 7] [] []); [vm_compute; congruence|reflexivity|discriminate]. }
  cbv zeta. split; [exact H|]. rewrite H. split; vm_compute; reflexivity.
Defined.

(** The byte rates are differences of counters over whole windows: a sample
    taken within a second of the last changes nothing; otherwise each link's
    rates are the bytes counted since its previous sample, the new baseline is
    the current count, and an immediately following sample reads zero. *)
Theorem rates_are_differences now ls e : e ∈ ls_entries (update_rates now ls) ->
  (match sampled_at ls with Some t => std_duration_since now t < RATE_WINDOW | None => False end ->
   update_rates now ls = ls) /\
  (match sampled_at ls with Some t => RATE_WINDOW <= std_duration_since now t | None => True end ->
   sampled_at (update_rates now ls) = Some now /\ le_lastrx e = le_rx e /\ le_lasttx e = le_tx e /\
   le_rxrate (sample_entry e) = 0 /\ le_txrate (sample_entry e) = 0 /\
   exists e0, e0 ∈ ls_entries ls /\ le_link e = le_link e0 /\
     le_rxrate e = wrapping_sub (le_rx e0) (le_lastrx e0) /\ le_txrate e = wrapping_sub (le_tx e0) (le_lasttx e0)).
Proof.
  unfold update_rates. intros He. split.
  - destruct (sampled_at ls) as [t|]; [|done]. intros Ht. destruct (Z.leb_spec RATE_WINDOW (std_duration_since now t)); [lia|done].
  - intros Hdue. assert (match sampled_at ls with
      | Some t => RATE_WINDOW <=? std_duration_since now t | None => true end = true) as Hd.
    { destruct (sampled_at ls); [by apply Z.leb_le|done]. }
    rewrite Hd in He |- *. cbn [ls_entries sampled_at] in He |- *.
    apply list_elem_of_fmap in He as (e0 & -> & He0).
    cbn [sample_entry le_rx le_tx le_lastrx le_lasttx le_rxrate le_txrate le_link].
    unfold wrapping_sub. rewrite !Z.sub_diag. repeat split. by exists e0.
Qed.

Lemma rates_are_differences_witness : exists e, e ∈ ls_entries (update_rates 7 (ex_links [])) /\ le_rxrate (sample_entry e) = 0.
Proof.
  assert (sample_entry (mkLinkEntry [1] (ex_conn 1 [1] []) 0 0 0 0 0 0 0) ∈ ls_entries (update_rates 7 (ex_links []))) as H
    by (left).
  eexists. split; [exact H|]. apply (rates_are_differences 7 (ex_links []) _ H). exact I.
Defined.
