(* ===== verification/Router.v ===== *)
(** * Router: the state of the router and the effects its operations use
    ([src/router.rs], with the state types of [src/tree.rs], [src/pathfind.rs],
    [src/bloom.rs], [src/session.rs], [src/proto.rs] and [src/peer.rs]).

    A router operation is a function of the world (the router, the links it was
    handed, and how often it consulted its environment) whose outcome is the new
    world with a result, a panic, or, for the operations that call each other in
    a cycle, the exhaustion of the fuel. Effects made before an error stay.

    The environment is what the operating system answers: the n-th reading of
    the monotonic clock, of the calendar clock, and of the random generator. *)
From stdpp Require Import base tactics list numbers gmap.
From S2P Require Import Prelude Errors Clock Frame Address Table Bloom Wire Handshake LinkSet.

Local Open Scope Z_scope.

Definition MAINTENANCE_INTERVAL : Z := from_secs 1.
Definition UNKNOWN_LATENCY : Z := 2 ^ 32 - 1.
Definition TREE_REFRESH : Z := from_secs (4 * 60).
Definition TREE_TIMEOUT : Z := from_secs (5 * 60).
Definition PATH_TIMEOUT : Z := from_secs 60.
Definition PATH_THROTTLE : Z := from_secs 1.
Definition SESSION_TIMEOUT : Z := from_secs 60.

(** ** State *)

Record PeerState : Type := mkPeerState { p_port : Z; p_req : SigReq }.

Record LinkState : Type := mkLinkState {
  l_peer : bytes; l_responded : bool; l_lag : Z; l_sent_at : option Instant;
  l_prio : Z; l_order : Z; l_kind : PeerKind; l_srrt : option Instant }.

Record Info : Type := mkInfo { i_parent : bytes; i_res : SigRes; i_sig : bytes }.

#[export] Instance Info_eq_dec : EqDecision Info.
Proof. solve_decision. Defined.

Definition Info_announce (i : Info) (key : bytes) : Announce :=
  mkAnnounce key (i_parent i) (i_res i) (i_sig i).

Record TreeState : Type := mkTreeState {
  t_peers : gmap bytes PeerState; t_links : gmap LinkId LinkState; t_infos : gmap bytes Info;
  t_deadlines : gmap bytes Z; t_responses : gmap bytes SigRes; t_sent : gmap bytes (gset bytes);
  t_next_port : Z; t_refresh : bool; t_do_root1 : bool; t_do_root2 : bool;
  t_self_refresh_at : option Z; t_peer_order : Z; t_announces_sent : Z; t_announces_recv : Z }.

Definition TreeState_default : TreeState :=
  mkTreeState ∅ ∅ ∅ ∅ ∅ ∅ 1 false false true None 0 0 0.

Record PathEntry : Type := mkPathEntry { pe_path : list Z; pe_seq : Z; pe_deadline : Z; pe_broken : bool }.

Record RumorEntry : Type := mkRumor {
  r_dest : bytes; r_send_at : option Z; r_deadline : Z; r_pending : option bytes; r_pending_is_app : bool }.

Record PathState : Type := mkPathState {
  pa_entries : gmap bytes PathEntry; pa_rumors : gmap bytes RumorEntry; pa_notify : NotifyInfo }.

Definition PathState_default : PathState := mkPathState ∅ ∅ (mkNotifyInfo 0 [] (replicate 64 0)).

Record BloomState : Type := mkBloomState {
  b_send : gmap bytes BloomFilter; b_recv : gmap bytes BloomFilter; b_on_tree : Table bytes bool }.

(** The capacity of [on_tree]. *)
Definition ON_TREE : nat := 64.

Definition BloomState_default : BloomState := mkBloomState ∅ ∅ (Table_new ON_TREE).

Record SessionInit : Type := mkSessionInit { si_current : bytes; si_next : bytes; si_key_seq : Z; si_seq : Z }.

#[export] Instance SessionInit_eq_dec : EqDecision SessionInit.
Proof. solve_decision. Defined.

(** A [SalsaBox] is the pair of keys it was built from: their public and our
    private key. *)
Record SalsaBox : Type := mkSalsaBox { sb_their_pub : bytes; sb_our_priv : bytes }.

Record Session : Type := mkSession {
  s_seq : Z; s_remote_key_seq : Z; s_current : bytes; s_next : bytes; s_local_key_seq : Z;
  s_recv_priv : bytes; s_recv_pub : bytes; s_recv_shared : SalsaBox; s_recv_nonce : Z;
  s_send_priv : bytes; s_send_pub : bytes; s_send_shared : SalsaBox; s_send_nonce : Z;
  s_next_priv : bytes; s_next_pub : bytes; s_next_send_shared : SalsaBox; s_next_send_nonce : Z;
  s_next_recv_shared : SalsaBox; s_next_recv_nonce : Z; s_rotated_at : option Z }.

Record SessionBuf : Type := mkSessionBuf {
  sbuf_init : SessionInit; sbuf_send_pub : bytes; sbuf_send_priv : bytes; sbuf_next_pub : bytes;
  sbuf_next_priv : bytes; sbuf_data : option (Z * bytes); sbuf_deadline : Z }.

Record SessionState : Type := mkSessionState {
  ss_sessions : gmap bytes (Session * Z); ss_bufs : gmap bytes SessionBuf; ss_init_seq : Z;
  ss_resend : list (bytes * bytes) }.

Definition SessionState_default : SessionState := mkSessionState ∅ ∅ 0 [].

Record Router : Type := mkRouter {
  r_clock : StdClock; r_key : bytes; r_pubkey : bytes; r_tree : TreeState; r_path : PathState;
  r_bloom : BloomState; r_sess : SessionState; r_nodeinfo : bytes;
  r_inbox : list (bytes * bytes); r_proto_inbox : list (bytes * bytes);
  r_frames : list Z; r_dropped_no_link : Z }.

(** [b"{}"]. *)
Definition NODEINFO_DEFAULT : bytes := [123; 125].

Definition with_clock `{!Ed25519} (key : bytes) (clock : StdClock) : Router :=
  mkRouter clock key (verifying_key key) TreeState_default PathState_default BloomState_default
    SessionState_default NODEINFO_DEFAULT [] [] (replicate FRAME_KINDS 0) 0.

(** ** Field updates *)

Definition set_tree (f : TreeState -> TreeState) (r : Router) : Router :=
  mkRouter (r_clock r) (r_key r) (r_pubkey r) (f (r_tree r)) (r_path r) (r_bloom r) (r_sess r) (r_nodeinfo r)
    (r_inbox r) (r_proto_inbox r) (r_frames r) (r_dropped_no_link r).
Definition set_path (f : PathState -> PathState) (r : Router) : Router :=
  mkRouter (r_clock r) (r_key r) (r_pubkey r) (r_tree r) (f (r_path r)) (r_bloom r) (r_sess r) (r_nodeinfo r)
    (r_inbox r) (r_proto_inbox r) (r_frames r) (r_dropped_no_link r).
Definition set_bloom (f : BloomState -> BloomState) (r : Router) : Router :=
  mkRouter (r_clock r) (r_key r) (r_pubkey r) (r_tree r) (r_path r) (f (r_bloom r)) (r_sess r) (r_nodeinfo r)
    (r_inbox r) (r_proto_inbox r) (r_frames r) (r_dropped_no_link r).
Definition set_sess (f : SessionState -> SessionState) (r : Router) : Router :=
  mkRouter (r_clock r) (r_key r) (r_pubkey r) (r_tree r) (r_path r) (r_bloom r) (f (r_sess r)) (r_nodeinfo r)
    (r_inbox r) (r_proto_inbox r) (r_frames r) (r_dropped_no_link r).
Definition set_nodeinfo_field (n : bytes) (r : Router) : Router :=
  mkRouter (r_clock r) (r_key r) (r_pubkey r) (r_tree r) (r_path r) (r_bloom r) (r_sess r) n
    (r_inbox r) (r_proto_inbox r) (r_frames r) (r_dropped_no_link r).
Definition push_inbox (x : bytes * bytes) (r : Router) : Router :=
  mkRouter (r_clock r) (r_key r) (r_pubkey r) (r_tree r) (r_path r) (r_bloom r) (r_sess r) (r_nodeinfo r)
    (r_inbox r ++ [x]) (r_proto_inbox r) (r_frames r) (r_dropped_no_link r).
Definition push_proto_inbox (x : bytes * bytes) (r : Router) : Router :=
  mkRouter (r_clock r) (r_key r) (r_pubkey r) (r_tree r) (r_path r) (r_bloom r) (r_sess r) (r_nodeinfo r)
    (r_inbox r) (r_proto_inbox r ++ [x]) (r_frames r) (r_dropped_no_link r).
Definition count_frame (t : FrameType) (r : Router) : Router :=
  let i := Z.to_nat (FrameType_byte t) in
  mkRouter (r_clock r) (r_key r) (r_pubkey r) (r_tree r) (r_path r) (r_bloom r) (r_sess r) (r_nodeinfo r)
    (r_inbox r) (r_proto_inbox r) (<[i := wrapping_add (r_frames r !!! i) 1]> (r_frames r)) (r_dropped_no_link r).
Definition count_drop (r : Router) : Router :=
  mkRouter (r_clock r) (r_key r) (r_pubkey r) (r_tree r) (r_path r) (r_bloom r) (r_sess r) (r_nodeinfo r)
    (r_inbox r) (r_proto_inbox r) (r_frames r) (wrapping_add (r_dropped_no_link r) 1).

Definition set_peers (f : gmap bytes PeerState -> gmap bytes PeerState) (t : TreeState) : TreeState :=
  mkTreeState (f (t_peers t)) (t_links t) (t_infos t) (t_deadlines t) (t_responses t) (t_sent t) (t_next_port t)
    (t_refresh t) (t_do_root1 t) (t_do_root2 t) (t_self_refresh_at t) (t_peer_order t) (t_announces_sent t) (t_announces_recv t).
Definition set_links (f : gmap LinkId LinkState -> gmap LinkId LinkState) (t : TreeState) : TreeState :=
  mkTreeState (t_peers t) (f (t_links t)) (t_infos t) (t_deadlines t) (t_responses t) (t_sent t) (t_next_port t)
    (t_refresh t) (t_do_root1 t) (t_do_root2 t) (t_self_refresh_at t) (t_peer_order t) (t_announces_sent t) (t_announces_recv t).
Definition set_infos (f : gmap bytes Info -> gmap bytes Info) (t : TreeState) : TreeState :=
  mkTreeState (t_peers t) (t_links t) (f (t_infos t)) (t_deadlines t) (t_responses t) (t_sent t) (t_next_port t)
    (t_refresh t) (t_do_root1 t) (t_do_root2 t) (t_self_refresh_at t) (t_peer_order t) (t_announces_sent t) (t_announces_recv t).
Definition set_deadlines (f : gmap bytes Z -> gmap bytes Z) (t : TreeState) : TreeState :=
  mkTreeState (t_peers t) (t_links t) (t_infos t) (f (t_deadlines t)) (t_responses t) (t_sent t) (t_next_port t)
    (t_refresh t) (t_do_root1 t) (t_do_root2 t) (t_self_refresh_at t) (t_peer_order t) (t_announces_sent t) (t_announces_recv t).
Definition set_responses (f : gmap bytes SigRes -> gmap bytes SigRes) (t : TreeState) : TreeState :=
  mkTreeState (t_peers t) (t_links t) (t_infos t) (t_deadlines t) (f (t_responses t)) (t_sent t) (t_next_port t)
    (t_refresh t) (t_do_root1 t) (t_do_root2 t) (t_self_refresh_at t) (t_peer_order t) (t_announces_sent t) (t_announces_recv t).
Definition set_sent (f : gmap bytes (gset bytes) -> gmap bytes (gset bytes)) (t : TreeState) : TreeState :=
  mkTreeState (t_peers t) (t_links t) (t_infos t) (t_deadlines t) (t_responses t) (f (t_sent t)) (t_next_port t)
    (t_refresh t) (t_do_root1 t) (t_do_root2 t) (t_self_refresh_at t) (t_peer_order t) (t_announces_sent t) (t_announces_recv t).
Definition take_port (t : TreeState) : TreeState :=
  mkTreeState (t_peers t) (t_links t) (t_infos t) (t_deadlines t) (t_responses t) (t_sent t) (wrapping_add (t_next_port t) 1)
    (t_refresh t) (t_do_root1 t) (t_do_root2 t) (t_self_refresh_at t) (t_peer_order t) (t_announces_sent t) (t_announces_recv t).
Definition take_order (t : TreeState) : TreeState :=
  mkTreeState (t_peers t) (t_links t) (t_infos t) (t_deadlines t) (t_responses t) (t_sent t) (t_next_port t)
    (t_refresh t) (t_do_root1 t) (t_do_root2 t) (t_self_refresh_at t) (wrapping_add (t_peer_order t) 1) (t_announces_sent t) (t_announces_recv t).
Definition set_flags (refresh do_root1 do_root2 : bool) (t : TreeState) : TreeState :=
  mkTreeState (t_peers t) (t_links t) (t_infos t) (t_deadlines t) (t_responses t) (t_sent t) (t_next_port t)
    refresh do_root1 do_root2 (t_self_refresh_at t) (t_peer_order t) (t_announces_sent t) (t_announces_recv t).
Definition set_self_refresh (a : option Z) (t : TreeState) : TreeState :=
  mkTreeState (t_peers t) (t_links t) (t_infos t) (t_deadlines t) (t_responses t) (t_sent t) (t_next_port t)
    (t_refresh t) (t_do_root1 t) (t_do_root2 t) a (t_peer_order t) (t_announces_sent t) (t_announces_recv t).
Definition count_sent (t : TreeState) : TreeState :=
  mkTreeState (t_peers t) (t_links t) (t_infos t) (t_deadlines t) (t_responses t) (t_sent t) (t_next_port t)
    (t_refresh t) (t_do_root1 t) (t_do_root2 t) (t_self_refresh_at t) (t_peer_order t) (wrapping_add (t_announces_sent t) 1) (t_announces_recv t).
Definition count_recv (t : TreeState) : TreeState :=
  mkTreeState (t_peers t) (t_links t) (t_infos t) (t_deadlines t) (t_responses t) (t_sent t) (t_next_port t)
    (t_refresh t) (t_do_root1 t) (t_do_root2 t) (t_self_refresh_at t) (t_peer_order t) (t_announces_sent t) (wrapping_add (t_announces_recv t) 1).

Definition set_l_responded (b : bool) (l : LinkState) : LinkState :=
  mkLinkState (l_peer l) b (l_lag l) (l_sent_at l) (l_prio l) (l_order l) (l_kind l) (l_srrt l).
Definition set_l_sent_at (a : option Instant) (l : LinkState) : LinkState :=
  mkLinkState (l_peer l) (l_responded l) (l_lag l) a (l_prio l) (l_order l) (l_kind l) (l_srrt l).
Definition set_l_srrt (a : option Instant) (l : LinkState) : LinkState :=
  mkLinkState (l_peer l) (l_responded l) (l_lag l) (l_sent_at l) (l_prio l) (l_order l) (l_kind l) a.
Definition set_l_lag (d : Z) (l : LinkState) : LinkState :=
  mkLinkState (l_peer l) (l_responded l) d (l_sent_at l) (l_prio l) (l_order l) (l_kind l) (l_srrt l).

Definition set_entries_p (f : gmap bytes PathEntry -> gmap bytes PathEntry) (p : PathState) : PathState :=
  mkPathState (f (pa_entries p)) (pa_rumors p) (pa_notify p).
Definition set_rumors (f : gmap bytes RumorEntry -> gmap bytes RumorEntry) (p : PathState) : PathState :=
  mkPathState (pa_entries p) (f (pa_rumors p)) (pa_notify p).
Definition set_notify (n : NotifyInfo) (p : PathState) : PathState :=
  mkPathState (pa_entries p) (pa_rumors p) n.

Definition set_sessions (f : gmap bytes (Session * Z) -> gmap bytes (Session * Z)) (s : SessionState) : SessionState :=
  mkSessionState (f (ss_sessions s)) (ss_bufs s) (ss_init_seq s) (ss_resend s).
Definition set_bufs (f : gmap bytes SessionBuf -> gmap bytes SessionBuf) (s : SessionState) : SessionState :=
  mkSessionState (ss_sessions s) (f (ss_bufs s)) (ss_init_seq s) (ss_resend s).
Definition set_init_seq (n : Z) (s : SessionState) : SessionState :=
  mkSessionState (ss_sessions s) (ss_bufs s) n (ss_resend s).
Definition set_resend (f : list (bytes * bytes) -> list (bytes * bytes)) (s : SessionState) : SessionState :=
  mkSessionState (ss_sessions s) (ss_bufs s) (ss_init_seq s) (f (ss_resend s)).

(** ** Effects *)

Class Env := { clock_at : nat -> Z; unix_at : nat -> Z; rand_at : nat -> bytes }.

Record World : Type := mkWorld { w_router : Router; w_links : LinkSet; w_ticks : nat }.

Inductive outcome (A : Type) : Type :=
  | Done (w : World) (r : result A)
  | Panic
  | OutOfFuel.
Arguments Done {A} w r.
Arguments Panic {A}.
Arguments OutOfFuel {A}.

Definition M (A : Type) : Type := World -> outcome A.

#[export] Instance M_ret : MRet M := fun A a w => Done w (Ok a).
#[export] Instance M_bind : MBind M := fun A B f m w =>
  match m w with
  | Done w' (Ok a) => f a w'
  | Done w' (Err e) => Done w' (Err e)
  | Panic => Panic
  | OutOfFuel => OutOfFuel
  end.

Definition get_world : M World := fun w => Done w (Ok w).
Definition asks {A} (f : Router -> A) : M A := fun w => Done w (Ok (f (w_router w))).
Definition asks_links {A} (f : LinkSet -> A) : M A := fun w => Done w (Ok (f (w_links w))).
Definition modify (f : Router -> Router) : M () := fun w =>
  Done (mkWorld (f (w_router w)) (w_links w) (w_ticks w)) (Ok ()).
Definition modify_tree (f : TreeState -> TreeState) : M () := modify (set_tree f).
Definition throw {A} (e : Error) : M A := fun w => Done w (Err e).
Definition lift {A} (r : result A) : M A := fun w => Done w r.
Definition panic {A} : M A := fun _ => Panic.

(** The result of a call whose error is inspected rather than propagated. *)
Definition attempt {A} (m : M A) : M (result A) := fun w =>
  match m w with
  | Done w' r => Done w' (Ok r)
  | Panic => Panic
  | OutOfFuel => OutOfFuel
  end.

Definition when (b : bool) (m : M ()) : M () := if b then m else mret ().

(** [for x in l { f(x)?; }]. *)
Fixpoint for_each_m {A} (l : list A) (f : A -> M ()) : M () :=
  match l with
  | [] => mret ()
  | x :: l' => f x ≫= fun _ => for_each_m l' f
  end.

Section effects.
Context `{!Env}.

Definition tick {A} (f : nat -> A) : M A := fun w =>
  Done (mkWorld (w_router w) (w_links w) (S (w_ticks w))) (Ok (f (w_ticks w))).

(** [std::time::Instant::now()]. *)
Definition instant_now : M Z := tick clock_at.

(** [self.clock.now()]. *)
Definition clock_now : M Instant := fun w => tick (fun n => StdClock_now (r_clock (w_router w)) (clock_at n)) w.

Definition unix_now : M Z := tick unix_at.
Definition rand_bytes : M bytes := tick rand_at.

(** [rand::random::<u64>()]. *)
Definition rand_u64 : M Z := tick (fun n => be_val (take 8 (rand_at n))).

Definition run_links {A} (f : nat -> LinkSet -> option (LinkSet * result A)) (ticks : nat) : M A := fun w =>
  match f (w_ticks w) (w_links w) with
  | Some (ls, r) => Done (mkWorld (w_router w) ls (w_ticks w + ticks)) r
  | None => Panic
  end.

Definition links_write (id : LinkId) (t : FrameType) (p : bytes) : M () :=
  run_links (fun n ls => LinkSet_write (clock_at n) ls id t p) 1.

Definition links_write_all (peer : bytes) (t : FrameType) (p : bytes) : M () := fun w =>
  run_links (fun n ls => LinkSet_write_all (fun i => clock_at (n + i)) ls peer t p)
    (length (links_to (w_links w) peer)) w.

Definition links_write_via (id : LinkId) (t : FrameType) (p : bytes) : M bool :=
  run_links (fun n ls => LinkSet_write_via (clock_at n) ls id t p) 1.

(** [Router::write_via] of [src/driver.rs]. *)
Definition write_via (next : LinkId) (t : FrameType) (buf : bytes) : M () :=
  p ← asks_links (fun ls => peer_of ls next);
  match p with
  | None => modify count_drop
  | Some _ => _ ← links_write_via next t buf; mret ()
  end.

Definition next_init_seq : M Z :=
  u ← unix_now;
  s ← asks (fun r => ss_init_seq (r_sess r));
  let n := Z.max (wrapping_add u 1) (saturating_add s 1) in
  _ ← modify (set_sess (set_init_seq n));
  mret n.

Definition forget_link (id : LinkId) : M () := modify_tree (set_links (delete id)).
End effects.
