(* ===== verification/Hoare.v ===== *)
(** * Hoare: reasoning about router operations.

    [wp m Q w]: if [m] returns from [w], the result and the world satisfy [Q].
    [keeps I m]: [m] preserves the invariant [I] of the router, whatever the
    links and the environment do, on every path, errors included. [total m]:
    [m] never runs out of fuel. The rules are a hint database each. *)
From stdpp Require Import base tactics list numbers gmap.
From S2P Require Import Prelude Errors Clock Frame Address Table Bloom Wire Handshake LinkSet Router.

Local Open Scope Z_scope.

Definition wp {A} (m : M A) (Q : result A -> World -> Prop) (w : World) : Prop :=
  match m w with
  | Done w' r => Q r w'
  | Panic | OutOfFuel => True
  end.

Definition keeps (I : Router -> Prop) {A} (m : M A) : Prop :=
  forall w, I (w_router w) -> wp m (fun _ w' => I (w_router w')) w.

Definition total {A} (m : M A) : Prop := forall w, m w <> OutOfFuel.

Create HintDb keeps discriminated.
Create HintDb total discriminated.

Section rules.
Context (I : Router -> Prop).

Lemma keeps_ret {A} (a : A) : keeps I (mret a).
Proof. intros w Hw. exact Hw. Qed.

Lemma keeps_bind {A B} (m : M A) (k : A -> M B) : keeps I m -> (forall a, keeps I (k a)) -> keeps I (m ≫= k).
Proof.
  intros Hm Hk w Hw. specialize (Hm w Hw). unfold wp, mbind, M_bind in *.
  destruct (m w) as [w' [a|e]| |]; try done. by apply Hk.
Qed.

(** What a read returns comes from a router that satisfies the invariant. *)
Lemma keeps_asks {A B} (f : Router -> A) (k : A -> M B) :
  (forall r, I r -> keeps I (k (f r))) -> keeps I (asks f ≫= k).
Proof. intros Hk w Hw. by apply Hk. Qed.

Lemma keeps_asks_only {A} (f : Router -> A) : keeps I (asks f).
Proof. intros w Hw. exact Hw. Qed.

Lemma keeps_asks_links {A} (f : LinkSet -> A) : keeps I (asks_links f).
Proof. intros w Hw. exact Hw. Qed.

Lemma keeps_modify (f : Router -> Router) : (forall r, I r -> I (f r)) -> keeps I (modify f).
Proof. intros Hf w Hw. by apply Hf. Qed.

Lemma keeps_modify_tree (f : TreeState -> TreeState) : (forall r, I r -> I (set_tree f r)) -> keeps I (modify_tree f).
Proof. intros Hf w Hw. by apply Hf. Qed.

Lemma keeps_throw {A} e : keeps I (@throw A e).
Proof. intros w Hw. exact Hw. Qed.

Lemma keeps_lift {A} (r : result A) : keeps I (lift r).
Proof. intros w Hw. exact Hw. Qed.

Lemma keeps_panic {A} : keeps I (@panic A).
Proof. intros w Hw. exact Logic.I. Qed.

Lemma keeps_attempt {A} (m : M A) : keeps I m -> keeps I (attempt m).
Proof. intros Hm w Hw. specialize (Hm w Hw). unfold wp, attempt in *. by destruct (m w). Qed.

Lemma keeps_when b (m : M ()) : keeps I m -> keeps I (when b m).
Proof. destruct b; [done|intros _; apply keeps_ret]. Qed.

Lemma keeps_for_each {A} (l : list A) (f : A -> M ()) : (forall x, keeps I (f x)) -> keeps I (for_each_m l f).
Proof. intros Hf. induction l as [|x l IH]; cbn; [apply keeps_ret|by apply keeps_bind]. Qed.

Lemma keeps_tick {A} (f : nat -> A) : keeps I (tick f).
Proof. intros w Hw. exact Hw. Qed.

Lemma keeps_clock_now `{!Env} : keeps I clock_now.
Proof. intros w Hw. exact Hw. Qed.

Lemma keeps_run_links {A} (f : nat -> LinkSet -> option (LinkSet * result A)) n : keeps I (run_links f n).
Proof. intros w Hw. unfold wp, run_links. by destruct (f _ _) as [[ls r]|]. Qed.

Lemma keeps_links_write `{!Env} id t p : keeps I (links_write id t p).
Proof. apply keeps_run_links. Qed.

Lemma keeps_links_write_all `{!Env} k t p : keeps I (links_write_all k t p).
Proof. intros w Hw. by apply keeps_run_links. Qed.

Lemma keeps_links_write_via `{!Env} id t p : keeps I (links_write_via id t p).
Proof. apply keeps_run_links. Qed.
End rules.

#[export] Hint Resolve keeps_ret keeps_asks_only keeps_asks_links keeps_throw keeps_lift keeps_panic keeps_attempt
  keeps_when keeps_for_each keeps_tick keeps_clock_now keeps_links_write keeps_links_write_all keeps_links_write_via : keeps.

Lemma total_ret {A} (a : A) : total (mret a).
Proof. done. Qed.

Lemma total_bind {A B} (m : M A) (k : A -> M B) : total m -> (forall a, total (k a)) -> total (m ≫= k).
Proof.
  intros Hm Hk w. specialize (Hm w). unfold mbind, M_bind. destruct (m w) as [w' [a|e]| |]; try done. apply Hk.
Qed.

Lemma total_asks {A} (f : Router -> A) : total (asks f).
Proof. done. Qed.
Lemma total_asks_links {A} (f : LinkSet -> A) : total (asks_links f).
Proof. done. Qed.
Lemma total_modify f : total (modify f).
Proof. done. Qed.
Lemma total_modify_tree f : total (modify_tree f).
Proof. done. Qed.
Lemma total_throw {A} e : total (@throw A e).
Proof. done. Qed.
Lemma total_lift {A} (r : result A) : total (lift r).
Proof. done. Qed.
Lemma total_panic {A} : total (@panic A).
Proof. done. Qed.

Lemma total_attempt {A} (m : M A) : total m -> total (attempt m).
Proof. intros Hm w. specialize (Hm w). unfold attempt. by destruct (m w). Qed.

Lemma total_when b (m : M ()) : total m -> total (when b m).
Proof. by destruct b. Qed.

Lemma total_for_each {A} (l : list A) (f : A -> M ()) : (forall x, total (f x)) -> total (for_each_m l f).
Proof. intros Hf. induction l as [|x l IH]; cbn; [apply total_ret|by apply total_bind]. Qed.

Lemma total_tick {A} (f : nat -> A) : total (tick f).
Proof. done. Qed.
Lemma total_clock_now `{!Env} : total clock_now.
Proof. done. Qed.
Lemma total_run_links {A} (f : nat -> LinkSet -> option (LinkSet * result A)) n : total (run_links f n).
Proof. intros w. unfold run_links. by destruct (f _ _) as [[ls r]|]. Qed.
Lemma total_links_write `{!Env} id t p : total (links_write id t p).
Proof. apply total_run_links. Qed.
Lemma total_links_write_all `{!Env} k t p : total (links_write_all k t p).
Proof. intros w. apply total_run_links. Qed.
Lemma total_links_write_via `{!Env} id t p : total (links_write_via id t p).
Proof. apply total_run_links. Qed.

#[export] Hint Resolve total_ret total_asks total_asks_links total_modify total_modify_tree total_throw total_lift
  total_panic total_attempt total_when total_for_each total_tick total_clock_now total_links_write total_links_write_all
  total_links_write_via : total.

(** Operations are binds, matches and primitives: follow the syntax. *)
Ltac walk_match :=
  match goal with
  | |- context [match ?x with _ => _ end] => destruct x eqn:?
  | |- context [if ?x then _ else _] => destruct x eqn:?
  end.

Ltac total_step :=
  first
    [ solve [eauto with total]
    | apply total_bind; [|intros ?]
    | apply total_attempt | apply total_when | apply total_for_each; intros ?
    | walk_match ].
Ltac total_tac := repeat total_step.

Section env_total.
Context `{!Env}.

Lemma total_write_via id t p : total (write_via id t p).
Proof. unfold write_via. total_tac. Qed.
Lemma total_next_init_seq : total next_init_seq.
Proof. unfold next_init_seq, unix_now. total_tac. Qed.
Lemma total_forget_link id : total (forget_link id).
Proof. unfold forget_link. total_tac. Qed.
Lemma total_instant_now : total instant_now.
Proof. done. Qed.
Lemma total_unix_now : total unix_now.
Proof. done. Qed.
Lemma total_rand_bytes : total rand_bytes.
Proof. done. Qed.
Lemma total_rand_u64 : total rand_u64.
Proof. done. Qed.
End env_total.

#[export] Hint Resolve total_write_via total_next_init_seq total_forget_link total_instant_now total_unix_now
  total_rand_bytes total_rand_u64 : total.

(** ** Invariants with a result *)

(** [m] keeps [I] and what it returns satisfies [P]. *)
Definition yields (I : Router -> Prop) {A} (m : M A) (P : A -> Prop) : Prop :=
  forall w, I (w_router w) -> wp m (fun r w' => I (w_router w') /\ forall a, r = Ok a -> P a) w.

Lemma yields_ret {A} I (a : A) (P : A -> Prop) : P a -> yields I (mret a) P.
Proof. intros Ha w Hw. split; [exact Hw|]. by intros b [= <-]. Qed.

Lemma yields_keeps {A} I (m : M A) : keeps I m -> yields I m (fun _ => True).
Proof. intros Hm w Hw. specialize (Hm w Hw). unfold wp in *. by destruct (m w). Qed.

Lemma yields_bind {A B} I (m : M A) (k : A -> M B) (P : A -> Prop) (Q : B -> Prop) :
  yields I m P -> (forall a, P a -> yields I (k a) Q) -> yields I (m ≫= k) Q.
Proof.
  intros Hm Hk w Hw. specialize (Hm w Hw). unfold wp, mbind, M_bind in *.
  destruct (m w) as [w' [a|e]| |]; try done; destruct Hm as [Hi Ha]; [by apply Hk; [apply Ha|]|by split].
Qed.

Lemma keeps_bind_post {A B} I (m : M A) (k : A -> M B) (P : A -> Prop) :
  yields I m P -> (forall a, P a -> keeps I (k a)) -> keeps I (m ≫= k).
Proof.
  intros Hm Hk w Hw. specialize (Hm w Hw). unfold wp, mbind, M_bind in *.
  destruct (m w) as [w' [a|e]| |]; try done; destruct Hm as [Hi Ha]; [by apply Hk; [apply Ha|]|done].
Qed.

(** ** Totality from a set of routers *)

Definition total_in (P : Router -> Prop) {A} (m : M A) : Prop := forall w, P (w_router w) -> m w <> OutOfFuel.

Lemma total_in_all {A} P (m : M A) : total m -> total_in P m.
Proof. intros Hm w _. apply Hm. Qed.

Lemma total_of_in {A} (m : M A) : total_in (fun _ => True) m -> total m.
Proof. intros Hm w. by apply Hm. Qed.

Lemma total_in_bind {A B} (P : Router -> Prop) (m : M A) (k : A -> M B) :
  total_in P m -> keeps P m -> (forall a, total_in P (k a)) -> total_in P (m ≫= k).
Proof.
  intros Hm Hp Hk w Hw. specialize (Hm w Hw). specialize (Hp w Hw). unfold wp, mbind, M_bind in *.
  destruct (m w) as [w' [a|e]| |]; try done. by apply Hk.
Qed.

(** The continuation may rely on what the first part established. *)
Lemma total_in_bind_wp {A B} (P : Router -> Prop) (Q : A -> Router -> Prop) (m : M A) (k : A -> M B) :
  total_in P m -> (forall w, P (w_router w) -> wp m (fun r w' => forall a, r = Ok a -> Q a (w_router w')) w) ->
  (forall a, total_in (Q a) (k a)) -> total_in P (m ≫= k).
Proof.
  intros Hm Hq Hk w Hw. specialize (Hm w Hw). specialize (Hq w Hw). unfold wp, mbind, M_bind in *.
  destruct (m w) as [w' [a|e]| |]; try done. apply Hk. by apply Hq.
Qed.

Lemma total_in_bind_last {A B} (P : Router -> Prop) (m : M A) (k : A -> M B) :
  total_in P m -> (forall a, total (k a)) -> total_in P (m ≫= k).
Proof.
  intros Hm Hk. apply (total_in_bind_wp P (fun _ _ => True)); [done| |intros a w _; apply Hk].
  intros w _. unfold wp. by destruct (m w).
Qed.

Lemma total_in_attempt {A} P (m : M A) : total_in P m -> total_in P (attempt m).
Proof. intros Hm w Hw. specialize (Hm w Hw). unfold attempt. by destruct (m w). Qed.

Lemma total_in_ret {A} P (a : A) : total_in P (mret a).
Proof. done. Qed.

Ltac keeps_step :=
  first
    [ solve [eauto with keeps]
    | apply keeps_asks; intros ? ?
    | apply keeps_bind; [|intros ?]
    | apply keeps_attempt | apply keeps_when | apply keeps_for_each; intros ?
    | apply keeps_modify; intros ? ? | apply keeps_modify_tree; intros ? ?
    | walk_match ].
Ltac keeps_tac := repeat keeps_step.

Ltac total_in_step :=
  first
    [ solve [eauto with total]
    | solve [apply total_in_all; eauto with total]
    | apply total_in_bind; [|solve [keeps_tac]|intros ?]
    | apply total_in_attempt
    | walk_match ].
Ltac total_in_tac := repeat total_in_step.

(** ** More fuel *)

(** [m'] does what [m] does, or [m] ran out of fuel. *)
Definition extends {A} (m m' : M A) : Prop := forall w, m w = OutOfFuel \/ m' w = m w.

Create HintDb extends discriminated.

Lemma extends_refl {A} (m : M A) : extends m m.
Proof. intros w. by right. Qed.

Lemma extends_bind {A B} (m m' : M A) (k k' : A -> M B) :
  extends m m' -> (forall a, extends (k a) (k' a)) -> extends (m ≫= k) (m' ≫= k').
Proof.
  intros Hm Hk w. unfold mbind, M_bind. destruct (Hm w) as [->| ->]; [by left|].
  destruct (m w) as [w' [a|e]| |]; try (by right). apply Hk.
Qed.

Lemma extends_attempt {A} (m m' : M A) : extends m m' -> extends (attempt m) (attempt m').
Proof. intros Hm w. unfold attempt. destruct (Hm w) as [->| ->]; [by left|by right]. Qed.

#[export] Hint Resolve extends_refl extends_attempt : extends.

Ltac extends_step :=
  first [ solve [eauto with extends] | apply extends_bind; [|intros ?] | apply extends_attempt | walk_match ].
Ltac extends_tac := repeat extends_step.
