(* ===== verification/Demo.v ===== *)
(** * Demo: concrete nodes on which the properties are evaluated.

    A node with key [2..] that is a child, on port 5, of the root with key
    [1..], over link 7; its clock advances by a second per reading. *)
From stdpp Require Import base tactics list numbers gmap.
From S2P Require Import Prelude Errors Clock Frame Address Table Bloom Wire Handshake LinkSet Router.

Local Open Scope Z_scope.

Definition demo_key (x : Z) : bytes := replicate 32 x.

Definition demo_env : Env := {|
  clock_at n := from_secs (Z.of_nat n); unix_at n := 1000 + Z.of_nat n; rand_at n := replicate 32 (Z.of_nat n) |}.

Definition demo_stream : LinkStream := mkStream [] None [] [].

Definition demo_conn (peer : bytes) (id : LinkId) : AnyConn :=
  mkAnyConn peer 0 Go false id None demo_stream.

(** The root announces itself with port 0; a child is on its parent's port. *)
Definition demo_res (node parent_seed : bytes) (seq port : Z) : SigRes :=
  @SigRes_seal toy_ed25519 (mkSigReq seq 9) port node parent_seed parent_seed.

Definition demo_info (seed parent_seed : bytes) (seq port : Z) : Info :=
  let res := demo_res seed parent_seed seq port in
  mkInfo parent_seed res (@ed_sign toy_ed25519 seed (SigRes_bytes_for_sig res seed parent_seed)).

Definition demo_infos : gmap bytes Info :=
  <[demo_key 2 := demo_info (demo_key 2) (demo_key 1) 3 5]> {[demo_key 1 := demo_info (demo_key 1) (demo_key 1) 2 0]}.

Definition demo_link_state : LinkState :=
  mkLinkState (demo_key 1) true (from_secs 1) None 0 0 Go None.

Definition demo_tree : TreeState :=
  set_infos (fun _ => demo_infos) (set_links <[7 := demo_link_state]> (set_sent <[demo_key 1 := ∅]> TreeState_default)).

Definition demo_router : Router :=
  set_tree (fun _ => demo_tree) (@with_clock toy_ed25519 (demo_key 2) (mkStdClock 0)).

Definition demo_links : LinkSet := LinkSet_single 0 (demo_conn (demo_key 1) 7).

Definition demo_world : World := mkWorld demo_router demo_links 0.
