(* ===== verification/Tree.v ===== *)
(** * Tree: the spanning-tree protocol (the [impl Router] of [src/tree.rs]).

    Requests and their answers, the precedence of announces, expiry, the choice
    of a parent and the announcing of ancestries. The walks up the tree are
    loops whose visited set is part of the known infos, so the number of infos
    bounds them. *)
From stdpp Require Import base tactics list numbers gmap sorting.
From S2P Require Import Prelude Errors Clock Frame Address Table Bloom Wire Handshake LinkSet Router Hoare Demo.

Local Open Scope Z_scope.

(** Keys of a map in the order [sort()] gives them. *)
Definition sorted_keys {V} (m : gmap bytes V) : list bytes := sort_keys (map_to_list m).*1.

(** [*map.entry(k).or_default()] for a map of sets, then an update of the set. *)
Definition alter_sent (k : bytes) (f : gset bytes -> gset bytes) (m : gmap bytes (gset bytes))
  : gmap bytes (gset bytes) := <[k := f (unwrap_or (m !! k) ∅)]> m.

(** ** Pure parts *)

(** [(fresh.seq, Reverse(fresh.parent), Reverse(fresh.nonce)) <= known]. *)
Definition not_newer (seq : Z) (parent : bytes) (nonce : Z) (known : Info) : bool :=
  let kseq := req_seq (res_req (i_res known)) in
  let knonce := req_nonce (res_req (i_res known)) in
  if seq <? kseq then true else if kseq <? seq then false
  else if lex_ltb (i_parent known) parent then true
  else if lex_ltb parent (i_parent known) then false
  else knonce <=? nonce.

Definition link_cost (t : TreeState) (id : LinkId) : Z :=
  let ms := match t_links t !! id with Some l => wrap64 (as_millis (l_lag l)) | None => 0 end in
  Z.max ms 1.

Definition cost (t : TreeState) (ls : LinkSet) (peer_key : bytes) : Z :=
  fold_left Z.min (link_cost t <$> links_to ls peer_key) U64_MAX.

(** The loop of [root_and_dists]: it stops at a node it has seen, or at one
    without an info. *)
Fixpoint root_loop (fuel : nat) (infos : gmap bytes Info) (dists : gmap bytes Z)
  (next root : bytes) (dist : Z) : bytes * gmap bytes Z :=
  match fuel with
  | O => (root, dists)
  | S fuel' =>
    match dists !! next with
    | Some _ => (root, dists)
    | None =>
      match infos !! next with
      | Some info => root_loop fuel' infos (<[next := dist]> dists) (i_parent info) next (dist + 1)
      | None => (root, dists)
      end
    end
  end.

Definition root_and_dists (infos : gmap bytes Info) (dest : bytes) : bytes * gmap bytes Z :=
  root_loop (S (size infos)) infos ∅ dest dest 0.

Fixpoint ancestry_loop (fuel : nat) (infos : gmap bytes Info) (anc : list bytes) (here : bytes) : list bytes :=
  match fuel with
  | O => anc
  | S fuel' =>
    match infos !! here with
    | Some info =>
      if decide (i_parent info ∈ anc) then anc
      else ancestry_loop fuel' infos (anc ++ [i_parent info]) (i_parent info)
    | None => removelast anc
    end
  end.

Definition ancestry (infos : gmap bytes Info) (key : bytes) : list bytes :=
  rev (ancestry_loop (S (size infos)) infos [key] key).

(** The variables of the scan in [fix]. *)
Record best : Type := mkBest { best_root : bytes; best_parent : bytes; best_cost : Z }.

(** The start of the scan: the current parent, if it has a live link and leads
    to a root better than ourselves. *)
Definition fix_start (t : TreeState) (ls : LinkSet) (pubkey : bytes) : best :=
  let start := mkBest pubkey pubkey U64_MAX in
  match t_infos t !! pubkey with
  | Some info =>
    if has_peer ls (i_parent info) then
      let '(root, dists) := root_and_dists (t_infos t) pubkey in
      if lex_ltb root pubkey then
        match dists !! root with
        | Some d => mkBest root (i_parent info) (saturating_mul d (cost t ls (i_parent info)))
        | None => start
        end
      else start
    else start
  | None => start
  end.

(** One candidate of the scan. *)
Definition fix_candidate (t : TreeState) (ls : LinkSet) (pubkey : bytes) (b : best) (pk : bytes) : best :=
  match t_infos t !! pk with
  | None => b
  | Some _ =>
    let '(p_root, p_dists) := root_and_dists (t_infos t) pk in
    match p_dists !! pubkey with
    | Some _ => b
    | None =>
      let c := saturating_mul (unwrap_or (p_dists !! p_root) U64_MAX) (cost t ls pk) in
      let cur_parent := i_parent <$> t_infos t !! pubkey in
      let better (b : best) :=
        if (t_refresh t && (saturating_mul c 2 <? best_cost b))
           || (negb (bool_decide (Some (best_parent b) = cur_parent)) && (c <? best_cost b))
        then mkBest p_root pk c else b in
      if lex_ltb p_root (best_root b) then better (mkBest p_root pk c)
      else if negb (bool_decide (p_root = best_root b)) then b
      else better b
    end
  end.

Definition choose_parent (t : TreeState) (ls : LinkSet) (pubkey : bytes) : best :=
  fold_left (fix_candidate t ls pubkey) (sorted_keys (t_responses t)) (fix_start t ls pubkey).

(** ** Operations *)

Section tree.
Context `{!Ed25519} `{!Env}.

Definition new_req : M SigReq :=
  seq ← asks (fun r => match t_infos (r_tree r) !! r_pubkey r with
                       | Some i => wrapping_add (req_seq (res_req (i_res i))) 1
                       | None => 1
                       end);
  nonce ← rand_u64;
  mret (mkSigReq seq nonce).

(** [if let Some(l) = self.tree.links.get_mut(id) { .. }] for every id. *)
Definition alter_links (ids : list LinkId) (f : LinkState -> LinkState) : M () :=
  modify_tree (set_links (fun m => fold_left (fun m id => alter f id m) ids m)).

Definition send_req (peer_key : bytes) : M () :=
  req ← new_req;
  _ ← modify_tree (set_peers (alter (fun p => mkPeerState (p_port p) req) peer_key));
  targets ← asks_links (fun ls => links_to ls peer_key);
  _ ← alter_links targets (set_l_responded false);
  let out := SigReq_encode req [] in
  sent ← attempt (links_write_all peer_key TSigReq out);
  _ ← match sent with
      | Ok _ => now ← clock_now; alter_links targets (set_l_sent_at (Some now))
      | Err _ => mret ()
      end;
  lift sent.

Definition handle_request (conn : LinkId) (peer_key : bytes) (req : SigReq) : M () :=
  r ← asks id;
  let port := unwrap_or (p_port <$> t_peers (r_tree r) !! peer_key) 0 in
  let res := SigRes_seal req port peer_key (r_key r) (r_pubkey r) in
  links_write conn TSigRes (SigRes_encode res []).

Definition handle_response (conn : LinkId) (peer_key : bytes) (res : SigRes) : M () :=
  r ← asks id;
  if negb (SigRes_check res (r_pubkey r) peer_key) then mret ()
  else
    rtt ← match t_links (r_tree r) !! conn ≫= l_sent_at with
          | Some t => now ← clock_now; mret (Some (duration_since now t))
          | None => mret None
          end;
    _ ← match t_links (r_tree r) !! conn with
        | Some _ => now ← clock_now; modify_tree (set_links (alter (set_l_srrt (Some now)) conn))
        | None => mret ()
        end;
    let matches := match t_peers (r_tree r) !! peer_key with
                   | Some p => bool_decide (p_req p = res_req res)
                   | None => false
                   end in
    if negb matches then mret ()
    else
      _ ← modify_tree (set_responses (fun m => match m !! peer_key with Some _ => m | None => <[peer_key := res]> m end));
      match rtt with
      | None => mret ()
      | Some rtt =>
        modify_tree (set_links (alter (fun l =>
          if l_responded l then l
          else
            let lag := if l_lag l =? UNKNOWN_LATENCY then rtt * 2
                       else l_lag l * 7 / 8 + Z.min rtt (l_lag l * 2) / 8 in
            set_l_lag lag (set_l_responded true l)) conn))
      end.

Definition update (ann : Announce) : M bool :=
  r ← asks id;
  let stale := match t_infos (r_tree r) !! ann_key ann with
               | Some info => not_newer (req_seq (res_req (ann_res ann))) (ann_parent ann)
                                (req_nonce (res_req (ann_res ann))) info
               | None => false
               end in
  if stale then mret false
  else
    _ ← modify_tree (set_sent (fun m => (fun s => s ∖ {[ann_key ann]}) <$> m));
    let deadline := if decide (ann_key ann = r_pubkey r) then TREE_REFRESH else TREE_TIMEOUT in
    now ← instant_now;
    _ ← modify_tree (set_deadlines <[ann_key ann := now + deadline]>);
    _ ← modify_tree (set_infos <[ann_key ann := mkInfo (ann_parent ann) (ann_res ann) (ann_sig ann)]>);
    mret true.

Definition expire : M () :=
  now ← instant_now;
  t ← asks r_tree;
  let dead := (map_to_list (filter (fun '(_, d) => d <= now) (t_deadlines t))).*1 in
  _ ← for_each_m dead (fun k =>
        modify_tree (fun t => set_sent (fun m => (fun s => s ∖ {[k]}) <$> m)
                              (set_infos (delete k) (set_deadlines (delete k) t))));
  match t_self_refresh_at t with
  | Some at_ =>
    when (at_ <=? now)
      (modify_tree (fun t => set_self_refresh (Some (now + TREE_REFRESH))
                             (set_flags true (t_do_root1 t) (t_do_root2 t) t)))
  | None => mret ()
  end.

Definition use_response (peer_key : bytes) (res : SigRes) : M bool :=
  r ← asks id;
  let bs := SigRes_bytes_for_sig res (r_pubkey r) peer_key in
  let info := mkInfo peer_key res (ed_sign (r_key r) bs) in
  let ann := Info_announce info (r_pubkey r) in
  if Announce_check ann then update ann else mret false.

Definition become_root : M () :=
  req ← new_req;
  r ← asks id;
  let res := SigRes_seal req 0 (r_pubkey r) (r_key r) (r_pubkey r) in
  let ann := mkAnnounce (r_pubkey r) (r_pubkey r) res (res_psig res) in
  _ ← update ann;
  now ← instant_now;
  modify_tree (set_self_refresh (Some (now + TREE_REFRESH))).

Definition send_all_reqs : M () :=
  _ ← modify_tree (set_responses (fun _ => ∅));
  keys ← asks_links (fun ls => sort_keys (link_peers ls));
  for_each_m keys send_req.

(** The end of [fix]: what to do with the parent the scan chose. *)
Definition fix_apply (b : best) : M () :=
  r ← asks id;
  let t := r_tree r in
  let cur_parent := i_parent <$> t_infos t !! r_pubkey r in
  if t_refresh t || t_do_root1 t || t_do_root2 t || negb (bool_decide (cur_parent = Some (best_parent b))) then
    used ← (if negb (bool_decide (best_root b = r_pubkey r)) then
              match t_responses t !! best_parent b with
              | Some res => use_response (best_parent b) res
              | None => mret false
              end
            else mret false);
    if used : bool then
      _ ← modify_tree (set_flags false false false);
      send_all_reqs
    else if t_do_root2 t then
      _ ← become_root;
      _ ← modify_tree (set_flags false false false);
      send_all_reqs
    else if negb (t_do_root1 t) then modify_tree (fun t => set_flags (t_refresh t) true (t_do_root2 t) t)
    else mret ()
  else mret ().

Definition fix_parent : M () :=
  r ← asks id;
  ls ← asks_links id;
  fix_apply (choose_parent (r_tree r) ls (r_pubkey r)).

(** The keys of an ancestry not yet sent to a peer, marked as sent. *)
Definition mark_unsent (anc : list bytes) (sent : gset bytes) : gset bytes * list bytes :=
  fold_left (fun '(sent, to_send) k =>
    if decide (k ∈ sent) then (sent, to_send) else ({[k]} ∪ sent, to_send ++ [k])) anc (sent, []).

Definition send_announces : M () :=
  r ← asks id;
  let self_anc := ancestry (t_infos (r_tree r)) (r_pubkey r) in
  for_each_m (sorted_keys (t_sent (r_tree r))) (fun peer_key =>
    t ← asks r_tree;
    let peer_anc := ancestry (t_infos t) peer_key in
    let '(sent, to_send) := mark_unsent (self_anc ++ peer_anc) (unwrap_or (t_sent t !! peer_key) ∅) in
    _ ← modify_tree (set_sent <[peer_key := sent]>);
    for_each_m to_send (fun k =>
      t ← asks r_tree;
      match t_infos t !! k with
      | None => mret ()
      | Some info =>
        live ← asks_links (fun ls => has_peer ls peer_key);
        if live : bool then
          _ ← links_write_all peer_key TAnnounce (Announce_encode (Info_announce info k) []);
          modify_tree count_sent
        else mret ()
      end)).

Definition handle_announce (from : bytes) (ann : Announce) : M (option Announce) :=
  _ ← modify_tree count_recv;
  adopted ← update ann;
  r ← asks id;
  if adopted : bool then
    _ ← when (bool_decide (ann_key ann = r_pubkey r))
          (modify_tree (fun t => set_flags true (t_do_root1 t) (t_do_root2 t) t));
    _ ← modify_tree (set_sent (alter_sent from (fun s => {[ann_key ann]} ∪ s)));
    mret None
  else
    _ ← modify_tree (set_sent (alter_sent from (fun s => {[ann_key ann]} ∪ s)));
    mret (match t_infos (r_tree r) !! ann_key ann with
          | Some info =>
            if decide (info = mkInfo (ann_parent ann) (ann_res ann) (ann_sig ann)) then None
            else Some (Info_announce info (ann_key ann))
          | None => None
          end).
End tree.

(** ** Totality *)

Section tree_total.
Context `{!Ed25519} `{!Env}.

Lemma total_new_req : total new_req.
Proof. unfold new_req. total_tac. Qed.
#[local] Hint Resolve total_new_req : total.

Lemma total_alter_links ids f : total (alter_links ids f).
Proof. apply total_modify_tree. Qed.
#[local] Hint Resolve total_alter_links : total.

Lemma total_send_req k : total (send_req k).
Proof. unfold send_req. total_tac. Qed.
#[local] Hint Resolve total_send_req : total.

Lemma total_handle_request c k q : total (handle_request c k q).
Proof. unfold handle_request. total_tac. Qed.

Lemma total_handle_response c k s : total (handle_response c k s).
Proof. unfold handle_response. total_tac. Qed.

Lemma total_update a : total (update a).
Proof. unfold update. total_tac. Qed.
#[local] Hint Resolve total_update : total.

Lemma total_expire : total expire.
Proof. unfold expire. total_tac. Qed.

Lemma total_use_response k s : total (use_response k s).
Proof. unfold use_response. total_tac. Qed.
#[local] Hint Resolve total_use_response : total.

Lemma total_become_root : total become_root.
Proof. unfold become_root. total_tac. Qed.
#[local] Hint Resolve total_become_root : total.

Lemma total_send_all_reqs : total send_all_reqs.
Proof. unfold send_all_reqs. total_tac. Qed.
#[local] Hint Resolve total_send_all_reqs : total.

Lemma total_fix_parent : total fix_parent.
Proof. unfold fix_parent, fix_apply. total_tac. Qed.

Lemma total_send_announces : total send_announces.
Proof. unfold send_announces. total_tac. Qed.

Lemma total_handle_announce k a : total (handle_announce k a).
Proof. unfold handle_announce. total_tac. Qed.
End tree_total.

#[export] Hint Resolve total_new_req total_handle_request total_handle_response total_expire total_fix_parent
  total_send_announces total_handle_announce : total.

(** ** The precedence of announces *)

(** The place of an info in the order: sequence number, parent, nonce. *)
Definition prec (i : Info) : Z * bytes * Z :=
  (req_seq (res_req (i_res i)), i_parent i, req_nonce (res_req (i_res i))).

(** Later sequence numbers first, then the lower parent, then the lower nonce. *)
Definition prec_le (a b : Z * bytes * Z) : Prop :=
  a.1.1 < b.1.1 \/ (a.1.1 = b.1.1 /\ (lex_lt b.1.2 a.1.2 \/ (a.1.2 = b.1.2 /\ b.2 <= a.2))).

Lemma prec_le_antisym a b : prec_le a b -> prec_le b a -> a = b.
Proof.
  destruct a as [[s p] n], b as [[s' p'] n']. unfold prec_le. cbn.
  intros [?|(? & [?|(? & ?)])] [?|(? & [?|(? & ?)])]; subst; try lia;
    try (exfalso; eapply lex_lt_irrefl; eauto using lex_lt_trans; fail).
  assert (n = n') as -> by lia. done.
Qed.

Lemma prec_le_total a b : prec_le a b \/ prec_le b a.
Proof.
  destruct a as [[s p] n], b as [[s' p'] n']. unfold prec_le. cbn.
  destruct (Z.lt_trichotomy s s') as [?|[?|?]]; [by left; left| |by right; left].
  destruct (lex_trichotomy p p') as [?|[?|?]]; [right; right; auto| |left; right; auto].
  destruct (Z.le_ge_cases n' n); [left|right]; right; auto.
Qed.

Lemma prec_le_trans a b c : prec_le a b -> prec_le b c -> prec_le a c.
Proof.
  destruct a as [[s p] n], b as [[s' p'] n'], c as [[s'' p''] n'']. unfold prec_le. cbn.
  intros [?|(? & [?|(? & ?)])] [?|(? & [?|(? & ?)])]; subst; try (left; lia); right; (split; [lia|]).
  - left. by eapply lex_lt_trans.
  - by left.
  - by left.
  - right. split; [done|lia].
Qed.

(** The test the code makes is this order. *)
Lemma not_newer_prec i j : not_newer (req_seq (res_req (i_res i))) (i_parent i) (req_nonce (res_req (i_res i))) j = true
  <-> prec_le (prec i) (prec j).
Proof.
  unfold not_newer, prec_le, prec. cbn.
  destruct (Z.ltb_spec (req_seq (res_req (i_res i))) (req_seq (res_req (i_res j)))); [split; [by left|done]|].
  destruct (Z.ltb_spec (req_seq (res_req (i_res j))) (req_seq (res_req (i_res i)))); [split; [done|lia]|].
  assert (req_seq (res_req (i_res i)) = req_seq (res_req (i_res j))) as -> by lia.
  destruct (lex_ltb (i_parent j) (i_parent i)) eqn:E1; [apply lex_ltb_lt in E1; split; [right; auto|done]|].
  destruct (lex_ltb (i_parent i) (i_parent j)) eqn:E2.
  { apply lex_ltb_lt in E2. split; [done|]. intros [?|(_ & [?|(Ep & _)])]; [lia| |].
    - exfalso. eapply lex_lt_irrefl, lex_lt_trans; eauto.
    - rewrite Ep in E2. by apply lex_lt_irrefl in E2. }
  assert (i_parent i = i_parent j) as ->.
  { destruct (lex_trichotomy (i_parent i) (i_parent j)) as [Hl|[?|Hl]]; [|done|]; apply lex_ltb_lt in Hl; congruence. }
  rewrite Z.leb_le. split; [right; auto|]. intros [?|(_ & [?|(_ & ?)])]; [lia| |done].
  exfalso. by eapply lex_lt_irrefl.
Qed.

Definition ann_info (a : Announce) : Info := mkInfo (ann_parent a) (ann_res a) (ann_sig a).

(** The table after an announce: kept unless the announce is newer. *)
Definition adopt (a : Announce) (known : option Info) : option Info :=
  match known with
  | Some i => if not_newer (req_seq (res_req (ann_res a))) (ann_parent a) (req_nonce (res_req (ann_res a))) i
              then Some i else Some (ann_info a)
  | None => Some (ann_info a)
  end.

Section precedence.
Context `{!Env}.

Definition stale (a : Announce) (known : option Info) : bool :=
  match known with
  | Some i => not_newer (req_seq (res_req (ann_res a))) (ann_parent a) (req_nonce (res_req (ann_res a))) i
  | None => false
  end.

Lemma adopt_stale a o : adopt a o = if stale a o then o else Some (ann_info a).
Proof. by destruct o as [i|]; cbn; [destruct (not_newer _ _ _ i)|]. Qed.

(** What [update] does to the infos, and what it answers. *)
Lemma update_spec a w : exists w',
  update a w = Done w' (Ok (negb (stale a (t_infos (r_tree (w_router w)) !! ann_key a)))) /\
  t_infos (r_tree (w_router w')) = partial_alter (adopt a) (ann_key a) (t_infos (r_tree (w_router w))).
Proof.
  set (infos := t_infos (r_tree (w_router w))).
  change (update a w) with (((if stale a (infos !! ann_key a) then mret false
    else _ ← modify_tree (set_sent (fun m => (fun s => s ∖ {[ann_key a]}) <$> m));
         now ← instant_now;
         _ ← modify_tree (set_deadlines <[ann_key a := now + (if decide (ann_key a = r_pubkey (w_router w)) then TREE_REFRESH else TREE_TIMEOUT)]>);
         _ ← modify_tree (set_infos <[ann_key a := ann_info a]>); mret true) : M bool) w).
  destruct (stale a (infos !! ann_key a)) eqn:Es.
  - exists w. split; [done|]. fold infos. apply map_eq. intros k. destruct (decide (k = ann_key a)) as [->|Hne].
    + by rewrite lookup_partial_alter_eq, adopt_stale, Es.
    + by rewrite lookup_partial_alter_ne.
  - eexists. split; [done|]. change (<[ann_key a := ann_info a]> infos = partial_alter (adopt a) (ann_key a) infos).
    apply map_eq. intros k. destruct (decide (k = ann_key a)) as [->|Hne].
    + by rewrite lookup_insert_eq, lookup_partial_alter_eq, adopt_stale, Es.
    + by rewrite lookup_insert_ne, lookup_partial_alter_ne.
Qed.

(** ** Any order of updates *)

Fixpoint run_updates (anns : list Announce) (w : World) : option World :=
  match anns with
  | [] => Some w
  | a :: anns => match update a w with Done w' (Ok _) => run_updates anns w' | _ => None end
  end.

(** The best of what was known and what was announced for a key. *)
Definition is_best (known : option Info) (anns : list Announce) (k : bytes) (best : option Info) : Prop :=
  let all := option_list known ++ (ann_info <$> filter (fun a => ann_key a = k) anns) in
  match best with
  | Some i => i ∈ all /\ forall j, j ∈ all -> prec_le (prec j) (prec i)
  | None => all = []
  end.

Lemma prec_le_refl a : prec_le a a.
Proof. destruct (prec_le_total a a); done. Qed.

Lemma adopt_is_best a known : is_best known [a] (ann_key a) (adopt a known).
Proof.
  unfold is_best. rewrite filter_cons, decide_True, filter_nil by done. destruct known as [i|]; cbn.
  - destruct (not_newer _ _ _ i) eqn:E.
    + apply (not_newer_prec (ann_info a) i) in E. split; [left|]. intros j [->|[->|?%elem_of_nil]%elem_of_cons]%elem_of_cons;
        [apply prec_le_refl|exact E|done].
    + split; [right; left|]. intros j [->|[->|?%elem_of_nil]%elem_of_cons]%elem_of_cons; [|apply prec_le_refl|done].
      destruct (prec_le_total (prec i) (prec (ann_info a))) as [|Hle]; [done|].
      apply (not_newer_prec (ann_info a) i) in Hle. cbn in Hle. congruence.
  - split; [left|]. intros j Hj. apply list_elem_of_singleton in Hj as ->. apply prec_le_refl.
Qed.

Lemma is_best_step a anns known k best : 
  is_best (if decide (k = ann_key a) then adopt a known else known) anns k best -> is_best known (a :: anns) k best.
Proof.
  destruct (decide (k = ann_key a)) as [->|Hne].
  - pose proof (adopt_is_best a known) as Ha. unfold is_best in *. rewrite !filter_cons, decide_True in * by done.
    rewrite filter_nil in Ha. cbn [fmap list_fmap] in *.
    destruct (adopt a known) as [m|] eqn:Em; [|by rewrite adopt_stale in Em; destruct (stale a known) eqn:Es; [destruct known|]].
    destruct Ha as [Hin Hle]. destruct best as [i|]; [|done]. intros [Hi Hall].
    assert (forall j, j ∈ option_list known ++ [ann_info a] -> prec_le (prec j) (prec i)) as Hold.
    { intros j Hj. eapply prec_le_trans; [by apply Hle|]. apply Hall. left. }
    split.
    + cbn in Hi. apply elem_of_cons in Hi as [->|Hi].
      * apply elem_of_app in Hin as [?|Hin]; apply elem_of_app; [by left|right]. apply list_elem_of_singleton in Hin as ->. left.
      * apply elem_of_app. right. by right.
    + intros j [Hj|[->|Hj]%elem_of_cons]%elem_of_app.
      * apply Hold. apply elem_of_app. by left.
      * apply Hold. apply elem_of_app. right. by apply list_elem_of_singleton.
      * apply Hall. by right.
  - unfold is_best. rewrite filter_cons, decide_False by done. done.
Qed.

Lemma run_updates_spec anns : forall w, exists w', run_updates anns w = Some w' /\
  forall k, is_best (t_infos (r_tree (w_router w)) !! k) anns k (t_infos (r_tree (w_router w')) !! k).
Proof.
  induction anns as [|a anns IH]; intros w; cbn [run_updates].
  - exists w. split; [done|]. intros k. unfold is_best. cbn. rewrite app_nil_r.
    destruct (t_infos (r_tree (w_router w)) !! k); [|done]. cbn. split; [left|].
    intros j Hj. apply list_elem_of_singleton in Hj as ->. apply prec_le_refl.
  - destruct (update_spec a w) as (w1 & -> & E). destruct (IH w1) as (w' & -> & Hb). exists w'. split; [done|].
    intros k. apply is_best_step. specialize (Hb k). rewrite E in Hb. destruct (decide (k = ann_key a)) as [->|Hne].
    + by rewrite lookup_partial_alter_eq in Hb.
    + by rewrite lookup_partial_alter_ne in Hb.
Qed.

Lemma is_best_perm known anns anns' k b b' : anns ≡ₚ anns' -> is_best known anns k b -> is_best known anns' k b' ->
  prec <$> b = prec <$> b'.
Proof.
  intros Hp. unfold is_best.
  assert (option_list known ++ (ann_info <$> filter (fun a => ann_key a = k) anns) ≡ₚ
          option_list known ++ (ann_info <$> filter (fun a => ann_key a = k) anns')) as HP by (by rewrite Hp).
  destruct b as [i|], b' as [j|]; cbn [fmap option_fmap option_map].
  - intros [Hi Hi'] [Hj Hj']. f_equal. apply prec_le_antisym; [apply Hj'|apply Hi']; by rewrite ?HP || rewrite <-?HP.
  - intros [Hi _] E. rewrite HP, E in Hi. by apply elem_of_nil in Hi.
  - intros E [Hj _]. rewrite <-HP, E in Hj. by apply elem_of_nil in Hj.
  - done.
Qed.
End precedence.

(** ** The choice of a parent *)

(** [pk] can be a parent: it is known and does not hang below us. *)
Definition eligible (t : TreeState) (me pk : bytes) : Prop :=
  is_Some (t_infos t !! pk) /\ (root_and_dists (t_infos t) pk).2 !! me = None.

Definition root_of (t : TreeState) (pk : bytes) : bytes := (root_and_dists (t_infos t) pk).1.

(** [b] is the scan's best after [b0] and the candidates [ks]. *)
Definition scanned (t : TreeState) (me : bytes) (b0 : best) (ks : list bytes) (b : best) : Prop :=
  (b = b0 \/ (best_parent b ∈ ks /\ eligible t me (best_parent b) /\ best_root b = root_of t (best_parent b))) /\
  lex_le (best_root b) (best_root b0) /\
  (forall pk, pk ∈ ks -> eligible t me pk -> lex_le (best_root b) (root_of t pk)).

Lemma lex_le_refl a : lex_le a a.
Proof. apply lex_leb_refl. Qed.

Lemma not_lt_le a b : lex_ltb a b = false -> lex_le b a.
Proof.
  intros E. destruct (lex_trichotomy a b) as [Hl|[->|Hl]]; [|apply lex_le_refl|by apply lex_lt_le].
  apply lex_ltb_lt in Hl. congruence.
Qed.

Lemma fix_candidate_cases t ls me b pk :
  fix_candidate t ls me b pk = b /\ (eligible t me pk -> lex_le (best_root b) (root_of t pk)) \/
  eligible t me pk /\ lex_le (root_of t pk) (best_root b) /\
    best_parent (fix_candidate t ls me b pk) = pk /\ best_root (fix_candidate t ls me b pk) = root_of t pk.
Proof.
  unfold fix_candidate, eligible, root_of. destruct (t_infos t !! pk) as [i|]; [|left; split; [done|by intros [[? ?] _]]].
  destruct (root_and_dists (t_infos t) pk) as [root dists]. cbn [fst snd].
  destruct (dists !! me); [left; split; [done|by intros [_ ?]]|].
  destruct (lex_ltb root (best_root b)) eqn:El.
  - right. split; [by split|]. split; [by apply lex_lt_le, lex_ltb_lt|]. by destruct (_ || _).
  - destruct (bool_decide_reflect (root = best_root b)) as [->|]; cbn [negb]; [|left; split; [done|by intros _; apply not_lt_le]].
    destruct (_ || _); [right|left].
    + split; [by split|]. split; [apply lex_le_refl|done].
    + split; [done|]. intros _. apply lex_le_refl.
Qed.

Lemma lex_le_trans a b c : lex_le a b -> lex_le b c -> lex_le a c.
Proof. apply lex_leb_trans. Qed.

Lemma scanned_nil t me b : scanned t me b [] b.
Proof. split; [by left|]. split; [apply lex_le_refl|]. intros pk Hpk. by apply elem_of_nil in Hpk. Qed.

Lemma scanned_snoc t ls me b0 ks b pk : scanned t me b0 ks b -> scanned t me b0 (ks ++ [pk]) (fix_candidate t ls me b pk).
Proof.
  intros (Hor & Hle & Hall). destruct (fix_candidate_cases t ls me b pk) as [[-> Hb]|(He & Hlt & Hp & Hr)].
  - split; [|split; [done|]].
    + destruct Hor as [->|(Hin & ?)]; [by left|right]. split; [|done]. apply elem_of_app. by left.
    + intros k Hk He. apply elem_of_app in Hk as [Hk|Hk]; [by apply Hall|]. apply list_elem_of_singleton in Hk as ->. auto.
  - unfold scanned. rewrite Hp, Hr. split; [|split].
    + right. split; [|done]. apply elem_of_app. right. by apply list_elem_of_singleton.
    + by eapply lex_le_trans.
    + intros k Hk Hek. apply elem_of_app in Hk as [Hk|Hk].
      * eapply lex_le_trans; [exact Hlt|by apply Hall].
      * apply list_elem_of_singleton in Hk as ->. apply lex_le_refl.
Qed.

Lemma scanned_fold t ls me ks b0 : scanned t me b0 ks (fold_left (fix_candidate t ls me) ks b0).
Proof.
  induction ks as [|pk ks IH] using rev_ind; [apply scanned_nil|]. rewrite fold_left_app. cbn. by apply scanned_snoc.
Qed.

Lemma sorted_keys_elem {V} (m : gmap bytes V) k : k ∈ sorted_keys m <-> is_Some (m !! k).
Proof.
  unfold sorted_keys. rewrite sort_keys_elem, list_elem_of_fmap. split.
  - intros ([k' v] & -> & Hk). apply elem_of_map_to_list in Hk. by exists v.
  - intros [v Hv]. exists (k, v). split; [done|]. by apply elem_of_map_to_list.
Qed.

(** The scan starts from ourselves or from a current parent with a better root. *)
Lemma fix_start_cases t ls me : let b := fix_start t ls me in
  (best_root b = me /\ best_parent b = me) \/
  (exists i, t_infos t !! me = Some i /\ best_parent b = i_parent i /\ has_peer ls (i_parent i) = true /\
     best_root b = root_of t me /\ lex_lt (best_root b) me).
Proof.
  unfold fix_start, root_of. destruct (t_infos t !! me) as [i|]; [|by left]. destruct (has_peer ls (i_parent i)) eqn:Hp; [|by left].
  destruct (root_and_dists (t_infos t) me) as [root dists]. destruct (lex_ltb root me) eqn:El; [|by left].
  destruct (dists !! root); [|by left]. right. exists i. split_and!; try done. by apply lex_ltb_lt.
Qed.

(** ** Properties *)

(** C6: the tree table converges. Announces received in any two orders leave
    for every node an announce of the same precedence, and it is the best of
    those received and of what was known: no announce that was received comes
    later in sequence, or with the same sequence has a lower parent, or with the
    same parent a lower nonce. *)
Theorem announces_converge `{!Env} (anns anns' : list Announce) (w : World) : anns ≡ₚ anns' ->
  exists w1 w2, run_updates anns w = Some w1 /\ run_updates anns' w = Some w2 /\
    forall k, is_best (t_infos (r_tree (w_router w)) !! k) anns k (t_infos (r_tree (w_router w1)) !! k) /\
      prec <$> t_infos (r_tree (w_router w1)) !! k = prec <$> t_infos (r_tree (w_router w2)) !! k.
Proof.
  intros Hp. destruct (run_updates_spec anns w) as (w1 & E1 & B1). destruct (run_updates_spec anns' w) as (w2 & E2 & B2).
  exists w1, w2. split; [done|]. split; [done|]. intros k. split; [done|]. by eapply is_best_perm.
Qed.

Definition demo_ann (seq nonce : Z) : Announce :=
  mkAnnounce (demo_key 3) (demo_key 1) (mkSigRes (mkSigReq seq nonce) 4 []) [].

Lemma announces_converge_witness : exists w1 w2,
  @run_updates demo_env [demo_ann 1 1; demo_ann 2 5; demo_ann 2 3] demo_world = Some w1 /\
  @run_updates demo_env [demo_ann 2 3; demo_ann 1 1; demo_ann 2 5] demo_world = Some w2 /\
  prec <$> t_infos (r_tree (w_router w1)) !! demo_key 3 = prec <$> t_infos (r_tree (w_router w2)) !! demo_key 3.
Proof.
  destruct (@announces_converge demo_env [demo_ann 1 1; demo_ann 2 5; demo_ann 2 3] [demo_ann 2 3; demo_ann 1 1; demo_ann 2 5]
    demo_world) as (w1 & w2 & E1 & E2 & H); [symmetry; exact (Permutation_cons_append [demo_ann 1 1; demo_ann 2 5] (demo_ann 2 3))|].
  exists w1, w2. split; [exact E1|]. split; [exact E2|]. apply H.
Defined.
