(* ===== verification/BloomTree.v ===== *)
(** * BloomTree: the router's use of the multicast filters (the [impl Router]
    of [src/bloom.rs]).

    Which peers are on the tree, the filter advertised to each of them, and the
    forwarding of a multicast along the tree. *)
From stdpp Require Import base tactics list numbers gmap.
From S2P Require Import Prelude Errors Clock Frame Address Table Bloom Wire Handshake LinkSet Router Hoare Tree.

Local Open Scope Z_scope.

Definition set_b_send (f : gmap bytes BloomFilter -> gmap bytes BloomFilter) (b : BloomState) : BloomState :=
  mkBloomState (f (b_send b)) (b_recv b) (b_on_tree b).
Definition set_b_recv (f : gmap bytes BloomFilter -> gmap bytes BloomFilter) (b : BloomState) : BloomState :=
  mkBloomState (b_send b) (f (b_recv b)) (b_on_tree b).
Definition set_on_tree (t : Table bytes bool) (b : BloomState) : BloomState :=
  mkBloomState (b_send b) (b_recv b) t.

(** [entry(k).or_default()]. *)
Definition or_default (k : bytes) (m : gmap bytes BloomFilter) : gmap bytes BloomFilter :=
  match m !! k with Some _ => m | None => <[k := BloomFilter_new]> m end.

(** The keys [for_each] visits, in slot order. *)
Definition table_keys (t : Table bytes bool) : list bytes :=
  Table_for_each ON_TREE t (fun ks k _ => ks ++ [k]) [].

Definition on_tree_keys (t : Table bytes bool) : list bytes :=
  Table_for_each ON_TREE t (fun ks k on => if on : bool then ks ++ [k] else ks) [].

Definition bloom_add_peer (peer : bytes) (b : BloomState) : BloomState :=
  let b := set_b_recv (or_default peer) (set_b_send (or_default peer) b) in
  match Table_get ON_TREE (b_on_tree b) peer with
  | None => set_on_tree (Table_insert ON_TREE (b_on_tree b) peer false).1 b
  | Some _ => b
  end.

(** Is [pk] our parent, or are we its parent? *)
Definition on_tree_with (infos : gmap bytes Info) (pubkey self_parent pk : bytes) : bool :=
  bool_decide (self_parent = pk)
  || match infos !! pk with Some i => bool_decide (i_parent i = pubkey) | None => false end.

Definition bloom_fix_step (infos : gmap bytes Info) (pubkey self_parent : bytes) (b : BloomState) (pk : bytes)
  : BloomState :=
  let on := on_tree_with infos pubkey self_parent pk in
  let '(t, old) := Table_insert ON_TREE (b_on_tree b) pk on in
  let was := match old with inr (Some o) => o | _ => false end in
  let b := set_on_tree t b in
  if was && negb on then set_b_send <[pk := BloomFilter_new]> b else b.

Definition bloom_fix (r : Router) : Router :=
  match t_infos (r_tree r) !! r_pubkey r with
  | None => r
  | Some info =>
    set_bloom (fun b => fold_left (bloom_fix_step (t_infos (r_tree r)) (r_pubkey r) (i_parent info))
                          (table_keys (b_on_tree b)) b) r
  end.

Definition bloom_for (r : Router) (peer : bytes) : BloomFilter :=
  let b := BloomFilter_add BloomFilter_new (xkey (r_pubkey r)) in
  let others := sort_keys (filter (fun k => k <> peer) (on_tree_keys (b_on_tree (r_bloom r)))) in
  let b := fold_left (fun b k => match b_recv (r_bloom r) !! k with Some f => BloomFilter_merge b f | None => b end)
             others b in
  match b_send (r_bloom r) !! peer with Some s => BloomFilter_merge b s | None => b end.

Definition bloom_handle (from payload : bytes) : M () :=
  b ← lift (BloomFilter_decode_exact payload);
  modify (set_bloom (fun s => match b_recv s !! from with
                              | Some _ => set_b_recv <[from := b]> s
                              | None => s
                              end)).

(** [(prio, order)] of a link, ordered; an index of [tree.links] that is not
    there panics. *)
Definition link_rank (t : TreeState) (id : LinkId) : option (Z * Z) :=
  (fun l => (l_prio l, l_order l)) <$> t_links t !! id.

Definition rank_lt (a b : Z * Z) : bool := (a.1 <? b.1) || ((a.1 =? b.1) && (a.2 <? b.2)).

(** [min_by_key] keeps the first of several minima. *)
Definition best_of (l : list (LinkId * (Z * Z))) : option LinkId :=
  fst <$> fold_left (fun best x => match best with
                                   | None => Some x
                                   | Some b => if rank_lt x.2 b.2 then Some x else Some b
                                   end) l None.

(** Outer [None]: a panic. *)
Definition best_link (t : TreeState) (ls : LinkSet) (key : bytes) : option (option LinkId) :=
  best_of <$> mapM (fun id => (fun k => (id, k)) <$> link_rank t id) (links_to ls key).

Section bloom_tree.
Context `{!Env}.

Definition bloom_maintenance : M () :=
  _ ← modify bloom_fix;
  peers ← asks (fun r => on_tree_keys (b_on_tree (r_bloom r)));
  for_each_m peers (fun pk =>
    r ← asks id;
    let b := bloom_for r pk in
    if decide (b_send (r_bloom r) !! pk = Some b) then mret ()
    else
      _ ← modify (set_bloom (set_b_send <[pk := b]>));
      match BloomFilter_encode b with
      | None => panic
      | Some bytes =>
        targets ← asks_links (fun ls => links_to ls pk);
        match targets with
        | _ :: _ => links_write_all pk TBloomFilter bytes
        | [] => modify count_drop
        end
      end).

Definition multicast (from_key to_key : bytes) (ftype : FrameType) (payload : bytes) : M () :=
  let x := xkey to_key in
  keys ← asks (fun r => sort_keys (on_tree_keys (b_on_tree (r_bloom r))));
  for_each_m keys (fun k =>
    if decide (k = from_key) then mret ()
    else
      r ← asks id;
      let interested := match b_recv (r_bloom r) !! k with Some f => BloomFilter_test f x | None => false end in
      if negb interested then mret ()
      else
        ls ← asks_links id;
        match best_link (r_tree r) ls k with
        | None => panic
        | Some (Some id) => write_via id ftype payload
        | Some None => mret ()
        end).
End bloom_tree.

Section bloom_total.
Context `{!Env}.

Lemma total_bloom_handle k p : total (bloom_handle k p).
Proof. unfold bloom_handle. total_tac. Qed.

Lemma total_bloom_maintenance : total bloom_maintenance.
Proof. unfold bloom_maintenance. total_tac. Qed.

Lemma total_multicast f t ft p : total (multicast f t ft p).
Proof. unfold multicast. total_tac. Qed.
End bloom_total.

#[export] Hint Resolve total_bloom_handle total_bloom_maintenance total_multicast : total.
