(* ===== verification/Session.v ===== *)
(** * Session: the end-to-end session of two nodes ([SessionInit] and [Session]
    of [src/session.rs]).

    The box is the interface [NaclBox]: the functions of [crypto_box],
    [curve25519_dalek] and [sha2] the code calls, with the laws it relies on
    (both ends of a Diffie-Hellman exchange open what the other sealed, and the
    curve keys derived from an Ed25519 pair are a pair). Where the code
    generates a key pair, the private key is an argument. *)
From stdpp Require Import base tactics list numbers gmap.
From S2P Require Import Prelude Errors Clock Frame Address Wire Router.

Local Open Scope Z_scope.

Class NaclBox := {
  (** [PublicKey::from(&SecretKey)]. *)
  box_pub : bytes -> bytes;
  (** [SalsaBox::new(their_pub, our_priv).encrypt(nonce, msg)]. *)
  salsa_seal : bytes -> bytes -> bytes -> bytes -> bytes;
  (** [SalsaBox::new(their_pub, our_priv).decrypt(nonce, sealed).ok()]. *)
  salsa_open : bytes -> bytes -> bytes -> bytes -> option bytes;
  sha512 : bytes -> bytes;
  (** [CompressedEdwardsY(k).decompress()?.to_montgomery().to_bytes()]. *)
  to_montgomery : bytes -> option bytes }.

Class NaclBoxLaws `{!NaclBox} `{!Ed25519} : Prop := {
  salsa_open_seal a b n m : salsa_open (box_pub a) b n (salsa_seal (box_pub b) a n m) = Some m;
  salsa_seal_length pk sk n m : length (salsa_seal pk sk n m) = (length m + 16)%nat;
  salsa_open_ok pk sk n c m : bytes_ok c -> salsa_open pk sk n c = Some m -> bytes_ok m;
  box_pub_ok sk : key_ok (box_pub sk);
  to_montgomery_key sk : to_montgomery (verifying_key sk) = Some (box_pub (take 32 (sha512 sk))) }.

Definition SESSION_TYPE_INIT : Z := 1.
Definition SESSION_TYPE_ACK : Z := 2.
Definition SESSION_TYPE_TRAFFIC : Z := 3.
Definition PACKET_TYPE_TRAFFIC : Z := 1.
Definition PACKET_TYPE_PROTO : Z := 2.
Definition SESSION_INIT_SIZE : nat := 193.
Definition SESSION_TRAFFIC_MIN : nat := 52.

Definition nonce_for (counter : Z) : bytes := replicate 16 0 ++ be_bytes 8 counter.

Definition salsa_box (their_pub our_priv : bytes) : SalsaBox := mkSalsaBox their_pub our_priv.

Section boxes.
Context `{!Ed25519} `{!NaclBox}.

Definition ed_to_curve_priv (seed : bytes) : bytes := take 32 (sha512 seed).
Definition ed_to_curve_pub (pubkey : bytes) : result bytes := ok_or (to_montgomery pubkey) (Core InvalidLength).

Definition box_seal (b : SalsaBox) (counter : Z) (msg : bytes) : bytes :=
  salsa_seal (sb_their_pub b) (sb_our_priv b) (nonce_for counter) msg.
Definition box_open (b : SalsaBox) (counter : Z) (sealed : bytes) : option bytes :=
  salsa_open (sb_their_pub b) (sb_our_priv b) (nonce_for counter) sealed.

(** ** Init and ack messages *)

Definition init_body (i : SessionInit) : bytes :=
  si_current i ++ si_next i ++ be_bytes 8 (si_key_seq i) ++ be_bytes 8 (si_seq i).

Definition sig_bytes (i : SessionInit) (eph_pub : bytes) : bytes := eph_pub ++ init_body i.

(** [None]: the [expect("valid ed key")] panics. *)
Definition encrypt_msg (i : SessionInit) (eph_priv : bytes) (msg_type : Z) (from_ed dest_ed : bytes) : option bytes :=
  let eph_pub := box_pub eph_priv in
  match ed_to_curve_pub dest_ed with
  | Err _ => None
  | Ok dest_box =>
    let shared := salsa_box dest_box eph_priv in
    let sig := ed_sign from_ed (sig_bytes i eph_pub) in
    let payload := sig ++ init_body i in
    Some (msg_type :: eph_pub ++ box_seal shared 0 payload)
  end.

Definition unsealed_plaintext (our_box_priv data : bytes) : option bytes :=
  if decide (length data = SESSION_INIT_SIZE) then
    box_open (salsa_box (slice data 1 33) our_box_priv) 0 (drop 33 data)
  else None.

Definition decrypt_msg (our_box_priv from_ed data : bytes) : option SessionInit :=
  if negb (bool_decide (length data = SESSION_INIT_SIZE))
     || (negb (data !!! 0%nat =? SESSION_TYPE_INIT) && negb (data !!! 0%nat =? SESSION_TYPE_ACK)) then None
  else
    let eph_pub := slice data 1 33 in
    payload ← box_open (salsa_box eph_pub our_box_priv) 0 (drop 33 data);
    if decide (length payload = 64 + 32 + 32 + 8 + 8)%nat then
      let sig := take 64 payload in
      let init := mkSessionInit (slice payload 64 96) (slice payload 96 128)
                    (be_val (slice payload 128 136)) (be_val (slice payload 136 144)) in
      if ed_verify from_ed (eph_pub ++ drop 64 payload) sig then Some init else None
    else None.

(** ** The ratchet *)

Definition shared4 (current next recv_priv send_priv : bytes) : SalsaBox * SalsaBox * SalsaBox * SalsaBox :=
  (salsa_box current recv_priv, salsa_box current send_priv, salsa_box next send_priv, salsa_box next recv_priv).

Definition fix_shared (s : Session) (recv_nonce send_nonce : Z) : Session :=
  let '(a, b, c, d) := shared4 (s_current s) (s_next s) (s_recv_priv s) (s_send_priv s) in
  mkSession (s_seq s) (s_remote_key_seq s) (s_current s) (s_next s) (s_local_key_seq s)
    (s_recv_priv s) (s_recv_pub s) a recv_nonce (s_send_priv s) (s_send_pub s) b send_nonce
    (s_next_priv s) (s_next_pub s) c 0 d 0 (s_rotated_at s).

Definition for_init (init : SessionInit) (recv_priv send_priv next_priv : bytes) : Session :=
  let '(recv_shared, send_shared, next_send_shared, next_recv_shared) :=
    shared4 (si_current init) (si_next init) recv_priv send_priv in
  mkSession (wrapping_sub (si_seq init) 1) 0 (si_current init) (si_next init) 0
    recv_priv (box_pub recv_priv) recv_shared 0 send_priv (box_pub send_priv) send_shared 0
    next_priv (box_pub next_priv) next_send_shared 0 next_recv_shared 0 None.

Definition adopt_buffered (s : Session) (send_pub send_priv next_pub next_priv : bytes) : Session :=
  fix_shared (mkSession (s_seq s) (s_remote_key_seq s) (s_current s) (s_next s) (s_local_key_seq s)
    (s_recv_priv s) (s_recv_pub s) (s_recv_shared s) (s_recv_nonce s) send_priv send_pub (s_send_shared s) (s_send_nonce s)
    next_priv next_pub (s_next_send_shared s) (s_next_send_nonce s) (s_next_recv_shared s) (s_next_recv_nonce s)
    (s_rotated_at s)) 0 0.

(** The three swaps and the fresh key every rotation does: the sending pair
    becomes the receiving one, the next pair the sending one; then the shared
    boxes are rebuilt for the remote keys given. *)
Definition rotate_keys (s : Session) (seq remote_key_seq : Z) (current next : bytes) (fresh_priv : bytes)
  (rotated_at : option Z) (recv_nonce send_nonce : Z) : Session :=
  fix_shared (mkSession seq remote_key_seq current next (wrapping_add (s_local_key_seq s) 1)
    (s_send_priv s) (s_send_pub s) (s_recv_shared s) (s_recv_nonce s)
    (s_next_priv s) (s_next_pub s) (s_send_shared s) (s_send_nonce s)
    fresh_priv (box_pub fresh_priv) (s_next_send_shared s) (s_next_send_nonce s)
    (s_next_recv_shared s) (s_next_recv_nonce s) rotated_at) recv_nonce send_nonce.

Definition apply_update (s : Session) (init : SessionInit) (fresh_priv : bytes) : Session :=
  rotate_keys s (si_seq init) (si_key_seq init) (si_current init) (si_next init) fresh_priv
    (s_rotated_at s) 0 (s_send_nonce s).

Definition make_init (s : Session) (seq : Z) : SessionInit :=
  mkSessionInit (s_send_pub s) (s_next_pub s) (s_local_key_seq s) seq.

Definition handle_init (s : Session) (init : SessionInit) (ack_seq : Z) (fresh_priv : bytes)
  : Session * option SessionInit :=
  if si_seq init <=? s_seq s then (s, None)
  else let s := apply_update s init fresh_priv in (s, Some (make_init s ack_seq)).

Definition handle_ack (s : Session) (ack : SessionInit) (fresh_priv : bytes) : Session :=
  if si_seq ack <=? s_seq s then s else apply_update s ack fresh_priv.

Definition set_send_nonce (s : Session) (n : Z) : Session :=
  mkSession (s_seq s) (s_remote_key_seq s) (s_current s) (s_next s) (s_local_key_seq s)
    (s_recv_priv s) (s_recv_pub s) (s_recv_shared s) (s_recv_nonce s) (s_send_priv s) (s_send_pub s) (s_send_shared s) n
    (s_next_priv s) (s_next_pub s) (s_next_send_shared s) (s_next_send_nonce s) (s_next_recv_shared s) (s_next_recv_nonce s)
    (s_rotated_at s).

(** [fresh_priv] is used only when the nonce wraps. *)
Definition Session_encrypt (s : Session) (msg : bytes) (fresh_priv : bytes) : Session * bytes :=
  let s := set_send_nonce s (wrapping_add (s_send_nonce s) 1) in
  let s := if s_send_nonce s =? 0
           then rotate_keys s (s_seq s) (s_remote_key_seq s) (s_current s) (s_next s) fresh_priv (s_rotated_at s) 0 0
           else s in
  let out := append_uvarint (append_uvarint (append_uvarint [SESSION_TYPE_TRAFFIC] (s_local_key_seq s))
               (s_remote_key_seq s)) (s_send_nonce s) in
  (s, out ++ box_seal (s_send_shared s) (s_send_nonce s) (s_next_pub s ++ msg)).

Inductive Case : Type := CaseCurrent | CaseNextSend | CaseNextRecv.

Definition case_nonce (s : Session) (c : Case) : Z :=
  match c with
  | CaseCurrent => s_recv_nonce s | CaseNextSend => s_next_send_nonce s | CaseNextRecv => s_next_recv_nonce s
  end.

Definition case_box (s : Session) (c : Case) : SalsaBox :=
  match c with
  | CaseCurrent => s_recv_shared s | CaseNextSend => s_next_send_shared s | CaseNextRecv => s_next_recv_shared s
  end.

Definition set_case_nonce (s : Session) (c : Case) (n : Z) : Session :=
  let pick (c' : Case) (old : Z) := match c, c' with
    | CaseCurrent, CaseCurrent | CaseNextSend, CaseNextSend | CaseNextRecv, CaseNextRecv => n | _, _ => old end in
  mkSession (s_seq s) (s_remote_key_seq s) (s_current s) (s_next s) (s_local_key_seq s)
    (s_recv_priv s) (s_recv_pub s) (s_recv_shared s) (pick CaseCurrent (s_recv_nonce s))
    (s_send_priv s) (s_send_pub s) (s_send_shared s) (s_send_nonce s)
    (s_next_priv s) (s_next_pub s) (s_next_send_shared s) (pick CaseNextSend (s_next_send_nonce s))
    (s_next_recv_shared s) (pick CaseNextRecv (s_next_recv_nonce s)) (s_rotated_at s).

(** Which of our keys a message with these key sequence numbers is for. *)
Definition select_case (s : Session) (rks lks : Z) : option Case :=
  let from_current := rks =? s_remote_key_seq s in
  let from_next := rks =? wrapping_add (s_remote_key_seq s) 1 in
  let to_recv := wrapping_add lks 1 =? s_local_key_seq s in
  let to_send := lks =? s_local_key_seq s in
  if from_current && to_recv then Some CaseCurrent
  else if from_next && to_send then Some CaseNextSend
  else if from_next && to_recv then Some CaseNextRecv
  else None.

Definition ROTATE_AFTER : Z := from_secs 60.

(** [now] is read for [elapsed], [now'] for the new [rotated_at]. *)
Definition maybe_rotate (s : Session) (inner_key : bytes) (nonce : Z) (fresh_priv : bytes) (now now' : Z) : Session :=
  let due := match s_rotated_at s with
             | Some t => ROTATE_AFTER <? std_duration_since now t
             | None => true
             end in
  if due then
    rotate_keys s (s_seq s) (wrapping_add (s_remote_key_seq s) 1) (s_next s) inner_key fresh_priv (Some now') nonce 0
  else s.

(** The header of a traffic message: key sequence numbers, nonce, body. *)
Definition traffic_header (msg : bytes) : option (Z * Z * Z * bytes) :=
  if bool_decide (length msg < SESSION_TRAFFIC_MIN)%nat || negb (msg !!! 0%nat =? SESSION_TYPE_TRAFFIC) then None
  else
    let off := 1%nat in
    '(rks, n) ← read_uvarint (drop off msg);
    let off := (off + n)%nat in
    '(lks, n) ← read_uvarint (drop off msg);
    let off := (off + n)%nat in
    '(nonce, n) ← read_uvarint (drop off msg);
    let off := (off + n)%nat in
    Some (rks, lks, nonce, drop off msg).

Definition Session_decrypt (s : Session) (msg : bytes) (fresh_priv : bytes) (now now' : Z)
  : Session * option bytes :=
  match traffic_header msg with
  | None => (s, None)
  | Some (rks, lks, nonce, body) =>
    match select_case s rks lks with
    | None => (s, None)
    | Some c =>
      if negb (case_nonce s c <? nonce) then (s, None)
      else
        match box_open (case_box s c) nonce body with
        | None => (s, None)
        | Some opened =>
          if decide (length opened < 32)%nat then (s, None)
          else
            let inner_key := take 32 opened in
            let s := set_case_nonce s c nonce in
            let s := match c with
                     | CaseCurrent => s
                     | _ => maybe_rotate s inner_key nonce fresh_priv now now'
                     end in
            (s, Some (drop 32 opened))
        end
    end
  end.
End boxes.

(** ** A concrete box, for the witnesses

    The public key of [sk] is [sk] padded to 32 bytes; sealing appends a tag
    that both ends compute from the pair of public keys and the nonce. *)

Definition toy_tag (a b n : bytes) : bytes := pad_bytes 16 (zip_with Z.add a b ++ n).

Definition toy_box : NaclBox := {|
  box_pub sk := pad_bytes 32 sk;
  salsa_seal pk sk n m := toy_tag pk (pad_bytes 32 sk) n ++ m;
  salsa_open pk sk n c :=
    if decide (take 16 c = toy_tag pk (pad_bytes 32 sk) n) then Some (drop 16 c) else None;
  sha512 m := pad_bytes 64 m;
  to_montgomery k := Some k |}.

Lemma zip_with_add_comm (a b : bytes) : zip_with Z.add a b = zip_with Z.add b a.
Proof. revert b. induction a as [|x a IH]; intros [|y b]; simpl; try done. by rewrite IH, Z.add_comm. Qed.

Lemma toy_tag_length a b n : length (toy_tag a b n) = 16%nat.
Proof. apply pad_bytes_ok. Qed.

Lemma pad_bytes_id l n : bytes_ok l -> length l = n -> pad_bytes n l = l.
Proof.
  intros Hok Hl. unfold pad_bytes. rewrite take_app_exact by (by rewrite length_fmap). clear Hl.
  induction l as [|b l IH]; [done|]. apply bytes_ok_cons in Hok as [Hb Hok].
  rewrite fmap_cons, IH by done. by rewrite wrap8_ok.
Qed.

Lemma wrap8_wrap8 x : wrap8 (wrap8 x) = wrap8 x.
Proof. apply wrap8_ok, wrap8_range. Qed.

Lemma take_pad sk : pad_bytes 32 (take 32 (pad_bytes 64 sk)) = pad_bytes 32 sk.
Proof.
  rewrite (pad_bytes_id (take 32 (pad_bytes 64 sk))).
  - unfold pad_bytes. rewrite take_take. change (Nat.min 32 64) with 32%nat.
    rewrite !take_app, !take_replicate. f_equal. f_equal. lia.
  - apply bytes_ok_take, pad_bytes_ok.
  - rewrite length_take. destruct (pad_bytes_ok 64 sk) as [_ ->]. done.
Qed.

Lemma toy_box_laws : @NaclBoxLaws toy_box toy_ed25519.
Proof.
  split; intros.
  - cbn [salsa_open salsa_seal toy_box box_pub]. rewrite take_app_exact by apply toy_tag_length.
    rewrite decide_True by (unfold toy_tag; by rewrite zip_with_add_comm).
    by rewrite drop_app_exact by apply toy_tag_length.
  - cbn. rewrite length_app, toy_tag_length. lia.
  - match goal with Hc : bytes_ok c, E : salsa_open _ _ _ _ = _ |- _ => revert E; cbn [salsa_open toy_box] end.
    destruct (decide _); [|done]. intros [= <-]. by apply bytes_ok_drop.
  - apply (pad_bytes_ok 32).
  - exact (f_equal Some (eq_sym (take_pad sk))).
Qed.

(** ** Lemmas *)

Section laws.
Context `{!Ed25519} `{!Ed25519Laws} `{!NaclBox} `{!NaclBoxLaws}.

Lemma box_open_seal a b n m : box_open (salsa_box (box_pub a) b) n (box_seal (salsa_box (box_pub b) a) n m) = Some m.
Proof. apply salsa_open_seal. Qed.

Definition SessionInit_ok (i : SessionInit) : Prop :=
  length (si_current i) = 32%nat /\ length (si_next i) = 32%nat /\ is_u64 (si_key_seq i) /\ is_u64 (si_seq i).

Lemma init_body_length i : SessionInit_ok i -> length (init_body i) = 80%nat.
Proof. intros (Hc & Hn & _). unfold init_body. rewrite !length_app, Hc, Hn, !be_bytes_length. done. Qed.

Lemma be_val_u64 l : bytes_ok l -> length l = 8%nat -> is_u64 (be_val l).
Proof. intros Hok Hl. pose proof (be_val_bound l Hok) as Hb. rewrite Hl in Hb. unfold is_u64. exact Hb. Qed.

(** An accepted init is well formed. *)
Lemma decrypt_msg_ok priv from data i : bytes_ok data -> decrypt_msg priv from data = Some i -> SessionInit_ok i.
Proof.
  intros Hd. unfold decrypt_msg. destruct (_ || _); [done|].
  destruct (box_open _ _ _) as [p|] eqn:Ho; cbn [mbind option_bind]; [|done].
  destruct (decide _) as [Hp|]; [|done]. destruct (ed_verify _ _ _); [|done]. intros [= <-].
  apply salsa_open_ok in Ho; [|by apply bytes_ok_drop].
  assert (forall a, bytes_ok (slice p a (a + 8))) as Hs by (intros; by apply bytes_ok_take, bytes_ok_drop).
  unfold SessionInit_ok. cbn [si_current si_next si_key_seq si_seq].
  split_and!; [apply slice_length; lia|apply slice_length; lia|..];
    (apply be_val_u64; [apply (Hs 128%nat) || apply (Hs 136%nat)|apply slice_length; lia]).
Qed.

(** The fixed-width fields of an init body. *)
Lemma init_body_fields (sig : bytes) i : length sig = 64%nat -> SessionInit_ok i ->
  let p := sig ++ init_body i in
  take 64 p = sig /\ drop 64 p = init_body i /\
  mkSessionInit (slice p 64 96) (slice p 96 128) (be_val (slice p 128 136)) (be_val (slice p 136 144)) = i.
Proof.
  intros Hs (Hc & Hn & Hk & Hq). cbv zeta. split; [by apply take_app_exact|]. split; [by apply drop_app_exact|].
  unfold init_body.
  rewrite (slice_app sig (si_current i)) by (rewrite ?Hc; done).
  rewrite (app_assoc sig), (slice_app (sig ++ si_current i) (si_next i)) by (rewrite ?length_app, ?Hn, ?Hs, ?Hc; done).
  rewrite (app_assoc _ (si_next i)), (slice_app ((sig ++ si_current i) ++ si_next i) (be_bytes 8 (si_key_seq i)))
    by (rewrite ?length_app, ?Hn, ?Hs, ?Hc, ?be_bytes_length; done).
  rewrite (app_assoc _ (be_bytes 8 (si_key_seq i))), <-(app_nil_r (be_bytes 8 (si_seq i))),
    (slice_app (((sig ++ si_current i) ++ si_next i) ++ be_bytes 8 (si_key_seq i)) (be_bytes 8 (si_seq i)) [])
    by (rewrite ?length_app, ?Hn, ?Hs, ?Hc, ?be_bytes_length; done).
  rewrite !be_val_bytes_small by done. by destruct i.
Qed.

Lemma encrypt_msg_spec i eph mt sk dest : SessionInit_ok i ->
  exists msg, encrypt_msg i eph mt sk (verifying_key dest) = Some msg /\ length msg = SESSION_INIT_SIZE /\
    (mt = SESSION_TYPE_INIT \/ mt = SESSION_TYPE_ACK ->
     decrypt_msg (ed_to_curve_priv dest) (verifying_key sk) msg = Some i).
Proof.
  intros Hi. unfold encrypt_msg, ed_to_curve_pub. rewrite to_montgomery_key. cbn [ok_or].
  destruct (ed_sign_ok sk (sig_bytes i (box_pub eph))) as [_ Hs].
  destruct (box_pub_ok eph) as [_ He]. unfold KEY_LEN in He.
  set (sig := ed_sign sk _) in *. set (P := sig ++ init_body i).
  assert (length P = 144%nat) as HP by (unfold P; rewrite length_app, init_body_length, Hs by done; done).
  eexists. split; [done|]. assert (length (box_seal (salsa_box (box_pub (take 32 (sha512 dest))) eph) 0 P) = 160%nat) as HB.
  { unfold box_seal. rewrite salsa_seal_length, HP. done. }
  split; [cbn [length]; rewrite length_app, He, HB; done|].
  intros Hmt. unfold decrypt_msg.
  rewrite bool_decide_eq_true_2 by (cbn [length]; rewrite length_app, He, HB; done). cbn [negb orb].
  change ((?x :: ?l) !!! 0%nat) with x.
  replace (negb (mt =? SESSION_TYPE_INIT) && negb (mt =? SESSION_TYPE_ACK)) with false
    by (destruct Hmt as [->| ->]; done).
  replace (slice (mt :: box_pub eph ++ box_seal (salsa_box (box_pub (take 32 (sha512 dest))) eph) 0 P) 1 33) with (box_pub eph)
    by (symmetry; apply (slice_app [mt]); [done|by rewrite He]).
  replace (drop 33 (mt :: box_pub eph ++ box_seal (salsa_box (box_pub (take 32 (sha512 dest))) eph) 0 P))
    with (box_seal (salsa_box (box_pub (take 32 (sha512 dest))) eph) 0 P)
    by (symmetry; apply (drop_app_exact (mt :: box_pub eph)); cbn [length]; by rewrite He).
  unfold ed_to_curve_priv. rewrite box_open_seal. cbn [mbind option_bind].
  rewrite decide_True by done. destruct (init_body_fields sig i Hs Hi) as (E1 & E2 & E3).
  fold P in E1, E2, E3. cbv zeta in *. rewrite E1, E2, E3. subst sig. unfold sig_bytes. by rewrite ed_sign_verify.
Qed.
End laws.

Section ratchet.
Context `{!Ed25519} `{!NaclBox}.

Lemma wrapping_add_inj a b : is_u64 a -> wrapping_add a 1 = wrapping_add b 1 -> is_u64 b -> a = b.
Proof.
  unfold wrapping_add, wrap64, is_u64. intros Ha E Hb.
  destruct (decide (a = 2 ^ 64 - 1)) as [->|]; destruct (decide (b = 2 ^ 64 - 1)) as [->|]; try done.
  - rewrite Z_mod_same_full in E. rewrite Z.mod_small in E by lia. lia.
  - rewrite Z_mod_same_full in E. rewrite Z.mod_small in E by lia. lia.
  - rewrite !Z.mod_small in E by lia. lia.
Qed.

Lemma wrapping_add_neq a : is_u64 a -> wrapping_add a 1 <> a.
Proof.
  unfold wrapping_add, wrap64, is_u64. intros Ha. destruct (decide (a = 2 ^ 64 - 1)) as [->|].
  - rewrite Z_mod_same_full. lia.
  - rewrite Z.mod_small by lia. lia.
Qed.

Lemma eqb_neq_sym a b : b <> a -> (a =? b) = false.
Proof. intros. apply Z.eqb_neq. congruence. Qed.

Lemma select_next_send s rks lks : select_case s rks lks = Some CaseNextSend ->
  rks = wrapping_add (s_remote_key_seq s) 1 /\ lks = s_local_key_seq s.
Proof.
  unfold select_case. intros Hc. destruct ((rks =? s_remote_key_seq s) && _); [done|].
  destruct (Z.eqb_spec rks (wrapping_add (s_remote_key_seq s) 1)), (Z.eqb_spec lks (s_local_key_seq s)); cbn [andb] in Hc;
    try done; by destruct (wrapping_add lks 1 =? _).
Qed.

Lemma select_next_recv s rks lks : select_case s rks lks = Some CaseNextRecv ->
  rks = wrapping_add (s_remote_key_seq s) 1 /\ wrapping_add lks 1 = s_local_key_seq s.
Proof.
  unfold select_case. intros Hc. destruct ((rks =? s_remote_key_seq s) && _); [done|].
  destruct (Z.eqb_spec rks (wrapping_add (s_remote_key_seq s) 1)); [|done].
  destruct (lks =? s_local_key_seq s); [done|].
  destruct (Z.eqb_spec (wrapping_add lks 1) (s_local_key_seq s)); done.
Qed.

(** The cases after a rotation to the next remote key. *)
Lemma select_rotated s k nx fresh at' n m rks lks :
  select_case (rotate_keys s (s_seq s) k (s_next s) nx fresh at' n m) rks lks =
  (if (rks =? k) && (wrapping_add lks 1 =? wrapping_add (s_local_key_seq s) 1) then Some CaseCurrent
   else if (rks =? wrapping_add k 1) && (lks =? wrapping_add (s_local_key_seq s) 1) then Some CaseNextSend
   else if (rks =? wrapping_add k 1) && (wrapping_add lks 1 =? wrapping_add (s_local_key_seq s) 1) then Some CaseNextRecv
   else None).
Proof. done. Qed.

(** After a message of case [c] was accepted, the same key sequence numbers
    select a case whose nonce floor has reached the message's nonce, or none. *)
Lemma accepted_case s c rks lks nonce inner fresh now now' :
  is_u64 (s_remote_key_seq s) -> is_u64 (s_local_key_seq s) ->
  select_case s rks lks = Some c ->
  let s' := match c with CaseCurrent => set_case_nonce s c nonce
            | _ => maybe_rotate (set_case_nonce s c nonce) inner nonce fresh now now' end in
  match select_case s' rks lks with Some c' => case_nonce s' c' = nonce | None => True end.
Proof.
  intros Hr Hl Hc. pose proof (wrapping_add_neq _ Hr) as Nr. pose proof (wrapping_add_neq _ Hl) as Nl.
  assert (forall c', select_case (set_case_nonce s c' nonce) rks lks = Some c) as Hsame by (intros; exact Hc).
  destruct c; cbv zeta; [by rewrite Hsame|..]; unfold maybe_rotate;
    (destruct (match s_rotated_at _ with Some _ => _ | None => true end); [|by rewrite Hsame]).
  - apply select_next_send in Hc as [Er El]. rewrite select_rotated. cbn [set_case_nonce s_remote_key_seq s_local_key_seq].
    by rewrite Er, El, !Z.eqb_refl.
  - apply select_next_recv in Hc as [Er El]. rewrite select_rotated. cbn [set_case_nonce s_remote_key_seq s_local_key_seq].
    rewrite Er, El, Z.eqb_refl, (eqb_neq_sym _ _ Nl).
    by rewrite (eqb_neq_sym _ _ (wrapping_add_neq (wrapping_add (s_remote_key_seq s) 1) (wrap64_range _))).
Qed.
End ratchet.

(** ** The session invariant *)

Section invariant.
Context `{!Ed25519} `{!NaclBox} `{!NaclBoxLaws}.

(** Key pairs are pairs, the four shared boxes are built from the current keys,
    and the counters are machine words. *)
Definition session_ok (s : Session) : Prop :=
  (s_recv_pub s = box_pub (s_recv_priv s) /\ s_send_pub s = box_pub (s_send_priv s) /\ s_next_pub s = box_pub (s_next_priv s)) /\
  (length (s_current s) = 32%nat /\ length (s_next s) = 32%nat) /\
  (s_recv_shared s, s_send_shared s, s_next_send_shared s, s_next_recv_shared s) =
    shared4 (s_current s) (s_next s) (s_recv_priv s) (s_send_priv s) /\
  (is_u64 (s_seq s) /\ is_u64 (s_remote_key_seq s) /\ is_u64 (s_local_key_seq s)) /\
  is_u64 (s_send_nonce s).

Lemma rotate_keys_ok s seq rks cur nx fresh at' n m : session_ok s -> is_u64 seq -> is_u64 rks -> is_u64 m ->
  length cur = 32%nat -> length nx = 32%nat -> session_ok (rotate_keys s seq rks cur nx fresh at' n m).
Proof.
  intros ((Hr & Hs & Hn) & _ & _ & (Hq & Hk & Hl) & _) Hseq Hrks Hm Hc Hx.
  unfold session_ok. split_and!; try done; apply wrap64_range.
Qed.

Lemma for_init_ok i r s n : SessionInit_ok i -> session_ok (for_init i r s n).
Proof. intros (Hc & Hn & Hk & Hq). unfold session_ok. split_and!; try done; apply wrap64_range. Qed.

Lemma adopt_buffered_ok s sp np : session_ok s -> session_ok (adopt_buffered s (box_pub sp) sp (box_pub np) np).
Proof. intros ((Hr & _ & _) & (Hc & Hn) & _ & (Hq & Hk & Hl) & _). unfold session_ok. split_and!; done. Qed.

Lemma apply_update_ok s i fresh : session_ok s -> SessionInit_ok i -> session_ok (apply_update s i fresh).
Proof. intros Hs (Hc & Hn & Hk & Hq). apply rotate_keys_ok; try done. apply Hs. Qed.

Lemma set_send_nonce_ok s n : session_ok s -> is_u64 n -> session_ok (set_send_nonce s n).
Proof. intros (Ha & Hb & Hc & Hd & _) Hn. done. Qed.

Lemma set_case_nonce_ok s c n : session_ok s -> session_ok (set_case_nonce s c n).
Proof. intros Hs. by destruct c. Qed.

Lemma Session_encrypt_ok s m fresh : session_ok s -> session_ok (Session_encrypt s m fresh).1.
Proof.
  intros Hs. unfold Session_encrypt. cbn [fst].
  assert (session_ok (set_send_nonce s (wrapping_add (s_send_nonce s) 1))) as Hn1
    by (apply set_send_nonce_ok; [done|apply wrap64_range]).
  destruct (_ =? 0); [|done]. destruct Hn1 as (Ha & (Hb & Hb') & Hc & (Hd & Hd' & Hd'') & He).
  apply rotate_keys_ok; done.
Qed.

Lemma maybe_rotate_ok s inner n fresh now now' : session_ok s -> length inner = 32%nat ->
  session_ok (maybe_rotate s inner n fresh now now').
Proof.
  intros Hs Hi. unfold maybe_rotate. destruct (match s_rotated_at s with Some _ => _ | None => true end); [|done].
  apply rotate_keys_ok; try done; try apply Hs; try apply wrap64_range; done.
Qed.

Lemma Session_decrypt_ok s m fresh now now' : session_ok s -> session_ok (Session_decrypt s m fresh now now').1.
Proof.
  intros Hs. unfold Session_decrypt. destruct (traffic_header m) as [[[[rks lks] n] body]|]; [|done].
  destruct (select_case s rks lks) as [c|]; [|done]. destruct (negb _); [done|].
  destruct (box_open _ _ _) as [o|]; [|done]. destruct (decide _) as [|Hl]; [done|]. cbn [fst].
  assert (length (take 32 o) = 32%nat) by (rewrite length_take; lia).
  destruct c; try apply maybe_rotate_ok; try done; by apply set_case_nonce_ok.
Qed.

(** Everything that can happen to an open session. *)
Inductive session_event : Type :=
  | EvInit (i : SessionInit) (ack_seq : Z) (fresh : bytes)
  | EvAck (i : SessionInit) (fresh : bytes)
  | EvEncrypt (m fresh : bytes)
  | EvDecrypt (m fresh : bytes) (now now' : Z).

Definition session_step (s : Session) (e : session_event) : Session :=
  match e with
  | EvInit i q f => (handle_init s i q f).1
  | EvAck i f => handle_ack s i f
  | EvEncrypt m f => (Session_encrypt s m f).1
  | EvDecrypt m f now now' => (Session_decrypt s m f now now').1
  end.

Definition event_ok (e : session_event) : Prop :=
  match e with EvInit i _ _ | EvAck i _ => SessionInit_ok i | _ => True end.

Lemma session_step_ok s e : session_ok s -> event_ok e -> session_ok (session_step s e).
Proof.
  destruct e; cbn [session_step event_ok]; intros Hs He.
  - unfold handle_init. destruct (_ <=? _); [done|by apply apply_update_ok].
  - unfold handle_ack. destruct (_ <=? _); [done|by apply apply_update_ok].
  - by apply Session_encrypt_ok.
  - by apply Session_decrypt_ok.
Qed.

Lemma maybe_rotate_seq s inner n fresh now now' : s_seq (maybe_rotate s inner n fresh now now') = s_seq s.
Proof. unfold maybe_rotate. by destruct (match s_rotated_at s with Some _ => _ | None => true end). Qed.

Lemma session_step_seq s e : s_seq s <= s_seq (session_step s e).
Proof.
  destruct e; cbn [session_step].
  - unfold handle_init. destruct (Z.leb_spec (si_seq i) (s_seq s)); cbn; lia.
  - unfold handle_ack. destruct (Z.leb_spec (si_seq i) (s_seq s)); cbn; lia.
  - unfold Session_encrypt. cbn [fst]. destruct (_ =? 0); cbn; lia.
  - unfold Session_decrypt. destruct (traffic_header m) as [[[[rks lks] n] body]|]; [|done].
    destruct (select_case s rks lks) as [c|]; [|done]. destruct (negb _); [done|].
    destruct (box_open _ _ _) as [o|]; [|done]. destruct (decide _) as [|Hl]; [done|]. cbn [fst].
    destruct c; rewrite ?maybe_rotate_seq; done.
Qed.

Lemma session_run_seq es s : s_seq s <= s_seq (fold_left session_step es s).
Proof.
  revert s. induction es as [|e es IH]; intros s; [done|]. cbn. etransitivity; [apply (session_step_seq s e)|apply IH].
Qed.
End invariant.

(** ** Two ends of a session *)

Section channel.
Context `{!Ed25519} `{!NaclBox} `{!NaclBoxLaws}.

(** [a] has learnt [b]'s latest keys, [b] is one key behind: what [a] sends
    opens at [b] with the next key, what [b] sends opens at [a] with the
    current one. *)
Definition ahead (a b : Session) : Prop :=
  (session_ok a /\ session_ok b) /\
  (s_remote_key_seq a = s_local_key_seq b /\ s_local_key_seq a = wrapping_add (s_remote_key_seq b) 1) /\
  (s_current a = s_send_pub b /\ s_next a = s_next_pub b /\ s_current b = s_recv_pub a /\ s_next b = s_send_pub a) /\
  (s_next_send_nonce b <= s_send_nonce a /\ s_recv_nonce a <= s_send_nonce b /\ s_next_send_nonce a = 0).

Definition in_sync (a b : Session) : Prop := ahead a b \/ ahead b a.

Lemma traffic_header_spec rks lks nonce body : is_u64 rks -> is_u64 lks -> is_u64 nonce -> (48 <= length body)%nat ->
  traffic_header (append_uvarint (append_uvarint (append_uvarint [SESSION_TYPE_TRAFFIC] rks) lks) nonce ++ body)
  = Some (rks, lks, nonce, body).
Proof.
  intros Hr Hl Hn Hb. unfold append_uvarint. rewrite <-!app_assoc. cbn [app].
  pose proof (uvarint_go_length 10 rks). pose proof (uvarint_go_length 10 lks). pose proof (uvarint_go_length 10 nonce).
  unfold traffic_header. rewrite bool_decide_eq_false_2
    by (cbn [length]; rewrite !length_app; unfold SESSION_TRAFFIC_MIN; lia).
  change ((?x :: ?l) !!! 0%nat) with x. cbn [orb negb]. rewrite Z.eqb_refl. cbn [negb].
  change (drop 1 (?x :: ?l)) with l. rewrite read_append_uvarint by done. cbn [mbind option_bind].
  change (drop (1 + ?n) (?x :: ?l)) with (drop n l). rewrite drop_app_exact, read_append_uvarint by done. cbn [mbind option_bind].
  change (drop (1 + ?n + ?m) (?x :: ?l)) with (drop (n + m) l). rewrite <-drop_drop, drop_app_exact, drop_app_exact by done.
  rewrite read_append_uvarint by done. cbn [mbind option_bind].
  change (drop (1 + ?n + ?m + ?k) (?x :: ?l)) with (drop (n + m + k) l).
  by rewrite <-!drop_drop, !drop_app_exact.
Qed.

(** One encrypted message without a wrap of the nonce. *)
Lemma Session_encrypt_spec s m fresh : session_ok s -> s_send_nonce s + 1 < 2 ^ 64 ->
  exists msg, Session_encrypt s m fresh = (set_send_nonce s (s_send_nonce s + 1), msg) /\
    traffic_header msg = Some (s_local_key_seq s, s_remote_key_seq s, s_send_nonce s + 1,
      box_seal (salsa_box (s_current s) (s_send_priv s)) (s_send_nonce s + 1) (s_next_pub s ++ m)).
Proof.
  intros Hok Hn. pose proof Hok as ((_ & _ & Hp) & _ & Hsh & (_ & Hr & Hl) & [Hn0 _]).
  assert (wrapping_add (s_send_nonce s) 1 = s_send_nonce s + 1) as E.
  { unfold wrapping_add. apply wrap64_small. unfold is_u64. lia. }
  unfold Session_encrypt. rewrite E. cbn [set_send_nonce s_send_nonce].
  destruct (Z.eqb_spec (s_send_nonce s + 1) 0); [lia|].
  eexists. split; [done|]. cbn [set_send_nonce s_send_nonce s_local_key_seq s_remote_key_seq s_send_shared s_next_pub].
  injection Hsh as _ -> _ _. apply traffic_header_spec; try done; [unfold is_u64; lia|].
  unfold box_seal. rewrite salsa_seal_length, length_app, Hp.
  pose proof (box_pub_ok (s_next_priv s)) as [_ ->]. unfold KEY_LEN. lia.
Qed.

(** What [b] does with a message it has the key for. *)
Lemma Session_decrypt_spec b msg rks lks nonce c peer key inner m fresh now now' :
  traffic_header msg = Some (rks, lks, nonce, box_seal (salsa_box (box_pub key) peer) nonce (inner ++ m)) ->
  select_case b rks lks = Some c -> case_box b c = salsa_box (box_pub peer) key ->
  case_nonce b c < nonce -> length inner = 32%nat ->
  Session_decrypt b msg fresh now now' =
  (match c with CaseCurrent => set_case_nonce b c nonce
   | _ => maybe_rotate (set_case_nonce b c nonce) inner nonce fresh now now' end, Some m).
Proof.
  intros Ht Hc Hb Hn Hi. unfold Session_decrypt. rewrite Ht, Hc.
  destruct (Z.ltb_spec (case_nonce b c) nonce); [|lia]. cbn [negb].
  rewrite Hb, box_open_seal. rewrite decide_False by (rewrite length_app; lia).
  rewrite take_app_exact, drop_app_exact by done. done.
Qed.

Lemma select_ahead_next a b : ahead a b -> select_case b (s_local_key_seq a) (s_remote_key_seq a) = Some CaseNextSend.
Proof.
  intros ((_ & Hb) & (E1 & E2) & _). destruct Hb as (_ & _ & _ & (_ & Hr & Hl) & _).
  unfold select_case. rewrite E1, E2, !Z.eqb_refl.
  destruct (Z.eqb_spec (wrapping_add (s_remote_key_seq b) 1) (s_remote_key_seq b)) as [E|_]; [|done].
  by apply wrapping_add_neq in E.
Qed.

Lemma select_ahead_current a b : ahead a b -> select_case a (s_local_key_seq b) (s_remote_key_seq b) = Some CaseCurrent.
Proof. intros (_ & (E1 & E2) & _). unfold select_case. by rewrite E1, E2, !Z.eqb_refl. Qed.

Lemma ahead_send a b n : ahead a b -> s_send_nonce a <= n -> is_u64 n -> ahead (set_send_nonce a n) b.
Proof.
  intros ((Ha & Hb) & Hk & Hc & (N1 & N2 & N3)) Hn Hu. split; [split; [by apply set_send_nonce_ok|done]|].
  split; [done|]. split; [done|]. cbn. split_and!; lia.
Qed.

Lemma ahead_send_back a b n : ahead a b -> s_send_nonce b <= n -> is_u64 n -> ahead a (set_send_nonce b n).
Proof.
  intros ((Ha & Hb) & Hk & Hc & (N1 & N2 & N3)) Hn Hu. split; [split; [done|by apply set_send_nonce_ok]|].
  split; [done|]. split; [done|]. cbn. split_and!; lia.
Qed.

(** [b] takes over: it rotates to the key [a] announced. *)
Lemma ahead_rotate a b seq q at' fresh n : ahead a b -> is_u64 seq -> is_u64 n ->
  q <= s_send_nonce a ->
  ahead (rotate_keys b seq (s_local_key_seq a) (s_send_pub a) (s_next_pub a) fresh at' q n) a.
Proof.
  intros ((Ha & Hb) & (E1 & E2) & (C1 & C2 & C3 & C4) & (N1 & N2 & N3)) Hq Hn Hle.
  pose proof Ha as ((_ & Hs & Hx) & _ & _ & (_ & _ & Hl) & Hsn).
  assert (session_ok (rotate_keys b seq (s_local_key_seq a) (s_send_pub a) (s_next_pub a) fresh at' q n)).
  { apply rotate_keys_ok; try done; rewrite ?Hs, ?Hx; apply box_pub_ok. }
  split; [done|]. cbn. rewrite <-E1. split; [done|]. rewrite C1, C2. split; [done|].
  destruct Hn. split_and!; [lia|lia|done].
Qed.

Lemma deliver_ahead a b m fa fb now now' : ahead a b -> s_send_nonce a + 1 < 2 ^ 64 ->
  exists msg b', Session_encrypt a m fa = (set_send_nonce a (s_send_nonce a + 1), msg) /\
    Session_decrypt b msg fb now now' = (b', Some m) /\
    in_sync (set_send_nonce a (s_send_nonce a + 1)) b' /\ s_send_nonce b' <= s_send_nonce b.
Proof.
  intros Hab Hn. pose proof Hab as ((Ha & Hb) & (E1 & E2) & (C1 & C2 & C3 & C4) & (N1 & N2 & N3)).
  destruct (Session_encrypt_spec a m fa Ha Hn) as (msg & Henc & Hhdr). exists msg.
  pose proof Ha as ((_ & Hs & Hx) & _ & _ & _ & [Hsn _]). pose proof Hb as ((_ & Hbs & _) & _ & Hsh & _ & [Hbn _]).
  rewrite C1, Hbs, Hx in Hhdr.
  rewrite (Session_decrypt_spec b msg _ _ _ CaseNextSend _ _ _ m fb now now' Hhdr (select_ahead_next a b Hab));
    [|injection Hsh as _ _ Hsh _; cbn; by rewrite Hsh, C4, Hs|cbn; lia|apply box_pub_ok].
  eexists. split; [done|]. split; [done|]. set (a' := set_send_nonce a _).
  assert (ahead a' (set_case_nonce b CaseNextSend (s_send_nonce a + 1))) as Hs1.
  { assert (is_u64 (s_send_nonce a + 1)) by (unfold is_u64; lia).
    split; [split; [by apply set_send_nonce_ok|by apply set_case_nonce_ok]|]. do 2 (split; [done|]). cbn. split_and!; lia. }
  unfold maybe_rotate. destruct (match s_rotated_at _ with Some _ => _ | None => true end).
  - split; [|exact Hbn]. right. cbn [set_case_nonce s_seq s_remote_key_seq s_next]. rewrite <-E2, C4, <-Hx.
    apply (ahead_rotate a' (set_case_nonce b CaseNextSend (s_send_nonce a + 1))); [done|apply Hb|unfold is_u64; lia|cbn; lia].
  - split; [by left|cbn; lia].
Qed.

Lemma deliver_back a b m fa fb now now' : ahead a b -> s_send_nonce b + 1 < 2 ^ 64 ->
  exists msg a', Session_encrypt b m fb = (set_send_nonce b (s_send_nonce b + 1), msg) /\
    Session_decrypt a msg fa now now' = (a', Some m) /\
    in_sync a' (set_send_nonce b (s_send_nonce b + 1)) /\ s_send_nonce a' <= s_send_nonce a.
Proof.
  intros Hab Hn. pose proof Hab as ((Ha & Hb) & (E1 & E2) & (C1 & C2 & C3 & C4) & (N1 & N2 & N3)).
  destruct (Session_encrypt_spec b m fb Hb Hn) as (msg & Henc & Hhdr). exists msg.
  pose proof Hb as ((_ & Hs & Hx) & _ & _ & _ & [Hsn _]). pose proof Ha as ((Hr & _ & _) & _ & Hsh & _ & _).
  rewrite C3, Hr, Hx in Hhdr.
  rewrite (Session_decrypt_spec a msg _ _ _ CaseCurrent _ _ _ m fa now now' Hhdr (select_ahead_current a b Hab));
    [|injection Hsh as Hsh _ _ _; cbn; by rewrite Hsh, C1, Hs|cbn; lia|apply box_pub_ok].
  eexists. split; [done|]. split; [done|]. split; [|cbn; lia]. left.
  assert (is_u64 (s_send_nonce b + 1)) by (unfold is_u64; lia).
  split; [split; [by apply set_case_nonce_ok|by apply set_send_nonce_ok]|]. do 2 (split; [done|]). cbn. split_and!; lia.
Qed.

(** One use of the channel: who sends, whether the network loses the message,
    the payload, the fresh keys of both ends and the receiver's clock. *)
Record Use : Type := mkUse {
  u_from_a : bool; u_lost : bool; u_msg : bytes; u_fresh_tx : bytes; u_fresh_rx : bytes; u_now : Z; u_now' : Z }.

(** One message from [tx] to [rx]: both sessions afterwards and what [rx] got. *)
Definition transmit (tx rx : Session) (u : Use) : Session * Session * list (option bytes) :=
  let '(tx, msg) := Session_encrypt tx (u_msg u) (u_fresh_tx u) in
  if u_lost u then (tx, rx, [])
  else let '(rx, got) := Session_decrypt rx msg (u_fresh_rx u) (u_now u) (u_now' u) in (tx, rx, [got]).

Fixpoint exchange (a b : Session) (us : list Use) : Session * Session * list (option bytes) :=
  match us with
  | [] => (a, b, [])
  | u :: us =>
    let '(a, b, got) :=
      if u_from_a u then transmit a b u else let '(b, a, got) := transmit b a u in (a, b, got) in
    let '(a, b, rest) := exchange a b us in (a, b, got ++ rest)
  end.

Lemma in_sync_sym a b : in_sync a b -> in_sync b a.
Proof. intros [Hab|Hab]; [by right|by left]. Qed.

Lemma transmit_spec a b u : in_sync a b -> s_send_nonce a + 1 < 2 ^ 64 ->
  exists a' b', transmit a b u = (a', b', if u_lost u then [] else [Some (u_msg u)]) /\ in_sync a' b' /\
    s_send_nonce a' = s_send_nonce a + 1 /\ s_send_nonce b' <= s_send_nonce b.
Proof.
  intros Hs Hn. unfold transmit.
  assert (exists msg b', Session_encrypt a (u_msg u) (u_fresh_tx u) = (set_send_nonce a (s_send_nonce a + 1), msg) /\
    Session_decrypt b msg (u_fresh_rx u) (u_now u) (u_now' u) = (b', Some (u_msg u)) /\
    in_sync (set_send_nonce a (s_send_nonce a + 1)) b' /\ s_send_nonce b' <= s_send_nonce b) as (msg & b' & E1 & E2 & Hs' & Hle).
  { destruct Hs as [Hab|Hba]; [by apply deliver_ahead|].
    destruct (deliver_back b a (u_msg u) (u_fresh_rx u) (u_fresh_tx u) (u_now u) (u_now' u) Hba Hn) as (msg & b' & ? & ? & Hs' & ?).
    exists msg, b'. by apply in_sync_sym in Hs'. }
  rewrite E1. destruct (u_lost u).
  - eexists _, b. split; [done|]. split; [|cbn; lia].
    assert (is_u64 (s_send_nonce a + 1)).
    { destruct Hs as [((Ha & _) & _)|((_ & Ha) & _)]; destruct Ha as (_ & _ & _ & _ & [? ?]); unfold is_u64; lia. }
    destruct Hs as [Hab|Hba]; [left; apply ahead_send|right; apply ahead_send_back]; done || lia.
  - rewrite E2. eexists _, b'. split; [done|]. split; [done|]. cbn. lia.
Qed.

Lemma exchange_spec us : forall a b, in_sync a b ->
  s_send_nonce a + Z.of_nat (length us) < 2 ^ 64 -> s_send_nonce b + Z.of_nat (length us) < 2 ^ 64 ->
  exists a' b', exchange a b us = (a', b', (fun u => Some (u_msg u)) <$> filter (fun u => u_lost u = false) us) /\ in_sync a' b'.
Proof.
  induction us as [|u us IH]; intros a b Hs Ha Hb; [by exists a, b|].
  cbn [length] in Ha, Hb. rewrite Nat2Z.inj_succ in Ha, Hb. cbn [exchange].
  assert (forall x : list (option bytes), (if u_lost u then [] else [Some (u_msg u)]) ++ x =
    if u_lost u then x else Some (u_msg u) :: x) as Hx by (intros; by destruct (u_lost u)).
  destruct (u_from_a u).
  - destruct (transmit_spec a b u Hs) as (a' & b' & -> & Hs' & Na & Nb); [lia|].
    destruct (IH a' b' Hs') as (a2 & b2 & -> & Hs2); [lia..|]. exists a2, b2. split; [|done].
    rewrite filter_cons, Hx. by destruct (u_lost u).
  - destruct (transmit_spec b a u (in_sync_sym _ _ Hs)) as (b' & a' & -> & Hs' & Nb & Na); [lia|].
    destruct (IH a' b' (in_sync_sym _ _ Hs')) as (a2 & b2 & -> & Hs2); [lia..|]. exists a2, b2. split; [|done].
    rewrite filter_cons, Hx. by destruct (u_lost u).
Qed.
End channel.

(** ** The opening of a session *)

Section opening.
Context `{!Ed25519} `{!NaclBox} `{!NaclBoxLaws}.

(** The first message from a peer: a session from its keys, with the buffered
    keys of our own init if there is one, and the message handled as an init. *)
Definition open_session (init : SessionInit) (buffered : option (bytes * bytes)) (recv_priv send_priv next_priv : bytes)
  (ack_seq : Z) (fresh : bytes) : Session * option SessionInit :=
  let s := for_init init recv_priv send_priv next_priv in
  let s := match buffered with
           | Some (sp, np) => adopt_buffered s (box_pub sp) sp (box_pub np) np
           | None => s
           end in
  handle_init s init ack_seq fresh.

(** The init of [session_send_kind]. *)
Definition first_init (sp np : bytes) (seq : Z) : SessionInit := mkSessionInit (box_pub sp) (box_pub np) 0 seq.

Lemma first_init_ok sp np seq : is_u64 seq -> SessionInit_ok (first_init sp np seq).
Proof. intros Hq. split; [apply box_pub_ok|]. split; [apply box_pub_ok|]. split; [unfold is_u64; cbn; lia|done]. Qed.

Lemma make_init_ok s seq : session_ok s -> is_u64 seq -> SessionInit_ok (make_init s seq).
Proof.
  intros ((_ & Hs & Hn) & _ & _ & (_ & _ & Hl) & _) Hq. unfold SessionInit_ok. cbn.
  rewrite Hs, Hn. split_and!; try done; apply box_pub_ok.
Qed.

Lemma open_session_spec init buf r s n q f : SessionInit_ok init -> 1 <= si_seq init ->
  exists s0, session_ok s0 /\ open_session init buf r s n q f = (apply_update s0 init f, Some (make_init (apply_update s0 init f) q)) /\
    s_local_key_seq s0 = 0 /\ s_send_nonce s0 = 0 /\
    (s_send_priv s0, s_next_priv s0) = from_option (fun p => p) (s, n) buf.
Proof.
  intros Hi Hq. pose proof Hi as (_ & _ & _ & Hu). unfold open_session.
  assert (forall s0, s_seq s0 = wrapping_sub (si_seq init) 1 -> handle_init s0 init q f =
    (apply_update s0 init f, Some (make_init (apply_update s0 init f) q))) as Hh.
  { intros s0 E. unfold handle_init. rewrite E. unfold wrapping_sub. rewrite wrap64_small by (unfold is_u64 in *; lia).
    destruct (Z.leb_spec (si_seq init) (si_seq init - 1)); [lia|done]. }
  destruct buf as [[sp np]|]; eexists; (split; [|split; [by apply Hh|done]]);
    [apply adopt_buffered_ok|]; by apply for_init_ok.
Qed.

(** The responder's session and the initiator's, once it has the ack. *)
Lemma opening_ahead sp np seqA seqB seqA' r s n fB r' s' n' fA :
  1 <= seqA -> is_u64 seqA -> 1 <= seqB -> is_u64 seqB ->
  exists b a ack ack',
    open_session (first_init sp np seqA) None r s n seqB fB = (b, Some ack) /\
    open_session ack (Some (sp, np)) r' s' n' seqA' fA = (a, Some ack') /\
    ahead a b /\ ack' = make_init a seqA' /\ s_seq b = seqA /\ s_send_nonce a = 0 /\ s_send_nonce b = 0.
Proof.
  intros Ha1 Ha2 Hb1 Hb2. pose proof (first_init_ok sp np seqA Ha2) as Hi.
  destruct (open_session_spec _ None r s n seqB fB Hi Ha1) as (b0 & Hb0 & Eb & Lb & Nb & Pb).
  set (b := apply_update b0 (first_init sp np seqA) fB) in *. assert (session_ok b) as Hb by by apply apply_update_ok.
  pose proof (make_init_ok b seqB Hb Hb2) as Hack.
  destruct (open_session_spec _ (Some (sp, np)) r' s' n' seqA' fA Hack Hb1) as (a0 & Ha0 & Ea & La & Na & Pa).
  set (a := apply_update a0 (make_init b seqB) fA) in *. assert (session_ok a) as Ha by by apply apply_update_ok.
  cbn in Pa. injection Pa as Pa1 Pa2. pose proof Ha0 as ((_ & Sa & Xa) & _). rewrite Pa1 in Sa. rewrite Pa2 in Xa.
  exists b, a, (make_init b seqB), (make_init a seqA').
  split; [exact Eb|]. split; [exact Ea|]. split; [|done].
  split; [done|]. subst a b. cbn. rewrite La, Lb, Sa, Xa, Na, Nb. split_and!; done.
Qed.
End opening.

(** ** Properties *)

Section properties.
Context `{!Ed25519} `{!Ed25519Laws} `{!NaclBox} `{!NaclBoxLaws}.

(** C11: no replay. A traffic message that a session has opened is refused by
    the session it leaves, whatever keys are generated and whenever it is
    replayed, also when accepting it rotated the keys. *)
Theorem replay_refused (s s' : Session) (msg m fresh fresh2 : bytes) (now now' now2 now2' : Z) :
  is_u64 (s_remote_key_seq s) -> is_u64 (s_local_key_seq s) ->
  Session_decrypt s msg fresh now now' = (s', Some m) ->
  Session_decrypt s' msg fresh2 now2 now2' = (s', None).
Proof.
  intros Hr Hl. unfold Session_decrypt. destruct (traffic_header msg) as [[[[rks lks] nonce] body]|]; [|done].
  destruct (select_case s rks lks) as [c|] eqn:Hc; [|done]. destruct (negb _); [done|].
  destruct (box_open _ _ _) as [o|]; [|done]. destruct (decide _); [done|]. intros [= <- _].
  pose proof (accepted_case s c rks lks nonce (take 32 o) fresh now now' Hr Hl Hc) as Hacc.
  revert Hacc. clear Hc. cbv zeta.
  destruct c; (destruct (select_case _ rks lks) as [c'|]; [|done]); intros Hx; by rewrite Hx, Z.ltb_irrefl.
Qed.

(** C33: init and ack messages reach their addressee and are authentic. What
    [encrypt_msg] seals to a node's key it opens again as the same init; and an
    init is only ever accepted from data whose box opens under our key to a
    body signed, together with the ephemeral key, by the sender it is
    attributed to, with the accepted fields read from that body. *)
Theorem init_authentic (i : SessionInit) (eph sk dest : bytes) (mt : Z) :
  SessionInit_ok i -> mt = SESSION_TYPE_INIT \/ mt = SESSION_TYPE_ACK ->
  (exists msg, encrypt_msg i eph mt sk (verifying_key dest) = Some msg /\
    decrypt_msg (ed_to_curve_priv dest) (verifying_key sk) msg = Some i) /\
  (forall priv from data j, decrypt_msg priv from data = Some j ->
    exists payload, unsealed_plaintext priv data = Some payload /\ length payload = 144%nat /\
      ed_verify from (slice data 1 33 ++ drop 64 payload) (take 64 payload) = true /\
      si_current j = slice payload 64 96 /\ si_seq j = be_val (slice payload 136 144)).
Proof.
  intros Hi Hmt. split.
  - destruct (encrypt_msg_spec i eph mt sk dest Hi) as (msg & E & _ & D). exists msg. auto.
  - intros priv from data j. unfold decrypt_msg, unsealed_plaintext.
    case_bool_decide as Hlen; cbn [negb orb]; [|done]. rewrite decide_True by done.
    destruct (_ && _); [done|].
    destruct (box_open (salsa_box (slice data 1 33) priv) 0 (drop 33 data)) as [payload|]; cbn [mbind option_bind]; [|done].
    destruct (decide _) as [Hp|]; [|done]. destruct (ed_verify from _ _) eqn:Hv; [|done].
    intros [= <-]. by exists payload.
Qed.

(** The state of an open session stays sound under any sequence of inits,
    acks, sends and receipts: the pairs stay pairs, the boxes are those of the
    current keys and the counters machine words; the remote sequence number
    never falls, and an init or ack that is not newer changes nothing and is
    not answered. *)
Theorem session_run_sound (s : Session) (es : list session_event) :
  session_ok s -> Forall event_ok es ->
  let s' := fold_left session_step es s in
  session_ok s' /\ s_seq s <= s_seq s' /\
  forall i q f, si_seq i <= s_seq s -> handle_init s' i q f = (s', None) /\ handle_ack s' i f = s'.
Proof.
  intros Hs Hes s'. pose proof (session_run_seq es s) as Hseq. split; [|split; [done|]].
  - subst s'. clear Hseq. revert s Hs. induction Hes as [|e es He Hes IH]; intros s Hs; [done|].
    cbn. apply IH. by apply session_step_ok.
  - intros i q f Hi. fold s' in Hseq. unfold handle_init, handle_ack.
    destruct (Z.leb_spec (si_seq i) (s_seq s')); [done|lia].
Qed.

(** C3: a session carries its payloads. An initiator whose init the responder
    answers, and which opens its session from the ack, shares a working session
    with it, whether or not the responder has also handled the initiator's own
    ack: any interleaving of sends by the two ends, with any messages lost on
    the way, any clock readings and any fresh keys, so through any number of key
    rotations, delivers exactly the payloads that were not lost. *)
Theorem session_delivers (sp np r s n fB r' s' n' fA fC : bytes) (seqA seqB seqA' : Z) (acked : bool) (us : list Use) :
  1 <= seqA < seqA' -> is_u64 seqA' -> 1 <= seqB -> is_u64 seqB -> Z.of_nat (length us) < 2 ^ 64 ->
  exists b a ack ack',
    open_session (first_init sp np seqA) None r s n seqB fB = (b, Some ack) /\
    open_session ack (Some (sp, np)) r' s' n' seqA' fA = (a, Some ack') /\
    (exchange a (if acked then handle_ack b ack' fC else b) us).2 =
      (fun u => Some (u_msg u)) <$> filter (fun u => u_lost u = false) us.
Proof.
  intros HA Hu HB HuB Hlen.
  destruct (opening_ahead sp np seqA seqB seqA' r s n fB r' s' n' fA) as (b & a & ack & ack' & E1 & E2 & Hab & Hack & Hq & Na & Nb);
    [lia|unfold is_u64 in *; lia|lia|done|].
  exists b, a, ack, ack'. do 2 (split; [done|]).
  assert (in_sync a (if acked then handle_ack b ack' fC else b) /\ s_send_nonce (if acked then handle_ack b ack' fC else b) = 0)
    as [Hs Ns].
  { destruct acked; [|split; [by left|done]]. unfold handle_ack. rewrite Hack, Hq.
    destruct (Z.leb_spec (si_seq (make_init a seqA')) seqA); [cbn in *; lia|]. split; [right|done].
    apply ahead_rotate; [done|done| |lia]. rewrite Nb. unfold is_u64. lia. }
  destruct (exchange_spec us _ _ Hs) as (a' & b' & -> & _); [lia..|done].
Qed.
End properties.

(** ** Witnesses: two toy nodes *)

Definition toy_key (x : Z) : bytes := replicate 32 x.

Definition demo_responder : Session * option SessionInit :=
  @open_session toy_box (@first_init toy_box (toy_key 1) (toy_key 2) 5) None (toy_key 3) (toy_key 4) (toy_key 6) 9 (toy_key 7).

Definition demo_ack : SessionInit := default (mkSessionInit [] [] 0 0) demo_responder.2.

Definition demo_initiator : Session * option SessionInit :=
  @open_session toy_box demo_ack (Some (toy_key 1, toy_key 2)) (toy_key 11) (toy_key 12) (toy_key 13) 10 (toy_key 14).

(** The initiator's first traffic message, which rotates the responder's keys. *)
Definition demo_traffic : bytes := (@Session_encrypt toy_box demo_initiator.1 [7; 7] (toy_key 15)).2.

Lemma replay_refused_witness :
  let s' := (@Session_decrypt toy_box demo_responder.1 demo_traffic (toy_key 16) 0 0).1 in
  s_local_key_seq s' = 2 /\ @Session_decrypt toy_box s' demo_traffic (toy_key 17) 1 1 = (s', None).
Proof.
  split; [vm_compute; reflexivity|].
  apply (@replay_refused toy_box demo_responder.1 _ demo_traffic [7; 7] (toy_key 16) (toy_key 17) 0 0 1 1);
    [vm_compute; split; [discriminate|reflexivity]..|].
  vm_compute. reflexivity.
Defined.

Lemma init_authentic_witness :
  exists msg, @encrypt_msg toy_ed25519 toy_box demo_ack (toy_key 20) SESSION_TYPE_ACK (toy_key 21) (toy_key 22) = Some msg /\
    @decrypt_msg toy_ed25519 toy_box (toy_key 22) (toy_key 21) msg = Some demo_ack.
Proof.
  apply (@init_authentic toy_ed25519 toy_ed25519_laws toy_box toy_box_laws demo_ack (toy_key 20) (toy_key 21) (toy_key 22)
    SESSION_TYPE_ACK); [|right; reflexivity].
  repeat split; vm_compute; (reflexivity || discriminate).
Defined.

Lemma session_run_sound_witness :
  @session_ok toy_box (fold_left (@session_step toy_box)
    [EvEncrypt [1] (toy_key 30); EvAck (mkSessionInit (toy_key 1) (toy_key 2) 3 40) (toy_key 31)] demo_responder.1).
Proof.
  apply (@session_run_sound toy_box demo_responder.1
    [EvEncrypt [1] (toy_key 30); EvAck (mkSessionInit (toy_key 1) (toy_key 2) 3 40) (toy_key 31)]).
  - repeat split; vm_compute; (reflexivity || discriminate).
  - repeat constructor; vm_compute; (reflexivity || discriminate).
Defined.

Lemma session_delivers_witness : exists b a ack ack',
  @open_session toy_box (@first_init toy_box (toy_key 1) (toy_key 2) 5) None (toy_key 3) (toy_key 4) (toy_key 6) 9 (toy_key 7) = (b, Some ack) /\
  @open_session toy_box ack (Some (toy_key 1, toy_key 2)) (toy_key 11) (toy_key 12) (toy_key 13) 10 (toy_key 14) = (a, Some ack') /\
  (@exchange toy_box a (@handle_ack toy_box b ack' (toy_key 41))
    [mkUse true false [1] (toy_key 50) (toy_key 51) 0 0; mkUse false true [2] (toy_key 52) (toy_key 53) 0 0;
     mkUse false false [3] (toy_key 54) (toy_key 55) 0 0; mkUse true false [4] (toy_key 56) (toy_key 57) 0 0]).2 =
  [Some [1]; Some [3]; Some [4]].
Proof.
  apply (@session_delivers toy_ed25519 toy_box toy_box_laws (toy_key 1) (toy_key 2) (toy_key 3) (toy_key 4) (toy_key 6) (toy_key 7)
    (toy_key 11) (toy_key 12) (toy_key 13) (toy_key 14) (toy_key 41) 5 9 10 true
    [mkUse true false [1] (toy_key 50) (toy_key 51) 0 0; mkUse false true [2] (toy_key 52) (toy_key 53) 0 0;
     mkUse false false [3] (toy_key 54) (toy_key 55) 0 0; mkUse true false [4] (toy_key 56) (toy_key 57) 0 0]);
    unfold is_u64; cbn; lia.
Defined.
