(* ===== verification/Pathfind.v ===== *)
(** * Pathfind: coordinates and greedy forwarding (the pure part of the
    [impl Router] of [src/pathfind.rs]).

    The coordinates of a node are the ports on the way from the root to it, and
    a message addressed to coordinates goes to a neighbour strictly closer to
    them. The walk up the tree is a loop whose visited nodes all have an info,
    so the number of infos bounds it. What coordinates say of the choice of a
    parent is here too. *)
From stdpp Require Import base tactics list numbers gmap.
From S2P Require Import Prelude Errors Clock Frame Address Table Bloom Wire Handshake LinkSet Router Tree Demo.

Local Open Scope Z_scope.

Fixpoint root_path_loop (fuel : nat) (infos : gmap bytes Info) (seen : gset bytes) (ports : list Z) (next : bytes)
  : option (list Z) :=
  match fuel with
  | O => None
  | S fuel' =>
    if decide (next ∈ seen) then None
    else
      info ← infos !! next;
      if decide (next = i_parent info) then Some ports
      else root_path_loop fuel' infos ({[next]} ∪ seen) (ports ++ [res_port (i_res info)]) (i_parent info)
  end.

Definition root_path_for (infos : gmap bytes Info) (dest : bytes) : option (list Z) :=
  @rev Z <$> root_path_loop (S (size infos)) infos ∅ [] dest.

Definition root_path (r : Router) : option (list Z) := root_path_for (t_infos (r_tree r)) (r_pubkey r).

(** [a.iter().zip(b).take_while(|(x, y)| x == y).count()]. *)
Fixpoint common (a b : list Z) : nat :=
  match a, b with
  | x :: a', y :: b' => if x =? y then S (common a' b') else O
  | _, _ => O
  end.

Definition coords_dist (dest_path key_path : list Z) : Z :=
  Z.of_nat (length key_path + length dest_path - 2 * common dest_path key_path).

(** First pass: the live links of every node strictly closer than [best_dist]. *)
Definition closer_links (r : Router) (ls : LinkSet) (path : list Z) (best_dist : Z) : list LinkId :=
  k ← sort_keys (link_peers ls);
  match root_path_for (t_infos (r_tree r)) k with
  | Some kp => if coords_dist path kp <? best_dist then links_to ls k else []
  | None => []
  end.

(** The variables of the second pass. *)
Record next_best : Type := mkNextBest { nb_link : option LinkId; nb_cost : Z; nb_dist : Z }.

(** Is the candidate better than the best so far? *)
Definition takes (t : TreeState) (b : next_best) (l : LinkState) (cost dist : Z) : bool :=
  match nb_link b ≫= fun id => t_links t !! id with
  | None => true
  | Some bl =>
    if bool_decide (l_peer l = l_peer bl) && (l_prio l <? l_prio bl) then true
    else if bool_decide (l_peer l = l_peer bl) then false
    else
      let c := saturating_mul cost dist in
      let bc := saturating_mul (nb_cost b) (nb_dist b) in
      if c <? bc then true else if bc <? c then false
      else if dist <? nb_dist b then true else if nb_dist b <? dist then false
      else if cost <? nb_cost b then true else if nb_cost b <? cost then false
      else l_order l <? l_order bl
  end.

Definition next_step (t : TreeState) (path : list Z) (b : next_best) (id : LinkId) : next_best :=
  match t_links t !! id with
  | None => b
  | Some l =>
    let dist := coords_dist path (unwrap_or (root_path_for (t_infos t) (l_peer l)) []) in
    let cost := link_cost t id in
    if takes t b l cost dist then mkNextBest (Some id) cost dist else b
  end.

(** The next hop and the new watermark. *)
Definition greedy_next (r : Router) (ls : LinkSet) (path : list Z) (watermark : Z) : option LinkId * Z :=
  let second (best_dist watermark : Z) :=
    (nb_link (fold_left (next_step (r_tree r) path) (closer_links r ls path best_dist)
                (mkNextBest None U64_MAX U64_MAX)), watermark) in
  match root_path r with
  | Some sp =>
    let d := coords_dist path sp in
    if d <? watermark then second d d else (None, watermark)
  | None => second U64_MAX watermark
  end.

(** ** The walk to the root *)

(** The ports from the root to a node, read off the parents. *)
Inductive tree_path (infos : gmap bytes Info) : bytes -> list Z -> Prop :=
  | tree_path_root k i : infos !! k = Some i -> i_parent i = k -> tree_path infos k []
  | tree_path_child k i ports : infos !! k = Some i -> i_parent i <> k -> tree_path infos (i_parent i) ports ->
      tree_path infos k (ports ++ [res_port (i_res i)]).

Lemma tree_path_det infos k p q : tree_path infos k p -> tree_path infos k q -> p = q.
Proof.
  intros Hp. revert q. induction Hp as [k i Hi Hk|k i ports Hi Hk Hp IH]; intros q Hq;
    destruct Hq as [? j Hj Hr|? j ports' Hj Hr Hq]; simplify_eq; try done.
  by rewrite (IH ports').
Qed.

Lemma root_path_loop_sound fuel infos : forall seen ports next q,
  root_path_loop fuel infos seen ports next = Some q -> exists p, tree_path infos next p /\ q = ports ++ rev p.
Proof.
  induction fuel as [|fuel IH]; intros seen ports next q; [done|]. cbn [root_path_loop].
  destruct (decide (next ∈ seen)); [done|]. destruct (infos !! next) as [i|] eqn:Hi; cbn [mbind option_bind]; [|done].
  destruct (decide (next = i_parent i)) as [E|E].
  - intros [= <-]. exists []. split; [by eapply tree_path_root|by rewrite app_nil_r].
  - intros (p & Hp & ->)%IH. exists (p ++ [res_port (i_res i)]). split; [by eapply tree_path_child|].
    by rewrite rev_unit, <-app_assoc.
Qed.

(** The nodes seen are strictly below the current one, so the walk does not
    meet them again, and there are no more of them than infos. *)
Lemma root_path_loop_complete fuel infos : forall seen ports next p,
  tree_path infos next p -> seen ⊆ dom infos -> (fuel + size seen = S (size infos))%nat ->
  (forall s, s ∈ seen -> exists q, tree_path infos s q /\ (length p < length q)%nat) ->
  root_path_loop fuel infos seen ports next = Some (ports ++ rev p).
Proof.
  induction fuel as [|fuel IH]; intros seen ports next p Hp Hsub Hf Hseen.
  { apply subseteq_size in Hsub. rewrite size_dom in Hsub. lia. }
  cbn [root_path_loop]. rewrite decide_False.
  2: { intros Hin. destruct (Hseen _ Hin) as (q & Hq & Hl). rewrite (tree_path_det _ _ _ _ Hp Hq) in Hl. lia. }
  assert (next ∉ seen) as Hnew.
  { intros Hin. destruct (Hseen _ Hin) as (q & Hq & Hl). rewrite (tree_path_det _ _ _ _ Hp Hq) in Hl. lia. }
  pose proof Hp as Hp0.
  destruct Hp as [k i Hi Hk|k i ps Hi Hk Hp]; rewrite Hi; cbn [mbind option_bind].
  - rewrite decide_True by done. by rewrite app_nil_r.
  - rewrite decide_False by congruence. rewrite (IH _ _ _ ps); [by rewrite rev_unit, <-app_assoc|done| | |].
    + apply union_subseteq. split; [|done]. apply singleton_subseteq_l, elem_of_dom. eauto.
    + rewrite size_union by set_solver. rewrite size_singleton. lia.
    + intros s [->%elem_of_singleton|Hs]%elem_of_union.
      * exists (ps ++ [res_port (i_res i)]). split; [done|]. rewrite length_app. cbn [length]. lia.
      * destruct (Hseen s Hs) as (q & Hq & Hl). exists q. rewrite length_app in Hl. cbn [length] in Hl. split; [done|lia].
Qed.

Lemma root_path_for_iff infos k p : root_path_for infos k = Some p <-> tree_path infos k p.
Proof.
  unfold root_path_for. split.
  - intros (q & (p' & Hp & ->)%root_path_loop_sound & ->)%fmap_Some. cbn. by rewrite rev_involutive.
  - intros Hp. rewrite (root_path_loop_complete _ _ _ _ _ p); [cbn; by rewrite rev_involutive|done|set_solver| |set_solver].
    rewrite size_empty. lia.
Qed.

(** ** Distances *)

Lemma common_le a b : (common a b <= length a /\ common a b <= length b)%nat.
Proof.
  revert b. induction a as [|x a IH]; intros [|y b]; cbn; try lia. destruct (x =? y); cbn; [|lia]. specialize (IH b). lia.
Qed.

Lemma common_sym a b : common a b = common b a.
Proof. revert b. induction a as [|x a IH]; intros [|y b]; cbn; try done. rewrite Z.eqb_sym. destruct (y =? x); by rewrite ?IH. Qed.

Lemma common_refl a : common a a = length a.
Proof. induction a as [|x a IH]; cbn; [done|]. by rewrite Z.eqb_refl, IH. Qed.

(** Prefix lengths are an ultrametric. *)
Lemma common_ultra a b c : (Nat.min (common a b) (common b c) <= common a c)%nat.
Proof.
  revert b c. induction a as [|x a IH]; intros [|y b] [|z c]; cbn; try lia.
  destruct (Z.eqb_spec x y), (Z.eqb_spec y z), (Z.eqb_spec x z); subst; try lia; try done. specialize (IH b c). lia.
Qed.

Lemma common_app a b c : common (a ++ b) (a ++ c) = (length a + common b c)%nat.
Proof. induction a as [|x a IH]; cbn; [done|]. by rewrite Z.eqb_refl, IH. Qed.

Lemma common_full a b : common a b = length a -> common a b = length b -> a = b.
Proof.
  revert b. induction a as [|x a IH]; intros [|y b]; cbn; try done.
  destruct (Z.eqb_spec x y); [|done]. intros ? ?. subst. f_equal. apply IH; congruence.
Qed.

(** Beyond a common prefix shorter than [s], the last port of [s] does not count. *)
Lemma common_snoc d s x : (common d (s ++ [x]) <= length s)%nat -> common d (s ++ [x]) = common d s.
Proof.
  revert d. induction s as [|y s IH]; intros [|z d]; cbn; try done.
  - destruct (z =? x); cbn; [lia|done].
  - destruct (z =? y); cbn; [|done]. intros ?. rewrite IH by lia. done.
Qed.

(** Unless the node is on the way to the destination, its parent is closer. *)
Lemma parent_closer d s x : ~ (s ++ [x]) `prefix_of` d -> coords_dist d s = coords_dist d (s ++ [x]) - 1.
Proof.
  intros Hp. unfold coords_dist. rewrite length_app. cbn [length].
  assert (common d (s ++ [x]) <= length s)%nat as Hc.
  { destruct (Nat.le_gt_cases (common d (s ++ [x])) (length s)) as [|Hgt]; [done|]. destruct Hp.
    pose proof (common_le d (s ++ [x])) as [_ Hle]. rewrite length_app in Hle. cbn in Hle.
    assert (common d (s ++ [x]) = length (s ++ [x])) as E by (rewrite length_app; cbn; lia).
    clear -E. revert d E. generalize (s ++ [x]) as l. induction l as [|y l IH]; intros d E; [apply prefix_nil|].
    destruct d as [|z d]; [done|]. cbn in E. destruct (Z.eqb_spec z y) as [->|]; [|done].
    apply prefix_cons, IH. by injection E. }
  rewrite common_snoc by done. pose proof (common_le d s). lia.
Qed.

(** ** Forwarding *)

Lemma elem_of_closer r ls path bd id : id ∈ closer_links r ls path bd <->
  exists k kp, k ∈ link_peers ls /\ root_path_for (t_infos (r_tree r)) k = Some kp /\ coords_dist path kp < bd /\ id ∈ links_to ls k.
Proof.
  unfold closer_links. rewrite list_elem_of_bind. split.
  - intros (k & Hid & Hk). rewrite sort_keys_elem in Hk. destruct (root_path_for _ k) as [kp|] eqn:Ep; [|by apply elem_of_nil in Hid].
    destruct (Z.ltb_spec (coords_dist path kp) bd); [|by apply elem_of_nil in Hid]. exists k, kp. done.
  - intros (k & kp & Hk & Ep & Hd & Hid). exists k. rewrite Ep, sort_keys_elem.
    destruct (Z.ltb_spec (coords_dist path kp) bd); [done|lia].
Qed.

Definition linked (t : TreeState) (id : LinkId) : Prop := is_Some (t_links t !! id).

Lemma fold_next_from t path l : forall b,
  match nb_link (fold_left (next_step t path) l b) with
  | Some id => nb_link b = Some id \/ (id ∈ l /\ linked t id)
  | None => nb_link b = None
  end.
Proof.
  induction l as [|x l IH]; intros b; cbn [fold_left].
  - destruct (nb_link b); [by left|done].
  - specialize (IH (next_step t path b x)). unfold next_step in *.
    destruct (t_links t !! x) as [st|] eqn:Ex.
    + destruct (takes t b st _ _); cbn [nb_link] in *.
      * destruct (nb_link _) as [id|]; [|done]. right. destruct IH as [[= ->]|[? ?]].
        -- split; [left|]. exists st. done.
        -- split; [by right|done].
      * destruct (nb_link (fold_left _ _ _)) as [id|]; [|done]. destruct IH as [?|[? ?]]; [by left|].
        right. split; [by right|done].
    + destruct (nb_link (fold_left _ _ _)) as [id|]; [|done]. destruct IH as [?|[? ?]]; [by left|].
      right. split; [by right|done].
Qed.

Lemma fold_next_keeps t path l : forall b, is_Some (nb_link b) -> is_Some (nb_link (fold_left (next_step t path) l b)).
Proof.
  induction l as [|x l IH]; intros b Hb; [done|]. cbn [fold_left]. apply IH. unfold next_step.
  destruct (t_links t !! x); [|done]. by destruct (takes t b _ _ _).
Qed.

(** A registered candidate is enough for a next hop. *)
Lemma fold_next_some t path l id : forall b, id ∈ l -> linked t id -> is_Some (nb_link (fold_left (next_step t path) l b)).
Proof.
  induction l as [|x l IH]; intros b Hin Hl; [by apply elem_of_nil in Hin|]. cbn [fold_left].
  apply elem_of_cons in Hin as [->|Hin]; [|by apply IH]. apply fold_next_keeps.
  destruct Hl as [st Hst]. unfold next_step. rewrite Hst. destruct (takes t b _ _ _) eqn:Ht; [done|].
  unfold takes in Ht. by destruct (nb_link b).
Qed.

(** What a next hop is. *)
Lemma greedy_next_hop r ls path w id w' : greedy_next r ls path w = (Some id, w') ->
  linked (r_tree r) id /\
  exists k kp, id ∈ links_to ls k /\ root_path_for (t_infos (r_tree r)) k = Some kp /\
    match root_path r with
    | Some sp => w' = coords_dist path sp /\ w' < w /\ coords_dist path kp < w'
    | None => w' = w
    end.
Proof.
  unfold greedy_next. destruct (root_path r) as [sp|].
  - destruct (Z.ltb_spec (coords_dist path sp) w) as [Hw|]; [|done].
    intros [= Hnb <-]. pose proof (fold_next_from (r_tree r) path (closer_links r ls path (coords_dist path sp))
      (mkNextBest None U64_MAX U64_MAX)) as Hf. rewrite Hnb in Hf. destruct Hf as [?|[Hin Hl]]; [done|].
    apply elem_of_closer in Hin as (k & kp & Hk & Ep & Hd & Hid). split; [done|]. exists k, kp. done.
  - intros [= Hnb <-]. pose proof (fold_next_from (r_tree r) path (closer_links r ls path U64_MAX)
      (mkNextBest None U64_MAX U64_MAX)) as Hf. rewrite Hnb in Hf. destruct Hf as [?|[Hin Hl]]; [done|].
    apply elem_of_closer in Hin as (k & kp & Hk & Ep & Hd & Hid). split; [done|]. exists k, kp. done.
Qed.

Lemma link_peers_links_to ls id k : id ∈ links_to ls k -> k ∈ link_peers ls.
Proof.
  unfold links_to, link_peers. rewrite list_elem_of_fmap. intros (e & -> & (Hp & He)%list_elem_of_filter). subst.
  assert (forall es acc, le_peer e ∈ acc \/ e ∈ es ->
    le_peer e ∈ fold_left (fun out e => if bool_decide (le_peer e ∈ out) then out else out ++ [le_peer e]) es acc) as Hf.
  { clear. induction es as [|x es IH]; intros acc [Ha|He]; cbn [fold_left]; try done.
    - by apply elem_of_nil in He.
    - apply IH. left. case_bool_decide; [done|]. apply elem_of_app. by left.
    - apply elem_of_cons in He as [->|He]; apply IH; [left|by right].
      case_bool_decide; [done|]. apply elem_of_app. right. apply list_elem_of_singleton. done. }
  apply Hf. by right.
Qed.

(** A chain of hops: a message stamped with a watermark, and the routers that
    pass it on, each with the watermark that the one before left on it. *)
Inductive forwards (path : list Z) : Z -> list (Router * LinkSet) -> Z -> Prop :=
  | forwards_nil w : forwards path w [] w
  | forwards_cons r ls id w w' hops w'' :
      greedy_next r ls path w = (Some id, w') -> forwards path w' hops w'' -> forwards path w ((r, ls) :: hops) w''.

(** The hops at a router that has coordinates. *)
Definition located (hops : list (Router * LinkSet)) : list (Router * LinkSet) := filter (fun hop => is_Some (root_path hop.1)) hops.

Lemma forwards_app path w before after w' : forwards path w (before ++ after) w' ->
  exists m, forwards path w before m /\ forwards path m after w'.
Proof.
  revert w. induction before as [|[r ls] before IH]; intros w; [intros Hf; eexists; split; [constructor|exact Hf]|].
  inversion 1 as [|? ? id ? w1 ? ? Hg Hf]; subst. apply IH in Hf as (m & Hb & Ha).
  exists m. split; [by econstructor|done].
Qed.

Lemma forwards_located path w hops w' : forwards path w hops w' -> Z.of_nat (length (located hops)) + w' <= w.
Proof.
  unfold located. induction 1 as [|r ls id w w' hops w'' Hg Hf IH]; [cbn; lia|].
  apply greedy_next_hop in Hg as (_ & k & kp & _ & _ & Hw). rewrite filter_cons. cbn [fst].
  destruct (root_path r) as [sp|]; [rewrite decide_True by done; cbn [length]; lia|].
  rewrite decide_False by (intros [? ?]; done). lia.
Qed.

(** Whoever has coordinates is nearer than every stamp the message had before. *)
Lemma forwards_nearer path w hops w' r ls sp : forwards path w hops w' -> (r, ls) ∈ hops -> root_path r = Some sp ->
  coords_dist path sp < w.
Proof.
  intros Hf Hin Hr. apply list_elem_of_split in Hin as (before & after & ->). apply forwards_app in Hf as (m & Hb & Ha).
  pose proof (forwards_located _ _ _ _ Hb). inversion Ha as [|? ? id ? w1 ? ? Hg _]; subst.
  apply greedy_next_hop in Hg as (_ & k & kp & _ & _ & Hw). rewrite Hr in Hw. lia.
Qed.

(** ** Adopting a parent *)

(** A walk of [root_and_dists] visits every node on the way to the root. *)
Lemma root_loop_visits fuel infos : forall dists next root d p r ds,
  tree_path infos next p -> (fuel + size dists = S (size infos))%nat -> dom dists ⊆ dom infos ->
  (forall s, s ∈ dom dists -> exists q, tree_path infos s q /\ (length p < length q)%nat) ->
  root_loop fuel infos dists next root d = (r, ds) ->
  dom dists ⊆ dom ds /\ forall m x, m ∉ dom ds -> tree_path (<[m := x]> infos) next p.
Proof.
  induction fuel as [|fuel IH]; intros dists next root d p r ds Hp Hf Hsub Hseen E.
  { apply subseteq_size in Hsub. rewrite !size_dom in Hsub. lia. }
  cbn [root_loop] in E.
  destruct (dists !! next) as [v|] eqn:Ed.
  { destruct (Hseen next) as (q & Hq & Hl); [by apply elem_of_dom_2 in Ed|]. rewrite (tree_path_det _ _ _ _ Hp Hq) in Hl. lia. }
  assert (size (<[next := d]> dists) = S (size dists)) as Hsz by (by apply map_size_insert_None).
  destruct Hp as [k i Hi Hk|k i ps Hi Hk Hp]; rewrite Hi in E.
  - (* the root: the next step finds it visited *)
    assert (ds = <[k := d]> dists) as ->.
    { destruct fuel; cbn [root_loop] in E; [congruence|]. rewrite Hk, lookup_insert_eq in E. congruence. }
    split; [rewrite dom_insert; apply union_subseteq_r|]. intros m x Hm. eapply tree_path_root; [|exact Hk].
    rewrite lookup_insert_ne; [done|]. intros ->. apply Hm. rewrite dom_insert. apply elem_of_union. left. by apply elem_of_singleton.
  - destruct (IH (<[k := d]> dists) (i_parent i) k (d + 1) ps r ds) as [Hd Hins]; [done|lia| | |exact E|].
    + rewrite dom_insert. apply union_subseteq. split; [|done]. apply singleton_subseteq_l. by apply elem_of_dom_2 in Hi.
    + intros s. rewrite dom_insert. intros [->%elem_of_singleton|Hs]%elem_of_union.
      * exists (ps ++ [res_port (i_res i)]). split; [by eapply tree_path_child|]. rewrite length_app. cbn. lia.
      * destruct (Hseen s Hs) as (q & Hq & Hl). exists q. split; [done|]. rewrite length_app in Hl. cbn in Hl. lia.
    + rewrite dom_insert in Hd. apply union_subseteq in Hd as [Hk1 Hk2]. split; [done|]. intros m x Hm.
      eapply tree_path_child; [|done|by apply Hins].
      rewrite lookup_insert_ne; [done|]. intros ->. by apply Hm, Hk1, elem_of_singleton.
Qed.

Lemma adopt_path infos pk me res sig p : root_path_for infos pk = Some p ->
  (root_and_dists infos pk).2 !! me = None -> pk <> me ->
  root_path_for (<[me := mkInfo pk res sig]> infos) me = Some (p ++ [res_port res]).
Proof.
  intros Hp Hd Hne. apply root_path_for_iff in Hp. apply root_path_for_iff.
  destruct (root_and_dists infos pk) as [r ds] eqn:E. unfold root_and_dists in E. cbn [snd] in Hd.
  apply (root_loop_visits _ _ _ _ _ _ p) in E as [_ Hins]; [|done|by rewrite map_size_empty; lia|set_solver|set_solver].
  eapply (tree_path_child _ _ (mkInfo pk res sig)); [apply lookup_insert_eq|done|]. apply Hins. by apply not_elem_of_dom.
Qed.

(** A walk that reaches its root meets only nodes no further from it. *)
Lemma root_loop_above fuel infos : forall dists next root d p r ds,
  tree_path infos next p -> root_loop fuel infos dists next root d = (r, ds) ->
  forall m, is_Some (ds !! m) -> is_Some (dists !! m) \/ exists q, tree_path infos m q /\ (length q <= length p)%nat.
Proof.
  induction fuel as [|fuel IH]; intros dists next root d p r ds Hp E m Hm; cbn [root_loop] in E; [left; congruence|].
  destruct (dists !! next); [left; congruence|]. destruct (infos !! next) as [i|] eqn:Hi; [|left; congruence].
  assert (exists p', tree_path infos (i_parent i) p' /\ (length p' <= length p)%nat) as (p' & Hp' & Hl).
  { pose proof Hp as Hq. destruct Hp as [k j Hj Hk|k j ps Hj Hk Hp]; simplify_eq.
    - by exists [].
    - exists ps. rewrite length_app. split; [done|lia]. }
  destruct (IH _ _ _ _ _ _ _ Hp' E m Hm) as [[v Hv]|(q & Hq & Hlq)]; [|right; exists q; split; [done|lia]].
  apply lookup_insert_Some in Hv as [[<- _]|[_ Hv]]; [right; by exists p|left; by exists v].
Qed.

(** Who has coordinates does not hang above its own parent. *)
Lemma parent_eligible t me i : t_infos t !! me = Some i -> i_parent i <> me ->
  is_Some (root_path_for (t_infos t) me) -> eligible t me (i_parent i).
Proof.
  intros Hi Hne [sp Hsp%root_path_for_iff]. destruct Hsp as [k j Hj Hk|k j ps Hj Hk Hp]; [congruence|]. assert (j = i) as -> by congruence.
  assert (tree_path (t_infos t) k (ps ++ [res_port (i_res i)])) as Hme by (by eapply tree_path_child).
  unfold eligible. split; [destruct Hp; by eexists|]. unfold root_and_dists.
  destruct (root_loop _ _ _ _ _ _) as [r ds] eqn:E. cbn [snd]. apply eq_None_not_Some. intros Hm.
  destruct (root_loop_above _ _ _ _ _ _ _ _ _ Hp E k Hm) as [[v Hv]|(q & Hq & Hl)]; [by rewrite lookup_empty in Hv|].
  rewrite (tree_path_det _ _ _ _ Hq Hme), length_app in Hl. cbn in Hl. lia.
Qed.

Lemma root_of_self t me i : t_infos t !! me = Some i -> i_parent i = me -> root_of t me = me.
Proof.
  intros Hi Hp. unfold root_of, root_and_dists. cbn [root_loop]. rewrite lookup_empty, Hi, Hp.
  destruct (size (t_infos t)); cbn [root_loop]; [done|]. by rewrite lookup_insert_eq.
Qed.

(** ** Properties *)

(** Adopting a parent never closes a loop. If the walk from a node does not
    meet us, as the scan requires of a parent, and the node has coordinates,
    then with it as parent we have the coordinates one port below its own. *)
Theorem adopted_parent_coords (t : TreeState) (me pk : bytes) (res : SigRes) (sig : bytes) (p : list Z) :
  eligible t me pk -> pk <> me -> root_path_for (t_infos t) pk = Some p ->
  root_path_for (<[me := mkInfo pk res sig]> (t_infos t)) me = Some (p ++ [res_port res]).
Proof. intros [_ Hd] Hne Hp. by apply adopt_path. Qed.

(** C30: the choice of a parent. It is to be the root ourselves, to keep the
    current parent, or a peer that answered. A peer that answered is taken only if
    it does not hang below us. The current parent is kept only over a live link
    and with a root better than ourselves; it does not hang below us either as
    long as we have coordinates, that is, unless the announces we hold close a
    loop. The root is never worse than ourselves, nor than the root of any peer
    that answered and does not hang below us. *)
Theorem parent_choice (t : TreeState) (ls : LinkSet) (me : bytes) :
  let b := choose_parent t ls me in
  ((best_root b = me /\ best_parent b = me) \/
   (exists i, t_infos t !! me = Some i /\ best_parent b = i_parent i /\ has_peer ls (i_parent i) = true /\
      best_root b = root_of t me /\ lex_lt (root_of t me) me /\ i_parent i <> me /\
      (root_path_for (t_infos t) me <> None -> eligible t me (i_parent i))) \/
   (is_Some (t_responses t !! best_parent b) /\ eligible t me (best_parent b) /\ best_root b = root_of t (best_parent b))) /\
  lex_le (best_root b) me /\
  (forall pk, is_Some (t_responses t !! pk) -> eligible t me pk -> lex_le (best_root b) (root_of t pk)).
Proof.
  cbv zeta. unfold choose_parent. destruct (scanned_fold t ls me (sorted_keys (t_responses t)) (fix_start t ls me)) as (Hor & Hle & Hall).
  set (b := fold_left _ _ _) in *. pose proof (fix_start_cases t ls me) as Hst. cbv zeta in Hst.
  split; [|split].
  - destruct Hor as [->|(Hin & He & Hr)]; [destruct Hst as [?|(i & Hi & Hpar & Hpeer & Hroot & Hlt)]|].
    + by left.
    + right. left. exists i. rewrite Hroot in Hlt. assert (i_parent i <> me) as Hne.
      { intros Hp. rewrite (root_of_self t me i Hi Hp) in Hlt. by apply lex_lt_irrefl in Hlt. }
      do 6 (split; [done|]). intros Hc. apply parent_eligible; [done..|]. by apply not_eq_None_Some.
    + right. right. by rewrite sorted_keys_elem in Hin.
  - eapply lex_le_trans; [exact Hle|]. destruct Hst as [[-> _]|(i & _ & _ & _ & _ & Hlt)]; [apply lex_le_refl|by apply lex_lt_le].
  - intros pk Hpk. apply Hall. by rewrite sorted_keys_elem.
Qed.

(** Where the announces held close a loop, a parent that hangs below us is kept. *)
Definition demo_loop : TreeState :=
  set_infos <[demo_key 1 := demo_info (demo_key 1) (demo_key 2) 4 3]> demo_tree.

Example looped_parent_kept : best_parent (choose_parent demo_loop demo_links (demo_key 2)) = demo_key 1 /\
  is_Some ((root_and_dists (t_infos demo_loop) (demo_key 1)).2 !! demo_key 2).
Proof. split; [vm_compute; reflexivity|]. eexists. vm_compute. reflexivity. Qed.

(** C31: the coordinates [root_path_for] computes are exactly the ports on the
    finite walk from the node to its root: a node that is its own parent has
    none, and a walk that loops or meets an unknown node has no coordinates.
    In particular the loop ends within its bound. *)
Theorem root_path_is_tree_path (infos : gmap bytes Info) (k : bytes) :
  (forall p, root_path_for infos k = Some p <-> tree_path infos k p) /\
  (root_path_for infos k = None <-> forall p, ~ tree_path infos k p).
Proof.
  split; [intros p; apply root_path_for_iff|]. split.
  - intros E p Hp. apply root_path_for_iff in Hp. congruence.
  - intros Hn. destruct (root_path_for infos k) as [p|] eqn:E; [|done]. apply root_path_for_iff in E. by destruct (Hn p).
Qed.

(** The distance of coordinates is a metric: zero exactly between equal
    coordinates, symmetric, and a detour is never shorter; and a step to the
    parent shortens it by one unless the node is on the way. *)
Theorem coords_dist_metric (a b c : list Z) :
  (coords_dist a b = 0 <-> a = b) /\ coords_dist a b = coords_dist b a /\
  coords_dist a c <= coords_dist a b + coords_dist b c /\
  (forall x, ~ (b ++ [x]) `prefix_of` a -> coords_dist a b = coords_dist a (b ++ [x]) - 1).
Proof.
  pose proof (common_le a b) as [L1 L2]. pose proof (common_le b c) as [L3 L4]. pose proof (common_le a c) as [L5 L6].
  pose proof (common_ultra a b c) as U.
  split; [split|split; [|split]].
  - unfold coords_dist. intros E. apply common_full; lia.
  - intros ->. unfold coords_dist. rewrite common_refl. lia.
  - unfold coords_dist. rewrite (common_sym b a). f_equal. lia.
  - unfold coords_dist. lia.
  - intros x Hx. by apply parent_closer.
Qed.

(** C7: greedy forwarding is loop-free among the routers that have coordinates.
    Whatever routers a message passes through, each hands it over a registered
    link to a node whose coordinates it knows. A router with coordinates does so
    only if it is nearer to the destination than the stamp the message came
    with, stamps it with its own distance, and takes a next node that is strictly
    nearer still; later routers with coordinates are all strictly nearer than
    itself, so none comes twice, and there are no more of them than its distance.
    A router without coordinates leaves the stamp as it is, and nothing bounds
    how often such routers pass a message among themselves. *)
Theorem greedy_loop_free (path : list Z) (before : list (Router * LinkSet)) (r : Router) (ls : LinkSet)
    (after : list (Router * LinkSet)) (w w' : Z) :
  forwards path w (before ++ (r, ls) :: after) w' ->
  exists m id k kp, forwards path w before m /\ id ∈ links_to ls k /\ linked (r_tree r) id /\
    root_path_for (t_infos (r_tree r)) k = Some kp /\
    match root_path r with
    | Some sp =>
      greedy_next r ls path m = (Some id, coords_dist path sp) /\ coords_dist path kp < coords_dist path sp < m /\
      Z.of_nat (length (located after)) + w' <= coords_dist path sp /\
      forall r2 ls2 sp2, (r2, ls2) ∈ after -> root_path r2 = Some sp2 -> coords_dist path sp2 < coords_dist path sp
    | None => greedy_next r ls path m = (Some id, m)
    end.
Proof.
  intros (m & Hb & Ha)%forwards_app. inversion Ha as [|? ? id ? w1 ? ? Hg Hf]; subst.
  pose proof (greedy_next_hop r ls path m id w1 Hg) as (Hl & k & kp & Hid & Ep & Hw).
  exists m, id, k, kp. do 4 (split; [done|]). destruct (root_path r) as [sp|]; [|by subst].
  destruct Hw as (-> & Hw1 & Hw2). split; [done|]. split; [done|]. split; [by eapply forwards_located|].
  intros r2 ls2 sp2 Hin Hr2. by apply (forwards_nearer _ _ _ _ _ _ _ Hf Hin).
Qed.

(** C32: greedy forwarding makes progress up the tree. A node that is not the
    root, not on the way to the destination's coordinates, and has a registered
    link to its parent always has a next hop for a message stamped with more
    than its distance. *)
Theorem greedy_progress (r : Router) (ls : LinkSet) (path pp : list Z) (w : Z) (info : Info) (id : LinkId) :
  t_infos (r_tree r) !! r_pubkey r = Some info -> i_parent info <> r_pubkey r ->
  root_path_for (t_infos (r_tree r)) (i_parent info) = Some pp ->
  id ∈ links_to ls (i_parent info) -> linked (r_tree r) id ->
  ~ (pp ++ [res_port (i_res info)]) `prefix_of` path -> coords_dist path (pp ++ [res_port (i_res info)]) < w ->
  exists next, greedy_next r ls path w = (Some next, coords_dist path (pp ++ [res_port (i_res info)])).
Proof.
  intros Hi Hp Epp Hid Hl Hpre Hw. unfold greedy_next.
  assert (root_path r = Some (pp ++ [res_port (i_res info)])) as ->.
  { apply root_path_for_iff. eapply tree_path_child; [done..|]. by apply root_path_for_iff. }
  destruct (Z.ltb_spec (coords_dist path (pp ++ [res_port (i_res info)])) w); [|lia].
  edestruct (fold_next_some (r_tree r) path) as [next ->]; [|exact Hl|by exists next].
  apply elem_of_closer. exists (i_parent info), pp. split; [by eapply link_peers_links_to|].
  split; [done|]. split; [|done]. rewrite (parent_closer path pp _ Hpre). lia.
Qed.

Lemma greedy_progress_witness : exists next, greedy_next demo_router demo_links [6; 1] U64_MAX = (Some next, 3).
Proof.
  apply (greedy_progress demo_router demo_links [6; 1] [] U64_MAX (demo_info (demo_key 2) (demo_key 1) 3 5) 7).
  - vm_compute. reflexivity.
  - discriminate.
  - vm_compute. reflexivity.
  - vm_compute. left.
  - eexists. vm_compute. reflexivity.
  - intros [k Hk]. discriminate Hk.
  - vm_compute. reflexivity.
Defined.

(** A router that has lost its own announce, and the root with a child on port 6. *)
Definition demo_lost : Router := set_tree (set_infos (delete (demo_key 2))) demo_router.
Definition demo_root : Router :=
  set_tree (fun t => set_infos <[demo_key 3 := demo_info (demo_key 3) (demo_key 1) 3 6]>
    (set_links <[8 := mkLinkState (demo_key 3) true (from_secs 1) None 0 0 Go None]> t))
    (set_tree (fun _ => demo_tree) (@with_clock toy_ed25519 (demo_key 1) (mkStdClock 0))).
Definition demo_root_links : LinkSet := LinkSet_single 0 (demo_conn (demo_key 3) 8).

Lemma greedy_loop_free_witness :
  forwards [6; 1] U64_MAX [(demo_router, demo_links); (demo_lost, demo_links); (demo_root, demo_root_links)] 2 /\
  root_path demo_router = Some [5] /\ root_path demo_lost = None /\ root_path demo_root = Some [] /\
  exists m id k kp, forwards [6; 1] U64_MAX [(demo_router, demo_links)] m /\ id ∈ links_to demo_links k /\ linked (r_tree demo_lost) id /\
    root_path_for (t_infos (r_tree demo_lost)) k = Some kp /\ greedy_next demo_lost demo_links [6; 1] m = (Some id, m).
Proof.
  assert (forwards [6; 1] U64_MAX [(demo_router, demo_links); (demo_lost, demo_links); (demo_root, demo_root_links)] 2) as Hf.
  { apply (forwards_cons _ _ _ 7 _ 3); [vm_compute; reflexivity|]. apply (forwards_cons _ _ _ 7 _ 3); [vm_compute; reflexivity|].
    apply (forwards_cons _ _ _ 8 _ 2); [vm_compute; reflexivity|]. constructor. }
  split; [exact Hf|]. split; [vm_compute; reflexivity|]. split; [vm_compute; reflexivity|]. split; [vm_compute; reflexivity|].
  exact (greedy_loop_free [6; 1] [(demo_router, demo_links)] demo_lost demo_links [(demo_root, demo_root_links)] U64_MAX 2 Hf).
Defined.

Lemma adopted_parent_coords_witness :
  root_path_for (<[demo_key 3 := mkInfo (demo_key 2) (mkSigRes (mkSigReq 1 1) 9 []) []]> (t_infos demo_tree)) (demo_key 3) = Some [5; 9].
Proof.
  apply (adopted_parent_coords demo_tree (demo_key 3) (demo_key 2) (mkSigRes (mkSigReq 1 1) 9 []) [] [5]).
  - split; [eexists; vm_compute; reflexivity|vm_compute; reflexivity].
  - discriminate.
  - vm_compute. reflexivity.
Defined.
