(* ===== verification/Protocol.v ===== *)
(** * Protocol: lookups, notifies, sessions and the session protocol (the
    [impl Router] parts of [src/pathfind.rs], [src/session.rs], [src/proto.rs]
    and [src/traffic.rs] that send).

    The lookup, notify and send operations call each other in a cycle (the code
    boxes the future of [rumor_lookup] for it). Every turn of the cycle passes
    through [pathfinder_send], so the operations take it as an argument [send]
    and the recursion is tied there, with the fuel counting nested sends;
    [SEND_FUEL] turns are always enough.

    A fresh key is drawn where the code may generate one; a draw that is not
    used only skips an answer of the environment. *)
From stdpp Require Import base tactics list numbers gmap strings pretty.
From S2P Require Import Prelude Errors Clock Frame Address Table Bloom Wire Handshake LinkSet Router Hoare Tree BloomTree Session Pathfind.

Local Open Scope Z_scope.

#[global] Arguments xkey _ : simpl never.
#[global] Arguments PathNotify_check {_} _ : simpl never.
#[global] Arguments BloomFilter_test _ _ : simpl never.

Definition set_e_deadline (d : Z) (e : PathEntry) : PathEntry := mkPathEntry (pe_path e) (pe_seq e) d (pe_broken e).
Definition set_e_broken (e : PathEntry) : PathEntry := mkPathEntry (pe_path e) (pe_seq e) (pe_deadline e) true.
Definition set_r_pending (p : option bytes) (r : RumorEntry) : RumorEntry :=
  mkRumor (r_dest r) (r_send_at r) (r_deadline r) p (r_pending_is_app r).
Definition set_r_sent (now : Z) (r : RumorEntry) : RumorEntry :=
  mkRumor (r_dest r) (Some now) (now + PATH_TIMEOUT) (r_pending r) (r_pending_is_app r).
Definition hold_app (payload : bytes) (r : RumorEntry) : RumorEntry :=
  mkRumor (r_dest r) (r_send_at r) (r_deadline r) (Some payload) true.

Definition set_sbuf_data (kind : Z) (msg : bytes) (deadline : Z) (b : SessionBuf) : SessionBuf :=
  mkSessionBuf (sbuf_init b) (sbuf_send_pub b) (sbuf_send_priv b) (sbuf_next_pub b) (sbuf_next_priv b)
    (Some (kind, msg)) deadline.

(** [entry(x).or_insert(RumorEntry { .. })]. *)
Definition new_rumor (dest : bytes) (now : Z) : RumorEntry := mkRumor dest None (now + PATH_TIMEOUT) None false.
Definition rumor_entry (x dest : bytes) (now : Z) (f : RumorEntry -> RumorEntry) (m : gmap bytes RumorEntry)
  : gmap bytes RumorEntry := <[x := f (unwrap_or (m !! x) (new_rumor dest now))]> m.

(** Was a lookup for this rumor sent within the throttle interval? *)
Definition throttled (p : PathState) (x : bytes) (now : Z) : bool :=
  match pa_rumors p !! x ≫= r_send_at with
  | Some t => std_duration_since now t <? PATH_THROTTLE
  | None => false
  end.

(** ** Protocol messages *)

Definition PROTO_DUMMY : Z := 0.
Definition PROTO_NODEINFO_REQ : Z := 1.
Definition PROTO_NODEINFO_RES : Z := 2.
Definition PROTO_DEBUG : Z := 255.
Definition DEBUG_DUMMY : Z := 0.
Definition DEBUG_GETSELF_REQ : Z := 1.
Definition DEBUG_GETSELF_RES : Z := 2.
Definition DEBUG_GETPEERS_REQ : Z := 3.
Definition DEBUG_GETPEERS_RES : Z := 4.
Definition DEBUG_GETTREE_REQ : Z := 5.
Definition DEBUG_GETTREE_RES : Z := 6.
Definition NODEINFO_MAX : nat := Z.to_nat 16384.
Definition PROTO_RESPONSE_MAX : Z := 65535 - 64.

(** [for k in keys { if out.len() + KEY_LEN + 2 > MAX { break; } .. }]. *)
Fixpoint append_keys (out : bytes) (keys : list bytes) : bytes :=
  match keys with
  | [] => out
  | k :: keys =>
    if PROTO_RESPONSE_MAX <? Z.of_nat (length out) + Z.of_nat KEY_LEN + 2 then out
    else append_keys (out ++ k) keys
  end.

Definition concat_keys (dispatch subtype : Z) (keys : list bytes) : bytes := append_keys [dispatch; subtype] keys.

(** Text as the bytes of its characters. *)
Definition ascii_bytes (s : String.string) : bytes :=
  (fun c => Z.of_nat (Ascii.nat_of_ascii c)) <$> String.list_ascii_of_string s.

Definition hex_digit (d : Z) : Z := if d <? 10 then 48 + d else 87 + d.
Definition hex_encode (b : bytes) : bytes := b ≫= fun x => [hex_digit (x / 16); hex_digit (x mod 16)].

(** A JSON string or key: the text between quotation marks. *)
Definition quoted (b : bytes) : bytes := [34] ++ b ++ [34].

(** The body of the getSelf answer; [entries] prints in decimal. *)
Definition getself_body (key : bytes) (entries : nat) : bytes :=
  ascii_bytes "{" ++ quoted (ascii_bytes "key") ++ ascii_bytes ":" ++ quoted (hex_encode key) ++ ascii_bytes ","
  ++ quoted (ascii_bytes "routing_entries") ++ ascii_bytes ":" ++ quoted (ascii_bytes (pretty (N.of_nat entries)))
  ++ ascii_bytes "}".

Section protocol.
Context `{!Ed25519} `{!NaclBox} `{!Env}.

Definition fresh_box : M (bytes * bytes) := sk ← rand_bytes; mret (box_pub sk, sk).

(** [init.encrypt_msg(msg_type, &self.key, &dest)]. *)
Definition seal_init (i : SessionInit) (msg_type : Z) (dest : bytes) : M bytes :=
  eph ← rand_bytes;
  key ← asks r_key;
  match encrypt_msg i eph msg_type key dest with
  | Some enc => mret enc
  | None => panic
  end.

Definition encode_traffic (t : Traffic) : M bytes :=
  match Traffic_encode t with Some b => mret b | None => panic end.

Definition route_traffic (tr : Traffic) : M () :=
  r ← asks id;
  ls ← asks_links id;
  let '(next, w) := greedy_next r ls (tr_path tr) (tr_watermark tr) in
  match next with
  | Some id =>
    buf ← encode_traffic (mkTraffic (tr_path tr) (tr_from tr) (tr_source tr) (tr_dest tr) w (tr_payload tr));
    write_via id TTraffic buf
  | None => mret ()
  end.

(** ** One turn of the cycle *)

Section turn.
Context (send : bytes -> bytes -> M ()).

Definition net_send (dest payload : bytes) : M () := send dest payload.

Definition session_send_inner (dest : bytes) (kind : Z) (msg : bytes) : M () :=
  s ← asks (fun r => ss_sessions (r_sess r) !! dest);
  match s with
  | None => mret ()
  | Some (s, _) =>
    now ← instant_now;
    fresh ← rand_bytes;
    let '(s, enc) := Session_encrypt s (kind :: msg) fresh in
    _ ← modify (set_sess (set_sessions <[dest := (s, now)]>));
    sent ← attempt (net_send dest enc);
    match sent with
    | Ok _ => mret ()
    | Err e => _ ← modify (set_sess (set_resend (fun l => l ++ [(dest, msg)]))); throw e
    end
  end.

Definition session_send_kind (dest : bytes) (kind : Z) (msg : bytes) : M () :=
  open ← asks (fun r => ss_sessions (r_sess r) !! dest);
  match open with
  | Some _ => session_send_inner dest kind msg
  | None =>
    now ← instant_now;
    init_seq ← next_init_seq;
    found ← asks (fun r => ss_bufs (r_sess r) !! dest);
    buf ← match found with
          | Some b => mret b
          | None =>
            '(cp, cs) ← fresh_box;
            '(np, ns) ← fresh_box;
            mret (mkSessionBuf (mkSessionInit cp np 0 init_seq) cp cs np ns None (now + SESSION_TIMEOUT))
          end;
    let buf := set_sbuf_data kind msg (now + SESSION_TIMEOUT) buf in
    _ ← modify (set_sess (set_bufs <[dest := buf]>));
    enc ← seal_init (sbuf_init buf) SESSION_TYPE_INIT dest;
    net_send dest enc
  end.

Definition session_send (dest msg : bytes) : M () := session_send_kind dest PACKET_TYPE_TRAFFIC msg.

(** What an accepted notify does to the path table; [false] when it is refused. *)
Definition accept_notify (n : PathNotify) : M bool :=
  p ← asks r_path;
  match pa_entries p !! pn_source n with
  | Some e =>
    if (ni_seq (pn_info n) <=? pe_seq e) || bool_decide (ni_path (pn_info n) = pe_path e) then mret false
    else if negb (PathNotify_check n) then mret false
    else
      now ← instant_now;
      _ ← modify (set_path (set_entries_p
            <[pn_source n := mkPathEntry (ni_path (pn_info n)) (ni_seq (pn_info n)) (now + PATH_TIMEOUT) false]>));
      mret true
  | None =>
    match pa_rumors p !! xkey (pn_source n) with
    | None => mret false
    | Some _ =>
      if negb (PathNotify_check n) then mret false
      else
        now ← instant_now;
        _ ← modify (set_path (set_entries_p
              <[pn_source n := mkPathEntry (ni_path (pn_info n)) (ni_seq (pn_info n)) (now + PATH_TIMEOUT) false]>));
        mret true
    end
  end.

(** [r.pending.take()], with the flag as it is left. *)
Definition take_held (x : bytes) : M (option (bytes * bool)) :=
  p ← asks r_path;
  match pa_rumors p !! x with
  | Some r =>
    _ ← modify (set_path (set_rumors <[x := set_r_pending None r]>));
    mret ((fun d => (d, r_pending_is_app r)) <$> r_pending r)
  | None => mret None
  end.

Definition handle_notify (n : PathNotify) : M () :=
  r ← asks id;
  ls ← asks_links id;
  let '(next, w) := greedy_next r ls (pn_path n) (pn_watermark n) in
  match next with
  | Some id =>
    write_via id TPathNotify (PathNotify_encode (mkPathNotify (pn_path n) w (pn_source n) (pn_dest n) (pn_info n)) [])
  | None =>
    if negb (bool_decide (pn_dest n = r_pubkey r)) then mret ()
    else
      accepted ← accept_notify n;
      if accepted : bool then
        held ← take_held (xkey (pn_source n));
        match held with
        | Some (data, true) => session_send (pn_source n) data
        | Some (data, false) => send (pn_source n) data
        | None => mret ()
        end
      else mret ()
  end.

(** Our notify info, signed again only when the second or the coordinates changed. *)
Definition own_notify : M NotifyInfo :=
  coords ← asks (fun r => unwrap_or (root_path r) []);
  seq ← unix_now;
  r ← asks id;
  let old := pa_notify (r_path r) in
  if negb (seq =? ni_seq old) || negb (bool_decide (coords = ni_path old)) then
    let info := NotifyInfo_sign (mkNotifyInfo seq coords (replicate 64 0)) (r_key r) in
    _ ← modify (set_path (set_notify info));
    mret info
  else mret old.

Definition handle_lookup (from : bytes) (l : PathLookup) : M () :=
  _ ← multicast from (lk_dest l) TPathLookup (PathLookup_encode l []);
  me ← asks r_pubkey;
  if negb (bool_decide (xkey (lk_dest l) = xkey me)) then mret ()
  else
    info ← own_notify;
    handle_notify (mkPathNotify (lk_from l) U64_MAX me (lk_source l) info).

Definition send_lookup (dest : bytes) : M () :=
  r ← asks id;
  handle_lookup (r_pubkey r) (mkPathLookup (r_pubkey r) dest (unwrap_or (root_path r) [])).

Definition rumor_lookup (dest : bytes) : M () :=
  now ← instant_now;
  let x := xkey dest in
  p ← asks r_path;
  if throttled p x now then mret ()
  else
    _ ← modify (set_path (set_rumors (rumor_entry x dest now (set_r_sent now))));
    send_lookup dest.

Definition hold_for_lookup (dest payload : bytes) : M () :=
  now ← instant_now;
  let x := xkey dest in
  p ← asks r_path;
  let already := throttled p x now in
  _ ← modify (set_path (set_rumors (rumor_entry x dest now (hold_app payload))));
  if already then mret () else rumor_lookup dest.

Definition handle_broken (b : PathBroken) : M () :=
  r ← asks id;
  ls ← asks_links id;
  let '(next, w) := greedy_next r ls (pb_path b) (pb_watermark b) in
  match next with
  | Some id => write_via id TPathBroken (PathBroken_encode (mkPathBroken (pb_path b) w (pb_source b) (pb_dest b)) [])
  | None =>
    if negb (bool_decide (pb_source b = r_pubkey r)) then mret ()
    else
      match pa_entries (r_path r) !! pb_dest b with
      | Some e =>
        _ ← modify (set_path (set_entries_p <[pb_dest b := set_e_broken e]>));
        rumor_lookup (pb_dest b)
      | None => mret ()
      end
  end.

(** The body of [pathfinder_send]. *)
Definition pathfinder_turn (dest payload : bytes) : M () :=
  r ← asks id;
  match pa_entries (r_path r) !! dest with
  | Some e =>
    if pe_broken e then
      _ ← rumor_lookup dest;
      modify (set_path (set_rumors (alter (set_r_pending (Some payload)) (xkey dest))))
    else
      route_traffic (mkTraffic (pe_path e) (unwrap_or (root_path r) []) (r_pubkey r) dest U64_MAX payload)
  | None =>
    _ ← rumor_lookup dest;
    modify (set_path (set_rumors (alter (set_r_pending (Some payload)) (xkey dest))))
  end.
End turn.

Definition out_of_fuel {A} : M A := fun _ => OutOfFuel.

Fixpoint pathfinder_send (fuel : nat) (dest payload : bytes) : M () :=
  match fuel with
  | O => out_of_fuel
  | S fuel' => pathfinder_turn (pathfinder_send fuel') dest payload
  end.

Definition SEND_FUEL : nat := 2.
Definition send : bytes -> bytes -> M () := pathfinder_send SEND_FUEL.

(** ** The session protocol *)

Definition proto_send (dest payload : bytes) : M () := session_send_kind send dest PACKET_TYPE_PROTO payload.

Definition request_nodeinfo (dest : bytes) : M () := proto_send dest [PROTO_NODEINFO_REQ].

(** [debug_assert!] on the subtype is for debug builds. *)
Definition request_debug (dest : bytes) (what : Z) : M () := proto_send dest [PROTO_DEBUG; what].

Definition set_nodeinfo (json : bytes) : M () :=
  if decide (NODEINFO_MAX < length json)%nat then throw (Core InvalidLength)
  else modify (set_nodeinfo_field json).

Definition handle_debug_bytes (from payload : bytes) : M () :=
  match payload with
  | [] => mret ()
  | kind :: _ =>
    r ← asks id;
    if kind =? DEBUG_GETSELF_REQ then
      proto_send from (PROTO_DEBUG :: DEBUG_GETSELF_RES :: getself_body (r_pubkey r) (size (t_infos (r_tree r))))
    else if kind =? DEBUG_GETPEERS_REQ then
      proto_send from (concat_keys PROTO_DEBUG DEBUG_GETPEERS_RES (sorted_keys (t_peers (r_tree r))))
    else if kind =? DEBUG_GETTREE_REQ then
      proto_send from (concat_keys PROTO_DEBUG DEBUG_GETTREE_RES (sorted_keys (t_infos (r_tree r))))
    else if (kind =? DEBUG_GETSELF_RES) || (kind =? DEBUG_GETPEERS_RES) || (kind =? DEBUG_GETTREE_RES) then
      modify (push_proto_inbox (from, PROTO_DEBUG :: payload))
    else mret ()
  end.

Definition handle_proto_bytes (from payload : bytes) : M () :=
  match payload with
  | [] => mret ()
  | kind :: rest =>
    if kind =? PROTO_NODEINFO_REQ then
      info ← asks r_nodeinfo;
      proto_send from (PROTO_NODEINFO_RES :: info)
    else if kind =? PROTO_NODEINFO_RES then modify (push_proto_inbox (from, payload))
    else if kind =? PROTO_DEBUG then handle_debug_bytes from rest
    else mret ()
  end.

(** ** Session payloads *)

Definition put_session (from : bytes) (s : Session) (active : Z) : M () :=
  modify (set_sess (set_sessions <[from := (s, active)]>)).

Definition box_priv : M bytes := key ← asks r_key; mret (ed_to_curve_priv key).

(** The answer to an init: the ack, sealed and sent. *)
Definition send_ack (from : bytes) (ack : option SessionInit) : M () :=
  match ack with
  | Some ack => enc ← seal_init ack SESSION_TYPE_ACK from; net_send send from enc
  | None => mret ()
  end.

(** A first init or ack: a new session, from the buffered keys if we initiated. *)
Definition session_for_init (from : bytes) (init : SessionInit) (now : Z) : M () :=
  recv_priv ← rand_bytes;
  send_priv ← rand_bytes;
  next_priv ← rand_bytes;
  let s := for_init init recv_priv send_priv next_priv in
  buffered ← asks (fun r => ss_bufs (r_sess r) !! from);
  _ ← modify (set_sess (set_bufs (delete from)));
  let s := match buffered with
           | Some b => adopt_buffered s (sbuf_send_pub b) (sbuf_send_priv b) (sbuf_next_pub b) (sbuf_next_priv b)
           | None => s
           end in
  _ ← put_session from s now;
  ack_seq ← next_init_seq;
  fresh ← rand_bytes;
  let '(s, ack) := handle_init s init ack_seq fresh in
  _ ← put_session from s now;
  _ ← send_ack from ack;
  match buffered ≫= sbuf_data with
  | Some (kind, payload) => session_send_inner send from kind payload
  | None => mret ()
  end.

Definition handle_init_bytes (from : bytes) (data : bytes) (now : Z) : M () :=
  priv ← box_priv;
  match decrypt_msg priv from data with
  | None => mret ()
  | Some init =>
    open ← asks (fun r => ss_sessions (r_sess r) !! from);
    match open with
    | None => session_for_init from init now
    | Some (s, _) =>
      if data !!! 0%nat =? SESSION_TYPE_ACK then
        fresh ← rand_bytes;
        put_session from (handle_ack s init fresh) now
      else
        ack_seq ← next_init_seq;
        fresh ← rand_bytes;
        let '(s, ack) := handle_init s init ack_seq fresh in
        _ ← put_session from s now;
        send_ack from ack
    end
  end.

Definition handle_traffic_bytes (from : bytes) (data : bytes) (now : Z) : M () :=
  reinit_seq ← next_init_seq;
  open ← asks (fun r => ss_sessions (r_sess r) !! from);
  match open with
  | Some (s, active) =>
    fresh ← rand_bytes;
    t ← instant_now;
    t' ← instant_now;
    let '(s, opened) := Session_decrypt s data fresh t t' in
    match opened with
    | Some payload =>
      _ ← put_session from s now;
      match payload with
      | [] => mret ()
      | kind :: rest =>
        if kind =? PACKET_TYPE_TRAFFIC then modify (push_inbox (from, rest))
        else if kind =? PACKET_TYPE_PROTO then handle_proto_bytes from rest
        else mret ()
      end
    | None =>
      _ ← put_session from s active;
      enc ← seal_init (make_init s reinit_seq) SESSION_TYPE_INIT from;
      net_send send from enc
    end
  | None =>
    '(cp, _) ← fresh_box;
    '(np, _) ← fresh_box;
    seq ← next_init_seq;
    enc ← seal_init (mkSessionInit cp np 0 seq) SESSION_TYPE_INIT from;
    net_send send from enc
  end.

Definition handle_session_bytes (from : bytes) (data : bytes) : M () :=
  match data with
  | [] => mret ()
  | kind :: _ =>
    now ← instant_now;
    if (kind =? SESSION_TYPE_INIT) || (kind =? SESSION_TYPE_ACK) then handle_init_bytes from data now
    else if kind =? SESSION_TYPE_TRAFFIC then handle_traffic_bytes from data now
    else mret ()
  end.

(** ** Traffic *)

Definition handle_inbound_traffic (tr : Traffic) : M () :=
  r ← asks id;
  ls ← asks_links id;
  let '(next, w) := greedy_next r ls (tr_path tr) (tr_watermark tr) in
  match next with
  | Some id =>
    buf ← encode_traffic (mkTraffic (tr_path tr) (tr_from tr) (tr_source tr) (tr_dest tr) w (tr_payload tr));
    write_via id TTraffic buf
  | None =>
    if bool_decide (tr_dest tr = r_pubkey r) then
      _ ← match pa_entries (r_path r) !! tr_source tr with
          | Some e =>
            if pe_broken e then mret ()
            else
              now ← instant_now;
              modify (set_path (set_entries_p <[tr_source tr := set_e_deadline (now + PATH_TIMEOUT) e]>))
          | None => mret ()
          end;
      handle_session_bytes (tr_source tr) (tr_payload tr)
    else
      handle_broken send (mkPathBroken (tr_from tr) U64_MAX (tr_source tr) (tr_dest tr))
  end.
End protocol.

(** ** Termination *)

Section termination.
Context `{!Ed25519} `{!NaclBox} `{!Env}.

(** A destination with a path: a send to it is routed at once. *)
Definition sendable (dest : bytes) (r : Router) : Prop :=
  exists e, pa_entries (r_path r) !! dest = Some e /\ pe_broken e = false.

(** What an operation may assume of the [send] it is given. *)
Definition sends_known (send : bytes -> bytes -> M ()) : Prop :=
  forall dest payload, total_in (sendable dest) (send dest payload).

Lemma total_seal_init i mt dest : total (seal_init i mt dest).
Proof. unfold seal_init. total_tac. Qed.
#[local] Hint Resolve total_seal_init : total.

Lemma total_fresh_box : total fresh_box.
Proof. unfold fresh_box. total_tac. Qed.
#[local] Hint Resolve total_fresh_box : total.

Lemma total_encode_traffic t : total (encode_traffic t).
Proof. unfold encode_traffic. total_tac. Qed.
#[local] Hint Resolve total_encode_traffic : total.

Lemma total_route_traffic t : total (route_traffic t).
Proof. unfold route_traffic. total_tac. Qed.

Lemma turn_sendable send dest payload : total_in (sendable dest) (pathfinder_turn send dest payload).
Proof.
  intros w (e & He & Hb). unfold pathfinder_turn, mbind, M_bind, asks, id. rewrite He, Hb. apply total_route_traffic.
Qed.

Lemma sends_known_fuel n : sends_known (pathfinder_send (S n)).
Proof. intros dest payload. apply turn_sendable. Qed.
End termination.

Section turn_total.
Context `{!Ed25519} `{!NaclBox} `{!Env}.
Context (send : bytes -> bytes -> M ()) (Hsend : sends_known send).

Lemma total_accept_notify n : total (accept_notify n).
Proof. unfold accept_notify. total_tac. Qed.

Lemma total_take_held x : total (take_held x).
Proof. unfold take_held. total_tac. Qed.

(** An accepted notify leaves a path to its source. *)
Lemma accept_notify_sendable n w :
  wp (accept_notify n) (fun r w' => forall a, r = Ok a -> a = true -> sendable (pn_source n) (w_router w')) w.
Proof.
  unfold accept_notify, wp, mbind, M_bind, asks. set (r := w_router w).
  destruct (pa_entries (r_path r) !! pn_source n) as [e|]; [|destruct (pa_rumors (r_path r) !! xkey (pn_source n))].
  - destruct (_ || _); [by intros a [= <-]|]. destruct (negb _); [by intros a [= <-]|].
    intros a _ _. eexists. split; [apply lookup_insert_eq|done].
  - destruct (negb _); [by intros a [= <-]|]. intros a _ _. eexists. split; [apply lookup_insert_eq|done].
  - by intros a [= <-].
Qed.

Lemma keeps_sendable_take_held d x : keeps (sendable d) (take_held x).
Proof. intros w Hw. unfold take_held, wp, mbind, M_bind, asks. by destruct (pa_rumors (r_path (w_router w)) !! x). Qed.

Lemma keeps_sendable_sess d f : keeps (sendable d) (modify (set_sess f)).
Proof. by apply keeps_modify. Qed.
#[local] Hint Resolve keeps_sendable_sess : keeps.
#[local] Hint Resolve total_seal_init total_fresh_box total_encode_traffic total_route_traffic total_accept_notify total_take_held : total.

Lemma keeps_sendable_seq d : keeps (sendable d) next_init_seq.
Proof. unfold next_init_seq, unix_now. keeps_tac. Qed.
Lemma keeps_sendable_box d : keeps (sendable d) fresh_box.
Proof. unfold fresh_box, rand_bytes. keeps_tac. Qed.
Lemma keeps_sendable_seal d i mt dest : keeps (sendable d) (seal_init i mt dest).
Proof. unfold seal_init, rand_bytes. keeps_tac. Qed.
#[local] Hint Resolve keeps_sendable_seq keeps_sendable_box keeps_sendable_seal : keeps.

Lemma total_session_send_inner dest kind msg : total_in (sendable dest) (session_send_inner send dest kind msg).
Proof.
  unfold session_send_inner, net_send, instant_now, rand_bytes.
  apply total_in_bind; [by apply total_in_all|keeps_tac|]. intros [[s act]|]; [|done].
  do 2 (apply total_in_bind; [by apply total_in_all|keeps_tac|intros ?]).
  destruct (Session_encrypt _ _ _) as [s' enc]. apply total_in_bind; [by apply total_in_all|keeps_tac|intros _].
  apply total_in_bind_last; [apply total_in_attempt, Hsend|]. intros [?|?]; total_tac.
Qed.

Lemma total_session_send_kind dest kind msg : total_in (sendable dest) (session_send_kind send dest kind msg).
Proof.
  unfold session_send_kind, net_send, instant_now.
  apply total_in_bind; [by apply total_in_all|keeps_tac|]. intros [?|]; [apply total_session_send_inner|].
  do 3 (apply total_in_bind; [apply total_in_all; total_tac|keeps_tac|intros ?]).
  apply total_in_bind; [apply total_in_all; total_tac|keeps_tac|intros buf].
  apply total_in_bind; [by apply total_in_all|keeps_tac|intros _].
  apply total_in_bind; [apply total_in_all; total_tac|keeps_tac|intros enc]. apply Hsend.
Qed.

Lemma total_handle_notify n : total (handle_notify send n).
Proof.
  unfold handle_notify. apply total_bind; [total_tac|intros r]. apply total_bind; [total_tac|intros ls].
  destruct (greedy_next _ _ _ _) as [[id|] wm]; [total_tac|]. destruct (negb _); [total_tac|].
  apply total_of_in.
  apply (total_in_bind_wp _ (fun a r => a = true -> sendable (pn_source n) r)); [apply total_in_all; total_tac| |].
  - intros w _. pose proof (accept_notify_sendable n w) as Hw. exact Hw.
  - intros [|]; [|done]. intros w Hw. specialize (Hw eq_refl). revert w Hw.
    apply (total_in_bind (sendable (pn_source n)));
      [apply total_in_all; total_tac|apply keeps_sendable_take_held|].
    intros [[data [|]]|]; [apply total_session_send_kind|apply Hsend|done].
Qed.

Lemma total_handle_lookup from l : total (handle_lookup send from l).
Proof. pose proof total_handle_notify. unfold handle_lookup, own_notify. total_tac. Qed.

Lemma total_rumor_lookup dest : total (rumor_lookup send dest).
Proof. pose proof total_handle_lookup. unfold rumor_lookup, send_lookup. total_tac. Qed.

Lemma total_hold_for_lookup dest p : total (hold_for_lookup send dest p).
Proof. pose proof total_rumor_lookup. unfold hold_for_lookup. total_tac. Qed.

Lemma total_handle_broken b : total (handle_broken send b).
Proof. pose proof total_rumor_lookup. unfold handle_broken. total_tac. Qed.

Lemma total_pathfinder_turn dest p : total (pathfinder_turn send dest p).
Proof. pose proof total_rumor_lookup. pose proof total_route_traffic. unfold pathfinder_turn. total_tac. Qed.
End turn_total.

Section fuel.
Context `{!Ed25519} `{!NaclBox} `{!Env}.

(** Two nested sends are enough, from any state. *)
Lemma total_pathfinder_send n dest payload : total (pathfinder_send (S (S n)) dest payload).
Proof. apply total_pathfinder_turn, sends_known_fuel. Qed.

Lemma total_send dest payload : total (send dest payload).
Proof. apply total_pathfinder_send. Qed.

Lemma sends_known_send : sends_known send.
Proof. apply sends_known_fuel. Qed.

Lemma extends_turn (s s' : bytes -> bytes -> M ()) dest payload :
  (forall d p, extends (s d p) (s' d p)) -> extends (pathfinder_turn s dest payload) (pathfinder_turn s' dest payload).
Proof.
  intros Hs.
  assert (forall d k m, extends (session_send_inner s d k m) (session_send_inner s' d k m)) as Hinner
    by (intros; unfold session_send_inner, net_send; extends_tac).
  assert (forall d k m, extends (session_send_kind s d k m) (session_send_kind s' d k m)) as Hkind
    by (intros; unfold session_send_kind, net_send; extends_tac).
  assert (forall n, extends (handle_notify s n) (handle_notify s' n)) as Hnotify
    by (intros; unfold handle_notify, session_send; extends_tac).
  assert (forall f l, extends (handle_lookup s f l) (handle_lookup s' f l)) as Hlookup
    by (intros; unfold handle_lookup; extends_tac).
  assert (forall d, extends (rumor_lookup s d) (rumor_lookup s' d)) as Hrumor
    by (intros; unfold rumor_lookup, send_lookup; extends_tac).
  unfold pathfinder_turn. extends_tac.
Qed.

Lemma extends_send n dest payload : extends (pathfinder_send n dest payload) (pathfinder_send (S n) dest payload).
Proof.
  revert dest payload. induction n as [|n IH]; intros dest payload; [by left|].
  exact (extends_turn (pathfinder_send n) (pathfinder_send (S n)) dest payload IH).
Qed.

Lemma send_fuel_irrelevant n dest payload w : pathfinder_send (SEND_FUEL + n) dest payload w = send dest payload w.
Proof.
  unfold send. induction n as [|n IH]; [done|]. rewrite <-IH.
  replace (SEND_FUEL + S n)%nat with (S (SEND_FUEL + n)) by lia.
  destruct (extends_send (SEND_FUEL + n) dest payload w) as [E|E]; [|exact E].
  destruct (total_pathfinder_send n dest payload w E).
Qed.

Lemma total_session_inner_send dest kind msg : total (session_send_inner send dest kind msg).
Proof. pose proof total_send. unfold session_send_inner, net_send. total_tac. Qed.

Lemma total_session_send dest kind msg : total (session_send_kind send dest kind msg).
Proof.
  pose proof total_send. pose proof total_session_inner_send. pose proof total_seal_init. pose proof total_fresh_box.
  unfold session_send_kind, net_send. total_tac.
Qed.

Lemma total_handle_proto_bytes from p : total (handle_proto_bytes from p).
Proof. pose proof total_session_send. unfold handle_proto_bytes, handle_debug_bytes, proto_send. total_tac. Qed.

Lemma total_session_for_init from i now : total (session_for_init from i now).
Proof.
  pose proof total_send. pose proof total_session_inner_send. pose proof total_seal_init.
  unfold session_for_init, send_ack, net_send, put_session. total_tac.
Qed.

Lemma total_handle_session_bytes from d : total (handle_session_bytes from d).
Proof.
  pose proof total_send. pose proof total_session_for_init. pose proof total_seal_init. pose proof total_handle_proto_bytes.
  pose proof total_fresh_box.
  unfold handle_session_bytes, handle_init_bytes, handle_traffic_bytes, send_ack, net_send, put_session, box_priv.
  total_tac.
Qed.

Lemma total_handle_inbound_traffic tr : total (handle_inbound_traffic tr).
Proof.
  pose proof total_handle_session_bytes. pose proof (total_handle_broken send sends_known_send). pose proof total_encode_traffic.
  unfold handle_inbound_traffic. total_tac.
Qed.
End fuel.
