(* ===== verification/Driver.v ===== *)
(** * Driver: registering links, maintenance, the dispatch of frames and the
    serving of a set of links ([src/driver.rs]).

    The bytes that arrive on a link are the input of its stream; one turn of
    the serving loop reads what has arrived. The iteration order of a hash map
    is that of [map_to_list], one of the orders the code allows. *)
From stdpp Require Import base tactics list numbers gmap.
From S2P Require Import Prelude Errors Clock Frame Address Table Bloom Wire Handshake LinkSet Router Hoare Tree BloomTree Session Pathfind Protocol.

Local Open Scope Z_scope.

Inductive Route : Type := Sent | Queued.

(** Does this key own the address, or the routed subnet? *)
Definition owns (addr : Address) (k : bytes) : bool :=
  bool_decide (addr_octets (addr_for_key k) = addr_octets addr)
  || (Address_is_subnet addr && bool_decide (snet_octets (subnet_for_key k) = take SUBNET_LEN (addr_octets addr))).

Definition key_for_addr_known (r : Router) (addr : Address) : option bytes :=
  find_first (owns addr) ((map_to_list (pa_entries (r_path r))).*1 ++ (map_to_list (ss_sessions (r_sess r))).*1).

(** The rumors with a payload held whose transformed key no path has. *)
Definition pending_rumors (p : PathState) : list bytes :=
  (fun xr => r_dest xr.2) <$> filter (fun xr : bytes * RumorEntry => is_Some (r_pending xr.2) /\
     Forall (fun k => xkey k <> xr.1) (map_to_list (pa_entries p)).*1) (map_to_list (pa_rumors p)).

Definition expire_ephemeral_at (now : Z) (r : Router) : Router :=
  set_sess (fun s => set_sessions (filter (fun '(_, (_, active)) => now < active + SESSION_TIMEOUT))
                       (set_bufs (filter (fun '(_, b) => now < sbuf_deadline b)) s))
    (set_path (fun p => set_rumors (filter (fun '(_, r) => now < r_deadline r))
                          (set_entries_p (filter (fun '(_, e) => now < pe_deadline e)) p)) r).

Definition fatal_link_error (ls : LinkSet) (e : Error) : bool := negb (Error_is_link e) || LinkSet_is_empty ls.

(** [x.await?] at top level: the error ends the serving unless survivors can go on. *)
Definition unless_fatal (e : Error) (k : M ()) : M () :=
  ls ← asks_links id;
  if fatal_link_error ls e then throw e else k.

Section driver.
Context `{!Ed25519} `{!NaclBox} `{!Env}.

(** [conn.write_frame(..).await?] on a connection not yet in the set, then the rest. *)
Definition conn_write (c : AnyConn) (t : FrameType) (p : bytes) (k : AnyConn -> M (AnyConn * result ()))
  : M (AnyConn * result ()) :=
  match conn_write_frame c t p with
  | None => panic
  | Some (c, Ok _) => k c
  | Some (c, Err e) => mret (c, Err e)
  end.

Fixpoint replay_announces (c : AnyConn) (anns : list Announce) : M (AnyConn * result ()) :=
  match anns with
  | [] => mret (c, Ok ())
  | ann :: anns =>
    conn_write c TAnnounce (Announce_encode ann []) (fun c =>
      _ ← modify_tree count_sent; replay_announces c anns)
  end.

(** The state [register] gives a new link. *)
Definition new_link (conn : AnyConn) (peer_key : bytes) (order : Z) : LinkState :=
  mkLinkState peer_key false UNKNOWN_LATENCY (Some EPOCH) (c_priority conn) order (c_kind conn) None.

Definition register (conn : AnyConn) (peer_key : bytes) (id : LinkId) : M (AnyConn * result ()) :=
  t ← asks r_tree;
  port ← match t_peers t !! peer_key with
         | Some p => mret (p_port p)
         | None => _ ← modify_tree take_port; mret (t_next_port t)
         end;
  _ ← modify_tree take_order;
  req ← match t_peers t !! peer_key with
        | Some p => mret (p_req p)
        | None => new_req
        end;
  let known := match t_peers t !! peer_key with Some _ => true | None => false end in
  _ ← modify_tree (fun t' => set_sent (alter_sent peer_key (fun s => s))
        (set_links <[id := new_link conn peer_key (t_peer_order t)]>
          (set_peers <[peer_key := mkPeerState port req]> t')));
  _ ← modify (set_bloom (bloom_add_peer peer_key));
  r ← asks (fun r => r);
  match BloomFilter_encode <$> b_send (r_bloom r) !! peer_key with
  | Some None => panic
  | enc =>
    conn_write conn TBloomFilter (unwrap_or (unwrap_or enc None) []) (fun conn =>
    conn_write conn TSigReq (SigReq_encode req []) (fun conn =>
      let replay := if known : bool then
          omap (fun k => (fun i => Info_announce i k) <$> t_infos (r_tree r) !! k)
            (elements (unwrap_or (t_sent (r_tree r) !! peer_key) ∅))
        else [] in
      replay_announces conn replay))
  end.

Definition send_or_resolve (via : LinkId) (dest : Address) (payload : bytes) : M Route :=
  p ← asks_links (fun ls => peer_of ls via);
  match p with
  | None => throw (Core NoLink)
  | Some _ =>
    key ← asks (fun r => key_for_addr_known r dest);
    match key with
    | Some key => _ ← session_send send key payload; mret Sent
    | None => _ ← hold_for_lookup send (lookup_key_for_addr dest) payload; mret Queued
    end
  end.

Definition expire_ephemeral : M () :=
  now ← instant_now;
  modify (expire_ephemeral_at now).

Definition maintain : M () :=
  _ ← expire;
  _ ← fix_parent;
  _ ← send_announces;
  _ ← bloom_maintenance;
  _ ← expire_ephemeral;
  pending ← asks (fun r => pending_rumors (r_path r));
  for_each_m pending (rumor_lookup send).

Definition keepalive_if_idle (conn : LinkId) : M () :=
  now ← instant_now;
  ls ← asks_links id;
  when (KEEPALIVE_DELAY <=? idle_for now ls conn) (links_write conn KeepAlive []).

(** The handling of one frame, before the keepalive. *)
Definition handle_frame (conn : LinkId) (conn_peer : bytes) (ftype : FrameType) (payload : bytes) : M () :=
  me ← asks r_pubkey;
  match ftype with
  | Dummy | KeepAlive => mret ()
  | TSigReq =>
    match SigReq_decode payload with
    | Ok (req, n) => when (bool_decide (n = length payload)) (handle_request conn conn_peer req)
    | Err _ => mret ()
    end
  | TSigRes =>
    match SigRes_decode payload with
    | Ok (res, n) =>
      when (bool_decide (n = length payload) && SigRes_check res me conn_peer) (handle_response conn conn_peer res)
    | Err _ => mret ()
    end
  | TAnnounce =>
    match Announce_decode_exact payload with
    | Ok ann =>
      if Announce_check ann then
        reply ← handle_announce conn_peer ann;
        match reply with
        | Some better =>
          _ ← links_write conn TAnnounce (Announce_encode better []);
          modify_tree count_sent
        | None => mret ()
        end
      else mret ()
    | Err _ => mret ()
    end
  | TBloomFilter => _ ← attempt (bloom_handle conn_peer payload); mret ()
  | TPathLookup =>
    match PathLookup_decode_exact payload with
    | Ok lookup => handle_lookup send conn_peer lookup
    | Err _ => mret ()
    end
  | TPathNotify =>
    match PathNotify_decode_exact payload with
    | Ok notify => if PathNotify_check notify then handle_notify send notify else mret ()
    | Err _ => mret ()
    end
  | TPathBroken =>
    match PathBroken_decode_exact payload with
    | Ok broken => handle_broken send broken
    | Err _ => mret ()
    end
  | TTraffic =>
    match Traffic_decode payload with
    | Ok tr => handle_inbound_traffic tr
    | Err _ => mret ()
    end
  end.

Definition dispatch_frame (conn : LinkId) (ftype : FrameType) (payload : bytes) : M () :=
  p ← asks_links (fun ls => peer_of ls conn);
  match p with
  | None => mret ()
  | Some conn_peer =>
    _ ← handle_frame conn conn_peer ftype payload;
    match ftype with
    | Dummy | KeepAlive => mret ()
    | _ => keepalive_if_idle conn
    end
  end.

(** ** Serving *)

(** [for (dest, msg) in take(outgoing)]: the loop breaks at the first refused send. *)
Fixpoint send_outgoing (out : list (bytes * bytes)) : M () :=
  match out with
  | [] => mret ()
  | (dest, msg) :: out =>
    r ← attempt (session_send send dest msg);
    match r with
    | Ok _ => send_outgoing out
    | Err e => unless_fatal e (mret ())
    end
  end.

Definition links_read (id : LinkId) : M slice_read := fun w =>
  let '(ls, r) := read_frame_slice (w_links w) id in Done (mkWorld (w_router w) ls (w_ticks w)) (Ok r).

Definition links_remove (id : LinkId) : M () := fun w =>
  Done (mkWorld (w_router w) (LinkSet_remove (w_links w) id).1 (w_ticks w)) (Ok ()).

(** [for id in links.ids()]: one read per link. *)
Fixpoint read_links (ids : list LinkId) : M () :=
  match ids with
  | [] => mret ()
  | id :: ids =>
    frame ← links_read id;
    match frame with
    | ReadFrame t p =>
      _ ← modify (count_frame t);
      r ← attempt (dispatch_frame id t p);
      match r with
      | Ok _ => read_links ids
      | Err e => unless_fatal e (mret ())
      end
    | ReadFailed e =>
      _ ← links_remove id;
      _ ← forget_link id;
      empty ← asks_links LinkSet_is_empty;
      if empty : bool then throw e else read_links ids
    | TimedOut =>
      r ← attempt (keepalive_if_idle id);
      match r with
      | Ok _ => read_links ids
      | Err e => unless_fatal e (read_links ids)
      end
    end
  end.

Definition maintain_soft : M () :=
  r ← attempt maintain;
  match r with Ok _ => mret () | Err e => unless_fatal e (mret ()) end.

(** One turn of the loop of [serve_links]: [None] when the time is up, else the
    time of the last maintenance. The outgoing payloads are taken by the first
    turn that has links. *)
Definition serve_turn (end_ : option Z) (last_maintain : Z) (outgoing : list (bytes * bytes))
  : M (option (Z * list (bytes * bytes))) :=
  now ← instant_now;
  if match end_ with Some e => e <=? now | None => false end then mret None
  else
    ids ← asks_links link_ids;
    match ids with
    | [] => mret (Some (last_maintain, outgoing))
    | _ :: _ =>
      _ ← send_outgoing outgoing;
      let due := MAINTENANCE_INTERVAL <=? std_duration_since now last_maintain in
      _ ← when due maintain_soft;
      ids ← asks_links link_ids;
      _ ← read_links ids;
      mret (Some (if due then now else last_maintain, []))
    end.

(** What arrives from the network between two turns. *)
Definition arrive (f : LinkSet -> LinkSet) : M () := fun w => Done (mkWorld (w_router w) (f (w_links w)) (w_ticks w)) (Ok ()).

(** The loop, one turn per arrival: how it ended ([false]: more arrivals to
    come) and the outgoing payloads that no turn took. A turn that fails has
    taken them all. *)
Fixpoint serve_loop (end_ : option Z) (last_maintain : Z) (outgoing : list (bytes * bytes)) (net : list (LinkSet -> LinkSet))
  : M (result bool * list (bytes * bytes)) :=
  match net with
  | [] => mret (Ok false, outgoing)
  | f :: net =>
    _ ← arrive f;
    next ← attempt (serve_turn end_ last_maintain outgoing);
    match next with
    | Err e => mret (Err e, [])
    | Ok None => mret (Ok true, outgoing)
    | Ok (Some (last_maintain, outgoing)) => serve_loop end_ last_maintain outgoing net
    end
  end.

(** The outcome, and what is left in the caller's [outgoing]. *)
Definition serve_links (hold_for : option Z) (outgoing : list (bytes * bytes)) (net : list (LinkSet -> LinkSet))
  : M (result bool * list (bytes * bytes)) :=
  resend ← asks (fun r => ss_resend (r_sess r));
  _ ← modify (set_sess (set_resend (fun _ => [])));
  let outgoing := resend ++ outgoing in
  start ← instant_now;
  let end_ := (fun h => start + h) <$> hold_for in
  last_maintain ← instant_now;
  soft ← attempt maintain_soft;
  match soft with
  | Err e => mret (Err e, outgoing)
  | Ok _ => serve_loop end_ last_maintain outgoing net
  end.

(** ** Resolving an address *)

(** [path.entries.keys().find(..)]. *)
Definition resolved (r : Router) (addr : Address) : option bytes :=
  find_first (owns addr) (map_to_list (pa_entries (r_path r))).*1.

(** One turn of the loop of [resolve]: the key when a path names it, else the
    time of the last maintenance. *)
Definition resolve_turn (conn : LinkId) (addr : Address) (last_maintain : Z) : M (bytes + Z) :=
  _ ← rumor_lookup send (lookup_key_for_addr addr);
  now ← instant_now;
  let due := MAINTENANCE_INTERVAL <=? std_duration_since now last_maintain in
  _ ← when due maintain;
  frame ← links_read conn;
  _ ← match frame with
      | ReadFrame t p => _ ← modify (count_frame t); dispatch_frame conn t p
      | ReadFailed e => throw e
      | TimedOut => keepalive_if_idle conn
      end;
  found ← asks (fun r => resolved r addr);
  mret (match found with Some k => inl k | None => inr (if due then now else last_maintain) end).

(** [None]: more turns to come. *)
Fixpoint resolve_loop (conn : LinkId) (addr : Address) (end_ last_maintain : Z) (net : list (LinkSet -> LinkSet))
  : M (option bytes) :=
  match net with
  | [] => mret None
  | f :: net =>
    _ ← arrive f;
    now ← instant_now;
    if end_ <=? now then throw (Core Timeout)
    else
      next ← resolve_turn conn addr last_maintain;
      match next with
      | inl k => mret (Some k)
      | inr last_maintain => resolve_loop conn addr end_ last_maintain net
      end
  end.

Definition resolve (conn : LinkId) (addr : Address) (timeout : Z) (net : list (LinkSet -> LinkSet)) : M (option bytes) :=
  p ← asks_links (fun ls => peer_of ls conn);
  match p with
  | None => throw (Core NoLink)
  | Some _ =>
    start ← instant_now;
    last_maintain ← instant_now;
    resolve_loop conn addr (start + timeout) last_maintain net
  end.
End driver.

(** ** Termination *)

Section driver_total.
Context `{!Ed25519} `{!NaclBox} `{!Env}.

Lemma total_maintain : total maintain.
Proof.
  pose proof (total_rumor_lookup send sends_known_send). unfold maintain, expire_ephemeral. total_tac.
Qed.

Lemma total_keepalive c : total (keepalive_if_idle c).
Proof. unfold keepalive_if_idle. total_tac. Qed.

Lemma total_handle_frame c k t p : total (handle_frame c k t p).
Proof.
  pose proof (total_handle_lookup send sends_known_send). pose proof (total_handle_notify send sends_known_send).
  pose proof (total_handle_broken send sends_known_send). pose proof total_handle_inbound_traffic.
  unfold handle_frame. total_tac.
Qed.

Lemma total_dispatch_frame c t p : total (dispatch_frame c t p).
Proof. pose proof total_handle_frame. pose proof total_keepalive. unfold dispatch_frame. total_tac. Qed.

Lemma total_conn_write c t p k : (forall c, total (k c)) -> total (conn_write c t p k).
Proof. intros Hk. unfold conn_write. total_tac. Qed.

Lemma total_register c k id : total (register c k id).
Proof.
  assert (forall anns c, total (replay_announces c anns)) as Hr.
  { induction anns as [|a anns IH]; intros c'; cbn [replay_announces]; [total_tac|]. apply total_conn_write. intros c2. total_tac. }
  unfold register. do 7 (apply total_bind; [total_tac|intros ?]).
  destruct (BloomFilter_encode <$> _) as [[b|]|]; [|apply total_panic|];
    apply total_conn_write; intros c1; apply total_conn_write; intros c2; apply Hr.
Qed.

Lemma total_send_or_resolve v d p : total (send_or_resolve v d p).
Proof.
  pose proof (total_hold_for_lookup send sends_known_send). pose proof total_session_send.
  unfold send_or_resolve, session_send. total_tac.
Qed.

Lemma total_unless_fatal e k : total k -> total (unless_fatal e k).
Proof. intros Hk. unfold unless_fatal. total_tac. Qed.

Lemma total_links_read id : total (links_read id).
Proof. intros w. unfold links_read. by destruct (read_frame_slice _ _). Qed.

Lemma total_links_remove id : total (links_remove id).
Proof. done. Qed.

#[local] Hint Resolve total_maintain total_keepalive total_dispatch_frame total_links_read total_links_remove : total.

Lemma total_read_links ids : total (read_links ids).
Proof.
  induction ids as [|id ids IH]; cbn [read_links]; [total_tac|].
  apply total_bind; [total_tac|]. intros [t p|e|]; repeat (apply total_bind; [total_tac|intros ?]);
    walk_match; try apply total_unless_fatal; total_tac.
Qed.

Lemma total_send_outgoing out : total (send_outgoing out).
Proof.
  induction out as [|[d m] out IH]; cbn [send_outgoing]; [total_tac|].
  apply total_bind; [apply total_attempt, total_session_send|]. intros [?|e]; [done|]. apply total_unless_fatal. total_tac.
Qed.

Lemma total_maintain_soft : total maintain_soft.
Proof. unfold maintain_soft. apply total_bind; [total_tac|]. intros [?|e]; [total_tac|]. apply total_unless_fatal. total_tac. Qed.
#[local] Hint Resolve total_read_links total_send_outgoing total_maintain_soft : total.

Lemma total_serve_turn e l o : total (serve_turn e l o).
Proof. unfold serve_turn. total_tac. Qed.

Lemma total_serve_links h o net : total (serve_links h o net).
Proof.
  assert (forall net e l o, total (serve_loop e l o net)) as Hl.
  { clear. induction net as [|f net IH]; intros e l o; cbn [serve_loop]; [total_tac|].
    apply total_bind; [done|intros _]. apply total_bind; [apply total_attempt, total_serve_turn|].
    intros [[[l' o']|]|e']; [done|total_tac..]. }
  unfold serve_links. do 5 (apply total_bind; [total_tac|intros ?]). case_match; [apply Hl|total_tac].
Qed.

Lemma total_resolve_turn c a l : total (resolve_turn c a l).
Proof. pose proof (total_rumor_lookup send sends_known_send). unfold resolve_turn. total_tac. Qed.

Lemma total_resolve c a t net : total (resolve c a t net).
Proof.
  assert (forall net e l, total (resolve_loop c a e l net)) as Hl.
  { clear net. induction net as [|f net' IH]; intros e l; cbn [resolve_loop]; [total_tac|].
    apply total_bind; [done|intros _]. apply total_bind; [total_tac|intros now]. destruct (_ <=? _); [total_tac|].
    apply total_bind; [apply total_resolve_turn|]. intros [k|l']; [total_tac|done]. }
  unfold resolve. total_tac.
Qed.
End driver_total.
