(* ===== verification/Invariant.v ===== *)
(** * Invariant: what every reachable router satisfies.

    The node's identity is its key pair, every announce in the tree table is
    signed by its node and by its parent, every path is one its node signed,
    the filters and the table of peers on the tree are well formed, and every
    session and pending session is sound. Each operation of the driver keeps
    it, whatever the peers send. *)
From stdpp Require Import base tactics list numbers gmap.
From S2P Require Import Prelude Errors Clock Frame Address Table Bloom Wire Handshake LinkSet Router Hoare Tree BloomTree Session Pathfind Protocol Driver Demo.

Local Open Scope Z_scope.

Section invariant.
Context `{!Ed25519} `{!NaclBox}.

Definition announces_ok (t : TreeState) : Prop :=
  map_Forall (fun k i => Announce_check (Info_announce i k) = true) (t_infos t).

(** A path was signed by the node it leads to. *)
Definition path_signed (k : bytes) (e : PathEntry) : Prop :=
  exists sig, NotifyInfo_check (mkNotifyInfo (pe_seq e) (pe_path e) sig) k = true.

Definition paths_ok (p : PathState) : Prop := map_Forall path_signed (pa_entries p).

Definition blooms_ok (b : BloomState) : Prop :=
  map_Forall (fun _ f => bloom_ok f) (b_send b) /\ map_Forall (fun _ f => bloom_ok f) (b_recv b) /\
  table_inv ON_TREE (b_on_tree b).

Definition buf_ok (b : SessionBuf) : Prop :=
  sbuf_send_pub b = box_pub (sbuf_send_priv b) /\ sbuf_next_pub b = box_pub (sbuf_next_priv b) /\
  si_current (sbuf_init b) = sbuf_send_pub b /\ si_next (sbuf_init b) = sbuf_next_pub b /\
  si_key_seq (sbuf_init b) = 0 /\ is_u64 (si_seq (sbuf_init b)).

Definition sessions_ok (s : SessionState) : Prop :=
  map_Forall (fun _ p => session_ok p.1) (ss_sessions s) /\ map_Forall (fun _ b => buf_ok b) (ss_bufs s) /\
  is_u64 (ss_init_seq s).

Definition router_inv (r : Router) : Prop :=
  r_pubkey r = verifying_key (r_key r) /\ announces_ok (r_tree r) /\ paths_ok (r_path r) /\
  blooms_ok (r_bloom r) /\ sessions_ok (r_sess r).

(** ** Updates of one component *)

Lemma inv_tree f r : (announces_ok (r_tree r) -> announces_ok (f (r_tree r))) -> router_inv r -> router_inv (set_tree f r).
Proof. intros Hf (Hk & Ha & Hp & Hb & Hs). exact (conj Hk (conj (Hf Ha) (conj Hp (conj Hb Hs)))). Qed.

Lemma inv_path f r : (paths_ok (r_path r) -> paths_ok (f (r_path r))) -> router_inv r -> router_inv (set_path f r).
Proof. intros Hf (Hk & Ha & Hp & Hb & Hs). exact (conj Hk (conj Ha (conj (Hf Hp) (conj Hb Hs)))). Qed.

Lemma inv_bloom f r : (blooms_ok (r_bloom r) -> blooms_ok (f (r_bloom r))) -> router_inv r -> router_inv (set_bloom f r).
Proof. intros Hf (Hk & Ha & Hp & Hb & Hs). exact (conj Hk (conj Ha (conj Hp (conj (Hf Hb) Hs)))). Qed.

Lemma inv_sess f r : (sessions_ok (r_sess r) -> sessions_ok (f (r_sess r))) -> router_inv r -> router_inv (set_sess f r).
Proof. intros Hf (Hk & Ha & Hp & Hb & Hs). exact (conj Hk (conj Ha (conj Hp (conj Hb (Hf Hs))))). Qed.

(** The counters and inboxes are free. *)
Lemma keeps_modify_same f : (forall r, r_key (f r) = r_key r /\ r_pubkey (f r) = r_pubkey r /\ r_tree (f r) = r_tree r /\
  r_path (f r) = r_path r /\ r_bloom (f r) = r_bloom r /\ r_sess (f r) = r_sess r) -> keeps router_inv (modify f).
Proof.
  intros Hf. apply keeps_modify. intros r Hr. destruct (Hf r) as (E1 & E2 & E3 & E4 & E5 & E6).
  unfold router_inv. by rewrite E1, E2, E3, E4, E5, E6.
Qed.
End invariant.

Ltac free_field := apply keeps_modify_same; intros ?; repeat split; reflexivity.

Section tree_inv.
Context `{!Ed25519} `{!Ed25519Laws} `{!NaclBox} `{!Env}.

(** An update of the tree state that does not touch the infos. *)
Lemma keeps_same_infos f : (forall t, t_infos (f t) = t_infos t) -> keeps router_inv (modify_tree f).
Proof.
  intros Hf. apply keeps_modify_tree. intros r. apply inv_tree. unfold announces_ok. by rewrite Hf.
Qed.

Ltac same_infos := apply keeps_same_infos; intros ?; reflexivity.
#[local] Hint Extern 1 (keeps router_inv (modify_tree _)) => same_infos : keeps.

Lemma keeps_write_via id t p : keeps router_inv (write_via id t p).
Proof. unfold write_via. apply keeps_bind; [keeps_tac|intros [?|]]; [keeps_tac|free_field]. Qed.

Lemma keeps_new_req : keeps router_inv new_req.
Proof. unfold new_req, rand_u64. keeps_tac. Qed.
#[local] Hint Resolve keeps_new_req : keeps.

Lemma keeps_send_req k : keeps router_inv (send_req k).
Proof. unfold send_req, alter_links. keeps_tac. Qed.
#[local] Hint Resolve keeps_send_req : keeps.

Lemma keeps_handle_request c k q : keeps router_inv (handle_request c k q).
Proof. unfold handle_request. keeps_tac. Qed.

Lemma keeps_handle_response c k s : keeps router_inv (handle_response c k s).
Proof. unfold handle_response. keeps_tac. Qed.

Lemma keeps_update a : Announce_check a = true -> keeps router_inv (update a).
Proof.
  intros Ha. unfold update, instant_now. apply keeps_asks. intros r Hr. walk_match; [keeps_tac|].
  apply keeps_bind; [keeps_tac|intros _]. apply keeps_bind; [keeps_tac|intros now].
  apply keeps_bind; [keeps_tac|intros _]. apply keeps_bind; [|keeps_tac].
  apply keeps_modify_tree. intros r'. apply inv_tree. intros Hi.
  apply map_Forall_insert_2; [|exact Hi]. by destruct a.
Qed.
#[local] Hint Resolve keeps_update : keeps.

Lemma keeps_expire : keeps router_inv expire.
Proof.
  unfold expire, instant_now. apply keeps_bind; [keeps_tac|intros now]. apply keeps_asks. intros r Hr.
  apply keeps_bind; [|keeps_tac]. apply keeps_for_each. intros k. apply keeps_modify_tree. intros r'.
  apply inv_tree. intros Hi. by apply map_Forall_delete.
Qed.

Lemma keeps_use_response k s : keeps router_inv (use_response k s).
Proof. unfold use_response. apply keeps_asks. intros r Hr. destruct (Announce_check _) eqn:E; keeps_tac. Qed.
#[local] Hint Resolve keeps_use_response : keeps.

(** The announce of a root carries its own signature twice. *)
Lemma root_announce_check req key : let res := SigRes_seal req 0 (verifying_key key) key (verifying_key key) in
  Announce_check (mkAnnounce (verifying_key key) (verifying_key key) res (res_psig res)) = true.
Proof.
  cbv zeta. unfold Announce_check, SigRes_check, SigRes_seal. cbn [ann_key ann_parent ann_res ann_sig res_psig res_port].
  rewrite bool_decide_eq_true_2 by done. cbn [negb]. rewrite andb_false_r.
  by rewrite !ed_sign_verify.
Qed.

Lemma keeps_become_root : keeps router_inv become_root.
Proof.
  unfold become_root, instant_now. apply keeps_bind; [keeps_tac|intros req]. apply keeps_asks. intros r Hr.
  apply keeps_bind; [|keeps_tac]. apply keeps_update. destruct Hr as [Ek _]. unfold id. rewrite Ek. apply root_announce_check.
Qed.
#[local] Hint Resolve keeps_become_root : keeps.

Lemma keeps_send_all_reqs : keeps router_inv send_all_reqs.
Proof. unfold send_all_reqs. keeps_tac. Qed.
#[local] Hint Resolve keeps_send_all_reqs : keeps.

Lemma keeps_fix_parent : keeps router_inv fix_parent.
Proof. unfold fix_parent, fix_apply. keeps_tac. Qed.

Lemma keeps_send_announces : keeps router_inv send_announces.
Proof. unfold send_announces. keeps_tac. Qed.

Lemma keeps_handle_announce k a : Announce_check a = true -> keeps router_inv (handle_announce k a).
Proof. intros Ha. unfold handle_announce. keeps_tac. Qed.
End tree_inv.

#[export] Hint Extern 1 (keeps router_inv (modify_tree _)) => (apply keeps_same_infos; intros ?; reflexivity) : keeps.
#[export] Hint Resolve keeps_write_via keeps_new_req keeps_handle_request keeps_handle_response keeps_expire keeps_fix_parent
  keeps_send_announces keeps_handle_announce : keeps.

Section bloom_inv.
Context `{!Ed25519} `{!NaclBox} `{!Env}.

Lemma blooms_send f b : (map_Forall (fun _ f => bloom_ok f) (b_send b) -> map_Forall (fun _ f => bloom_ok f) (f (b_send b))) ->
  blooms_ok b -> blooms_ok (set_b_send f b).
Proof. intros Hf (Hs & Hr & Ht). exact (conj (Hf Hs) (conj Hr Ht)). Qed.

Lemma blooms_recv f b : (map_Forall (fun _ f => bloom_ok f) (b_recv b) -> map_Forall (fun _ f => bloom_ok f) (f (b_recv b))) ->
  blooms_ok b -> blooms_ok (set_b_recv f b).
Proof. intros Hf (Hs & Hr & Ht). exact (conj Hs (conj (Hf Hr) Ht)). Qed.

Lemma or_default_ok k m : map_Forall (fun _ f => bloom_ok f) m -> map_Forall (fun _ f => bloom_ok f) (or_default k m).
Proof. intros Hm. unfold or_default. destruct (m !! k); [done|]. apply map_Forall_insert_2; [apply new_ok|done]. Qed.

Lemma table_insert_inv (t : Table bytes bool) k v : table_inv ON_TREE t -> table_inv ON_TREE (Table_insert ON_TREE t k v).1.
Proof.
  intros Ht. pose proof (insert_spec ON_TREE t k v Ht) as Hs. destruct (Table_insert ON_TREE t k v) as [t' [e|o]]; cbn [fst].
  - by destruct Hs as [-> _].
  - apply Hs.
Qed.

Lemma bloom_add_peer_ok p b : blooms_ok b -> blooms_ok (bloom_add_peer p b).
Proof.
  intros Hb. unfold bloom_add_peer.
  assert (blooms_ok (set_b_recv (or_default p) (set_b_send (or_default p) b))) as Hb'.
  { apply blooms_recv; [apply or_default_ok|]. apply blooms_send; [apply or_default_ok|done]. }
  destruct (Table_get _ _ _); [done|]. destruct Hb' as (Hs & Hr & Ht). split_and!; [exact Hs|exact Hr|].
  apply table_insert_inv, Ht.
Qed.

Lemma bloom_fix_step_ok infos pk sp b k : blooms_ok b -> blooms_ok (bloom_fix_step infos pk sp b k).
Proof.
  intros Hb. unfold bloom_fix_step.
  pose proof (table_insert_inv (b_on_tree b) k (on_tree_with infos pk sp k)) as Hi.
  destruct (Table_insert _ _ _ _) as [t o]. cbn [fst] in Hi.
  assert (blooms_ok (set_on_tree t b)) as Ht by (destruct Hb as (Hs & Hr & Ht); exact (conj Hs (conj Hr (Hi Ht)))).
  destruct (_ && _); [|done]. apply blooms_send; [|done]. intros Hs. apply map_Forall_insert_2; [apply new_ok|done].
Qed.

Lemma fold_keeps {A B} (P : A -> Prop) (f : A -> B -> A) l a : (forall a b, P a -> P (f a b)) -> P a -> P (fold_left f l a).
Proof. intros Hf. revert a. induction l as [|x l IH]; intros a Ha; [done|]. cbn. apply IH. by apply Hf. Qed.

Lemma bloom_fix_inv r : router_inv r -> router_inv (bloom_fix r).
Proof.
  intros Hr. unfold bloom_fix. destruct (t_infos (r_tree r) !! r_pubkey r) as [i|]; [|done].
  apply inv_bloom; [|done]. intros Hb. apply fold_keeps; [|done]. intros b k. apply bloom_fix_step_ok.
Qed.

Lemma bloom_for_ok r p : blooms_ok (r_bloom r) -> bloom_ok (bloom_for r p).
Proof.
  intros (Hs & Hr & _). unfold bloom_for.
  match goal with |- bloom_ok (match _ with Some s => BloomFilter_merge ?b _ | None => _ end) => assert (bloom_ok b) as Hb end.
  { apply fold_keeps; [|apply add_ok, new_ok]. intros b k Hb. destruct (b_recv _ !! k) as [f|] eqn:E; [|done].
    apply merge_ok; [done|]. by apply Hr in E. }
  destruct (b_send (r_bloom r) !! p) as [f|] eqn:E; [|done]. apply merge_ok; [done|]. by apply Hs in E.
Qed.

Lemma keeps_bloom_maintenance : keeps router_inv bloom_maintenance.
Proof.
  unfold bloom_maintenance. apply keeps_bind; [apply keeps_modify, bloom_fix_inv|intros _].
  apply keeps_asks. intros r0 _. apply keeps_for_each. intros pk. apply keeps_asks. intros r Hr. unfold id.
  destruct (decide _); [keeps_tac|]. apply keeps_bind.
  - apply keeps_modify. intros r'. apply inv_bloom, blooms_send. intros Hs.
    apply map_Forall_insert_2; [|done]. apply bloom_for_ok, Hr.
  - intros _. destruct (BloomFilter_encode _); [|keeps_tac]. apply keeps_bind; [keeps_tac|].
    intros [|? ?]; [free_field|keeps_tac].
Qed.

Lemma keeps_bloom_handle k p : bytes_ok p -> keeps router_inv (bloom_handle k p).
Proof.
  intros Hp. unfold bloom_handle. destruct (BloomFilter_decode_exact p) as [b|e] eqn:E; [|intros w Hw; exact Hw].
  apply (keeps_modify router_inv). intros r. apply inv_bloom. intros Hb. destruct (b_recv _ !! k); [|done].
  apply blooms_recv; [|done]. intros Hr. apply map_Forall_insert_2; [|done]. by eapply decode_bloom_ok.
Qed.

Lemma keeps_multicast f t ft p : keeps router_inv (multicast f t ft p).
Proof. unfold multicast. keeps_tac. Qed.
End bloom_inv.

#[export] Hint Resolve keeps_bloom_maintenance keeps_bloom_handle keeps_multicast : keeps.

Section session_inv.
Context `{!Ed25519} `{!Ed25519Laws} `{!NaclBox} `{!NaclBoxLaws} `{!Env}.

Lemma keeps_rand_bytes I : keeps I rand_bytes.
Proof. apply keeps_tick. Qed.
Lemma keeps_instant_now I : keeps I instant_now.
Proof. apply keeps_tick. Qed.
Lemma keeps_unix_now I : keeps I unix_now.
Proof. apply keeps_tick. Qed.
#[local] Hint Resolve keeps_rand_bytes keeps_instant_now keeps_unix_now : keeps.

Lemma keeps_next_init_seq : keeps router_inv next_init_seq.
Proof.
  unfold next_init_seq. apply keeps_bind; [keeps_tac|intros u]. apply keeps_asks. intros r (_ & _ & _ & _ & Hs).
  destruct Hs as (_ & _ & Hq). apply keeps_bind; [|keeps_tac]. apply keeps_modify. intros r'. apply inv_sess.
  intros (H1' & H2' & _). split_and!; [exact H1'|exact H2'|]. cbn [ss_init_seq set_init_seq].
  pose proof (wrap64_range (u + 1)). unfold wrapping_add, saturating_add, is_u64, U64_MAX in *. lia.
Qed.

(** The sequence number it returns is a machine word. *)
Lemma yields_next_init_seq : yields router_inv next_init_seq is_u64.
Proof.
  intros w Hw. pose proof (keeps_next_init_seq w Hw) as Hk. split; [exact Hk|]. destruct Hw as (_ & _ & _ & _ & (_ & _ & Hq)).
  intros n [= <-]. pose proof (wrap64_range (unix_at (w_ticks w) + 1)).
  cbn. unfold wrapping_add, saturating_add, is_u64, U64_MAX in *. lia.
Qed.

Lemma keeps_put_session k s a : session_ok s -> keeps router_inv (put_session k s a).
Proof.
  intros Hs. apply keeps_modify. intros r. apply inv_sess. intros (H1' & H2' & H3').
  split_and!; [apply map_Forall_insert_2; [exact Hs|exact H1']|exact H2'|exact H3'].
Qed.

Lemma inv_session r k s a : router_inv r -> ss_sessions (r_sess r) !! k = Some (s, a) -> session_ok s.
Proof. intros (_ & _ & _ & _ & (Hs & _)) E. by apply Hs in E. Qed.

Lemma inv_buf r k b : router_inv r -> ss_bufs (r_sess r) !! k = Some b -> buf_ok b.
Proof. intros (_ & _ & _ & _ & (_ & Hb & _)) E. by apply Hb in E. Qed.

Lemma keeps_put_buf k b : buf_ok b -> keeps router_inv (modify (set_sess (set_bufs <[k := b]>))).
Proof.
  intros Hb. apply keeps_modify. intros r. apply inv_sess. intros (H1' & H2' & H3').
  split_and!; [exact H1'|by apply map_Forall_insert_2|exact H3'].
Qed.

Lemma keeps_drop_buf k : keeps router_inv (modify (set_sess (set_bufs (delete k)))).
Proof.
  apply keeps_modify. intros r. apply inv_sess. intros (H1' & H2' & H3').
  split_and!; [exact H1'|by apply map_Forall_delete|exact H3'].
Qed.

Lemma keeps_resend f : keeps router_inv (modify (set_sess (set_resend f))).
Proof. apply keeps_modify. intros r. apply inv_sess. intros Hs. exact Hs. Qed.

Lemma keeps_rumors f : keeps router_inv (modify (set_path (set_rumors f))).
Proof. apply keeps_modify. intros r. apply inv_path. intros Hp. exact Hp. Qed.

Lemma keeps_notify n : keeps router_inv (modify (set_path (set_notify n))).
Proof. apply keeps_modify. intros r. apply inv_path. intros Hp. exact Hp. Qed.

(** A path update by an entry its node signed. *)
Lemma keeps_entry k e : path_signed k e -> keeps router_inv (modify (set_path (set_entries_p <[k := e]>))).
Proof. intros He. apply keeps_modify. intros r. apply inv_path. intros Hp. by apply map_Forall_insert_2. Qed.

#[local] Hint Resolve keeps_drop_buf keeps_resend keeps_rumors keeps_notify : keeps.

Lemma keeps_seal_init i mt d : keeps router_inv (seal_init i mt d).
Proof. unfold seal_init. keeps_tac. Qed.
Lemma keeps_fresh_box : keeps router_inv fresh_box.
Proof. unfold fresh_box. keeps_tac. Qed.
Lemma yields_fresh_box : yields router_inv fresh_box (fun p => p.1 = box_pub p.2).
Proof. intros w Hw. split; [exact Hw|]. by intros p [= <-]. Qed.
Lemma keeps_encode_traffic t : keeps router_inv (encode_traffic t).
Proof. unfold encode_traffic. keeps_tac. Qed.
#[local] Hint Resolve keeps_seal_init keeps_fresh_box keeps_encode_traffic : keeps.

Lemma keeps_route_traffic t : keeps router_inv (route_traffic t).
Proof. unfold route_traffic. keeps_tac. Qed.
#[local] Hint Resolve keeps_route_traffic : keeps.

(** ** One turn, for a send that keeps the invariant *)

Section turn.
Context (snd : bytes -> bytes -> M ()) (Hsnd : forall d p, keeps router_inv (snd d p)).
#[local] Hint Resolve Hsnd : keeps.

Lemma keeps_session_send_inner d k m : keeps router_inv (session_send_inner snd d k m).
Proof.
  unfold session_send_inner, net_send. apply keeps_asks. intros r Hr.
  destruct (ss_sessions (r_sess r) !! d) as [[s a]|] eqn:E; [|keeps_tac]. apply inv_session in E; [|done].
  apply keeps_bind; [keeps_tac|intros now]. apply keeps_bind; [keeps_tac|intros fresh].
  pose proof (Session_encrypt_ok s (k :: m) fresh E) as Hs. destruct (Session_encrypt s (k :: m) fresh) as [s' enc].
  apply keeps_bind; [by apply keeps_put_session|intros _]. keeps_tac.
Qed.

Lemma keeps_session_send_kind d k m : keeps router_inv (session_send_kind snd d k m).
Proof.
  unfold session_send_kind, net_send. apply keeps_asks. intros r _.
  destruct (ss_sessions (r_sess r) !! d); [apply keeps_session_send_inner|].
  apply keeps_bind; [keeps_tac|intros now]. eapply keeps_bind_post; [apply yields_next_init_seq|]. intros q Hq.
  apply keeps_asks. intros r' Hr'. apply (keeps_bind_post _ _ _ buf_ok).
  - destruct (ss_bufs (r_sess r') !! d) as [b|] eqn:E; [by apply yields_ret, (inv_buf r' d)|].
    eapply yields_bind; [apply yields_fresh_box|]. intros [cp cs] Hc.
    eapply yields_bind; [apply yields_fresh_box|]. intros [np ns] Hn. apply yields_ret. by split_and!.
  - intros b Hb. apply keeps_bind; [by apply keeps_put_buf|intros _; keeps_tac].
Qed.
#[local] Hint Resolve keeps_session_send_kind : keeps.

(** Only a notify that its source signed reaches the path table. *)
Lemma keeps_accept_notify n : keeps router_inv (accept_notify n).
Proof.
  assert (PathNotify_check n = true -> forall now, path_signed (pn_source n)
    (mkPathEntry (ni_path (pn_info n)) (ni_seq (pn_info n)) (now + PATH_TIMEOUT) false)) as Hsig.
  { intros Hc now. exists (ni_sig (pn_info n)). unfold PathNotify_check in Hc. by destruct (pn_info n). }
  unfold accept_notify. apply keeps_asks. intros r _. destruct (PathNotify_check n) eqn:Hc; cbn [negb].
  - specialize (Hsig eq_refl). pose proof (fun now => keeps_entry _ _ (Hsig now)). keeps_tac.
  - keeps_tac.
Qed.

Lemma keeps_take_held x : keeps router_inv (take_held x).
Proof. unfold take_held. keeps_tac. Qed.
#[local] Hint Resolve keeps_accept_notify keeps_take_held : keeps.

Lemma keeps_handle_notify n : keeps router_inv (handle_notify snd n).
Proof. unfold handle_notify, session_send. keeps_tac. Qed.
#[local] Hint Resolve keeps_handle_notify : keeps.

Lemma keeps_own_notify : keeps router_inv own_notify.
Proof. unfold own_notify. keeps_tac. Qed.
#[local] Hint Resolve keeps_own_notify : keeps.

Lemma keeps_handle_lookup f l : keeps router_inv (handle_lookup snd f l).
Proof. unfold handle_lookup. keeps_tac. Qed.
#[local] Hint Resolve keeps_handle_lookup : keeps.

Lemma keeps_rumor_lookup d : keeps router_inv (rumor_lookup snd d).
Proof. unfold rumor_lookup, send_lookup. keeps_tac. Qed.
#[local] Hint Resolve keeps_rumor_lookup : keeps.

Lemma keeps_hold_for_lookup d p : keeps router_inv (hold_for_lookup snd d p).
Proof. unfold hold_for_lookup. keeps_tac. Qed.

(** Marking a path broken or refreshing it leaves it signed. *)
Lemma inv_path_signed r k e : router_inv r -> pa_entries (r_path r) !! k = Some e -> path_signed k e.
Proof. intros (_ & _ & Hp & _) E. by apply Hp in E. Qed.

Lemma keeps_handle_broken b : keeps router_inv (handle_broken snd b).
Proof.
  unfold handle_broken. apply keeps_asks. intros r Hr. unfold id. apply keeps_bind; [keeps_tac|intros ls].
  destruct (greedy_next _ _ _ _) as [[i|] w]; [keeps_tac|]. destruct (negb _); [keeps_tac|].
  destruct (pa_entries (r_path r) !! pb_dest b) as [e|] eqn:E; [|keeps_tac]. apply inv_path_signed in E; [|done].
  apply keeps_bind; [by apply keeps_entry|intros _; keeps_tac].
Qed.

Lemma keeps_pathfinder_turn d p : keeps router_inv (pathfinder_turn snd d p).
Proof. unfold pathfinder_turn. keeps_tac. Qed.
End turn.

Lemma keeps_pathfinder_send n d p : keeps router_inv (pathfinder_send n d p).
Proof.
  revert d p. induction n as [|n IH]; intros d p; [intros w Hw; exact I|].
  exact (keeps_pathfinder_turn _ IH d p).
Qed.

Lemma keeps_send d p : keeps router_inv (send d p).
Proof. apply keeps_pathfinder_send. Qed.
End session_inv.

#[export] Hint Resolve keeps_rand_bytes keeps_instant_now keeps_unix_now keeps_next_init_seq keeps_send keeps_seal_init
  keeps_fresh_box keeps_encode_traffic keeps_drop_buf keeps_resend keeps_rumors : keeps.

Section driver_inv.
Context `{!Ed25519} `{!Ed25519Laws} `{!NaclBox} `{!NaclBoxLaws} `{!Env}.

Lemma keeps_session_send d k m : keeps router_inv (session_send_kind send d k m).
Proof. apply keeps_session_send_kind, keeps_send. Qed.
Lemma keeps_session_inner d k m : keeps router_inv (session_send_inner send d k m).
Proof. apply keeps_session_send_inner, keeps_send. Qed.
#[local] Hint Resolve keeps_session_send keeps_session_inner : keeps.

Lemma keeps_handle_proto_bytes f p : keeps router_inv (handle_proto_bytes f p).
Proof.
  unfold handle_proto_bytes, handle_debug_bytes, proto_send.
  assert (forall x, keeps router_inv (modify (push_proto_inbox x))) by (intros; free_field). keeps_tac.
Qed.
#[local] Hint Resolve keeps_handle_proto_bytes : keeps.

Lemma keeps_send_ack f a : keeps router_inv (send_ack f a).
Proof. unfold send_ack, net_send. keeps_tac. Qed.
#[local] Hint Resolve keeps_send_ack : keeps.

Lemma handle_init_ok s i q f : session_ok s -> SessionInit_ok i -> session_ok (handle_init s i q f).1.
Proof. intros Hs Hi. by apply (session_step_ok s (EvInit i q f)). Qed.

Lemma keeps_session_for_init f i now : SessionInit_ok i -> keeps router_inv (session_for_init f i now).
Proof.
  intros Hi. unfold session_for_init.
  apply keeps_bind; [keeps_tac|intros rp]. apply keeps_bind; [keeps_tac|intros sp]. apply keeps_bind; [keeps_tac|intros np].
  apply keeps_asks. intros r Hr. set (buf := ss_bufs (r_sess r) !! f). apply keeps_bind; [keeps_tac|intros _].
  set (s := match buf with Some b => _ | None => _ end).
  assert (session_ok s) as Hs.
  { subst s. destruct buf as [b|] eqn:E; [|by apply for_init_ok].
    destruct (inv_buf _ _ _ Hr E) as (-> & -> & _). apply adopt_buffered_ok. by apply for_init_ok. }
  apply keeps_bind; [by apply keeps_put_session|intros _].
  apply keeps_bind; [keeps_tac|intros q]. apply keeps_bind; [keeps_tac|intros fr].
  pose proof (handle_init_ok s i q fr Hs Hi) as Hs'. destruct (handle_init s i q fr) as [s' ack].
  apply keeps_bind; [by apply keeps_put_session|intros _]. keeps_tac.
Qed.

Lemma keeps_handle_init_bytes f d now : bytes_ok d -> keeps router_inv (handle_init_bytes f d now).
Proof.
  intros Hd. unfold handle_init_bytes, box_priv. apply keeps_bind; [keeps_tac|intros priv].
  destruct (decrypt_msg priv f d) as [i|] eqn:E; [|keeps_tac]. apply decrypt_msg_ok in E; [|done].
  apply keeps_asks. intros r Hr. destruct (ss_sessions (r_sess r) !! f) as [[s a]|] eqn:Es; [|by apply keeps_session_for_init].
  apply inv_session in Es; [|done]. destruct (_ =? _).
  - apply keeps_bind; [keeps_tac|intros fr]. apply keeps_put_session. by apply (session_step_ok s (EvAck i fr)).
  - apply keeps_bind; [keeps_tac|intros q]. apply keeps_bind; [keeps_tac|intros fr].
    pose proof (handle_init_ok s i q fr Es E) as Hs'. destruct (handle_init s i q fr) as [s' ack].
    apply keeps_bind; [by apply keeps_put_session|intros _]. keeps_tac.
Qed.

Lemma keeps_handle_traffic_bytes f d now : keeps router_inv (handle_traffic_bytes f d now).
Proof.
  unfold handle_traffic_bytes, net_send. apply keeps_bind; [keeps_tac|intros q]. apply keeps_asks. intros r Hr.
  destruct (ss_sessions (r_sess r) !! f) as [[s a]|] eqn:Es; [|keeps_tac]. apply inv_session in Es; [|done].
  apply keeps_bind; [keeps_tac|intros fr]. apply keeps_bind; [keeps_tac|intros t]. apply keeps_bind; [keeps_tac|intros t'].
  pose proof (Session_decrypt_ok s d fr t t' Es) as Hs'. destruct (Session_decrypt s d fr t t') as [s' o].
  assert (forall x, keeps router_inv (modify (push_inbox x))) by (intros; free_field).
  destruct o; (apply keeps_bind; [by apply keeps_put_session|intros _]); keeps_tac.
Qed.

Lemma keeps_handle_session_bytes f d : bytes_ok d -> keeps router_inv (handle_session_bytes f d).
Proof.
  intros Hd. pose proof (fun now => keeps_handle_init_bytes f d now Hd). pose proof (keeps_handle_traffic_bytes f d).
  unfold handle_session_bytes. destruct d; keeps_tac.
Qed.

Lemma keeps_handle_inbound_traffic tr : bytes_ok (tr_payload tr) -> keeps router_inv (handle_inbound_traffic tr).
Proof.
  intros Hp. pose proof (keeps_handle_session_bytes (tr_source tr) (tr_payload tr) Hp).
  unfold handle_inbound_traffic. apply keeps_asks. intros r Hr. unfold id. apply keeps_bind; [keeps_tac|intros ls].
  destruct (greedy_next _ _ _ _) as [[i|] w]; [keeps_tac|].
  destruct (bool_decide _); [|apply keeps_handle_broken, keeps_send].
  apply keeps_bind; [|intros _; done]. destruct (pa_entries (r_path r) !! tr_source tr) as [e|] eqn:E; [|keeps_tac].
  destruct (pe_broken e); [keeps_tac|]. apply inv_path_signed in E; [|done].
  apply keeps_bind; [keeps_tac|intros now]. by apply keeps_entry.
Qed.

Lemma keeps_handle_frame c k t p : bytes_ok p -> keeps router_inv (handle_frame c k t p).
Proof.
  intros Hp. unfold handle_frame. apply keeps_asks. intros r _.
  pose proof (keeps_handle_lookup send keeps_send). pose proof (keeps_handle_notify send keeps_send).
  pose proof (keeps_handle_broken send keeps_send).
  destruct t; try solve [keeps_tac].
  - destruct (Announce_decode_exact p) as [a|e]; [|keeps_tac]. destruct (Announce_check a) eqn:E; [|keeps_tac].
    apply keeps_bind; [by apply keeps_handle_announce|intros [?|]; keeps_tac].
  - destruct (Traffic_decode p) as [tr|e] eqn:E; [|keeps_tac].
    apply (codec_sound (dec := Traffic_decode)) in E; [|done]. apply keeps_handle_inbound_traffic, E.
Qed.
#[local] Hint Resolve keeps_handle_frame : keeps.

Lemma keeps_keepalive c : keeps router_inv (keepalive_if_idle c).
Proof. unfold keepalive_if_idle. keeps_tac. Qed.
#[local] Hint Resolve keeps_keepalive : keeps.

Lemma keeps_dispatch_frame c t p : bytes_ok p -> keeps router_inv (dispatch_frame c t p).
Proof.
  intros Hp. unfold dispatch_frame. apply keeps_bind; [keeps_tac|]. intros [k|]; [|keeps_tac].
  apply keeps_bind; [by apply keeps_handle_frame|intros _]. destruct t; keeps_tac.
Qed.

Lemma Forall_filter_map {V} (P : bytes -> V -> Prop) (Q : bytes * V -> Prop) `{!forall x, Decision (Q x)} (m : gmap bytes V) :
  map_Forall P m -> map_Forall P (filter Q m).
Proof. intros Hm k v [E _]%map_lookup_filter_Some. by apply Hm. Qed.

Lemma expire_ephemeral_inv now r : router_inv r -> router_inv (expire_ephemeral_at now r).
Proof.
  intros Hr. unfold expire_ephemeral_at. apply inv_sess; [|apply inv_path; [|done]].
  - intros (H1' & H2' & H3'). split_and!; [by apply Forall_filter_map|by apply Forall_filter_map|exact H3'].
  - intros Hp. by apply Forall_filter_map.
Qed.

Lemma keeps_maintain : keeps router_inv maintain.
Proof.
  unfold maintain, expire_ephemeral. pose proof (keeps_rumor_lookup send keeps_send).
  do 4 (apply keeps_bind; [keeps_tac|intros _]). apply keeps_bind; [|intros _; keeps_tac].
  apply keeps_bind; [keeps_tac|intros now]. apply keeps_modify, expire_ephemeral_inv.
Qed.

Lemma keeps_conn_write c t p k : (forall c, keeps router_inv (k c)) -> keeps router_inv (conn_write c t p k).
Proof. intros Hk. unfold conn_write. destruct (conn_write_frame c t p) as [[c' [?|?]]|]; keeps_tac. Qed.

Lemma keeps_replay c anns : keeps router_inv (replay_announces c anns).
Proof.
  revert c. induction anns as [|a anns IH]; intros c; cbn [replay_announces]; [keeps_tac|].
  apply keeps_conn_write. intros c'. keeps_tac.
Qed.

Lemma keeps_register c k id : keeps router_inv (register c k id).
Proof.
  unfold register. apply keeps_asks. intros r _. apply keeps_bind; [keeps_tac|intros port].
  apply keeps_bind; [keeps_tac|intros _]. apply keeps_bind; [keeps_tac|intros req].
  apply keeps_bind; [keeps_tac|intros _].
  apply keeps_bind; [apply keeps_modify; intros r'; apply inv_bloom, bloom_add_peer_ok|intros _].
  apply keeps_asks. intros r' _.
  destruct (BloomFilter_encode <$> _) as [[b|]|];
    [|apply keeps_panic|]; apply keeps_conn_write; intros c1; apply keeps_conn_write; intros c2; apply keeps_replay.
Qed.

Lemma keeps_send_or_resolve via d p : keeps router_inv (send_or_resolve via d p).
Proof. pose proof (keeps_hold_for_lookup send keeps_send). unfold send_or_resolve, session_send. keeps_tac. Qed.
End driver_inv.

(** ** Reachable routers *)

(** What a node does: the driver's operations, the application's sends, and the
    changes its environment makes to the set of links. *)
Inductive node_event : Type :=
  | NDispatch (conn : LinkId) (t : FrameType) (payload : bytes)
  | NMaintain
  | NRegister (conn : AnyConn) (peer : bytes) (id : LinkId)
  | NForget (id : LinkId)
  | NSendOrResolve (via : LinkId) (dest : Address) (payload : bytes)
  | NSend (dest msg : bytes)
  | NProto (dest payload : bytes)
  | NNodeinfo (json : bytes)
  | NLinks (f : LinkSet -> LinkSet).

Section reachable.
Context `{!Ed25519} `{!NaclBox} `{!Env}.

Definition discard {A} (m : M A) : M () := _ ← attempt m; mret ().

Definition node_step (e : node_event) : M () :=
  match e with
  | NDispatch c t p => discard (dispatch_frame c t p)
  | NMaintain => discard maintain
  | NRegister c k id => discard (register c k id)
  | NForget id => forget_link id
  | NSendOrResolve v d p => discard (send_or_resolve v d p)
  | NSend d m => discard (session_send send d m)
  | NProto d p => discard (proto_send d p)
  | NNodeinfo j => discard (set_nodeinfo j)
  | NLinks f => arrive f
  end.

(** Frames are bytes. *)
Definition event_bytes (e : node_event) : Prop :=
  match e with NDispatch _ _ p => bytes_ok p | _ => True end.

Inductive reachable (key : bytes) (clock : StdClock) : World -> Prop :=
  | reach_init ls n : reachable key clock (mkWorld (with_clock key clock) ls n)
  | reach_step w e w' r : reachable key clock w -> event_bytes e -> node_step e w = Done w' r -> reachable key clock w'.
End reachable.

Section reachable_inv.
Context `{!Ed25519} `{!Ed25519Laws} `{!NaclBox} `{!NaclBoxLaws} `{!Env}.

Lemma keeps_discard {A} I (m : M A) : keeps I m -> keeps I (discard m).
Proof. intros Hm. unfold discard. keeps_tac. Qed.

Lemma keeps_node_step e : event_bytes e -> keeps router_inv (node_step e).
Proof.
  intros He. destruct e; cbn [node_step event_bytes] in *.
  - by apply keeps_discard, keeps_dispatch_frame.
  - apply keeps_discard, keeps_maintain.
  - apply keeps_discard, keeps_register.
  - unfold forget_link. keeps_tac.
  - apply keeps_discard, keeps_send_or_resolve.
  - apply keeps_discard, keeps_session_send.
  - apply keeps_discard, keeps_session_send.
  - apply keeps_discard. unfold set_nodeinfo. destruct (decide _); [keeps_tac|free_field].
  - intros w Hw. exact Hw.
Qed.

Lemma initial_inv key clock : router_inv (with_clock key clock).
Proof.
  split; [done|]. split; [apply map_Forall_empty|]. split; [apply map_Forall_empty|].
  split; [split; [apply map_Forall_empty|split; [apply map_Forall_empty|apply new_spec]]|].
  split; [apply map_Forall_empty|]. split; [apply map_Forall_empty|]. cbn. unfold is_u64. lia.
Qed.

(** C1: every router a node can reach is sound, whatever frames its peers send
    and however its links and clocks behave: it holds only announces signed by
    the node and by the parent they name, only paths signed by the node they
    lead to, well-formed filters, and sessions whose keys, boxes and counters
    agree; and its public key is that of its signing key. *)
Theorem reachable_router_sound (key : bytes) (clock : StdClock) (w : World) :
  reachable key clock w -> router_inv (w_router w).
Proof.
  induction 1 as [ls n|w e w' r Hw IH He Hs]; [apply initial_inv|].
  pose proof (keeps_node_step e He w IH) as Hk. unfold wp in Hk. by rewrite Hs in Hk.
Qed.
End reachable_inv.

(** ** A reachable node *)

Section run.
Context `{!Ed25519} `{!NaclBox} `{!Env}.

Fixpoint run_events (es : list node_event) (w : World) : option World :=
  match es with
  | [] => Some w
  | e :: es => match node_step e w with Done w' _ => run_events es w' | _ => None end
  end.

Lemma run_reachable key clock es w w' : reachable key clock w -> Forall event_bytes es -> run_events es w = Some w' ->
  reachable key clock w'.
Proof.
  intros Hw Hes. revert w Hw. induction Hes as [|e es He Hes IH]; intros w Hw; cbn [run_events]; [by intros [= <-]|].
  destruct (node_step e w) as [w1 r| |] eqn:E; [|done..]. apply IH. eapply reach_step; [exact Hw|exact He|exact E].
Qed.
End run.

(** A link to the root comes up, the root announces itself, and the
    application sends to it. *)
Definition demo_events : list node_event :=
  [NLinks (fun _ => demo_links); NRegister (demo_conn (demo_key 1) 7) (demo_key 1) 7;
   NDispatch 7 TAnnounce (Announce_encode (Info_announce (demo_info (demo_key 1) (demo_key 1) 2 0) (demo_key 1)) []);
   NMaintain; NSend (demo_key 1) [1; 2; 3]].

Definition demo_start : World := mkWorld (@with_clock toy_ed25519 (demo_key 2) (mkStdClock 0)) LinkSet_new 0.

Definition demo_reached : option World := @run_events toy_ed25519 toy_box demo_env demo_events demo_start.

Lemma reachable_router_sound_witness : exists w, demo_reached = Some w /\
  is_Some (t_infos (r_tree (w_router w)) !! demo_key 1) /\ is_Some (ss_bufs (r_sess (w_router w)) !! demo_key 1) /\
  @router_inv toy_ed25519 toy_box (w_router w).
Proof.
  destruct demo_reached as [w|] eqn:E; [|exfalso; revert E; vm_compute; discriminate].
  exists w. split; [reflexivity|].
  assert (match demo_reached with
          | Some w => bool_decide (is_Some (t_infos (r_tree (w_router w)) !! demo_key 1) /\
                                   is_Some (ss_bufs (r_sess (w_router w)) !! demo_key 1))
          | None => false end = true) as Hc by (vm_compute; reflexivity).
  rewrite E in Hc. apply bool_decide_eq_true in Hc as [H1 H2]. split; [exact H1|]. split; [exact H2|].
  apply (@reachable_router_sound toy_ed25519 toy_ed25519_laws toy_box toy_box_laws demo_env (demo_key 2) (mkStdClock 0)).
  apply (@run_reachable toy_ed25519 toy_box demo_env _ _ demo_events demo_start); [apply reach_init| |exact E].
  do 2 (apply Forall_cons; split; [exact I|]). apply Forall_cons; split.
  - apply (bool_decide_unpack (bytes_ok _)). vm_compute. exact I.
  - do 2 (apply Forall_cons; split; [exact I|]). apply Forall_nil. exact I.
Defined.
