(* ===== verification/Delivery.v ===== *)
(** * Delivery: what reaches the application.

    The inboxes, of the application and of the session protocol, grow only by
    payloads that a session opened; a payload held for
    a lookup leaves through the session layer when the notify arrives; and the
    ways in which a payload, or the node, is lost. *)
From stdpp Require Import base tactics list numbers gmap.
From S2P Require Import Prelude Errors Clock Frame Address Table Bloom Wire Handshake LinkSet Router Hoare Tree BloomTree Session Pathfind Protocol Driver Invariant Demo.

Local Open Scope Z_scope.

(** What waits for the application, and for who asked a remote node. *)
Definition inboxes (r : Router) : list (bytes * bytes) * list (bytes * bytes) := (r_inbox r, r_proto_inbox r).

Section inbox.
Context `{!Ed25519} `{!NaclBox} `{!Env}.
Context (ib : list (bytes * bytes) * list (bytes * bytes)).

Definition inbox_is (r : Router) : Prop := inboxes r = ib.

#[local] Hint Extern 1 (keeps inbox_is (modify _)) => (apply keeps_modify; intros ? Hx; exact Hx) : keeps.
#[local] Hint Extern 1 (keeps inbox_is (modify_tree _)) => (apply keeps_modify_tree; intros ? Hx; exact Hx) : keeps.

Lemma inbox_write_via id t p : keeps inbox_is (write_via id t p).
Proof. unfold write_via. keeps_tac. Qed.
Lemma inbox_next_init_seq : keeps inbox_is next_init_seq.
Proof. unfold next_init_seq. keeps_tac. Qed.
Lemma inbox_seal_init i mt d : keeps inbox_is (seal_init i mt d).
Proof. unfold seal_init. keeps_tac. Qed.
Lemma inbox_fresh_box : keeps inbox_is fresh_box.
Proof. unfold fresh_box. keeps_tac. Qed.
Lemma inbox_encode_traffic t : keeps inbox_is (encode_traffic t).
Proof. unfold encode_traffic. keeps_tac. Qed.
#[local] Hint Resolve inbox_write_via inbox_next_init_seq inbox_seal_init inbox_fresh_box inbox_encode_traffic : keeps.

Lemma inbox_multicast f t ft p : keeps inbox_is (multicast f t ft p).
Proof. unfold multicast. keeps_tac. Qed.
Lemma inbox_route_traffic t : keeps inbox_is (route_traffic t).
Proof. unfold route_traffic. keeps_tac. Qed.
#[local] Hint Resolve inbox_multicast inbox_route_traffic : keeps.

Section turn.
Context (snd : bytes -> bytes -> M ()) (Hsnd : forall d p, keeps inbox_is (snd d p)).
#[local] Hint Resolve Hsnd : keeps.

Lemma inbox_session_send_inner d k m : keeps inbox_is (session_send_inner snd d k m).
Proof. unfold session_send_inner, net_send. keeps_tac. Qed.
#[local] Hint Resolve inbox_session_send_inner : keeps.

Lemma inbox_session_send_kind d k m : keeps inbox_is (session_send_kind snd d k m).
Proof. unfold session_send_kind, net_send. keeps_tac. Qed.
#[local] Hint Resolve inbox_session_send_kind : keeps.

Lemma inbox_handle_notify n : keeps inbox_is (handle_notify snd n).
Proof. unfold handle_notify, session_send, accept_notify, take_held. keeps_tac. Qed.
#[local] Hint Resolve inbox_handle_notify : keeps.

Lemma inbox_handle_lookup f l : keeps inbox_is (handle_lookup snd f l).
Proof. unfold handle_lookup, own_notify. keeps_tac. Qed.
#[local] Hint Resolve inbox_handle_lookup : keeps.

Lemma inbox_rumor_lookup d : keeps inbox_is (rumor_lookup snd d).
Proof. unfold rumor_lookup, send_lookup. keeps_tac. Qed.
#[local] Hint Resolve inbox_rumor_lookup : keeps.

Lemma inbox_handle_broken b : keeps inbox_is (handle_broken snd b).
Proof. unfold handle_broken. keeps_tac. Qed.

Lemma inbox_pathfinder_turn d p : keeps inbox_is (pathfinder_turn snd d p).
Proof. unfold pathfinder_turn. keeps_tac. Qed.
End turn.

Lemma inbox_send d p : keeps inbox_is (send d p).
Proof.
  unfold send. generalize SEND_FUEL. intros n. revert d p.
  induction n as [|n IH]; intros d p; [intros w Hw; exact I|]. exact (inbox_pathfinder_turn _ IH d p).
Qed.
#[local] Hint Resolve inbox_send inbox_session_send_kind inbox_session_send_inner : keeps.

Lemma inbox_proto_send d p : keeps inbox_is (proto_send d p).
Proof. unfold proto_send. apply inbox_session_send_kind, inbox_send. Qed.

Lemma inbox_handle_init f d now : keeps inbox_is (handle_init_bytes f d now).
Proof. unfold handle_init_bytes, session_for_init, send_ack, put_session, box_priv, net_send. keeps_tac. Qed.

Lemma inbox_keepalive c : keeps inbox_is (keepalive_if_idle c).
Proof. unfold keepalive_if_idle. keeps_tac. Qed.

Lemma inbox_update a : keeps inbox_is (update a).
Proof. unfold update. keeps_tac. Qed.
#[local] Hint Resolve inbox_update : keeps.

Lemma inbox_handle_announce k a : keeps inbox_is (handle_announce k a).
Proof. unfold handle_announce. keeps_tac. Qed.
Lemma inbox_handle_request c k q : keeps inbox_is (handle_request c k q).
Proof. unfold handle_request. keeps_tac. Qed.
Lemma inbox_handle_response c k q : keeps inbox_is (handle_response c k q).
Proof. unfold handle_response. keeps_tac. Qed.
Lemma inbox_bloom_handle k p : keeps inbox_is (bloom_handle k p).
Proof. unfold bloom_handle. apply keeps_bind; [apply keeps_lift|intros b]. keeps_tac. Qed.
#[local] Hint Resolve inbox_handle_announce inbox_handle_request inbox_handle_response inbox_bloom_handle : keeps.

(** A frame that is not traffic leaves the inboxes alone. *)
Lemma inbox_handle_frame c k t p : t <> TTraffic -> keeps inbox_is (handle_frame c k t p).
Proof.
  intros Ht. pose proof (inbox_handle_lookup send inbox_send). pose proof (inbox_handle_notify send inbox_send).
  pose proof (inbox_handle_broken send inbox_send).
  unfold handle_frame. destruct t; try (destruct (Ht eq_refl)); keeps_tac.
Qed.

(** Looking after the tree and registering a link leave them alone. *)
Lemma inbox_use_response k q : keeps inbox_is (use_response k q).
Proof. unfold use_response. apply keeps_asks. intros r _. cbv zeta. destruct (Announce_check _); keeps_tac. Qed.
#[local] Hint Resolve inbox_use_response : keeps.

Lemma inbox_maintain : keeps inbox_is maintain.
Proof.
  pose proof (inbox_rumor_lookup send inbox_send).
  unfold maintain, expire, fix_parent, fix_apply, send_announces, bloom_maintenance, expire_ephemeral. keeps_tac.
  unfold bloom_fix. by destruct (t_infos _ !! _).
Qed.

Lemma inbox_conn_write c t p k : (forall c, keeps inbox_is (k c)) -> keeps inbox_is (conn_write c t p k).
Proof. intros Hk. unfold conn_write. keeps_tac. Qed.

Lemma inbox_replay c anns : keeps inbox_is (replay_announces c anns).
Proof. revert c. induction anns as [|a anns IH]; intros c; cbn [replay_announces]; [keeps_tac|]. apply inbox_conn_write. intros c'. keeps_tac. Qed.
#[local] Hint Resolve inbox_conn_write inbox_replay : keeps.

Lemma inbox_register c k id : keeps inbox_is (register c k id).
Proof. unfold register. keeps_tac. Qed.
End inbox.

(** ** Authenticity of what is delivered *)

Lemma wp_bind {A B} (m : M A) (k : A -> M B) (Q : result B -> World -> Prop) w :
  wp m (fun r w' => match r with Ok a => wp (k a) Q w' | Err e => Q (Err e) w' end) w -> wp (m ≫= k) Q w.
Proof. unfold wp, mbind, M_bind. by destruct (m w) as [w' [a|e]| |]. Qed.

Lemma wp_mono {A} (m : M A) (Q Q' : result A -> World -> Prop) w : wp m Q w -> (forall r w', Q r w' -> Q' r w') -> wp m Q' w.
Proof. unfold wp. intros Hm Hq. destruct (m w); [by apply Hq|done..]. Qed.

Lemma wp_keeps {A} (I : Router -> Prop) (m : M A) w : keeps I m -> I (w_router w) -> wp m (fun _ w' => I (w_router w')) w.
Proof. auto. Qed.

(** The payload of a packet of the given kind is put where its kind belongs. *)
Definition filed (kind : Z) (from m : bytes) (r r' : Router) : Prop :=
  (kind = PACKET_TYPE_TRAFFIC /\ inboxes r' = (r_inbox r ++ [(from, m)], r_proto_inbox r)) \/
  (kind = PACKET_TYPE_PROTO /\ m <> [] /\ inboxes r' = (r_inbox r, r_proto_inbox r ++ [(from, m)])).

(** The only changes of the inboxes: none, or one payload from a peer whose
    session opened the data to it. *)
Definition delivers `{!NaclBox} (from data : bytes) (r r' : Router) : Prop :=
  inboxes r' = inboxes r \/
  exists s a fresh t t' s' kind m, ss_sessions (r_sess r) !! from = Some (s, a) /\
    Session_decrypt s data fresh t t' = (s', Some (kind :: m)) /\ filed kind from m r r'.

Section authentic.
Context `{!Ed25519} `{!NaclBox} `{!Env}.

Lemma delivers_keeps {A} (m : M A) from data w : (forall ib, keeps (inbox_is ib) m) ->
  wp m (fun _ w' => delivers from data (w_router w) (w_router w')) w.
Proof. intros Hm. eapply wp_mono; [apply (Hm (inboxes (w_router w)) w); reflexivity|]. intros r w' E. by left. Qed.

(** A step that touches neither the inbox nor the sessions. *)
Definition silent {A} (m : M A) : Prop :=
  forall ib ss, keeps (fun r => inboxes r = ib /\ ss_sessions (r_sess r) = ss) m.

Lemma delivers_silent {A B} (m : M A) (k : A -> M B) from data w : silent m ->
  (forall a w1, inboxes (w_router w1) = inboxes (w_router w) -> ss_sessions (r_sess (w_router w1)) = ss_sessions (r_sess (w_router w)) ->
     wp (k a) (fun _ w' => delivers from data (w_router w1) (w_router w')) w1) ->
  wp (m ≫= k) (fun _ w' => delivers from data (w_router w) (w_router w')) w.
Proof.
  intros Hm Hk. apply wp_bind.
  eapply wp_mono; [apply (Hm (inboxes (w_router w)) (ss_sessions (r_sess (w_router w))) w); done|].
  intros [a|e] w1 [E1 E2]; [|by left]. eapply wp_mono; [by apply Hk|]. injection E1 as E1 E3. unfold delivers, filed, inboxes. by rewrite E1, E2, E3.
Qed.

Lemma silent_tick {A} (f : nat -> A) : silent (tick f).
Proof. intros ib ss w Hw. exact Hw. Qed.

Lemma silent_next_init_seq : silent next_init_seq.
Proof. intros ib ss w Hw. exact Hw. Qed.

(** Sealing and sending an init leaves the inbox alone. *)
Lemma delivers_init i from data w :
  wp (enc ← seal_init i SESSION_TYPE_INIT from; net_send send from enc)
     (fun _ w' => delivers from data (w_router w) (w_router w')) w.
Proof.
  apply delivers_keeps. intros ib. apply keeps_bind; [apply inbox_seal_init|]. intros enc. apply inbox_send.
Qed.

(** The answers that the session protocol keeps are the whole payload. *)
Lemma proto_delivers from m w :
  wp (handle_proto_bytes from m) (fun _ w' => inboxes (w_router w') = inboxes (w_router w) \/ filed PACKET_TYPE_PROTO from m (w_router w) (w_router w')) w.
Proof.
  assert (forall d p, wp (proto_send d p) (fun _ w' => inboxes (w_router w') = inboxes (w_router w) \/
    filed PACKET_TYPE_PROTO from m (w_router w) (w_router w')) w) as Hsend.
  { intros d p. eapply wp_mono; [apply (inbox_proto_send (inboxes (w_router w)) d p w); reflexivity|]. intros r w' E. by left. }
  destruct m as [|kind rest]; [by left|]. cbn [handle_proto_bytes].
  destruct (kind =? PROTO_NODEINFO_REQ); [apply wp_bind; apply Hsend|].
  destruct (kind =? PROTO_NODEINFO_RES); [right; right; done|].
  destruct (Z.eqb_spec kind PROTO_DEBUG) as [->|]; [|by left]. destruct rest as [|k p]; [by left|]. cbn [handle_debug_bytes].
  apply wp_bind. unfold wp at 1, asks. do 3 (case_match; [apply Hsend|]). case_match; [right; right; done|by left].
Qed.

Lemma delivers_traffic_bytes from data now w :
  wp (handle_traffic_bytes from data now) (fun _ w' => delivers from data (w_router w) (w_router w')) w.
Proof.
  unfold handle_traffic_bytes. apply delivers_silent; [apply silent_next_init_seq|]. intros q w1 _ _.
  change (wp (match ss_sessions (r_sess (w_router w1)) !! from with
    | Some (s, active) =>
      fresh ← rand_bytes; t ← instant_now; t' ← instant_now;
      let '(s, opened) := Session_decrypt s data fresh t t' in
      match opened with
      | Some payload =>
        _ ← put_session from s now;
        match payload with
        | [] => mret ()
        | kind :: rest =>
          if kind =? PACKET_TYPE_TRAFFIC then modify (push_inbox (from, rest))
          else if kind =? PACKET_TYPE_PROTO then handle_proto_bytes from rest
          else mret ()
        end
      | None => _ ← put_session from s active; enc ← seal_init (make_init s q) SESSION_TYPE_INIT from; net_send send from enc
      end
    | None =>
      '(cp, _) ← fresh_box; '(np, _) ← fresh_box; seq ← next_init_seq;
      enc ← seal_init (mkSessionInit cp np 0 seq) SESSION_TYPE_INIT from; net_send send from enc
    end) (fun _ w' => delivers from data (w_router w1) (w_router w')) w1).
  destruct (ss_sessions (r_sess (w_router w1)) !! from) as [[s a]|] eqn:Es.
  - apply delivers_silent; [apply silent_tick|]. intros fresh w2 _ E2.
    apply delivers_silent; [apply silent_tick|]. intros t w3 _ E3.
    apply delivers_silent; [apply silent_tick|]. intros t' w4 _ E4. rewrite <-E2, <-E3, <-E4 in Es. clear E2 E3 E4.
    destruct (Session_decrypt s data fresh t t') as [s' [[|k m]|]] eqn:Ed.
    + by left.
    + unfold put_session. change (wp (if k =? PACKET_TYPE_TRAFFIC then modify (push_inbox (from, m))
        else if k =? PACKET_TYPE_PROTO then handle_proto_bytes from m else mret ())
        (fun _ w' => delivers from data (w_router w4) (w_router w'))
        (mkWorld (set_sess (set_sessions <[from := (s', now)]>) (w_router w4)) (w_links w4) (w_ticks w4))).
      destruct (Z.eqb_spec k PACKET_TYPE_TRAFFIC) as [->|].
      * right. do 8 eexists. split; [exact Es|]. split; [exact Ed|by left].
      * destruct (Z.eqb_spec k PACKET_TYPE_PROTO) as [->|]; [|by left].
        eapply wp_mono; [apply proto_delivers|]. intros r w' [E|E]; [by left|]. right. do 8 eexists. split; [exact Es|]. split; [exact Ed|exact E].
    + apply (delivers_keeps (_ ← put_session from s' a; enc ← seal_init (make_init s' q) SESSION_TYPE_INIT from; net_send send from enc)).
      intros ib. apply keeps_bind; [apply keeps_modify; intros r Hr; exact Hr|intros _].
      apply keeps_bind; [apply inbox_seal_init|]. intros enc. apply inbox_send.
  - apply delivers_silent; [intros ib ss w2 Hw; exact Hw|]. intros [cp cs] w2 _ _.
    apply delivers_silent; [intros ib ss w3 Hw; exact Hw|]. intros [np ns] w3 _ _.
    apply delivers_silent; [apply silent_next_init_seq|]. intros seq w4 _ _. apply delivers_init.
Qed.

Lemma delivers_session_bytes from data w :
  wp (handle_session_bytes from data) (fun _ w' => delivers from data (w_router w) (w_router w')) w.
Proof.
  unfold handle_session_bytes. destruct data as [|k d]; [by left|]. apply delivers_silent; [apply silent_tick|].
  intros now w1 _ _. destruct (_ || _).
  - apply delivers_keeps. intros ib. apply inbox_handle_init.
  - destruct (k =? SESSION_TYPE_TRAFFIC); [apply delivers_traffic_bytes|by left].
Qed.

Lemma delivers_inbound tr w :
  wp (handle_inbound_traffic tr) (fun _ w' => delivers (tr_source tr) (tr_payload tr) (w_router w) (w_router w') /\
    (tr_dest tr <> r_pubkey (w_router w) -> inboxes (w_router w') = inboxes (w_router w))) w.
Proof.
  unfold handle_inbound_traffic. set (r := w_router w).
  change (wp (let '(next, wm) := greedy_next r (w_links w) (tr_path tr) (tr_watermark tr) in
    match next with
    | Some id => buf ← encode_traffic (mkTraffic (tr_path tr) (tr_from tr) (tr_source tr) (tr_dest tr) wm (tr_payload tr));
                 write_via id TTraffic buf
    | None => if bool_decide (tr_dest tr = r_pubkey r) then
        _ ← match pa_entries (r_path r) !! tr_source tr with
            | Some e => if pe_broken e then mret ()
              else now ← instant_now; modify (set_path (set_entries_p <[tr_source tr := set_e_deadline (now + PATH_TIMEOUT) e]>))
            | None => mret () end;
        handle_session_bytes (tr_source tr) (tr_payload tr)
      else handle_broken send (mkPathBroken (tr_from tr) U64_MAX (tr_source tr) (tr_dest tr))
    end) (fun _ w' => delivers (tr_source tr) (tr_payload tr) r (w_router w') /\ (tr_dest tr <> r_pubkey r -> inboxes (w_router w') = inboxes r)) w).
  assert (forall m : M (), (forall ib, keeps (inbox_is ib) m) -> wp m (fun _ w' => delivers (tr_source tr) (tr_payload tr) r (w_router w') /\
    (tr_dest tr <> r_pubkey r -> inboxes (w_router w') = inboxes r)) w) as Hsame.
  { intros m Hm. eapply wp_mono; [apply (Hm (inboxes r) w); reflexivity|]. intros r' w' E. split; [by left|done]. }
  destruct (greedy_next _ _ _ _) as [[id|] wm].
  - apply Hsame. intros ib. apply keeps_bind; [apply inbox_encode_traffic|intros buf; apply inbox_write_via].
  - case_bool_decide as Hd; [|apply Hsame; intros ib; apply inbox_handle_broken, inbox_send].
    eapply wp_mono; [apply delivers_silent|intros ? w' Hw'; split; [exact Hw'|by intros ?]].
    + intros ib ss. destruct (pa_entries (r_path r) !! tr_source tr) as [e|]; [|apply keeps_ret].
      destruct (pe_broken e); [apply keeps_ret|]. intros w2 Hw2. exact Hw2.
    + intros _ w1 _ _. apply delivers_session_bytes.
Qed.
End authentic.

Section properties.
Context `{!Ed25519} `{!NaclBox} `{!Env}.

Lemma frame_delivers conn k t p w w' r :
  handle_frame conn k t p w = Done w' r ->
  inboxes (w_router w') = inboxes (w_router w) \/
  exists tr s a fresh t1 t2 s' kind m, t = TTraffic /\ Traffic_decode p = Ok tr /\ tr_dest tr = r_pubkey (w_router w) /\
    ss_sessions (r_sess (w_router w)) !! tr_source tr = Some (s, a) /\
    Session_decrypt s (tr_payload tr) fresh t1 t2 = (s', Some (kind :: m)) /\
    filed kind (tr_source tr) m (w_router w) (w_router w').
Proof.
  intros E. destruct (decide (t = TTraffic)) as [->|Ht].
  - unfold handle_frame in E. change (match Traffic_decode p with Ok tr => handle_inbound_traffic tr | Err _ => mret () end w = Done w' r) in E.
    destruct (Traffic_decode p) as [tr|e]; [|left; by injection E as <- _].
    pose proof (delivers_inbound tr w) as Hd. unfold wp in Hd. rewrite E in Hd. destruct Hd as [[Hs|Hd] Hn]; [by left|].
    destruct (decide (tr_dest tr = r_pubkey (w_router w))) as [Hdest|Hdest]; [|left; by apply Hn].
    right. destruct Hd as (s & a & fresh & t1 & t2 & s' & kind & m & Hs & Hdec & Hib). by exists tr, s, a, fresh, t1, t2, s', kind, m.
  - left. pose proof (inbox_handle_frame (inboxes (w_router w)) conn k t p Ht w eq_refl) as Hk. unfold wp in Hk. by rewrite E in Hk.
Qed.

(** C4: what the application receives is authentic. Handling a frame leaves the
    inboxes as they are, or appends one payload to one of them: then the frame is
    traffic for us, the payload is attributed to its source, and the session open
    with that source authenticated and decrypted it, as application traffic if it
    is for the application and as an answer if it is for who asked the source. *)
Theorem delivered_is_authentic (conn : LinkId) (t : FrameType) (p : bytes) (w w' : World) (r : result ()) :
  dispatch_frame conn t p w = Done w' r ->
  inboxes (w_router w') = inboxes (w_router w) \/
  exists tr s a fresh t1 t2 s' kind m, t = TTraffic /\ Traffic_decode p = Ok tr /\ tr_dest tr = r_pubkey (w_router w) /\
    ss_sessions (r_sess (w_router w)) !! tr_source tr = Some (s, a) /\
    Session_decrypt s (tr_payload tr) fresh t1 t2 = (s', Some (kind :: m)) /\
    filed kind (tr_source tr) m (w_router w) (w_router w').
Proof.
  unfold dispatch_frame. change ((asks_links (fun ls => peer_of ls conn) ≫= ?k) w) with (k (peer_of (w_links w) conn) w).
  cbv beta. destruct (peer_of (w_links w) conn) as [k|]; [|intros [= <- _]; by left].
  unfold mbind at 1, M_bind at 1. destruct (handle_frame conn k t p w) as [w1 [u|e]| |] eqn:Ef; [| |done..].
  - intros E. assert (inboxes (w_router w') = inboxes (w_router w1)) as Hib.
    { pose proof (inbox_keepalive (inboxes (w_router w1)) conn w1 eq_refl) as Hk. unfold wp in Hk.
      destruct t; try (injection E as <- _; reflexivity); rewrite E in Hk; exact Hk. }
    unfold filed. rewrite Hib. by eapply frame_delivers.
  - intros [= <- _]. by eapply frame_delivers.
Qed.

Lemma seal_init_panics i mt d w : to_montgomery d = None -> seal_init i mt d w = Panic.
Proof.
  intros Hm. unfold seal_init, encrypt_msg, ed_to_curve_pub. rewrite Hm. reflexivity.
Qed.

Lemma unknown_peer_panics from data now w : ss_sessions (r_sess (w_router w)) !! from = None -> to_montgomery from = None ->
  handle_traffic_bytes from data now w = Panic.
Proof.
  intros Hs Hm. unfold handle_traffic_bytes. destruct (next_init_seq w) as [w1 [q|e]| |] eqn:Eq; [|discriminate Eq..].
  unfold mbind at 1, M_bind at 1. rewrite Eq.
  assert (ss_sessions (r_sess (w_router w1)) = ss_sessions (r_sess (w_router w))) as E1 by (injection Eq as <- <-; reflexivity).
  unfold mbind at 1, M_bind at 1, asks at 1. rewrite E1, Hs. unfold mbind at 1, M_bind at 1.
  destruct (fresh_box w1) as [w2 [[cp cs]|e]| |] eqn:E2; [|discriminate E2..]. unfold mbind at 1, M_bind at 1.
  destruct (fresh_box w2) as [w3 [[np ns]|e]| |] eqn:E3; [|discriminate E3..]. unfold mbind at 1, M_bind at 1.
  destruct (next_init_seq w3) as [w4 [q'|e]| |] eqn:E4; [|discriminate E4..].
  unfold mbind, M_bind. by rewrite seal_init_panics.
Qed.

Lemma forged_bytes_panic from rest w : ss_sessions (r_sess (w_router w)) !! from = None -> to_montgomery from = None ->
  handle_session_bytes from (SESSION_TYPE_TRAFFIC :: rest) w = Panic.
Proof.
  intros Hs Hm.
  exact (unknown_peer_panics from (SESSION_TYPE_TRAFFIC :: rest) (clock_at (w_ticks w))
    (mkWorld (w_router w) (w_links w) (S (w_ticks w))) Hs Hm).
Qed.

(** C40: a forged source key stops the node. A traffic frame addressed to us
    whose source has no session and is not the encoding of a curve point makes
    the handling panic, as soon as its payload starts like session traffic:
    the code answers an unknown peer with an init sealed to its key. *)
Theorem forged_source_panics (tr : Traffic) (rest : bytes) (w : World) :
  (greedy_next (w_router w) (w_links w) (tr_path tr) (tr_watermark tr)).1 = None ->
  tr_dest tr = r_pubkey (w_router w) -> tr_payload tr = SESSION_TYPE_TRAFFIC :: rest ->
  ss_sessions (r_sess (w_router w)) !! tr_source tr = None -> to_montgomery (tr_source tr) = None ->
  handle_inbound_traffic tr w = Panic.
Proof.
  intros Hg Hd Hp Hs Hm. unfold handle_inbound_traffic, mbind at 1 2, M_bind at 1 2, asks, asks_links, id.
  destruct (greedy_next _ _ _ _) as [[i|] wm]; [done|]. rewrite bool_decide_eq_true_2 by done. rewrite Hp.
  unfold mbind at 1, M_bind at 1.
  destruct (pa_entries (r_path (w_router w)) !! tr_source tr) as [e|]; [destruct (pe_broken e)|];
    by apply forged_bytes_panic.
Qed.
End properties.

(** ** Witnesses *)

(** A box for which some keys are not curve points. *)
Definition strict_box : NaclBox := {|
  box_pub := @box_pub toy_box; salsa_seal := @salsa_seal toy_box; salsa_open := @salsa_open toy_box;
  sha512 := @sha512 toy_box; to_montgomery k := if decide (k = demo_key 200) then None else Some k |}.

Lemma forged_source_panics_witness :
  @handle_inbound_traffic toy_ed25519 strict_box demo_env
    (mkTraffic [5] [] (demo_key 200) (demo_key 2) U64_MAX [SESSION_TYPE_TRAFFIC]) demo_world = Panic.
Proof.
  apply (@forged_source_panics toy_ed25519 strict_box demo_env
    (mkTraffic [5] [] (demo_key 200) (demo_key 2) U64_MAX [SESSION_TYPE_TRAFFIC]) [] demo_world);
    vm_compute; reflexivity.
Defined.

(** A session of the demo node with the initiator of [Session]. *)
Definition demo_session_world : World :=
  mkWorld (set_sess (set_sessions <[demo_key 1 := (demo_responder.1, 0)]>) demo_router) demo_links 0.

Definition demo_payload : bytes := (@Session_encrypt toy_box demo_initiator.1 (PACKET_TYPE_TRAFFIC :: [7; 8]) (toy_key 15)).2.

Definition demo_frame : bytes :=
  Traffic_bytes (mkTraffic [5] [] (demo_key 1) (demo_key 2) U64_MAX demo_payload).

Definition demo_dispatch : outcome () := @dispatch_frame toy_ed25519 toy_box demo_env 7 TTraffic demo_frame demo_session_world.

Lemma delivered_is_authentic_witness : exists w' r, demo_dispatch = Done w' r /\ r_inbox (w_router w') = [(demo_key 1, [7; 8])] /\
  exists tr, Traffic_decode demo_frame = Ok tr /\ tr_dest tr = demo_key 2.
Proof.
  assert (match demo_dispatch with Done w' _ => bool_decide (r_inbox (w_router w') = [(demo_key 1, [7; 8])]) | _ => false end = true)
    as Hc by (vm_compute; reflexivity).
  destruct demo_dispatch as [w' r| |] eqn:E; [|discriminate Hc..]. exists w', r. split; [reflexivity|].
  apply bool_decide_eq_true in Hc. split; [exact Hc|].
  destruct (@delivered_is_authentic toy_ed25519 toy_box demo_env 7 TTraffic demo_frame demo_session_world w' r E)
    as [Hs|(tr & s & a & f & t1 & t2 & s' & kind & m & _ & Ed & Hdest & _)].
  - exfalso. injection Hs as Hs _. rewrite Hc in Hs. discriminate Hs.
  - exists tr. split; [exact Ed|exact Hdest].
Defined.
