(* ===== verification/Text.v ===== *)
(** * Text: the string operations of the Rust standard library the program uses.

    A [&str] is its UTF-8 bytes. Splitting, prefixes, parsing and printing of
    unsigned integers, UTF-8 validation ([str::from_utf8]) and the textual form
    of an [Ipv6Addr]. *)
From Stdlib Require Import Strings.String Strings.Ascii.
From stdpp Require Import base tactics list numbers gmap.
From S2P Require Import Prelude.

Local Open Scope Z_scope.

(** Closes a decidable goal by evaluation. *)
Ltac by_dec := apply (bool_decide_unpack _); vm_compute; exact I.

(** A string literal. *)
Definition str (s : string) : bytes := map (fun c => Z.of_N (N_of_ascii c)) (list_ascii_of_string s).
Arguments str s%_string_scope.

Definition is_ascii_digit (b : Z) : bool := (48 <=? b) && (b <=? 57).
Definition is_ascii_upper (b : Z) : bool := (65 <=? b) && (b <=? 90).
Definition is_ascii_lower (b : Z) : bool := (97 <=? b) && (b <=? 122).
Definition is_ascii_alphabetic (b : Z) : bool := is_ascii_upper b || is_ascii_lower b.

(** [str::strip_prefix], [str::split_once] and [str::split] with a one-byte
    pattern. *)
Fixpoint strip_prefix (p s : bytes) : option bytes :=
  match p, s with
  | [], _ => Some s
  | x :: p', y :: s' => if x =? y then strip_prefix p' s' else None
  | _ :: _, [] => None
  end.

Fixpoint split_once (c : Z) (s : bytes) : option (bytes * bytes) :=
  match s with
  | [] => None
  | x :: s' => if x =? c then Some ([], s') else (fun p => (x :: p.1, p.2)) <$> split_once c s'
  end.

Fixpoint split (c : Z) (s : bytes) : list bytes :=
  match s with
  | [] => [[]]
  | x :: s' =>
    if x =? c then [] :: split c s'
    else match split c s' with
         | piece :: rest => (x :: piece) :: rest
         | [] => [[x]]
         end
  end.

(** [bytes().take_while(p).count()]. *)
Fixpoint count_while (p : Z -> bool) (s : bytes) : nat :=
  match s with
  | [] => 0
  | x :: s' => if p x then S (count_while p s') else 0
  end%nat.

(** ** Integers *)

(** [char::to_digit]. *)
Definition to_digit (radix b : Z) : option Z :=
  let d := if is_ascii_digit b then Some (b - 48)
           else if is_ascii_lower b then Some (b - 87)
           else if is_ascii_upper b then Some (b - 55)
           else None in
  match d with
  | Some v => if v <? radix then Some v else None
  | None => None
  end.

(** The digits of an unsigned integer not above [max]. *)
Fixpoint digits_val (radix max acc : Z) (s : bytes) : option Z :=
  match s with
  | [] => Some acc
  | c :: s' =>
    match to_digit radix c with
    | Some d => let acc := acc * radix + d in if max <? acc then None else digits_val radix max acc s'
    | None => None
    end
  end.

(** [from_str_radix] of an unsigned type with the given maximum: one leading
    [+] is accepted, an empty string and a sign alone are not. *)
Definition from_str_radix (max : Z) (s : bytes) (radix : Z) : option Z :=
  match s with
  | [] => None
  | c :: s' =>
    if c =? 43 then match s' with [] => None | _ :: _ => digits_val radix max 0 s' end
    else digits_val radix max 0 s
  end.

Definition parse_uint (max : Z) (s : bytes) : option Z := from_str_radix max s 10.

Definition U8_MAX : Z := 255.
Definition U16_MAX : Z := 2 ^ 16 - 1.
Definition U128_MAX : Z := 2 ^ 128 - 1.
Definition wrap128 (x : Z) : Z := x mod 2 ^ 128.

Definition digit_char (d : Z) : Z := if d <? 10 then 48 + d else 87 + d.

(** The digits of a number, most significant first; [fuel] bounds their count. *)
Fixpoint print_digits (fuel : nat) (radix n : Z) (acc : bytes) : bytes :=
  match fuel with
  | O => acc
  | S fuel' =>
    let acc := digit_char (n mod radix) :: acc in
    if n <? radix then acc else print_digits fuel' radix (n / radix) acc
  end.

(** [{}] of an integer of at most 64 bits, and [{:x}]. *)
Definition dec (n : Z) : bytes := print_digits 20 10 n [].
Definition lower_hex (n : Z) : bytes := print_digits 16 16 n [].

(** ** UTF-8 *)

Definition is_cont (b : Z) : bool := (128 <=? b) && (b <=? 191).
Definition within (lo hi b : Z) : bool := (lo <=? b) && (b <=? hi).

(** [str::from_utf8] succeeds: no overlong form, no surrogate, no value above
    the last code point. *)
Fixpoint utf8_valid (s : bytes) : bool :=
  match s with
  | [] => true
  | b0 :: s0 =>
    if b0 <? 128 then utf8_valid s0
    else match s0 with
    | [] => false
    | b1 :: s1 =>
      if within 194 223 b0 then is_cont b1 && utf8_valid s1
      else match s1 with
      | [] => false
      | b2 :: s2 =>
        let second := if b0 =? 224 then within 160 191 b1 else if b0 =? 237 then within 128 159 b1
                      else within 225 239 b0 && is_cont b1 in
        if within 224 239 b0 then second && is_cont b2 && utf8_valid s2
        else match s2 with
        | [] => false
        | b3 :: s3 =>
          let second := if b0 =? 240 then within 144 191 b1 else if b0 =? 244 then within 128 143 b1
                        else within 241 243 b0 && is_cont b1 in
          second && is_cont b2 && is_cont b3 && utf8_valid s3
        end
      end
    end
  end.

Definition is_ascii (s : bytes) : Prop := Forall (fun b => 0 <= b < 128) s.

(** ** IPv6 addresses: eight 16-bit segments *)

Definition Ipv6Addr : Type := list Z.
Definition ipv6_ok (a : Ipv6Addr) : Prop := length a = 8%nat /\ Forall is_u16 a.

(** The longest run of zero segments, the first of the longest: [(start, len)]. *)
Fixpoint zero_run (i : nat) (segs : list Z) (cur best : nat * nat) : nat * nat :=
  match segs with
  | [] => best
  | s :: segs' =>
    if s =? 0 then
      let cur := if bool_decide (cur.2 = 0)%nat then (i, 1)%nat else (cur.1, S cur.2) in
      zero_run (S i) segs' cur (if bool_decide (best.2 < cur.2)%nat then cur else best)
    else zero_run (S i) segs' (0, 0)%nat best
  end.

Definition fmt_subslice (segs : list Z) : bytes :=
  match segs with
  | [] => []
  | s :: segs' => lower_hex s ++ flat_map (fun s => 58 :: lower_hex s) segs'
  end.

(** The address after [::ffff:] is printed as IPv4. *)
Definition fmt_ipv4 (ab cd : Z) : bytes :=
  dec (Z.shiftr ab 8) ++ 46 :: dec (Z.land ab 255) ++ 46 :: dec (Z.shiftr cd 8) ++ 46 :: dec (Z.land cd 255).

Definition ipv6_display (a : Ipv6Addr) : bytes :=
  if bool_decide (take 6 a = [0; 0; 0; 0; 0; 65535]) then str "::ffff:" ++ fmt_ipv4 (a !!! 6%nat) (a !!! 7%nat)
  else
    let '(start, len) := zero_run 0 a (0, 0)%nat (0, 0)%nat in
    if bool_decide (1 < len)%nat then fmt_subslice (take start a) ++ str "::" ++ fmt_subslice (drop (start + len) a)
    else fmt_subslice a.

(** ** Lemmas *)

Lemma strip_prefix_app p s : strip_prefix p (p ++ s) = Some s.
Proof. induction p as [|x p IH]; simpl; [done|]. by rewrite Z.eqb_refl. Qed.

Lemma strip_prefix_Some p s r : strip_prefix p s = Some r <-> s = p ++ r.
Proof.
  split; [|intros ->; apply strip_prefix_app]. revert s. induction p as [|x p IH]; intros [|y s]; simpl; try congruence.
  destruct (Z.eqb_spec x y) as [->|]; [|done]. intros E. by rewrite (IH _ E).
Qed.

Lemma split_once_Some c s a b : split_once c s = Some (a, b) <-> s = a ++ c :: b /\ c ∉ a.
Proof.
  revert a. induction s as [|x s IH]; intros a; simpl.
  - split; [done|]. by intros [E _]; destruct a.
  - destruct (Z.eqb_spec x c) as [->|Hx].
    + split; [intros [= <- <-]; split; [done|apply not_elem_of_nil]|]. intros [E Ha]. destruct a as [|y a]; simplify_eq/=; [done|].
      destruct Ha. by left.
    + destruct (split_once c s) as [[a' b']|] eqn:Es; simpl.
      * split; [intros [= <- <-]|intros [E Ha]].
        { destruct (proj1 (IH a') eq_refl) as [-> Ha]. split; [done|]. by apply not_elem_of_cons. }
        destruct a as [|y a]; simplify_eq/=. apply not_elem_of_cons in Ha as [_ Ha].
        assert (Some (a', b') = Some (a, b)) as [= -> ->] by (by apply IH). done.
      * split; [done|]. intros [E Ha]. destruct a as [|y a]; simplify_eq/=. apply not_elem_of_cons in Ha as [_ Ha].
        by assert (None = Some (a, b)) by (by apply IH).
Qed.

Lemma split_once_None c s : split_once c s = None <-> c ∉ s.
Proof.
  induction s as [|x s IH]; simpl; [split; [intros _; apply not_elem_of_nil|done]|].
  rewrite not_elem_of_cons, <-IH. destruct (Z.eqb_spec x c) as [->|]; [by split; [|intros [? _]]|].
  destruct (split_once c s); simpl; split; try done; by intros [_ ?].
Qed.

Lemma split_plain c a : c ∉ a -> split c a = [a].
Proof.
  induction a as [|x a IH]; simpl; [done|]. intros [Hx Ha]%not_elem_of_cons. rewrite (IH Ha).
  destruct (Z.eqb_spec x c); congruence.
Qed.

Lemma split_app c a b : c ∉ a -> split c (a ++ c :: b) = a :: split c b.
Proof.
  induction a as [|x a IH]; simpl; [by rewrite Z.eqb_refl|]. intros [Hx Ha]%not_elem_of_cons. rewrite (IH Ha).
  destruct (Z.eqb_spec x c); congruence.
Qed.

(** *** Numbers read back as printed *)

Lemma to_digit_char radix d : 0 <= d < radix -> radix <= 36 -> to_digit radix (digit_char d) = Some d.
Proof.
  intros Hd Hr. unfold to_digit, digit_char, is_ascii_digit, is_ascii_lower, is_ascii_upper.
  destruct (Z.ltb_spec d 10); repeat (zcase; simpl; try lia); f_equal; lia.
Qed.

Lemma digits_val_print radix max fuel n acc : 2 <= radix <= 36 -> 0 <= n <= max -> n < radix ^ Z.of_nat (S fuel) ->
  digits_val radix max 0 (print_digits (S fuel) radix n acc) = digits_val radix max n acc.
Proof.
  intros Hr. revert n acc. induction fuel as [|fuel IH]; intros n acc Hn Hf.
  - cbn [print_digits]. change (Z.of_nat 1) with 1 in Hf. rewrite Z.pow_1_r in Hf.
    rewrite (proj2 (Z.ltb_lt n radix)) by lia. cbn [digits_val]. rewrite Z.mod_small, to_digit_char by lia.
    cbn zeta. by rewrite Z.mul_0_l, Z.add_0_l, (proj2 (Z.ltb_ge max n)) by lia.
  - remember (S fuel) as k. cbn [print_digits]. destruct (Z.ltb_spec n radix).
    + cbn [digits_val]. rewrite Z.mod_small, to_digit_char by lia. cbn zeta.
      by rewrite Z.mul_0_l, Z.add_0_l, (proj2 (Z.ltb_ge max n)) by lia.
    + assert (n = radix * (n / radix) + n mod radix) as En by (apply Z.div_mod; lia).
      pose proof (Z.mod_pos_bound n radix ltac:(lia)) as Hm. pose proof (Z.div_pos n radix ltac:(lia) ltac:(lia)) as Hp.
      rewrite Nat2Z.inj_succ, Z.pow_succ_r in Hf by lia.
      assert (n / radix < radix ^ Z.of_nat k) by (apply Z.div_lt_upper_bound; lia).
      assert (n / radix <= n) by nia.
      rewrite IH by lia. cbn [digits_val]. rewrite to_digit_char by lia.
      cbn zeta. rewrite (Z.mul_comm (n / radix)), <-En. by rewrite (proj2 (Z.ltb_ge max n)) by lia.
Qed.

Lemma print_digits_all (P : Z -> Prop) radix fuel n acc : 2 <= radix -> 0 <= n ->
  (forall d, 0 <= d < radix -> P (digit_char d)) -> Forall P acc -> Forall P (print_digits fuel radix n acc).
Proof.
  intros Hr Hn HP. revert n Hn acc. induction fuel as [|fuel IH]; intros n Hn acc Ha; simpl; [done|].
  pose proof (Z.mod_pos_bound n radix ltac:(lia)).
  destruct (n <? radix); [constructor; auto|]. apply IH; [apply Z.div_pos; lia|]. constructor; auto.
Qed.

Lemma print_digits_cons radix fuel n acc : exists c l, print_digits (S fuel) radix n acc = c :: l.
Proof.
  revert n acc. induction fuel as [|fuel IH]; intros n acc; [cbn [print_digits]; destruct (_ <? _); eauto|].
  remember (S fuel) as k. cbn [print_digits]. destruct (_ <? _); eauto.
Qed.

Lemma dec_digits n : 0 <= n -> Forall (fun b => 48 <= b <= 57) (dec n).
Proof.
  intros Hn. apply print_digits_all; [lia|done| |constructor]. intros d Hd. unfold digit_char.
  rewrite (proj2 (Z.ltb_lt d 10)); lia.
Qed.

(** The characters of a printed address. *)
Definition addr_char (b : Z) : Prop := 46 <= b <= 58 \/ 97 <= b <= 102.

Lemma dec_chars n : 0 <= n -> Forall addr_char (dec n).
Proof. intros Hn. apply (Forall_impl _ _ _ (dec_digits n Hn)). unfold addr_char. lia. Qed.

Lemma lower_hex_chars n : 0 <= n -> Forall addr_char (lower_hex n).
Proof.
  intros Hn. apply print_digits_all; [lia|done| |constructor]. intros d Hd. unfold digit_char, addr_char. zcase; lia.
Qed.

Lemma parse_dec max n : 0 <= n <= max -> n < 10 ^ 20 -> parse_uint max (dec n) = Some n.
Proof.
  intros Hn Hl. unfold parse_uint, from_str_radix. pose proof (digits_val_print 10 max 19 n [] ltac:(lia) Hn Hl) as E.
  change (print_digits 20 10 n []) with (dec n) in E.
  destruct (print_digits_cons 10 19 n []) as (c & l & Ec). change (print_digits 20 10 n []) with (dec n) in Ec.
  pose proof (dec_digits n ltac:(lia)) as Hd. rewrite Ec in *. apply Forall_cons in Hd as [Hc _]. cbn beta in Hc.
  rewrite (proj2 (Z.eqb_neq c 43)) by lia. exact E.
Qed.

Lemma fmt_subslice_chars segs : Forall is_u16 segs -> Forall addr_char (fmt_subslice segs).
Proof.
  intros Hs. destruct Hs as [|s segs Hs Hr]; simpl; [constructor|]. unfold is_u16 in *.
  apply Forall_app; split; [apply lower_hex_chars; lia|]. induction Hr as [|t segs Ht Hr IH]; simpl; [constructor|].
  constructor; [unfold addr_char; lia|]. apply Forall_app; split; [apply lower_hex_chars; lia|exact IH].
Qed.

Lemma fmt_ipv4_chars ab cd : 0 <= ab -> 0 <= cd -> Forall addr_char (fmt_ipv4 ab cd).
Proof.
  intros Ha Hc. assert (addr_char 46) as Hd by (unfold addr_char; lia).
  pose proof (Z.shiftr_nonneg ab 8). pose proof (Z.shiftr_nonneg cd 8).
  pose proof (Z.land_nonneg ab 255). pose proof (Z.land_nonneg cd 255).
  unfold fmt_ipv4. repeat first [apply Forall_app; split | apply Forall_cons; split]; try exact Hd; apply dec_chars; intuition lia.
Qed.

Lemma ipv6_display_chars a : ipv6_ok a -> Forall addr_char (ipv6_display a).
Proof.
  intros [Hl Ha]. unfold ipv6_display. case_bool_decide.
  - apply Forall_app; split; [repeat constructor; unfold addr_char; cbn; lia|].
    assert (forall i, (i < 8)%nat -> 0 <= a !!! i) as Hi.
    { intros i Hi. rewrite <-Hl in Hi. apply lookup_lt_is_Some_2 in Hi as [x Hx].
      rewrite (list_lookup_total_correct _ _ _ Hx). eapply Forall_lookup_1 in Hx; [|exact Ha]. apply Hx. }
    apply fmt_ipv4_chars; apply Hi; lia.
  - destruct (zero_run 0 a (0, 0)%nat (0, 0)%nat) as [start len]. case_bool_decide; [|by apply fmt_subslice_chars].
    repeat (apply Forall_app; split).
    + apply fmt_subslice_chars, Forall_take, Ha.
    + repeat constructor; unfold addr_char; cbn; lia.
    + apply fmt_subslice_chars, Forall_drop, Ha.
Qed.

(** *** UTF-8 *)

Lemma utf8_ascii s k : is_ascii s -> utf8_valid (s ++ k) = utf8_valid k.
Proof.
  induction 1 as [|b s Hb Hs IH]; [done|]. cbn [app utf8_valid]. by rewrite (proj2 (Z.ltb_lt b 128)) by lia.
Qed.

Lemma utf8_valid_ascii s : is_ascii s -> utf8_valid s = true.
Proof. intros Hs. rewrite <-(app_nil_r s). by rewrite utf8_ascii. Qed.
