(* ===== verification/Words.v ===== *)
(** * Words: lines, words and substrings.

    Further operations of [str] the client uses on text it reads from the
    kernel and on URIs: [find], [rsplit_once], [split_once] at a string,
    [lines] and [split_whitespace]. *)
From Stdlib Require Import Strings.String.
From stdpp Require Import base tactics list numbers gmap.
From S2P Require Import Prelude Text.

Local Open Scope Z_scope.

(** [str::find] of a one-byte character. *)
Fixpoint find_char (c : Z) (s : bytes) : option nat :=
  match s with
  | [] => None
  | x :: s' => if x =? c then Some 0%nat else S <$> find_char c s'
  end.

Fixpoint rsplit_once (c : Z) (s : bytes) : option (bytes * bytes) :=
  match s with
  | [] => None
  | x :: s' =>
    match rsplit_once c s' with
    | Some (a, b) => Some (x :: a, b)
    | None => if x =? c then Some ([], s') else None
    end
  end.

(** [str::split_once] at a string. *)
Fixpoint split_once_str (p s : bytes) : option (bytes * bytes) :=
  match strip_prefix p s with
  | Some rest => Some ([], rest)
  | None =>
    match s with
    | [] => None
    | x :: s' => (fun ab => (x :: ab.1, ab.2)) <$> split_once_str p s'
    end
  end.

(** ** Lines *)

(** A [\r] before the line feed is not part of the line. *)
Definition strip_cr (l : bytes) : bytes :=
  match last l with
  | Some c => if c =? 13 then removelast l else l
  | None => l
  end.

(** What follows the last line feed is a line unless it is empty. *)
Fixpoint lines_of (pieces : list bytes) : list bytes :=
  match pieces with
  | [] => []
  | [l] => match l with [] => [] | _ :: _ => [l] end
  | l :: pieces' => strip_cr l :: lines_of pieces'
  end.

Definition lines (s : bytes) : list bytes := lines_of (split 10 s).

(** ** Words *)

(** The length of the white space character a text starts with, 0 if it starts
    with another ([char::is_whitespace], as UTF-8). *)
Definition white_len (s : bytes) : nat :=
  match s with
  | [] => 0%nat
  | a :: s' =>
    if within 9 13 a || (a =? 32) then 1%nat
    else
      match s' with
      | [] => 0%nat
      | b :: s'' =>
        if (a =? 194) && ((b =? 133) || (b =? 160)) then 2%nat
        else
          match s'' with
          | [] => 0%nat
          | c :: _ =>
            if (a =? 225) && (b =? 154) && (c =? 128) then 3%nat
            else if (a =? 226) && (b =? 128) && (within 128 138 c || (c =? 168) || (c =? 169) || (c =? 175)) then 3%nat
            else if (a =? 226) && (b =? 129) && (c =? 159) then 3%nat
            else if (a =? 227) && (b =? 128) && (c =? 128) then 3%nat
            else 0%nat
          end
      end
  end.

Definition word (w : bytes) : list bytes := match w with [] => [] | _ :: _ => [w] end.

(** [skip] bytes of a white space character are still to be passed over. *)
Fixpoint words (skip : nat) (w s : bytes) : list bytes :=
  match s with
  | [] => word w
  | x :: s' =>
    match skip with
    | S k => words k w s'
    | O =>
      match white_len s with
      | O => words 0 (w ++ [x]) s'
      | S k => word w ++ words k [] s'
      end
    end
  end.

Definition split_whitespace (s : bytes) : list bytes := words 0 [] s.

(** ** Lemmas *)

Lemma find_char_Some c s i : find_char c s = Some i <-> exists a b, s = a ++ c :: b /\ (c ∉ a) /\ i = length a.
Proof.
  revert i. induction s as [|x s IH]; intros i; cbn [find_char].
  - split; [done|]. intros (a & b & E & _). by destruct a.
  - destruct (Z.eqb_spec x c) as [->|Hx].
    + split; [intros [= <-]; exists [], s; split; [done|]; split; [apply not_elem_of_nil|done]|].
      intros (a & b & E & Ha & ->). destruct a as [|y a]; [done|]. injection E as -> _. destruct Ha. by left.
    + rewrite fmap_Some. split.
      * intros (j & Hj & ->). apply IH in Hj as (a & b & -> & Ha & ->). exists (x :: a), b. split; [done|].
        split; [by apply not_elem_of_cons|done].
      * intros (a & b & E & Ha & ->). destruct a as [|y a]; injection E as -> E; [done|].
        apply not_elem_of_cons in Ha as [_ Ha]. exists (length a). split; [|done]. apply IH. by exists a, b.
Qed.

Lemma find_char_None c s : find_char c s = None <-> c ∉ s.
Proof.
  induction s as [|x s IH]; cbn [find_char]; [split; [intros _; apply not_elem_of_nil|done]|].
  rewrite not_elem_of_cons, <-IH. destruct (Z.eqb_spec x c) as [->|]; [by split; [|intros [? _]]|].
  rewrite fmap_None. split; [done|]. by intros [_ ?].
Qed.

Lemma rsplit_once_Some c s a b : rsplit_once c s = Some (a, b) <-> s = a ++ c :: b /\ c ∉ b.
Proof.
  assert (forall s, rsplit_once c s = None <-> c ∉ s) as Hnone.
  { intros t. induction t as [|x t IH]; cbn; [split; [intros _; apply not_elem_of_nil|done]|].
    rewrite not_elem_of_cons, <-IH. destruct (rsplit_once c t) as [[? ?]|]; [by split; [|intros [_ ?]]|].
    destruct (Z.eqb_spec x c) as [->|]; [by split; [|intros [? _]]|]. by split. }
  revert a. induction s as [|x s IH]; intros a; cbn [rsplit_once].
  - split; [done|]. intros [E _]. by destruct a.
  - destruct (rsplit_once c s) as [[a' b']|] eqn:Er.
    + split.
      * intros [= <- <-]. destruct (proj1 (IH a') eq_refl) as [-> Hb]. done.
      * intros [E Hb]. destruct a as [|y a]; injection E as -> E.
        -- assert (rsplit_once c s = None) as Hn by (apply Hnone; by rewrite E). congruence.
        -- assert (Some (a', b') = Some (a, b)) as [= -> ->] by (by apply IH). done.
    + apply Hnone in Er. destruct (Z.eqb_spec x c) as [->|Hx].
      * split; [intros [= <- <-]; done|]. intros [E Hb]. destruct a as [|y a]; simplify_eq/=; [done|].
        destruct Er. apply elem_of_app. right. by left.
      * split; [done|]. intros [E Hb]. destruct a as [|y a]; simplify_eq/=.
        destruct Er. apply elem_of_app. right. by left.
Qed.
