(* ===== verification/Uri.v ===== *)
(** * Uri: peering URIs and redial policy.

    [parse_link_uri] and its option parsers of [src/link.rs], the query escapes
    of [src/multicast.rs] and [src/link.rs], and the backoff of
    [src/supervisor.rs]. The [hex] crate is an interface. Integer arithmetic is
    that of a release build: it wraps. *)
From Stdlib Require Import Strings.String.
From stdpp Require Import base tactics list numbers gmap.
From S2P Require Import Prelude Errors Clock Text Frame Address Wire Handshake.

Local Open Scope Z_scope.

(** [hex::encode] and [hex::decode]. *)
Class Hex := { hex_encode : bytes -> bytes; hex_decode : bytes -> option bytes }.

Definition hex_char (b : Z) : Prop := 48 <= b <= 57 \/ 97 <= b <= 102.

Class HexLaws `{!Hex} : Prop := {
  hex_encode_chars b : Forall hex_char (hex_encode b);
  hex_roundtrip b : bytes_ok b -> hex_decode (hex_encode b) = Some b }.

Inductive Scheme : Type := SchemeTcp | SchemeTls | SchemeWs | SchemeWss | SchemeQuic.

Record PeerUri : Type := mkPeerUri {
  u_host_port : bytes; u_password : bytes; u_priority : Z;
  u_pinned_key : option bytes; u_sni : option bytes; u_max_backoff : option Z }.

Definition set_u_password (v : bytes) (u : PeerUri) : PeerUri :=
  mkPeerUri (u_host_port u) v (u_priority u) (u_pinned_key u) (u_sni u) (u_max_backoff u).
Definition set_u_priority (v : Z) (u : PeerUri) : PeerUri :=
  mkPeerUri (u_host_port u) (u_password u) v (u_pinned_key u) (u_sni u) (u_max_backoff u).
Definition set_u_pinned_key (v : option bytes) (u : PeerUri) : PeerUri :=
  mkPeerUri (u_host_port u) (u_password u) (u_priority u) v (u_sni u) (u_max_backoff u).
Definition set_u_sni (v : option bytes) (u : PeerUri) : PeerUri :=
  mkPeerUri (u_host_port u) (u_password u) (u_priority u) (u_pinned_key u) v (u_max_backoff u).
Definition set_u_max_backoff (v : option Z) (u : PeerUri) : PeerUri :=
  mkPeerUri (u_host_port u) (u_password u) (u_priority u) (u_pinned_key u) (u_sni u) v.

Definition DEFAULT_MAX_BACKOFF : Z := from_secs (Z.shiftl 1 12).
Definition MIN_MAX_BACKOFF : Z := from_secs 5.

Definition backoff_delay (failures max_backoff : Z) : Z :=
  let shift := Z.min failures 32 in
  Z.min (from_secs (Z.shiftl 1 shift)) max_backoff.

(** ** Go durations *)

Definition unit_nanos (u : bytes) : option Z :=
  if bool_decide (u = str "ns") then Some 1
  else if bool_decide (u = str "us") || bool_decide (u = [194; 181; 115]) then Some 1000
  else if bool_decide (u = str "ms") then Some 1000000
  else if bool_decide (u = str "s") then Some 1000000000
  else if bool_decide (u = str "m") then Some 60000000000
  else if bool_decide (u = str "h") then Some 3600000000000
  else None.

(** One number with its unit: the milliseconds and the text after it. *)
Definition duration_part (rest : bytes) : option (Z * bytes) :=
  let digits := count_while is_ascii_digit rest in
  if bool_decide (digits = 0)%nat then None
  else
    n ← parse_uint U128_MAX (take digits rest);
    let rest := drop digits rest in
    let unit_end := count_while is_ascii_alphabetic rest in
    if bool_decide (unit_end = 0)%nat then None
    else
      mult ← unit_nanos (take unit_end rest);
      Some (wrap128 (n * mult) / 1000000, drop unit_end rest).

(** The loop [while !rest.is_empty()]; [fuel] is at least the length of the
    text, and every turn consumes some of it. *)
Fixpoint duration_loop (fuel : nat) (rest : bytes) (total_ms : Z) : option Z :=
  match rest with
  | [] => Some total_ms
  | _ :: _ =>
    match fuel with
    | O => None
    | S fuel =>
      '(ms, rest) ← duration_part rest;
      duration_loop fuel rest (wrap128 (total_ms + ms))
    end
  end.

Definition parse_go_duration (s : bytes) : result Z :=
  match s with
  | [] => Err (BadUri s)
  | _ :: _ =>
    total_ms ← ok_or (duration_loop (length s) s 0) (BadUri s);
    Ok (from_millis (Z.min total_ms U64_MAX))
  end.

(** ** Query escapes *)

(** [u8::from_str_radix(pair, 16)] of a two-byte slice that is text. *)
Definition unescape_pair (h l : Z) : option Z :=
  if utf8_valid [h; l] then from_str_radix U8_MAX [h; l] 16 else None.

Fixpoint unescape_bytes (s : bytes) : option bytes :=
  match s with
  | [] => Some []
  | b :: s' =>
    if b =? 43 then cons 32 <$> unescape_bytes s'
    else if b =? 37 then
      match s' with
      | h :: l :: s'' =>
        match unescape_pair h l with
        | Some c => cons c <$> unescape_bytes s''
        | None => None
        end
      | _ => None
      end
    else cons b <$> unescape_bytes s'
  end.

Definition query_unescape (s : bytes) : option bytes :=
  out ← unescape_bytes s;
  if utf8_valid out then Some out else None.

Definition is_unreserved (b : Z) : bool :=
  is_ascii_alphabetic b || is_ascii_digit b || (b =? 45) || (b =? 95) || (b =? 46) || (b =? 126).

Definition upper_hex_digit (d : Z) : Z := if d <? 10 then 48 + d else 55 + d.

Definition escape_byte (b : Z) : bytes :=
  if is_unreserved b then [b]
  else if b =? 32 then [43]
  else [37; upper_hex_digit (Z.shiftr b 4); upper_hex_digit (Z.land b 15)].

Definition query_escape (v : bytes) : bytes := flat_map escape_byte v.

(** ** The URI *)

Definition split_scheme (uri : bytes) : option (Scheme * bytes) :=
  match strip_prefix (str "tcp://") uri with Some r => Some (SchemeTcp, r) | None =>
  match strip_prefix (str "tls://") uri with Some r => Some (SchemeTls, r) | None =>
  match strip_prefix (str "ws://") uri with Some r => Some (SchemeWs, r) | None =>
  match strip_prefix (str "wss://") uri with Some r => Some (SchemeWss, r) | None =>
  match strip_prefix (str "quic://") uri with Some r => Some (SchemeQuic, r) | None =>
  None end end end end end.

Section uri.
Context `{!Hex}.

(** One option, its value already unescaped. *)
Definition parse_option (k v : bytes) (out : PeerUri) : result PeerUri :=
  if bool_decide (k = str "password") then
    if decide (MAX_PASSWORD_LEN < length v)%nat then Err (Core PasswordInvalid) else Ok (set_u_password v out)
  else if bool_decide (k = str "priority") then
    p ← ok_or (parse_uint U8_MAX v) (Core PriorityInvalid); Ok (set_u_priority p out)
  else if bool_decide (k = str "key") then
    raw ← ok_or (hex_decode v) (Core PinnedKeyInvalid);
    if decide (length raw <> KEY_LEN) then Err (Core PinnedKeyInvalid) else Ok (set_u_pinned_key (Some raw) out)
  else if bool_decide (k = str "sni") then Ok (set_u_sni (Some v) out)
  else if bool_decide (k = str "maxbackoff") then
    match parse_go_duration v with
    | Err _ => Err (Core MaxBackoffInvalid)
    | Ok d => if d <? MIN_MAX_BACKOFF then Err (Core MaxBackoffInvalid) else Ok (set_u_max_backoff (Some d) out)
    end
  else Ok out.

Definition parse_pair (kv : bytes) (out : PeerUri) : result PeerUri :=
  let '(k, v) := unwrap_or (split_once 61 kv) (kv, []) in
  match query_unescape v with
  | None => Ok out
  | Some v => parse_option k v out
  end.

Fixpoint parse_options (pairs : list bytes) (out : PeerUri) : result PeerUri :=
  match pairs with
  | [] => Ok out
  | kv :: pairs => out ← parse_pair kv out; parse_options pairs out
  end.

Definition parse_link_uri (uri : bytes) : result (Scheme * PeerUri) :=
  '(scheme, rest) ← ok_or (split_scheme uri) (Core UnrecognisedSchema);
  let '(authority, query) := unwrap_or (split_once 63 rest) (rest, []) in
  match authority with
  | [] => Err (BadUri uri)
  | _ :: _ =>
    out ← parse_options (filter (fun s => s <> []) (split 38 query)) (mkPeerUri authority [] 0 None None None);
    Ok (scheme, out)
  end.

Definition parse_peer_uri (uri : bytes) : result PeerUri :=
  '(scheme, peer) ← parse_link_uri uri;
  match scheme with
  | SchemeTcp => Ok peer
  | _ => Err (BadUri uri)
  end.

Definition backoff_cap (uri : bytes) : Z :=
  unwrap_or (result_ok (parse_link_uri uri) ≫= fun p => u_max_backoff p.2) DEFAULT_MAX_BACKOFF.
End uri.

Definition merge_opts (peer : PeerUri) (opts : LinkOptions) : LinkOptions :=
  mkLinkOptions (match u_password peer with [] => o_password opts | _ => u_password peer end)
    (Z.max (o_priority opts) (u_priority peer))
    (match u_pinned_key peer with Some k => Some k | None => o_pinned_key opts end)
    (o_allowed_keys opts).

(** ** Supervised peers *)

Record SupervisedPeer : Type := mkSupervisedPeer { sp_uri : bytes; sp_failures : Z; sp_next_retry : Z }.

(** [now] is the reading of the clock the operation makes. *)
Definition SupervisedPeer_new (uri : bytes) (now : Z) : SupervisedPeer := mkSupervisedPeer uri 0 now.
Definition record_success (p : SupervisedPeer) (now : Z) : SupervisedPeer := mkSupervisedPeer (sp_uri p) 0 now.

Definition saturating_add32 (a b : Z) : Z := Z.min (a + b) (2 ^ 32 - 1).

Definition record_failure (p : SupervisedPeer) (cap now : Z) : SupervisedPeer :=
  let failures := Z.min (saturating_add32 (sp_failures p) 1) 32 in
  mkSupervisedPeer (sp_uri p) failures (now + backoff_delay failures cap).

Definition due (p : SupervisedPeer) (now : Z) (live_uris : list bytes) : bool :=
  (sp_next_retry p <=? now) && bool_decide (sp_uri p ∉ live_uris).

(** ** Escapes read back *)

Definition escape_char (b : Z) : bool := is_unreserved b || (b =? 43) || (b =? 37).

(** What one escaped byte does to the reader, on all 256 bytes. *)
Lemma escape_byte_table b : is_u8 b ->
  forallb escape_char (escape_byte b) &&
  match escape_byte b with
  | [x] => ((x =? 43) && (b =? 32)) || (negb (x =? 43) && negb (x =? 37) && (x =? b))
  | [p; h; l] => (p =? 37) && match unescape_pair h l with Some c => c =? b | None => false end
  | _ => false
  end = true.
Proof.
  apply (byte_forall (fun b => forallb escape_char (escape_byte b) && match escape_byte b with
    | [x] => ((x =? 43) && (b =? 32)) || (negb (x =? 43) && negb (x =? 37) && (x =? b))
    | [p; h; l] => (p =? 37) && match unescape_pair h l with Some c => c =? b | None => false end
    | _ => false end)). vm_compute. reflexivity.
Qed.

Lemma unescape_escape_byte b s : is_u8 b -> unescape_bytes (escape_byte b ++ s) = cons b <$> unescape_bytes s.
Proof.
  intros Hb. pose proof (escape_byte_table b Hb) as Ht. apply andb_true_iff in Ht as [_ Ht].
  destruct (escape_byte b) as [|x [|h [|l [|]]]]; try discriminate Ht.
  - cbn [app unescape_bytes]. destruct (Z.eqb_spec x 43) as [Ex|Ex].
    + subst x. change ((b =? 32) || false = true) in Ht. rewrite orb_false_r in Ht. apply Z.eqb_eq in Ht. by subst b.
    + change (negb (x =? 37) && (x =? b) = true) in Ht. apply andb_true_iff in Ht as [Hx Ht]. apply Z.eqb_eq in Ht. subst x.
      by destruct (b =? 37).
  - apply andb_true_iff in Ht as [Hx Hc]. apply Z.eqb_eq in Hx. subst x. cbn [app unescape_bytes Z.eqb Pos.eqb].
    destruct (unescape_pair h l) as [c|]; [|done]. apply Z.eqb_eq in Hc. by subst c.
Qed.

Lemma unescape_escape v : bytes_ok v -> unescape_bytes (query_escape v) = Some v.
Proof.
  induction 1 as [|b v Hb Hv IH]; [done|]. cbn [query_escape flat_map].
  rewrite unescape_escape_byte by done. unfold query_escape in IH. by rewrite IH.
Qed.

Lemma query_escape_chars v : bytes_ok v -> Forall (fun b => escape_char b = true) (query_escape v).
Proof.
  induction 1 as [|b v Hb Hv IH]; [constructor|]. cbn [query_escape flat_map]. apply Forall_app; split; [|exact IH].
  pose proof (escape_byte_table b Hb) as Ht. apply andb_true_iff in Ht as [Ht _].
  apply Forall_forall. intros x Hx. rewrite forallb_forall in Ht. by apply Ht, list_elem_of_In.
Qed.

(** Text without [+] and [%] is its own unescaped form. *)
Lemma unescape_plain s : Forall (fun b => b <> 43 /\ b <> 37) s -> unescape_bytes s = Some s.
Proof.
  induction 1 as [|b s [H1 H2] Hs IH]; [done|]. cbn [unescape_bytes].
  rewrite (proj2 (Z.eqb_neq b 43)), (proj2 (Z.eqb_neq b 37)) by done. by rewrite IH.
Qed.

(** Query values survive the URI. Any byte string is escaped to characters
    that no part of the URI syntax uses, and reads back as it was when it is
    text; a value that is not UTF-8 is dropped, like a malformed one. *)
Theorem query_roundtrip (v : bytes) : bytes_ok v ->
  query_unescape (query_escape v) = (if utf8_valid v then Some v else None) /\
  Forall (fun c => is_unreserved c = true \/ c = 43 \/ c = 37) (query_escape v).
Proof.
  intros Hv. split.
  - unfold query_unescape. by rewrite unescape_escape.
  - apply (Forall_impl _ _ _ (query_escape_chars v Hv)). intros c Hc. unfold escape_char in Hc.
    apply orb_true_iff in Hc as [[Hc|Hc]%orb_true_iff|Hc]; zbool; auto.
Qed.

Lemma query_roundtrip_witness :
  query_escape [97; 32; 38; 195; 169; 37] = str "a+%26%C3%A9%25" /\
  query_unescape (query_escape [97; 32; 38; 195; 169; 37]) = Some [97; 32; 38; 195; 169; 37].
Proof.
  split; [vm_compute; reflexivity|].
  exact (proj1 (query_roundtrip [97; 32; 38; 195; 169; 37] ltac:(by_dec))).
Defined.

(** ** Go durations *)

(** The language of durations and the milliseconds they denote. *)
Inductive duration_text : bytes -> Z -> Prop :=
  | duration_nil : duration_text [] 0
  | duration_cons ds n u mult rest ms :
      ds <> [] -> Forall (fun b => is_ascii_digit b = true) ds -> parse_uint U128_MAX ds = Some n ->
      unit_nanos u = Some mult -> Forall (fun b => is_ascii_alphabetic b = true) u -> duration_text rest ms ->
      duration_text (ds ++ u ++ rest) (n * mult / 1000000 + ms).

Lemma count_while_app p a b : Forall (fun x => p x = true) a -> match b with [] => True | x :: _ => p x = false end ->
  count_while p (a ++ b) = length a.
Proof.
  intros Ha Hb. induction Ha as [|x a Hx Ha IH]; cbn [app length count_while]; [|by rewrite Hx, IH].
  destruct b as [|x b]; cbn; [done|]. by rewrite Hb.
Qed.

Lemma count_while_take p s : Forall (fun x => p x = true) (take (count_while p s) s).
Proof.
  induction s as [|x s IH]; cbn; [constructor|]. destruct (p x) eqn:Ep; cbn; constructor; auto.
Qed.

Lemma count_while_drop p s : match drop (count_while p s) s with [] => True | x :: _ => p x = false end.
Proof. induction s as [|x s IH]; cbn; [done|]. by destruct (p x) eqn:Ep. Qed.

Lemma unit_nanos_bound u mult : unit_nanos u = Some mult -> (1 <= mult <= 3600000000000) /\ u <> [].
Proof. unfold unit_nanos. repeat case_bool_decide; cbn [orb]; intros [= <-]; subst; (split; [lia|done]). Qed.

Lemma letter_not_digit x : is_ascii_alphabetic x = true -> is_ascii_digit x = false.
Proof.
  unfold is_ascii_alphabetic, is_ascii_upper, is_ascii_lower, is_ascii_digit. repeat zcase; done || lia.
Qed.

Lemma digit_not_letter x : is_ascii_digit x = true -> is_ascii_alphabetic x = false.
Proof. intros Hd. destruct (is_ascii_alphabetic x) eqn:E; [|done]. by rewrite (letter_not_digit x E) in Hd. Qed.

(** Text that starts a number does not start with a letter. *)
Lemma duration_head s ms : duration_text s ms -> match s with [] => True | x :: _ => is_ascii_alphabetic x = false end.
Proof.
  destruct 1 as [|ds n u mult rest ms Hds Hd _ _ _ _]; [done|]. destruct Hd as [|x ds Hx Hd]; [done|].
  by apply digit_not_letter.
Qed.

Lemma duration_part_Some rest ms rest' : duration_part rest = Some (ms, rest') <->
  exists ds n u mult, rest = ds ++ u ++ rest' /\ ds <> [] /\ Forall (fun b => is_ascii_digit b = true) ds /\
    parse_uint U128_MAX ds = Some n /\ unit_nanos u = Some mult /\ Forall (fun b => is_ascii_alphabetic b = true) u /\
    match rest' with [] => True | x :: _ => is_ascii_alphabetic x = false end /\ ms = wrap128 (n * mult) / 1000000.
Proof.
  unfold duration_part. split.
  - set (d := count_while is_ascii_digit rest). case_bool_decide as Hd; [done|].
    destruct (parse_uint U128_MAX (take d rest)) as [n|] eqn:En; [|done]. cbn [mbind option_bind].
    set (k := count_while is_ascii_alphabetic (drop d rest)). case_bool_decide as Hk; [done|].
    destruct (unit_nanos (take k (drop d rest))) as [mult|] eqn:Eu; [|done]. cbn [mbind option_bind].
    intros [= <- <-]. exists (take d rest), n, (take k (drop d rest)), mult.
    split; [by rewrite !take_drop|].
    split; [|split; [apply count_while_take|split; [exact En|split; [exact Eu|split; [apply count_while_take|split; [apply count_while_drop|done]]]]]].
    intros E. apply Hd. unfold d. destruct rest as [|x rest]; [done|]. unfold d in E. cbn in *. by destruct (is_ascii_digit x).
  - intros (ds & n & u & mult & -> & Hne & Hds & En & Eu & Hu & Hr & ->).
    assert (match u ++ rest' with [] => True | x :: _ => is_ascii_digit x = false end) as Hh.
    { destruct (unit_nanos_bound u mult Eu) as [_ Hn]. destruct Hu as [|x u Hx Hu]; [done|]. by apply letter_not_digit. }
    rewrite (count_while_app _ ds _ Hds Hh), take_app_length, drop_app_length, En.
    rewrite bool_decide_eq_false_2 by (by destruct ds). cbn [mbind option_bind].
    rewrite (count_while_app _ u _ Hu Hr), take_app_length, drop_app_length, Eu.
    rewrite bool_decide_eq_false_2; [done|]. intros E. destruct (unit_nanos_bound u mult Eu) as [_ Hn]. by destruct u.
Qed.

Lemma digits_val_bound radix max acc s n : 2 <= radix <= 36 -> 0 <= acc -> digits_val radix max acc s = Some n ->
  0 <= n < (acc + 1) * radix ^ Z.of_nat (length s).
Proof.
  intros Hr. revert acc. induction s as [|c s IH]; intros acc Ha; cbn [digits_val length].
  - intros [= <-]. change (Z.of_nat 0) with 0. lia.
  - destruct (to_digit radix c) as [d|] eqn:Ed; [|done]. cbn zeta. destruct (max <? _); [done|].
    assert (0 <= d < radix) as Hd.
    { unfold to_digit, is_ascii_digit, is_ascii_lower, is_ascii_upper in Ed.
      repeat match type of Ed with context [?a <=? ?b] => destruct (Z.leb_spec a b); cbn [andb] in Ed end;
        try discriminate Ed; (match type of Ed with context [?a <? ?b] => destruct (Z.ltb_spec a b) end); simplify_eq; lia. }
    intros E. apply IH in E; [|lia]. rewrite Nat2Z.inj_succ, Z.pow_succ_r by lia.
    pose proof (Z.pow_pos_nonneg radix (Z.of_nat (length s)) ltac:(lia) ltac:(lia)). nia.
Qed.

Lemma parse_uint_bound max s n : parse_uint max s = Some n -> 0 <= n < 10 ^ Z.of_nat (length s).
Proof.
  unfold parse_uint, from_str_radix. destruct s as [|c s]; [done|]. destruct (c =? 43).
  - destruct s as [|d s]; [done|]. intros E. apply digits_val_bound in E; [|lia..].
    pose proof (Z.pow_le_mono_r 10 (Z.of_nat (length (d :: s))) (Z.of_nat (length (c :: d :: s))) ltac:(lia) ltac:(cbn; lia)). lia.
  - intros E. apply digits_val_bound in E; lia.
Qed.

(** A part of at most 25 bytes does not overflow. *)
Lemma part_small ds n u mult : (length (ds ++ u) <= 25)%nat -> parse_uint U128_MAX ds = Some n -> unit_nanos u = Some mult ->
  0 <= n * mult / 1000000 < 3600000 * 10 ^ 24 /\ wrap128 (n * mult) = n * mult.
Proof.
  rewrite length_app. intros Hl En Eu. apply parse_uint_bound in En. apply unit_nanos_bound in Eu as [Hm Hu].
  assert (n < 10 ^ 24) as Hn.
  { eapply Z.lt_le_trans; [apply En|]. apply Z.pow_le_mono_r; [lia|]. destruct u; [done|]. cbn [length] in Hl. lia. }
  assert (0 <= n * mult < 10 ^ 24 * 3600000000000) as Hb by nia.
  split; [split; [apply Z.div_pos; lia|apply Z.div_lt_upper_bound; lia]|].
  apply Z.mod_small. split; [lia|]. eapply Z.lt_trans; [apply Hb|]. vm_compute. reflexivity.
Qed.

Lemma duration_nonneg s ms : duration_text s ms -> 0 <= ms.
Proof.
  induction 1 as [|ds n u mult rest ms _ _ En Eu _ _ IH]; [done|]. apply parse_uint_bound in En. apply unit_nanos_bound in Eu as [Hm _].
  pose proof (Z.div_pos (n * mult) 1000000 ltac:(nia) ltac:(lia)). lia.
Qed.

Lemma part_fits ds n u mult rest total : (length (ds ++ u ++ rest) <= 25)%nat -> ds <> [] ->
  parse_uint U128_MAX ds = Some n -> unit_nanos u = Some mult ->
  0 <= total <= (25 - Z.of_nat (length (ds ++ u ++ rest))) * (3600000 * 10 ^ 24) ->
  let total' := total + n * mult / 1000000 in
  wrap128 (total + wrap128 (n * mult) / 1000000) = total' /\
  0 <= total' <= (25 - Z.of_nat (length rest)) * (3600000 * 10 ^ 24) /\ (length rest < length (ds ++ u ++ rest))%nat.
Proof.
  rewrite !length_app. intros Hl Hne En Eu Ht. cbn zeta. pose proof (unit_nanos_bound u mult Eu) as [_ Hun].
  assert (0 < length u)%nat by (destruct u; [done|cbn; lia]). assert (0 < length ds)%nat by (destruct ds; [done|cbn; lia]).
  destruct (part_small ds n u mult) as [Hb ->]; [rewrite length_app; lia|done..|].
  split; [|split; [nia|lia]]. apply Z.mod_small. split; [lia|].
  apply Z.le_lt_trans with (26 * (3600000 * 10 ^ 24)); [nia|]. vm_compute. reflexivity.
Qed.

Lemma duration_empty ms : duration_text [] ms <-> ms = 0.
Proof.
  split; [|intros ->; constructor]. intros Hms. inversion Hms as [|ds n u mult rest ms' Hne]; [done|]. by destruct ds.
Qed.

Lemma duration_loop_nil fuel total v : duration_loop fuel [] total = Some v <-> exists ms, duration_text [] ms /\ v = total + ms.
Proof.
  assert (duration_loop fuel [] total = Some total) as -> by (by destruct fuel). split.
  - intros [= <-]. exists 0. split; [constructor|lia].
  - intros (ms & ->%duration_empty & ->). f_equal. lia.
Qed.

Lemma duration_loop_spec fuel s total : (length s <= fuel)%nat -> (length s <= 25)%nat ->
  0 <= total <= (25 - Z.of_nat (length s)) * (3600000 * 10 ^ 24) ->
  forall v, duration_loop fuel s total = Some v <-> exists ms, duration_text s ms /\ v = total + ms.
Proof.
  revert s total. induction fuel as [|fuel IH]; intros [|x s] total Hf Hl Ht v; try apply duration_loop_nil; [cbn in Hf; lia|].
  cbn [duration_loop]. remember (x :: s) as t. split.
  - destruct (duration_part t) as [[p rest]|] eqn:Ep; [|done]. cbn [mbind option_bind]. intros E.
    apply duration_part_Some in Ep as (ds & n & u & mult & -> & Hne & Hds & En & Eu & Hu & Hr & ->).
    destruct (part_fits ds n u mult rest total Hl Hne En Eu Ht) as (Hw & Hb & Hlt).
    rewrite Hw in E. apply IH in E as (ms & Hms & ->); [|lia..|exact Hb].
    exists (n * mult / 1000000 + ms). split; [by eapply duration_cons|lia].
  - intros (ms & Hms & ->). destruct Hms as [|ds n u mult rest ms Hne Hds En Eu Hu Hms]; [done|].
    assert (duration_part (ds ++ u ++ rest) = Some (wrap128 (n * mult) / 1000000, rest)) as ->.
    { apply duration_part_Some. exists ds, n, u, mult. repeat split; try done. by eapply duration_head. }
    destruct (part_fits ds n u mult rest total Hl Hne En Eu Ht) as (Hw & Hb & Hlt).
    cbn [mbind option_bind]. rewrite Hw. apply IH; [lia..|exact Hb|]. exists ms. split; [done|lia].
Qed.

(** Go durations are read exactly. A text of at most 25 bytes is accepted
    if and only if it is a non-empty sequence of numbers with the units
    [ns], [us], [ms], [s], [m] and [h], and the duration is the sum of their
    whole milliseconds, held to 64 bits. *)
Theorem go_duration_exact (s : bytes) (d : Z) : (length s <= 25)%nat ->
  parse_go_duration s = Ok d <-> s <> [] /\ exists ms, duration_text s ms /\ d = from_millis (Z.min ms U64_MAX).
Proof.
  intros Hl. unfold parse_go_duration. destruct s as [|x s]; [split; [done|by intros [? _]]|].
  assert (0 <= 0 <= (25 - Z.of_nat (length (x :: s))) * (3600000 * 10 ^ 24)) as Hz by lia.
  pose proof (duration_loop_spec (length (x :: s)) (x :: s) 0 ltac:(lia) Hl Hz) as Hs.
  destruct (duration_loop _ _ _) as [v|] eqn:Ed; cbn [ok_or mbind result_bind].
  - destruct (proj1 (Hs v) eq_refl) as (ms & Hms & ->). rewrite Z.add_0_l. split.
    + intros [= <-]. split; [done|]. by exists ms.
    + intros [_ (ms' & Hms' & ->)]. assert (Some (0 + ms) = Some (0 + ms')) as E by (apply Hs; by exists ms'). injection E as E. do 3 f_equal. lia.
  - split; [done|]. intros [_ (ms & Hms & _)]. assert (None = Some (0 + ms)) by (apply Hs; by exists ms). done.
Qed.

Lemma go_duration_exact_witness :
  parse_go_duration (str "1h30m") = Ok (from_secs 5400) /\ duration_text (str "1h30m") 5400000 /\
  (forall ms, ~ duration_text (str "5 s") ms).
Proof.
  split; [vm_compute; reflexivity|]. split.
  - destruct (proj1 (go_duration_exact (str "1h30m") (from_secs 5400) ltac:(vm_compute; lia))) as [_ (ms & Hms & E)];
      [vm_compute; reflexivity|].
    pose proof (duration_nonneg _ _ Hms) as Hn. unfold from_secs, from_millis, U64_MAX in E. by replace 5400000 with ms by lia.
  - intros ms Hms.
    assert (parse_go_duration (str "5 s") = Ok (from_millis (Z.min ms U64_MAX))) as E.
    { apply (go_duration_exact (str "5 s")); [vm_compute; lia|]. split; [done|]. by exists ms. }
    assert (parse_go_duration (str "5 s") = Err (BadUri (str "5 s"))) as Ee by (vm_compute; reflexivity).
    rewrite Ee in E. discriminate E.
Defined.

(** ** What an accepted URI holds *)

Definition peer_uri_ok (u : PeerUri) : Prop :=
  u_host_port u <> [] /\ (length (u_password u) <= MAX_PASSWORD_LEN)%nat /\ utf8_valid (u_password u) = true /\
  is_u8 (u_priority u) /\
  match u_pinned_key u with Some k => length k = KEY_LEN | None => True end /\
  match u_sni u with Some n => utf8_valid n = true | None => True end /\
  match u_max_backoff u with Some d => MIN_MAX_BACKOFF <= d | None => True end.

Lemma digits_val_max radix max acc s n : acc <= max -> digits_val radix max acc s = Some n -> n <= max.
Proof.
  revert acc. induction s as [|c s IH]; intros acc Ha; cbn [digits_val]; [intros [= <-]; done|].
  destruct (to_digit radix c); [|done]. cbn zeta. zcase; [done|]. by apply IH.
Qed.

Lemma parse_uint_max max s n : 0 <= max -> parse_uint max s = Some n -> 0 <= n <= max.
Proof.
  intros Hm E. split; [apply parse_uint_bound in E; lia|]. unfold parse_uint, from_str_radix in E.
  destruct s as [|c s]; [done|]. destruct (c =? 43); [destruct s; [done|]|]; by apply digits_val_max in E.
Qed.

Lemma query_unescape_utf8 s v : query_unescape s = Some v -> utf8_valid v = true.
Proof.
  unfold query_unescape. destruct (unescape_bytes s) as [out|]; [|done]. cbn [mbind option_bind].
  by destruct (utf8_valid out) eqn:E; [intros [= <-]|].
Qed.

Section parsed.
Context `{!Hex}.

Lemma parse_option_ok k v u u' : utf8_valid v = true -> peer_uri_ok u -> parse_option k v u = Ok u' ->
  peer_uri_ok u' /\ u_host_port u' = u_host_port u.
Proof.
  intros Hv (H1 & H2 & H3 & H4 & H5 & H6 & H7). unfold parse_option.
  case_bool_decide; [destruct (decide _); [done|]; intros [= <-]; split; [|done]; repeat split; cbn; try done; try apply H4; lia|].
  case_bool_decide.
  { destruct (parse_uint U8_MAX v) as [p|] eqn:Ep; [|done]. cbn. intros [= <-]. split; [|done].
    apply parse_uint_max in Ep; [|done]. unfold U8_MAX in Ep. repeat split; cbn; try done; lia. }
  case_bool_decide.
  { destruct (hex_decode v) as [raw|]; [|done]. cbn. destruct (decide _) as [|Hl]; [done|]. intros [= <-]. split; [|done].
    repeat split; cbn; try done; try apply H4. by apply dec_stable. }
  case_bool_decide; [intros [= <-]; split; [|done]; repeat split; cbn; try done; apply H4|].
  case_bool_decide.
  { destruct (parse_go_duration v) as [d|]; [|done]. zcase; [done|]. intros [= <-]. split; [|done].
    repeat split; cbn; try done; apply H4. }
  intros [= <-]. split; [|done]. repeat split; try done; apply H4.
Qed.

Lemma parse_options_ok pairs u u' : peer_uri_ok u -> parse_options pairs u = Ok u' ->
  peer_uri_ok u' /\ u_host_port u' = u_host_port u.
Proof.
  revert u. induction pairs as [|kv pairs IH]; intros u Hu; [intros [= <-]; done|]. cbn [parse_options].
  destruct (parse_pair kv u) as [u1|] eqn:Ep; [|done]. cbn [mbind result_bind]. intros E.
  assert (peer_uri_ok u1 /\ u_host_port u1 = u_host_port u) as [Hu1 Eh].
  { unfold parse_pair in Ep. destruct (unwrap_or _ _) as [k v]. destruct (query_unescape v) as [v'|] eqn:Ev.
    - eapply parse_option_ok; [by eapply query_unescape_utf8|done..].
    - by injection Ep as <-. }
  destruct (IH u1 Hu1 E) as [? Eh']. by rewrite Eh'.
Qed.

Lemma split_scheme_Some uri sc rest : split_scheme uri = Some (sc, rest) ->
  uri = str (match sc with SchemeTcp => "tcp://" | SchemeTls => "tls://" | SchemeWs => "ws://"
                         | SchemeWss => "wss://" | SchemeQuic => "quic://" end) ++ rest.
Proof.
  unfold split_scheme.
  repeat match goal with |- context [strip_prefix ?p ?s] => destruct (strip_prefix p s) eqn:? end;
    try done; intros [= <- <-]; by apply strip_prefix_Some.
Qed.

(** An accepted URI is well formed. It starts with its scheme, the
    authority is the non-empty text up to the query, and every option is within
    its bounds: a text password of at most 64 bytes, an 8-bit priority, a
    32-byte key, and a backoff cap of at least five seconds. *)
Theorem parse_link_uri_sound (uri : bytes) (sc : Scheme) (u : PeerUri) : parse_link_uri uri = Ok (sc, u) ->
  peer_uri_ok u /\ (63 ∉ u_host_port u) /\
  exists query, (query = [] \/ (exists q, query = 63 :: q)) /\
    uri = str (match sc with SchemeTcp => "tcp://" | SchemeTls => "tls://" | SchemeWs => "ws://"
                           | SchemeWss => "wss://" | SchemeQuic => "quic://" end) ++ u_host_port u ++ query.
Proof.
  unfold parse_link_uri. destruct (split_scheme uri) as [[sc' rest]|] eqn:Es; [|done]. cbn [ok_or mbind result_bind].
  apply split_scheme_Some in Es. destruct (unwrap_or (split_once 63 rest) (rest, [])) as [a q] eqn:Eq.
  destruct a as [|x a]; [done|]. destruct (parse_options _ _) as [u'|] eqn:Ep; [|done]. cbn. intros [= <- <-].
  apply parse_options_ok in Ep as [Hok Eh]; [|repeat split; try done; cbn; lia]. cbn in Eh. rewrite Eh. split; [exact Hok|].
  destruct (split_once 63 rest) as [[a' q']|] eqn:E1; cbn [unwrap_or] in Eq; injection Eq; intros; subst; clear Eq.
  - apply split_once_Some in E1 as [-> Ha]. split; [done|]. exists (63 :: q). split; [eauto|done].
  - apply split_once_None in E1. split; [done|]. exists []. split; [auto|]. by rewrite app_nil_r.
Qed.
End parsed.

(** A concrete codec of hexadecimal text. *)
Fixpoint hex_text (b : bytes) : bytes :=
  match b with
  | [] => []
  | x :: b' => digit_char (Z.shiftr x 4) :: digit_char (Z.land x 15) :: hex_text b'
  end.

Fixpoint hex_read (s : bytes) : option bytes :=
  match s with
  | [] => Some []
  | h :: l :: s' =>
    match to_digit 16 h, to_digit 16 l with
    | Some a, Some b => cons (16 * a + b) <$> hex_read s'
    | _, _ => None
    end
  | [_] => None
  end.

Definition std_hex : Hex := {| hex_encode b := hex_text (map wrap8 b); hex_decode := hex_read |}.

Lemma hex_digit_char d : 0 <= d < 16 -> hex_char (digit_char d).
Proof. unfold hex_char, digit_char. zcase; lia. Qed.

Lemma wrap8_nibbles x : is_u8 x -> 0 <= Z.shiftr x 4 < 16 /\ 0 <= Z.land x 15 < 16 /\ 16 * Z.shiftr x 4 + Z.land x 15 = x.
Proof.
  intros Hx. rewrite Z.shiftr_div_pow2 by lia. change 15 with (Z.ones 4). rewrite Z.land_ones by lia.
  change (2 ^ 4) with 16. unfold is_u8 in Hx. pose proof (Z.div_mod x 16). pose proof (Z.mod_pos_bound x 16).
  pose proof (Z.div_lt_upper_bound x 16 16). pose proof (Z.div_pos x 16). lia.
Qed.

Lemma std_hex_laws : @HexLaws std_hex.
Proof.
  split.
  - intros b. cbn. induction b as [|x b IH]; cbn; [constructor|].
    destruct (wrap8_nibbles (wrap8 x) (wrap8_range x)) as (Hh & Hl & _). constructor; [by apply hex_digit_char|]. constructor; [by apply hex_digit_char|exact IH].
  - intros b Hb. cbn. induction Hb as [|x b Hx Hb IH]; cbn [map hex_text hex_read]; [done|].
    rewrite wrap8_ok by done. destruct (wrap8_nibbles x Hx) as (Hh & Hl & E). rewrite !to_digit_char, IH by lia. cbn. by rewrite E.
Qed.

Lemma parse_link_uri_sound_witness :
  @parse_link_uri std_hex (str "tls://[fe80::1]:9001?password=a%20b&priority=7&maxbackoff=30s") =
    Ok (SchemeTls, mkPeerUri (str "[fe80::1]:9001") (str "a b") 7 None None (Some (from_secs 30))) /\
  peer_uri_ok (mkPeerUri (str "[fe80::1]:9001") (str "a b") 7 None None (Some (from_secs 30))).
Proof.
  assert (@parse_link_uri std_hex (str "tls://[fe80::1]:9001?password=a%20b&priority=7&maxbackoff=30s") =
    Ok (SchemeTls, mkPeerUri (str "[fe80::1]:9001") (str "a b") 7 None None (Some (from_secs 30)))) as E by (vm_compute; reflexivity).
  split; [exact E|]. exact (proj1 (@parse_link_uri_sound std_hex _ _ _ E)).
Defined.

(** ** Redial backoff *)

(** The outcome of a dial, with the reading of the clock that records it. *)
Inductive dial_outcome : Type := DialOk (now : Z) | DialFailed (now : Z).

Definition record_outcome (cap : Z) (p : SupervisedPeer) (o : dial_outcome) : SupervisedPeer :=
  match o with
  | DialOk now => record_success p now
  | DialFailed now => record_failure p cap now
  end.

(** The failures since the last success, most recent outcome first. *)
Fixpoint failing_streak (os : list dial_outcome) : nat :=
  match os with DialFailed _ :: os => S (failing_streak os) | _ => 0 end%nat.

Lemma failures_streak cap p os : sp_failures p = 0 ->
  sp_failures (fold_right (fun o p => record_outcome cap p o) p os) = Z.min (Z.of_nat (failing_streak os)) 32.
Proof.
  intros Hp. induction os as [|[now|now] os IH]; cbn [fold_right failing_streak record_outcome record_success record_failure sp_failures];
    [rewrite Hp; done|done|]. rewrite IH. unfold saturating_add32. lia.
Qed.

(** Redials back off exponentially and never stop. Whatever the history
    of a peer, after [k] failures in a row the next dial is due exactly
    [min(2^min(k,32) s, cap)] after the last of them, and never later than the
    cap; after a success it is due at once. *)
Theorem redial_backoff (cap : Z) (uri : bytes) (t0 : Z) (os : list dial_outcome) (t now : Z) :
  0 <= cap ->
  let run := fold_right (fun o p => record_outcome cap p o) (SupervisedPeer_new uri t0) in
  let k := Z.of_nat (S (failing_streak os)) in
  (due (run (DialFailed t :: os)) now [] = true <-> t + Z.min (from_secs (2 ^ Z.min k 32)) cap <= now) /\
  (due (run (DialFailed t :: os)) now [] = false -> now < t + cap) /\
  (due (run (DialOk t :: os)) now [] = true <-> t <= now).
Proof.
  intros Hc run k. set (p := run (DialFailed t :: os)).
  assert (sp_next_retry p = t + Z.min (from_secs (2 ^ Z.min k 32)) cap) as En.
  { unfold p, run. cbn [fold_right record_outcome record_failure sp_next_retry].
    rewrite failures_streak by done. unfold backoff_delay, saturating_add32. f_equal. rewrite Z.shiftl_1_l. do 3 f_equal. lia. }
  assert (forall q, due q now [] = (sp_next_retry q <=? now)) as Hd.
  { intros q. unfold due. rewrite bool_decide_eq_true_2 by apply not_elem_of_nil. apply andb_true_r. }
  rewrite !Hd, En, !Z.leb_le, Z.leb_gt. split; [done|]. split; [lia|done].
Qed.

Lemma redial_backoff_witness :
  due (record_outcome (from_secs 60) (record_outcome (from_secs 60) (SupervisedPeer_new (str "tcp://h:1") 0)
    (DialFailed 5)) (DialFailed (from_secs 10))) (from_secs 14) [] = true.
Proof.
  apply (redial_backoff (from_secs 60) (str "tcp://h:1") 0 [DialFailed 5] (from_secs 10) (from_secs 14)); vm_compute; congruence.
Defined.
