(* ===== verification/Lan.v ===== *)
(** * Lan: discovery of peers on the local network ([src/multicast.rs]).

    The beacon codec, the membership hash, and the announce state machine: the
    interfaces of the newest scan, their listeners and beacons, and the dials
    that received beacons ask for. The machine owns no socket: it answers with
    commands, and the contract below says what the client may rely on. *)
From Stdlib Require Import Strings.String.
From stdpp Require Import base tactics list numbers gmap.
From S2P Require Import Prelude Errors Clock Text Frame Address Wire Handshake Uri.

Local Open Scope Z_scope.

Definition PROTO_MAJOR : Z := 0.
Definition PROTO_MINOR : Z := 5.
Definition MAX_INTERVAL : Z := from_secs 15.
Definition HEADER_LEN : nat := (KEY_LEN + 8)%nat.
Definition HASH_LEN : nat := 64.

Record Advertisement : Type := mkAdvertisement {
  adv_major : Z; adv_minor : Z; adv_pubkey : bytes; adv_port : Z; adv_hash : bytes }.

Definition Advertisement_encode (a : Advertisement) : bytes :=
  be_bytes 2 (adv_major a) ++ be_bytes 2 (adv_minor a) ++ adv_pubkey a ++ be_bytes 2 (adv_port a) ++
  be_bytes 2 (wrap16 (Z.of_nat (length (adv_hash a)))) ++ adv_hash a.

Definition Advertisement_decode (b : bytes) : result Advertisement :=
  if decide (length b < HEADER_LEN)%nat then Err (Core InvalidLength)
  else
    let pubkey := slice b 4 (4 + KEY_LEN) in
    let hash_len := Z.to_nat (be_val (slice b (6 + KEY_LEN) (8 + KEY_LEN))) in
    if decide (length b < HEADER_LEN + hash_len)%nat then Err (Core InvalidLength)
    else Ok (mkAdvertisement (be_val (slice b 0 2)) (be_val (slice b 2 4)) pubkey
           (be_val (slice b (4 + KEY_LEN) (6 + KEY_LEN))) (slice b HEADER_LEN (HEADER_LEN + hash_len))).

Record InterfaceConfig : Type := mkInterfaceConfig {
  if_name : bytes; if_link_local : Ipv6Addr; if_beacon : bool; if_listen : bool;
  if_port : Z; if_priority : Z; if_password : bytes }.

Inductive Command : Type :=
  | Bind (iface : bytes) (link_local : Ipv6Addr) (port : Z) (uri : bytes)
  | Beacon (iface : bytes) (beacon : bytes)
  | DialPeer (uri sintf peer : bytes)
  | Unbind (iface : bytes).

Record SocketAddrV6 : Type := mkSocketAddrV6 { sa_ip : Ipv6Addr; sa_port : Z; sa_flowinfo : Z; sa_scope_id : Z }.

Record IfaceState : Type := mkIfaceState {
  is_cfg : option InterfaceConfig; is_hash : bytes; is_listener_port : option Z; is_bind_addr : option Ipv6Addr;
  is_last_beacon : option Z; is_interval : Z; is_joined : bool }.

Definition listener_stale (st : IfaceState) : bool :=
  match is_bind_addr st with
  | None => false
  | Some addr =>
    match is_cfg st with
    | None => true
    | Some cfg => bool_decide (if_link_local cfg <> addr)
    end
  end.

Record Multicast : Type := mkMulticast { mc_local_pubkey : bytes; mc_ifaces : gmap bytes IfaceState }.

Definition Multicast_new (local_pubkey : bytes) : Multicast := mkMulticast local_pubkey ∅.

Definition listen_uri (cfg : InterfaceConfig) : bytes :=
  str "tls://[" ++ ipv6_display (if_link_local cfg) ++ str "]:" ++ dec (if_port cfg) ++
  str "?password=" ++ query_escape (if_password cfg) ++ str "&priority=" ++ dec (if_priority cfg).

Section dial.
Context `{!Hex}.

Definition dial_uri (cfg : InterfaceConfig) (adv : Advertisement) (from : Ipv6Addr) (zone : bytes) : bytes :=
  str "tls://[" ++ ipv6_display from ++ str "%" ++ zone ++ str "]:" ++ dec (adv_port adv) ++
  str "?key=" ++ hex_encode (adv_pubkey adv) ++ str "&password=" ++ query_escape (if_password cfg) ++
  str "&priority=" ++ dec (if_priority cfg).
End dial.

Section machine.
Context `{!Blake2}.

Definition membership_hash (password pubkey : bytes) : bytes :=
  match password with
  | [] => blake2b512 pubkey
  | _ :: _ => unwrap_or (blake2b_mac512 password pubkey) (blake2b512 pubkey)
  end.

(** The state of an interface after a scan that lists it. *)
Definition scanned (local_pubkey : bytes) (cfg : InterfaceConfig) (found : option IfaceState) : IfaceState :=
  let hash := membership_hash (if_password cfg) local_pubkey in
  match found with
  | Some st => mkIfaceState (Some cfg) hash (is_listener_port st) (is_bind_addr st) (is_last_beacon st) (is_interval st) (is_joined st)
  | None => mkIfaceState (Some cfg) hash None None None 0 false
  end.

(** One turn of the loop over the scan: what is left of the old map, and the
    new one. *)
Definition scan_one (local_pubkey : bytes) (maps : gmap bytes IfaceState * gmap bytes IfaceState) (cfg : InterfaceConfig)
  : gmap bytes IfaceState * gmap bytes IfaceState :=
  let '(old, next) := maps in
  if negb (if_beacon cfg) && negb (if_listen cfg) then maps
  else if decide (MAX_PASSWORD_LEN < length (if_password cfg))%nat then maps
  else (delete (if_name cfg) old, <[if_name cfg := scanned local_pubkey cfg (old !! if_name cfg)]> next).

(** An interface that left the scan keeps its entry while a listener is bound. *)
Definition left_scan (st : IfaceState) : option IfaceState :=
  match is_bind_addr st with
  | None => None
  | Some _ => Some (mkIfaceState None (is_hash st) (is_listener_port st) (is_bind_addr st)
                     (is_last_beacon st) (is_interval st) (is_joined st))
  end.

Definition set_interfaces (m : Multicast) (ifaces : list InterfaceConfig) : Multicast :=
  let '(old, next) := fold_left (scan_one (mc_local_pubkey m)) ifaces (mc_ifaces m, ∅) in
  mkMulticast (mc_local_pubkey m) (omap left_scan old ∪ next).

(** The first pass of [announce]: stop a listener that is no longer wanted. *)
Definition announce_stop (acc : gmap bytes IfaceState * list Command) (name : bytes) : gmap bytes IfaceState * list Command :=
  let '(ifaces, out) := acc in
  match ifaces !! name with
  | Some st =>
    if listener_stale st then
      (<[name := mkIfaceState (is_cfg st) (is_hash st) None None None 0 (is_joined st)]> ifaces, out ++ [Unbind name])
    else acc
  | None => acc
  end.

(** The second pass: join, bind, or beacon. *)
Definition announce_one (local_pubkey : bytes) (now : Z) (acc : gmap bytes IfaceState * list Command) (name : bytes)
  : gmap bytes IfaceState * list Command :=
  let '(ifaces, out) := acc in
  match ifaces !! name with
  | None => acc
  | Some st =>
    match is_cfg st with
    | None => acc
    | Some cfg =>
      let joined := if if_listen cfg then true else is_joined st in
      let st := mkIfaceState (is_cfg st) (is_hash st) (is_listener_port st) (is_bind_addr st) (is_last_beacon st) (is_interval st) joined in
      if negb (if_beacon cfg) then (<[name := st]> ifaces, out)
      else
        match is_bind_addr st with
        | None =>
          (<[name := mkIfaceState (is_cfg st) (is_hash st) (is_listener_port st) (Some (if_link_local cfg))
                       (is_last_beacon st) (is_interval st) joined]> ifaces,
           out ++ [Bind name (if_link_local cfg) (if_port cfg) (listen_uri cfg)])
        | Some _ =>
          match is_listener_port st with
          | None => (<[name := st]> ifaces, out)
          | Some port =>
            if match is_last_beacon st with
               | Some last => std_duration_since now last <? is_interval st
               | None => false
               end
            then (<[name := st]> ifaces, out)
            else
              let adv := mkAdvertisement PROTO_MAJOR PROTO_MINOR local_pubkey port (is_hash st) in
              let interval := if is_interval st <? MAX_INTERVAL then is_interval st + from_secs 1 else is_interval st in
              (<[name := mkIfaceState (is_cfg st) (is_hash st) (is_listener_port st) (is_bind_addr st) (Some now) interval joined]> ifaces,
               out ++ [Beacon name (Advertisement_encode adv)])
          end
        end
    end
  end.

Definition announce (m : Multicast) (now : Z) : Multicast * list Command :=
  let names := sort_keys (map_to_list (mc_ifaces m)).*1 in
  let stopped := fold_left announce_stop names (mc_ifaces m, []) in
  let '(ifaces, out) := fold_left (announce_one (mc_local_pubkey m) now) names stopped in
  (mkMulticast (mc_local_pubkey m) ifaces, out).

Definition listener_up (m : Multicast) (iface : bytes) (bound_port : Z) : Multicast :=
  mkMulticast (mc_local_pubkey m)
    (alter (fun st => mkIfaceState (is_cfg st) (is_hash st) (Some bound_port) (is_bind_addr st)
                        (is_last_beacon st) (is_interval st) (is_joined st)) iface (mc_ifaces m)).

Definition tick_interval (m : Multicast) (iface : bytes) : option Z := is_interval <$> mc_ifaces m !! iface.

Definition is_joined_on (m : Multicast) (iface : bytes) : bool :=
  match mc_ifaces m !! iface with Some st => is_joined st | None => false end.

Definition receive `{!Hex} (m : Multicast) (zone : bytes) (from : SocketAddrV6) (buf : bytes) : option Command :=
  match Advertisement_decode buf with
  | Err _ => None
  | Ok adv =>
    if negb (adv_major adv =? PROTO_MAJOR) || negb (adv_minor adv =? PROTO_MINOR) then None
    else if bool_decide (adv_pubkey adv = mc_local_pubkey m) then None
    else
      st ← mc_ifaces m !! zone;
      cfg ← is_cfg st;
      if negb (if_listen cfg) then None
      else if negb (bool_decide (membership_hash (if_password cfg) (adv_pubkey adv) = adv_hash adv)) then None
      else Some (DialPeer (dial_uri cfg adv (sa_ip from) zone) zone (adv_pubkey adv))
  end.
End machine.

(** ** Beacons on the wire *)

Definition adv_ok (a : Advertisement) : Prop :=
  is_u16 (adv_major a) /\ is_u16 (adv_minor a) /\ length (adv_pubkey a) = KEY_LEN /\ is_u16 (adv_port a) /\
  Z.of_nat (length (adv_hash a)) < 2 ^ 16.

(** The encoding cut at the fields. *)
Lemma adv_layout a rest : length (adv_pubkey a) = KEY_LEN ->
  exists b, Advertisement_encode a ++ rest = b /\ length b = (HEADER_LEN + length (adv_hash a) + length rest)%nat /\
  slice b 0 2 = be_bytes 2 (adv_major a) /\ slice b 2 4 = be_bytes 2 (adv_minor a) /\ slice b 4 (4 + KEY_LEN) = adv_pubkey a /\
  slice b (4 + KEY_LEN) (6 + KEY_LEN) = be_bytes 2 (adv_port a) /\
  slice b (6 + KEY_LEN) (8 + KEY_LEN) = be_bytes 2 (wrap16 (Z.of_nat (length (adv_hash a)))) /\
  forall n, slice b HEADER_LEN (HEADER_LEN + n) = take n (adv_hash a ++ rest).
Proof.
  intros Hk. eexists. split; [reflexivity|]. unfold Advertisement_encode. unfold KEY_LEN in *.
  repeat rewrite <-(app_assoc _ _ (rest : bytes)). cbn [Nat.add].
  assert (forall n v, length (be_bytes n v) = n) as Hb by apply be_bytes_length.
  split; [rewrite !length_app, !Hb, Hk; unfold HEADER_LEN, KEY_LEN; lia|].
  set (a1 := be_bytes 2 (adv_major a)). set (a2 := be_bytes 2 (adv_minor a)). set (a3 := adv_pubkey a).
  set (a4 := be_bytes 2 (adv_port a)). set (a5 := be_bytes 2 (wrap16 _)).
  assert (length a1 = 2 /\ length a2 = 2 /\ length a3 = 32 /\ length a4 = 2 /\ length a5 = 2)%nat as (L1 & L2 & L3 & L4 & L5)
    by (unfold a1, a2, a3, a4, a5; rewrite !Hb; auto).
  split; [by apply (slice_app [])|]. split; [apply slice_app; lia|].
  split; [rewrite (app_assoc a1 a2); apply slice_app; rewrite ?length_app; lia|].
  split; [rewrite (app_assoc a1 a2), (app_assoc (a1 ++ a2) a3); apply slice_app; rewrite ?length_app; lia|].
  split; [rewrite (app_assoc a1 a2), (app_assoc (a1 ++ a2) a3), (app_assoc ((a1 ++ a2) ++ a3) a4); apply slice_app; rewrite ?length_app; lia|].
  intros n. unfold slice. replace (HEADER_LEN + n - HEADER_LEN)%nat with n by lia. f_equal.
  rewrite (app_assoc a1 a2), (app_assoc (a1 ++ a2) a3), (app_assoc ((a1 ++ a2) ++ a3) a4), (app_assoc (((a1 ++ a2) ++ a3) ++ a4) a5).
  apply drop_app_exact. rewrite !length_app. unfold HEADER_LEN, KEY_LEN. lia.
Qed.

Lemma be_val_u16 v : is_u16 v -> be_val (be_bytes 2 v) = v.
Proof. intros Hv. apply be_val_bytes_small. unfold is_u16 in Hv. change (256 ^ Z.of_nat 2) with (2 ^ 16). lia. Qed.

Lemma decode_encode_adv a rest : adv_ok a -> Advertisement_decode (Advertisement_encode a ++ rest) = Ok a.
Proof.
  intros (H1 & H2 & H3 & H4 & H5). destruct (adv_layout a rest H3) as (b & -> & Hl & E1 & E2 & E3 & E4 & E5 & E6).
  unfold Advertisement_decode. rewrite decide_False by lia. rewrite E1, E2, E3, E4, E5, E6, !be_val_u16; try done.
  2: { unfold is_u16, wrap16. apply Z.mod_pos_bound. lia. }
  assert (Z.to_nat (wrap16 (Z.of_nat (length (adv_hash a)))) = length (adv_hash a)) as ->.
  { unfold wrap16. rewrite Z.mod_small by lia. lia. }
  rewrite decide_False by lia. rewrite take_app_length. by destruct a.
Qed.

(** What an accepted datagram holds. *)
Lemma decode_adv_ok b a : bytes_ok b -> Advertisement_decode b = Ok a ->
  (HEADER_LEN + length (adv_hash a) <= length b)%nat /\ bytes_ok (adv_pubkey a) /\ adv_ok a.
Proof.
  intros Hb. unfold Advertisement_decode.
  destruct (decide _) as [|Hh]; [done|]. set (n := Z.to_nat (be_val (slice b (6 + KEY_LEN) (8 + KEY_LEN)))).
  destruct (decide _) as [|Hn]; [done|]. intros [= <-]. unfold adv_ok. cbn [adv_major adv_minor adv_pubkey adv_port adv_hash].
  assert (forall i, (i + 2 <= length b)%nat -> is_u16 (be_val (slice b i (i + 2)))) as Hw.
  { intros i Hi. pose proof (be_val_bound (slice b i (i + 2)) ltac:(unfold slice; auto with roots)) as Hv.
    rewrite slice_length in Hv by lia. replace (i + 2 - i)%nat with 2%nat in Hv by lia. exact Hv. }
  unfold HEADER_LEN in *. rewrite !slice_length by (unfold KEY_LEN in *; lia).
  split; [unfold KEY_LEN in *; lia|]. split; [unfold slice; auto with roots|].
  split; [apply (Hw 0%nat); unfold KEY_LEN in *; lia|]. split; [apply (Hw 2%nat); unfold KEY_LEN in *; lia|].
  split; [unfold KEY_LEN; lia|]. split; [apply (Hw (4 + KEY_LEN)%nat); unfold KEY_LEN in *; lia|].
  pose proof (Hw (6 + KEY_LEN)%nat ltac:(unfold KEY_LEN in *; lia)) as Hx. unfold is_u16 in Hx.
  change (6 + KEY_LEN + 2)%nat with (8 + KEY_LEN)%nat in Hx.
  assert (Z.of_nat n < 2 ^ 16) by (unfold n; rewrite Z2Nat.id; apply Hx). unfold KEY_LEN in *. lia.
Qed.

(** Beacons round-trip. A beacon whose fields have their widths decodes to
    what was encoded whatever follows it in the datagram, and a datagram that
    is accepted holds at least the header and the announced hash, with fields
    of their widths. *)
Theorem beacon_roundtrip (a : Advertisement) (rest b : bytes) : adv_ok a -> bytes_ok b ->
  Advertisement_decode (Advertisement_encode a ++ rest) = Ok a /\
  (forall a', Advertisement_decode b = Ok a' -> adv_ok a' /\ (HEADER_LEN + length (adv_hash a') <= length b)%nat).
Proof.
  intros Ha Hb. split; [by apply decode_encode_adv|]. intros a' E. by destruct (decode_adv_ok b a' Hb E) as (? & _ & ?).
Qed.

Lemma beacon_roundtrip_witness :
  Advertisement_decode (Advertisement_encode (mkAdvertisement 0 5 (replicate 32 7) 9001 (replicate 64 1)) ++ [255; 255]) =
  Ok (mkAdvertisement 0 5 (replicate 32 7) 9001 (replicate 64 1)).
Proof.
  apply (beacon_roundtrip (mkAdvertisement 0 5 (replicate 32 7) 9001 (replicate 64 1)) [255; 255] []); [|constructor].
  unfold adv_ok, is_u16. cbn. repeat split; lia.
Defined.

(** ** The contract with the client

    What a client that obeys the commands can rely on: it never binds an
    interface twice or stops a listener it does not have, and a beacon goes out
    only for a listener that is up, with its port, at the pace of the ramp. *)

(** The digests of the hash functions have their documented length. *)
Class Blake2Size `{!Blake2} : Prop := {
  blake2b512_size msg : length (blake2b512 msg) = HASH_LEN;
  blake2b_mac512_size key msg h : blake2b_mac512 key msg = Some h -> length h = HASH_LEN }.

(** A listener the client holds: the port it got, and the beacons sent for it. *)
Record Listener : Type := mkListener { ln_port : option Z; ln_last : option Z; ln_beacons : nat }.

(** The gap before the next beacon after [k] of them. *)
Definition ramp (k : nat) : Z := from_secs (Z.min (Z.of_nat k) 15).

Definition beacon_due (now : Z) (l : Listener) : bool :=
  match ln_last l with Some t => ramp (ln_beacons l) <=? std_duration_since now t | None => true end.

Definition beacon_says (pk : bytes) (port : Z) (beacon : bytes) : bool :=
  match Advertisement_decode beacon with
  | Ok adv => bool_decide (adv_major adv = PROTO_MAJOR /\ adv_minor adv = PROTO_MINOR /\ adv_pubkey adv = pk /\ adv_port adv = port)
  | Err _ => false
  end.

(** One command, obeyed at [now]; [None] when it breaks the contract. *)
Definition obey (pk : bytes) (now : Z) (c : gmap bytes Listener) (cmd : Command) : option (gmap bytes Listener) :=
  match cmd with
  | Bind iface _ _ _ => match c !! iface with Some _ => None | None => Some (<[iface := mkListener None None 0]> c) end
  | Unbind iface => match c !! iface with Some _ => Some (delete iface c) | None => None end
  | Beacon iface beacon =>
    l ← c !! iface;
    port ← ln_port l;
    if beacon_says pk port beacon && beacon_due now l
    then Some (<[iface := mkListener (Some port) (Some now) (S (ln_beacons l))]> c) else None
  | DialPeer _ _ _ => Some c
  end.

Fixpoint obey_all (pk : bytes) (now : Z) (c : gmap bytes Listener) (cmds : list Command) : option (gmap bytes Listener) :=
  match cmds with
  | [] => Some c
  | cmd :: cmds => c ← obey pk now c cmd; obey_all pk now c cmds
  end.

Lemma obey_all_app pk now c a b : obey_all pk now c (a ++ b) = obey_all pk now c a ≫= fun c => obey_all pk now c b.
Proof.
  revert c. induction a as [|cmd a IH]; intros c; cbn [app obey_all]; [done|].
  destruct (obey pk now c cmd); cbn [mbind option_bind]; [apply IH|done].
Qed.

(** What happens to a node: a scan, a tick of the clock, a listener that came
    up (only one the client holds can). *)
Inductive lan_event : Type :=
  | Scan (ifaces : list InterfaceConfig)
  | Tick (now : Z)
  | Up (iface : bytes) (port : Z).

Definition lan_event_ok (e : lan_event) : Prop :=
  match e with
  | Scan ifaces => NoDup (if_name <$> ifaces)
  | Tick _ => True
  | Up _ port => is_u16 port
  end.

Section contract.
Context `{!Blake2} `{!Blake2Size}.

Definition lan_step (mc : Multicast * gmap bytes Listener) (e : lan_event) : option (Multicast * gmap bytes Listener) :=
  let '(m, c) := mc in
  match e with
  | Scan ifaces => Some (set_interfaces m ifaces, c)
  | Tick now => let '(m', out) := announce m now in (fun c => (m', c)) <$> obey_all (mc_local_pubkey m) now c out
  | Up iface port =>
    match c !! iface with
    | Some l => Some (listener_up m iface port, <[iface := mkListener (Some port) (ln_last l) (ln_beacons l)]> c)
    | None => Some (m, c)
    end
  end.

Fixpoint lan_run (mc : Multicast * gmap bytes Listener) (es : list lan_event) : option (Multicast * gmap bytes Listener) :=
  match es with
  | [] => Some mc
  | e :: es => mc ← lan_step mc e; lan_run mc es
  end.

(** An interface's state against the listener the client holds for it. *)
Definition iface_rel (name : bytes) (st : IfaceState) (l : option Listener) : Prop :=
  length (is_hash st) = HASH_LEN /\
  match l with
  | None => is_bind_addr st = None /\ is_listener_port st = None /\ is_last_beacon st = None /\ is_interval st = 0
  | Some l => is_Some (is_bind_addr st) /\ is_listener_port st = ln_port l /\ is_last_beacon st = ln_last l /\
      is_interval st = ramp (ln_beacons l) /\ (forall p, ln_port l = Some p -> is_u16 p)
  end.

Definition lan_rel (ifaces : gmap bytes IfaceState) (c : gmap bytes Listener) : Prop :=
  forall name, match ifaces !! name with Some st => iface_rel name st (c !! name) | None => c !! name = None end.

Lemma membership_hash_size pw pk : length (membership_hash pw pk) = HASH_LEN.
Proof.
  unfold membership_hash. destruct pw as [|x pw]; [apply blake2b512_size|].
  destruct (blake2b_mac512 (x :: pw) pk) eqn:E; cbn; [by eapply blake2b_mac512_size|apply blake2b512_size].
Qed.

Lemma lan_rel_insert ifaces c name st c' :
  lan_rel ifaces c -> iface_rel name st (c' !! name) -> (forall n, n <> name -> c' !! n = c !! n) ->
  lan_rel (<[name := st]> ifaces) c'.
Proof.
  intros Hr Hs Hc n. destruct (decide (n = name)) as [->|Hn]; [by rewrite lookup_insert_eq|].
  rewrite lookup_insert_ne, Hc by done. apply Hr.
Qed.

(** A scan under way: an interface is in one of the two maps, with its
    listener. *)
Definition scanning (old next : gmap bytes IfaceState) (c : gmap bytes Listener) (name : bytes) : Prop :=
  match next !! name with
  | Some st => old !! name = None /\ iface_rel name st (c !! name)
  | None => match old !! name with Some st => iface_rel name st (c !! name) | None => c !! name = None end
  end.

Lemma scan_rel pk ifaces old next c :
  NoDup (if_name <$> ifaces) -> (forall cfg, cfg ∈ ifaces -> next !! if_name cfg = None) ->
  (forall name, scanning old next c name) ->
  forall name, let '(old', next') := fold_left (scan_one pk) ifaces (old, next) in scanning old' next' c name.
Proof.
  revert old next. induction ifaces as [|cfg ifaces IH]; intros old next Hnd Hn Hr; [exact Hr|].
  cbn [fold_left]. cbn [fmap list_fmap] in Hnd. apply NoDup_cons in Hnd as [Hni Hnd]. unfold scan_one at 2.
  destruct (negb _ && negb _); [apply IH; auto; intros; apply Hn; by right|].
  destruct (decide _); [apply IH; auto; intros; apply Hn; by right|]. apply IH; [done| |].
  - intros cfg' Hc. rewrite lookup_insert_ne; [apply Hn; by right|]. intros E. apply Hni. rewrite E. by apply list_elem_of_fmap_2.
  - intros name. unfold scanning. destruct (decide (name = if_name cfg)) as [->|Hne].
    + rewrite lookup_insert_eq, lookup_delete_eq. split; [done|]. specialize (Hr (if_name cfg)). unfold scanning in Hr. rewrite Hn in Hr by left.
      destruct (old !! if_name cfg) as [st|]; cbn.
      * destruct Hr as [_ Hr]. split; [apply membership_hash_size|exact Hr].
      * rewrite Hr. split; [apply membership_hash_size|done].
    + rewrite lookup_insert_ne, lookup_delete_ne by done. apply Hr.
Qed.

Lemma set_interfaces_rel m ifaces c : NoDup (if_name <$> ifaces) -> lan_rel (mc_ifaces m) c ->
  lan_rel (mc_ifaces (set_interfaces m ifaces)) c.
Proof.
  intros Hnd Hr name. unfold set_interfaces.
  pose proof (scan_rel (mc_local_pubkey m) ifaces (mc_ifaces m) ∅ c Hnd (fun _ _ => lookup_empty _)) as Hs.
  specialize (fun Hi => Hs Hi name). destruct (fold_left _ _ _) as [old next]. cbn [mc_ifaces].
  assert (scanning old next c name) as H2.
  { apply Hs. intros n. unfold scanning. rewrite lookup_empty. apply Hr. }
  unfold scanning in H2.
  rewrite lookup_union, lookup_omap. destruct (next !! name) as [st|].
  - destruct H2 as [-> H2]. exact H2.
  - destruct (old !! name) as [st|]; cbn; [|exact H2]. unfold left_scan. destruct H2 as [Hh H2].
    destruct (is_bind_addr st) eqn:Eb; cbn.
    + split; [done|]. cbn. destruct (c !! name); [exact H2|by destruct H2].
    + destruct (c !! name); [|done]. by destruct H2 as [[? ?] _].
Qed.

(** The passes of a tick keep the relation and the contract. *)
Definition obeyed (pk : bytes) (now : Z) (c0 : gmap bytes Listener) (acc : gmap bytes IfaceState * list Command) : Prop :=
  exists c, obey_all pk now c0 acc.2 = Some c /\ lan_rel acc.1 c.

Lemma obeyed_more pk now c0 out c cmd c' ifaces' : obey_all pk now c0 out = Some c ->
  obey pk now c cmd = Some c' -> lan_rel ifaces' c' -> obeyed pk now c0 (ifaces', out ++ [cmd]).
Proof.
  intros Ho Hc Hr. exists c'. split; [|exact Hr]. cbn [fst snd]. rewrite obey_all_app, Ho. cbn. by rewrite Hc.
Qed.

Lemma stop_obeyed pk now c0 acc name : obeyed pk now c0 acc -> obeyed pk now c0 (announce_stop acc name).
Proof.
  destruct acc as [ifaces out]. intros Ho. pose proof Ho as (c & Hc & Hr). cbn [fst snd] in *. unfold announce_stop.
  destruct (ifaces !! name) as [st|] eqn:Es; [|exact Ho]. destruct (listener_stale st) eqn:El; [|exact Ho].
  pose proof (Hr name) as Hs. rewrite Es in Hs. destruct Hs as [Hh Hs].
  assert (is_Some (c !! name)) as [l El'].
  { unfold listener_stale in El. destruct (c !! name); [by eexists|]. destruct Hs as [Hb _]. by rewrite Hb in El. }
  eapply (obeyed_more _ _ _ _ c _ (delete name c)); [exact Hc|cbn; by rewrite El'|].
  apply (lan_rel_insert _ c); [done| |intros n Hn; by rewrite lookup_delete_ne].
  rewrite lookup_delete_eq. done.
Qed.

Lemma ramp_next k : (if ramp k <? MAX_INTERVAL then ramp k + from_secs 1 else ramp k) = ramp (S k).
Proof. unfold ramp, MAX_INTERVAL, from_secs. zcase; lia. Qed.

Lemma one_obeyed pk now c0 acc name : length pk = KEY_LEN -> obeyed pk now c0 acc -> obeyed pk now c0 (announce_one pk now acc name).
Proof.
  intros Hpk. destruct acc as [ifaces out]. intros Ho. pose proof Ho as (c & Hc & Hr). cbn [fst snd] in *. unfold announce_one.
  destruct (ifaces !! name) as [st|] eqn:Es; [|exact Ho]. destruct (is_cfg st) as [cfg|]; [|exact Ho].
  pose proof (Hr name) as Hs. rewrite Es in Hs. destruct Hs as [Hh Hs]. set (j := if if_listen cfg then true else is_joined st).
  assert (forall j, obeyed pk now c0 (<[name := mkIfaceState (Some cfg) (is_hash st) (is_listener_port st) (is_bind_addr st)
            (is_last_beacon st) (is_interval st) j]> ifaces, out)) as Hsame.
  { intros j'. exists c. split; [exact Hc|]. by apply (lan_rel_insert _ c). }
  destruct (if_beacon cfg); cbn [negb is_bind_addr is_listener_port is_last_beacon is_interval is_cfg is_hash]; [|apply Hsame].
  destruct (is_bind_addr st) as [addr|] eqn:Eb.
  - destruct (c !! name) as [l|] eqn:El; [|by destruct Hs]. destruct Hs as (_ & Hp & Hl & Hi & Hu).
    destruct (is_listener_port st) as [port|] eqn:Ep; [|apply Hsame].
    destruct (match is_last_beacon st with Some _ => _ | None => _ end) eqn:Ed; [apply Hsame|].
    eapply (obeyed_more _ _ _ _ c _ (<[name := mkListener (Some port) (Some now) (S (ln_beacons l))]> c)); [exact Hc| |].
    + cbn [obey]. rewrite El. cbn [mbind option_bind]. rewrite <-Hp. cbn [mbind option_bind].
      unfold beacon_says. rewrite <-(app_nil_r (Advertisement_encode _)), decode_encode_adv.
      2: { unfold adv_ok. cbn [adv_major adv_minor adv_pubkey adv_port adv_hash]. rewrite Hh.
           repeat split; try done; apply Hu; congruence. }
      rewrite bool_decide_eq_true_2 by done. unfold beacon_due. rewrite <-Hl, <-Hi.
      destruct (is_last_beacon st); [|done]. by rewrite Z.leb_antisym, Ed.
    + apply (lan_rel_insert _ c); [done| |intros n Hn; by rewrite lookup_insert_ne].
      rewrite lookup_insert_eq. split; [exact Hh|]. cbn. rewrite Hi, ramp_next. split; [by eexists|].
      do 3 (split; [done|]). intros p [= <-]. apply Hu. congruence.
  - destruct (c !! name) as [l|] eqn:El; [by destruct Hs as [[? ?] _]|]. destruct Hs as (_ & Hp & Hl & Hi).
    eapply (obeyed_more _ _ _ _ c _ (<[name := mkListener None None 0]> c)); [exact Hc|cbn; by rewrite El|].
    apply (lan_rel_insert _ c); [done| |intros n Hn; by rewrite lookup_insert_ne].
    rewrite lookup_insert_eq. split; [exact Hh|]. cbn. rewrite Hp, Hl, Hi. split; [by eexists|done].
Qed.

Lemma fold_obeyed {A} (f : A -> bytes -> A) (P : A -> Prop) l a : (forall a n, P a -> P (f a n)) -> P a -> P (fold_left f l a).
Proof. intros Hf. revert a. induction l as [|n l IH]; intros a Ha; [exact Ha|]. apply IH, Hf, Ha. Qed.

Lemma lan_step_rel m c e : length (mc_local_pubkey m) = KEY_LEN -> lan_event_ok e -> lan_rel (mc_ifaces m) c ->
  exists m' c', lan_step (m, c) e = Some (m', c') /\ lan_rel (mc_ifaces m') c' /\ mc_local_pubkey m' = mc_local_pubkey m.
Proof.
  intros Hpk He Hr. destruct e as [ifaces|now|iface port]; cbn [lan_step].
  - do 2 eexists. split; [reflexivity|]. split; [by apply set_interfaces_rel|]. unfold set_interfaces. by destruct (fold_left _ _ _).
  - unfold announce. set (names := sort_keys _).
    assert (obeyed (mc_local_pubkey m) now c (fold_left (announce_one (mc_local_pubkey m) now) names
              (fold_left announce_stop names (mc_ifaces m, [])))) as (c' & Hc & Hr').
    { apply fold_obeyed; [intros; by apply one_obeyed|]. apply fold_obeyed; [intros; by apply stop_obeyed|]. by exists c. }
    destruct (fold_left (announce_one _ _) _ _) as [ifaces out]. cbn [fst snd] in *. rewrite Hc. cbn. by do 2 eexists.
  - destruct (c !! iface) as [l|] eqn:El; [|by do 2 eexists]. do 2 eexists. split; [reflexivity|]. split; [|done].
    intros n. unfold listener_up. cbn [mc_ifaces]. destruct (decide (n = iface)) as [->|Hn].
    + rewrite lookup_alter_eq, lookup_insert_eq. pose proof (Hr iface) as Hs. rewrite El in Hs.
      destruct (mc_ifaces m !! iface) as [st|]; [|done]. cbn. destruct Hs as (Hh & Hb & _ & Hl & Hi & _). split; [done|]. cbn.
      do 4 (split; [done|]). by intros p [= <-].
    + rewrite lookup_alter_ne, lookup_insert_ne by done. apply Hr.
Qed.

(** C16: discovery keeps its contract with the client. Whatever scans, ticks and
    bound listeners a node sees, the commands it issues are obeyed in order
    without a double bind or a stop of a listener that is not held; every
    beacon goes out for a listener that is up, decodes to our key, version and
    that listener's port, and after [k] beacons waits [min(k,15)] seconds; and
    the state holds exactly the listeners the client holds. *)
Theorem lan_contract (pk : bytes) (es : list lan_event) : length pk = KEY_LEN -> Forall lan_event_ok es ->
  exists m c, lan_run (Multicast_new pk, ∅) es = Some (m, c) /\
    forall name, is_Some (c !! name) <-> exists st, mc_ifaces m !! name = Some st /\ is_Some (is_bind_addr st).
Proof.
  intros Hpk Hes.
  assert (forall m c, mc_local_pubkey m = pk -> lan_rel (mc_ifaces m) c ->
    exists m' c', lan_run (m, c) es = Some (m', c') /\ lan_rel (mc_ifaces m') c') as Hrun.
  { induction Hes as [|e es He Hes IH]; intros m c Em Hr; [by do 2 eexists|]. cbn [lan_run].
    destruct (lan_step_rel m c e) as (m1 & c1 & -> & Hr1 & Em1); [by rewrite Em|done..|]. cbn. apply IH; [by rewrite Em1|done]. }
  destruct (Hrun (Multicast_new pk) ∅) as (m & c & -> & Hr); [done|intros n; cbn; by rewrite !lookup_empty|].
  exists m, c. split; [done|]. intros name. specialize (Hr name). destruct (mc_ifaces m !! name) as [st|].
  - destruct Hr as [_ Hr]. destruct (c !! name) as [l|].
    + split; [|by eexists]. intros _. exists st. by destruct Hr.
    + destruct Hr as [Hb _]. split; [by intros [? ?]|]. intros (st' & [= <-] & Hs). rewrite Hb in Hs. by destruct Hs.
  - rewrite Hr. split; [by intros [? ?]|]. by intros (st & ? & _).
Qed.
End contract.

(** ** The URIs of discovered peers parse *)

Section parses.
Context `{!Hex} `{!HexLaws}.

Lemma tls_uri_parses authority query : authority <> [] -> 63 ∉ authority ->
  parse_link_uri (str "tls://" ++ authority ++ 63 :: query) =
  (out ← parse_options (filter (fun s => s <> []) (split 38 query)) (mkPeerUri authority [] 0 None None None);
   Ok (SchemeTls, out)).
Proof.
  intros Hne Ha. unfold parse_link_uri.
  assert (split_scheme (str "tls://" ++ authority ++ 63 :: query) = Some (SchemeTls, authority ++ 63 :: query)) as -> by reflexivity.
  assert (split_once 63 (authority ++ 63 :: query) = Some (authority, query)) as E by (by apply split_once_Some).
  cbn [ok_or mbind result_bind]. rewrite E. cbn [unwrap_or]. by destruct authority.
Qed.

Lemma parse_pair_value k v v' out : 61 ∉ k -> query_unescape v = Some v' -> parse_pair (k ++ 61 :: v) out = parse_option k v' out.
Proof.
  intros Hk Hv. unfold parse_pair. assert (split_once 61 (k ++ 61 :: v) = Some (k, v)) as -> by (by apply split_once_Some).
  cbn [unwrap_or]. by rewrite Hv.
Qed.

(** Digits and hexadecimal digits need no escape. *)
Lemma unescape_alnum s : Forall hex_char s -> query_unescape s = Some s.
Proof.
  intros Hs. unfold query_unescape. rewrite unescape_plain.
  - cbn. rewrite utf8_valid_ascii; [done|]. apply (Forall_impl _ _ _ Hs). unfold hex_char. lia.
  - apply (Forall_impl _ _ _ Hs). unfold hex_char. lia.
Qed.

Lemma dec_hex_char n : 0 <= n -> Forall hex_char (dec n).
Proof. intros Hn. apply (Forall_impl _ _ _ (dec_digits n Hn)). unfold hex_char. lia. Qed.

Lemma not_in_chars (P : Z -> Prop) c s : Forall P s -> ~ P c -> c ∉ s.
Proof. intros Hs Hc Hin. apply Hc. rewrite Forall_forall in Hs. by apply Hs. Qed.

Lemma escape_no c v : escape_char c = false -> bytes_ok v -> c ∉ query_escape v.
Proof. intros Hc Hv. apply (not_in_chars _ _ _ (query_escape_chars v Hv)). by rewrite Hc. Qed.

(** The option values of the URIs below. *)
Lemma parse_password v out rest : bytes_ok v -> utf8_valid v = true -> (length v <= MAX_PASSWORD_LEN)%nat ->
  parse_options ((str "password" ++ 61 :: query_escape v) :: rest) out = parse_options rest (set_u_password v out).
Proof.
  intros Hv Hu Hl. cbn [parse_options]. rewrite (parse_pair_value _ _ v).
  - unfold parse_option. rewrite bool_decide_eq_true_2 by done. rewrite decide_False by lia. done.
  - by_dec.
  - unfold query_unescape. rewrite unescape_escape by done. cbn. by rewrite Hu.
Qed.

Lemma parse_priority p out rest : is_u8 p ->
  parse_options ((str "priority" ++ 61 :: dec p) :: rest) out = parse_options rest (set_u_priority p out).
Proof.
  intros Hp. unfold is_u8 in Hp. cbn [parse_options]. rewrite (parse_pair_value _ _ (dec p)).
  - unfold parse_option. rewrite bool_decide_eq_false_2 by done. rewrite bool_decide_eq_true_2 by done.
    rewrite parse_dec by (unfold U8_MAX; lia). done.
  - by_dec.
  - apply unescape_alnum, dec_hex_char. lia.
Qed.

Lemma parse_key k out rest : bytes_ok k -> length k = KEY_LEN ->
  parse_options ((str "key" ++ 61 :: hex_encode k) :: rest) out = parse_options rest (set_u_pinned_key (Some k) out).
Proof.
  intros Hk Hl. cbn [parse_options]. rewrite (parse_pair_value _ _ (hex_encode k)).
  - unfold parse_option. do 2 rewrite bool_decide_eq_false_2 by done. rewrite bool_decide_eq_true_2 by done.
    rewrite hex_roundtrip by done. cbn [ok_or mbind result_bind]. rewrite decide_False by (rewrite Hl; auto). done.
  - by_dec.
  - apply unescape_alnum, hex_encode_chars.
Qed.

(** What an interface needs for its URIs: a text password, no [?] in its name. *)
Definition iface_cfg_ok (cfg : InterfaceConfig) : Prop :=
  bytes_ok (if_password cfg) /\ utf8_valid (if_password cfg) = true /\ (length (if_password cfg) <= MAX_PASSWORD_LEN)%nat /\
  is_u8 (if_priority cfg) /\ is_u16 (if_port cfg) /\ ipv6_ok (if_link_local cfg).

Lemma addr_no_query a : Forall addr_char a -> 63 ∉ a.
Proof. intros Ha. apply (not_in_chars _ _ _ Ha). unfold addr_char. lia. Qed.

Lemma pair_no_amp k v : (38 ∉ k) -> (38 ∉ v) -> 38 ∉ k ++ 61 :: v.
Proof. intros Hk Hv. apply not_elem_of_app. split; [exact Hk|]. by apply not_elem_of_cons. Qed.

Lemma password_no_amp v : bytes_ok v -> 38 ∉ str "password" ++ 61 :: query_escape v.
Proof. intros Hv. apply pair_no_amp; [by_dec|by apply escape_no]. Qed.

Lemma priority_no_amp p : is_u8 p -> 38 ∉ str "priority" ++ 61 :: dec p.
Proof.
  intros Hp. apply pair_no_amp; [by_dec|]. apply (not_in_chars _ _ _ (dec_hex_char p ltac:(apply Hp))). unfold hex_char. lia.
Qed.

Lemma key_no_amp k : 38 ∉ str "key" ++ 61 :: hex_encode k.
Proof. apply pair_no_amp; [by_dec|]. apply (not_in_chars _ _ _ (hex_encode_chars k)). unfold hex_char. lia. Qed.

(** Splits a goal on the characters of a text into its parts. *)
Ltac no_query :=
  repeat match goal with
  | |- _ ∉ _ ++ _ => apply not_elem_of_app; split
  | |- _ ∉ str _ => by_dec
  | |- _ ∉ ipv6_display _ => apply addr_no_query, ipv6_display_chars
  | |- _ ∉ dec _ => apply addr_no_query, dec_chars
  end; try assumption.

Lemma dial_uri_parses cfg adv from zone :
  iface_cfg_ok cfg -> ipv6_ok from -> (63 ∉ zone) -> is_u16 (adv_port adv) -> bytes_ok (adv_pubkey adv) ->
  length (adv_pubkey adv) = KEY_LEN ->
  parse_link_uri (dial_uri cfg adv from zone) =
    Ok (SchemeTls, mkPeerUri (str "[" ++ ipv6_display from ++ str "%" ++ zone ++ str "]:" ++ dec (adv_port adv))
          (if_password cfg) (if_priority cfg) (Some (adv_pubkey adv)) None None).
Proof.
  intros (Hb & Hu & Hl & Hp & Hport & Hll) Hf Hz [Ha _] Hkb Hkl.
  transitivity (parse_link_uri (str "tls://" ++ (str "[" ++ ipv6_display from ++ str "%" ++ zone ++ str "]:" ++ dec (adv_port adv)) ++
    63 :: ((str "key" ++ 61 :: hex_encode (adv_pubkey adv)) ++ 38 :: (str "password" ++ 61 :: query_escape (if_password cfg)) ++
           38 :: (str "priority" ++ 61 :: dec (if_priority cfg))))).
  { f_equal. unfold dial_uri. repeat (rewrite <-app_assoc; cbn [app str map list_ascii_of_string]). reflexivity. }
  rewrite tls_uri_parses; [|done|no_query].
  rewrite split_app, split_app, split_plain by auto using key_no_amp, password_no_amp, priority_no_amp.
  rewrite !filter_cons_True, filter_nil by done. by rewrite parse_key, parse_password, parse_priority.
Qed.

Lemma listen_uri_parses cfg : iface_cfg_ok cfg ->
  parse_link_uri (listen_uri cfg) =
    Ok (SchemeTls, mkPeerUri (str "[" ++ ipv6_display (if_link_local cfg) ++ str "]:" ++ dec (if_port cfg))
          (if_password cfg) (if_priority cfg) None None None).
Proof.
  intros (Hb & Hu & Hl & Hp & [Hport _] & Hll).
  transitivity (parse_link_uri (str "tls://" ++ (str "[" ++ ipv6_display (if_link_local cfg) ++ str "]:" ++ dec (if_port cfg)) ++
    63 :: ((str "password" ++ 61 :: query_escape (if_password cfg)) ++ 38 :: (str "priority" ++ 61 :: dec (if_priority cfg))))).
  { f_equal. unfold listen_uri. repeat (rewrite <-app_assoc; cbn [app str map list_ascii_of_string]). reflexivity. }
  rewrite tls_uri_parses; [|done|no_query].
  rewrite split_app, split_plain by auto using password_no_amp, priority_no_amp.
  rewrite !filter_cons_True, filter_nil by done. by rewrite parse_password, parse_priority.
Qed.
End parses.

(** ** Discovery end to end *)

Section discovery.
Context `{!Hex} `{!HexLaws} `{!Blake2} `{!Blake2Size}.

(** The state of a node that scanned one interface. *)
Lemma set_interfaces_one pk cfg : if_beacon cfg || if_listen cfg = true -> (length (if_password cfg) <= MAX_PASSWORD_LEN)%nat ->
  set_interfaces (Multicast_new pk) [cfg] =
  mkMulticast pk {[if_name cfg := mkIfaceState (Some cfg) (membership_hash (if_password cfg) pk) None None None 0 false]}.
Proof.
  intros Hf Hl. unfold set_interfaces. cbn [Multicast_new mc_local_pubkey mc_ifaces fold_left scan_one].
  assert (negb (if_beacon cfg) && negb (if_listen cfg) = false) as -> by (by destruct (if_beacon cfg), (if_listen cfg)).
  rewrite decide_False by lia. rewrite lookup_empty, delete_empty, omap_empty. by rewrite (left_id_L ∅ (∪)).
Qed.

Lemma announce_names (name : bytes) (st : IfaceState) : sort_keys (map_to_list ({[name := st]} : gmap bytes IfaceState)).*1 = [name].
Proof. by rewrite map_to_list_singleton. Qed.

(** The first tick binds the listener, the first after it is up beacons. *)
Lemma first_ticks pk cfg st port t0 t1 : if_beacon cfg = true -> is_cfg st = Some cfg ->
  is_listener_port st = None -> is_bind_addr st = None -> is_last_beacon st = None ->
  exists m, announce (mkMulticast pk {[if_name cfg := st]}) t0 = (m, [Bind (if_name cfg) (if_link_local cfg) (if_port cfg) (listen_uri cfg)]) /\
  exists m', announce (listener_up m (if_name cfg) port) t1 =
    (m', [Beacon (if_name cfg) (Advertisement_encode (mkAdvertisement PROTO_MAJOR PROTO_MINOR pk port (is_hash st)))]).
Proof.
  intros Hb Hc Hp Ha Hl. destruct st as [c h lp ba lb iv j]. cbn in *. subst. unfold announce at 1. cbn [mc_ifaces mc_local_pubkey].
  rewrite announce_names. cbn [fold_left]. unfold announce_stop at 1, announce_one at 1. rewrite !lookup_singleton_eq.
  cbn [listener_stale is_bind_addr is_cfg]. rewrite ?lookup_singleton_eq. cbn. rewrite Hb. cbn. eexists. split; [reflexivity|].
  unfold listener_up, announce. cbn [mc_ifaces mc_local_pubkey]. rewrite insert_singleton_eq, alter_singleton_eq.
  rewrite announce_names. cbn [fold_left]. unfold announce_stop at 1, announce_one at 1. rewrite !lookup_singleton_eq.
  cbn [listener_stale is_bind_addr is_cfg]. rewrite bool_decide_eq_false_2 by auto.
  rewrite ?lookup_singleton_eq. cbn. rewrite Hb. cbn. eexists. reflexivity.
Qed.

(** Nodes on one network find each other. A node that beacons on an
    interface asks for a listener at its first tick and beacons at the first
    tick after the listener is up; a node that listens on the same network with
    the same password answers that beacon by dialling, at the address the beacon
    came from and the listener's port, with the beaconing node's key pinned. *)
Theorem lan_discovery (a b : InterfaceConfig) (pka pkb : bytes) (port t0 t1 : Z) (from : SocketAddrV6) :
  if_beacon a = true -> if_listen b = true -> if_password a = if_password b ->
  iface_cfg_ok a -> iface_cfg_ok b -> (63 ∉ if_name b) -> ipv6_ok (sa_ip from) ->
  bytes_ok pka -> length pka = KEY_LEN -> pka <> pkb -> is_u16 port ->
  exists m m' beacon uri peer,
    announce (set_interfaces (Multicast_new pka) [a]) t0 =
      (m, [Bind (if_name a) (if_link_local a) (if_port a) (listen_uri a)]) /\
    announce (listener_up m (if_name a) port) t1 = (m', [Beacon (if_name a) beacon]) /\
    receive (set_interfaces (Multicast_new pkb) [b]) (if_name b) from beacon = Some (DialPeer uri (if_name b) pka) /\
    parse_link_uri uri = Ok (SchemeTls, peer) /\ u_pinned_key peer = Some pka /\ u_password peer = if_password a /\
    u_host_port peer = str "[" ++ ipv6_display (sa_ip from) ++ str "%" ++ if_name b ++ str "]:" ++ dec port.
Proof.
  intros Hba Hlb Hpw Ha Hb Hz Hf Hkb Hkl Hne Hport. pose proof Ha as (_ & _ & Hla & _). pose proof Hb as (_ & _ & Hlb' & _).
  rewrite !set_interfaces_one by (rewrite ?Hba, ?Hlb, ?orb_true_r; done).
  destruct (first_ticks pka a (mkIfaceState (Some a) (membership_hash (if_password a) pka) None None None 0 false) port t0 t1)
    as (m & E1 & m' & E2); [done..|].
  set (adv := mkAdvertisement PROTO_MAJOR PROTO_MINOR pka port (membership_hash (if_password a) pka)).
  exists m, m', (Advertisement_encode adv), (dial_uri b adv (sa_ip from) (if_name b)). eexists.
  split; [exact E1|]. split; [exact E2|]. split.
  - unfold receive. rewrite <-(app_nil_r (Advertisement_encode adv)), decode_encode_adv.
    2: { unfold adv_ok. cbn [adv adv_major adv_minor adv_pubkey adv_port adv_hash]. rewrite membership_hash_size. done. }
    cbn [adv adv_major adv_minor adv_pubkey adv_port adv_hash mc_local_pubkey mc_ifaces]. rewrite bool_decide_eq_false_2 by done.
    rewrite lookup_singleton_eq. cbn. rewrite Hlb, Hpw. cbn. by rewrite bool_decide_eq_true_2.
  - split; [by apply dial_uri_parses|]. cbn. by rewrite Hpw.
Qed.

Lemma receive_Some (m : Multicast) zone from buf cmd : receive m zone from buf = Some cmd ->
  exists adv st cfg, Advertisement_decode buf = Ok adv /\ adv_major adv = PROTO_MAJOR /\ adv_minor adv = PROTO_MINOR /\
    adv_pubkey adv <> mc_local_pubkey m /\ mc_ifaces m !! zone = Some st /\ is_cfg st = Some cfg /\ if_listen cfg = true /\
    adv_hash adv = membership_hash (if_password cfg) (adv_pubkey adv) /\
    cmd = DialPeer (dial_uri cfg adv (sa_ip from) zone) zone (adv_pubkey adv).
Proof.
  unfold receive. destruct (Advertisement_decode buf) as [adv|] eqn:Ed; [|done].
  destruct (Z.eqb_spec (adv_major adv) PROTO_MAJOR) as [E1|]; [|done].
  destruct (Z.eqb_spec (adv_minor adv) PROTO_MINOR) as [E2|]; [|done]. cbn [negb orb]. case_bool_decide as Hk; [done|].
  destruct (mc_ifaces m !! zone) as [st|] eqn:Es; [|done]. cbn [mbind option_bind].
  destruct (is_cfg st) as [cfg|] eqn:Ec; [|done]. cbn [mbind option_bind]. destruct (if_listen cfg) eqn:El; [|done]. cbn [negb].
  case_bool_decide as Hh; [|done]. cbn [negb]. intros [= <-]. exists adv, st, cfg. repeat split; done.
Qed.

(** Only members of the network are dialled. A beacon makes the node dial
    only if it carries our version, a key that is not ours and, for that key,
    the membership hash under the password of an interface that listens; the
    dial is pinned to that key and goes to the source of the beacon. *)
Theorem dials_only_members (m : Multicast) (zone : bytes) (from : SocketAddrV6) (buf : bytes) (cmd : Command) :
  receive m zone from buf = Some cmd ->
  exists adv st cfg, Advertisement_decode buf = Ok adv /\ adv_major adv = PROTO_MAJOR /\ adv_minor adv = PROTO_MINOR /\
    adv_pubkey adv <> mc_local_pubkey m /\ mc_ifaces m !! zone = Some st /\ is_cfg st = Some cfg /\ if_listen cfg = true /\
    adv_hash adv = membership_hash (if_password cfg) (adv_pubkey adv) /\
    exists uri, cmd = DialPeer uri zone (adv_pubkey adv) /\
      (iface_cfg_ok cfg -> ipv6_ok (sa_ip from) -> (63 ∉ zone) -> bytes_ok buf ->
       exists peer, parse_link_uri uri = Ok (SchemeTls, peer) /\ u_pinned_key peer = Some (adv_pubkey adv)).
Proof.
  intros E. apply receive_Some in E as (adv & st & cfg & Ed & ? & ? & ? & ? & ? & ? & ? & ->). exists adv, st, cfg.
  do 8 (split; [done|]). eexists. split; [reflexivity|]. intros Hc Hf Hz Hbuf.
  destruct (decode_adv_ok buf adv Hbuf Ed) as (_ & Hb & (_ & _ & Hl & Hp & _)).
  eexists. split; [by apply dial_uri_parses|done].
Qed.
End discovery.

(** ** Witnesses *)

Lemma toy_blake2_size : @Blake2Size toy_blake2.
Proof.
  split.
  - intros msg. apply pad_bytes_ok.
  - intros key msg h. cbn. destruct (decide _); [|done]. intros [= <-]. apply pad_bytes_ok.
Qed.

Definition demo_lan_a : InterfaceConfig := mkInterfaceConfig (str "eth0") [65152; 0; 0; 0; 0; 0; 0; 1] true false 0 3 (str "a b").
Definition demo_lan_b : InterfaceConfig := mkInterfaceConfig (str "wlan0") [65152; 0; 0; 0; 0; 0; 0; 2] false true 0 0 (str "a b").
Definition demo_from : SocketAddrV6 := mkSocketAddrV6 [65152; 0; 0; 0; 0; 0; 0; 1] 9001 0 2.

Lemma demo_iface_ok cfg : cfg = demo_lan_a \/ cfg = demo_lan_b -> iface_cfg_ok cfg.
Proof.
  intros [->| ->]; (split; [by_dec|]); repeat split; try (vm_compute; congruence);
    try (repeat constructor; unfold is_u16; lia); cbn; unfold MAX_PASSWORD_LEN; lia.
Qed.

Lemma lan_discovery_witness : exists m m' beacon uri peer,
  announce (@set_interfaces toy_blake2 (Multicast_new (replicate 32 1)) [demo_lan_a]) 0 =
    (m, [Bind (str "eth0") [65152; 0; 0; 0; 0; 0; 0; 1] 0 (str "tls://[fe80::1]:0?password=a+b&priority=3")]) /\
  announce (listener_up m (str "eth0") 4444) 1 = (m', [Beacon (str "eth0") beacon]) /\
  @receive toy_blake2 std_hex (@set_interfaces toy_blake2 (Multicast_new (replicate 32 2)) [demo_lan_b]) (str "wlan0") demo_from beacon =
    Some (DialPeer uri (str "wlan0") (replicate 32 1)) /\
  @parse_link_uri std_hex uri = Ok (SchemeTls, peer) /\ u_pinned_key peer = Some (replicate 32 1) /\ u_password peer = str "a b" /\
  u_host_port peer = str "[fe80::1%wlan0]:4444".
Proof.
  apply (@lan_discovery std_hex std_hex_laws toy_blake2 toy_blake2_size demo_lan_a demo_lan_b (replicate 32 1) (replicate 32 2) 4444 0 1 demo_from);
    try reflexivity; try (by apply demo_iface_ok; auto); try by_dec; try (vm_compute; split; congruence).
Defined.

Lemma dials_only_members_witness :
  exists uri, @receive toy_blake2 std_hex (@set_interfaces toy_blake2 (Multicast_new (replicate 32 2)) [demo_lan_b]) (str "wlan0") demo_from
    (Advertisement_encode (mkAdvertisement 0 5 (replicate 32 1) 4444 (@membership_hash toy_blake2 (str "a b") (replicate 32 1)))) =
    Some (DialPeer uri (str "wlan0") (replicate 32 1)) /\
  exists peer, @parse_link_uri std_hex uri = Ok (SchemeTls, peer) /\ u_pinned_key peer = Some (replicate 32 1).
Proof.
  set (buf := Advertisement_encode _). set (m := @set_interfaces _ _ _).
  destruct (@receive toy_blake2 std_hex m (str "wlan0") demo_from buf) as [cmd|] eqn:E; [|vm_compute in E; discriminate E].
  destruct (@dials_only_members std_hex std_hex_laws toy_blake2 m (str "wlan0") demo_from buf cmd E)
    as (adv & st & cfg & Ed & _ & _ & _ & Es & Ec & _ & _ & uri & -> & Hp).
  assert (adv_pubkey adv = replicate 32 1) as Ek.
  { assert (result_ok (Advertisement_decode buf) = Some (mkAdvertisement 0 5 (replicate 32 1) 4444
      (@membership_hash toy_blake2 (str "a b") (replicate 32 1)))) as E2 by (vm_compute; reflexivity).
    rewrite Ed in E2. injection E2 as ->. reflexivity. }
  assert (cfg = demo_lan_b) as ->.
  { assert ((mc_ifaces m !! str "wlan0") ≫= is_cfg = Some demo_lan_b) as E2 by (vm_compute; reflexivity).
    rewrite Es in E2. cbn in E2. rewrite Ec in E2. by injection E2. }
  rewrite Ek in *. exists uri. split; [reflexivity|]. apply Hp; [apply demo_iface_ok; auto| |by_dec|by_dec].
  split; [reflexivity|]. repeat constructor; unfold is_u16; lia.
Defined.

Lemma lan_contract_witness :
  exists m c, @lan_run toy_blake2 (Multicast_new (replicate 32 1), ∅)
    [Scan [demo_lan_a]; Tick 0; Up (str "eth0") 4444; Tick 1; Tick (from_secs 2); Scan []; Tick (from_secs 3)] = Some (m, c) /\
  forall name, is_Some (c !! name) <-> exists st, mc_ifaces m !! name = Some st /\ is_Some (is_bind_addr st).
Proof.
  apply (@lan_contract toy_blake2 toy_blake2_size (replicate 32 1)
    [Scan [demo_lan_a]; Tick 0; Up (str "eth0") 4444; Tick 1; Tick (from_secs 2); Scan []; Tick (from_secs 3)]); [reflexivity|].
  repeat constructor; first [apply not_elem_of_nil | unfold lan_event_ok, is_u16; lia | idtac].
Defined.
