(* ===== verification/Peers.v ===== *)
(** * Peers: the client's link manager ([client/src/links.rs]).

    One row per peering URI (without its query) and source interface: the
    redial clock of a configured peer, the dial in flight, the link that is up.
    Dial tasks are the tokens [start_due] hands out; their results come back
    through [mark_live] and [mark_failed]. Operations that read the clock take
    the reading as an argument. *)
From Stdlib Require Import Strings.String.
From stdpp Require Import base tactics list numbers gmap.
From S2P Require Import Prelude Errors Clock Text Frame Address Wire Handshake LinkSet Uri.

Local Open Scope Z_scope.

Definition link_id (uri : bytes) : bytes :=
  match split_once 63 uri with
  | Some (head, _) => head
  | None => uri
  end.

Record LinkInfo : Type := mkLinkInfo { li_link_id : bytes; li_sintf : bytes }.

#[export] Instance LinkInfo_eq_dec : EqDecision LinkInfo.
Proof. solve_decision. Defined.

Definition LinkInfo_new (uri sintf : bytes) : LinkInfo := mkLinkInfo (link_id uri) sintf.

Inductive LinkKind : Type := Persistent | Ephemeral | Incoming.

#[export] Instance LinkKind_eq_dec : EqDecision LinkKind.
Proof. solve_decision. Defined.

(** Where the code keeps the text of an error, the error itself is kept. *)
Inductive LinkError : Type :=
  | AlreadyConfigured
  | NotConfigured
  | InvalidUri (e : Error).

Record Entry : Type := mkEntry {
  en_uri : bytes; en_sintf : bytes; en_kind : LinkKind; en_redial : SupervisedPeer; en_max_backoff : Z;
  en_live : option (LinkId * bytes); en_last_error : option Error; en_err_at : option Z; en_dialing : option Z }.

Record Links : Type := mkLinks { lk_entries : list Entry; lk_next_token : Z }.

Definition Links_new : Links := mkLinks [] 0.

Definition entry_info (e : Entry) : LinkInfo := LinkInfo_new (en_uri e) (en_sintf e).

Definition Links_find (l : Links) (uri sintf : bytes) : option nat :=
  position (fun e => bool_decide (entry_info e = LinkInfo_new uri sintf)) (lk_entries l).

(** [&mut self.entries\[at\]]. *)
Definition update_entry (l : Links) (i : nat) (f : Entry -> Entry) : Links :=
  mkLinks (alter f i (lk_entries l)) (lk_next_token l).

Definition set_redial (r : SupervisedPeer) (e : Entry) : Entry :=
  mkEntry (en_uri e) (en_sintf e) (en_kind e) r (en_max_backoff e) (en_live e) (en_last_error e) (en_err_at e) (en_dialing e).
Definition set_dialing (d : option Z) (e : Entry) : Entry :=
  mkEntry (en_uri e) (en_sintf e) (en_kind e) (en_redial e) (en_max_backoff e) (en_live e) (en_last_error e) (en_err_at e) d.
Definition set_live (v : option (LinkId * bytes)) (e : Entry) : Entry :=
  mkEntry (en_uri e) (en_sintf e) (en_kind e) (en_redial e) (en_max_backoff e) v (en_last_error e) (en_err_at e) (en_dialing e).
Definition set_error (m : option Error) (t : option Z) (e : Entry) : Entry :=
  mkEntry (en_uri e) (en_sintf e) (en_kind e) (en_redial e) (en_max_backoff e) (en_live e) m t (en_dialing e).

Section peers.
Context `{!Hex}.

Definition new_entry (uri sintf : bytes) (kind : LinkKind) (live : option (LinkId * bytes)) (now : Z) : Entry :=
  mkEntry uri sintf kind (SupervisedPeer_new uri now) (backoff_cap uri) live None None None.

Definition Links_add (l : Links) (uri sintf : bytes) (kind : LinkKind) (now : Z) : Links * (() + LinkError) :=
  match parse_link_uri uri with
  | Err e => (l, inr (InvalidUri e))
  | Ok _ =>
    match Links_find l uri sintf with
    | Some at_ =>
      (update_entry l at_ (fun e => set_redial (mkSupervisedPeer (sp_uri (en_redial e)) (sp_failures (en_redial e)) now) e),
       inr AlreadyConfigured)
    | None => (mkLinks (lk_entries l ++ [new_entry uri sintf kind None now]) (lk_next_token l), inl ())
    end
  end.

Definition busy (l : Links) (uri : bytes) : bool :=
  match Links_find l uri [] ≫= fun at_ => lk_entries l !! at_ with
  | Some e => bool_decide (is_Some (en_live e))
  | None => false
  end.

Definition Links_accept (l : Links) (uri : bytes) (conn : AnyConn) (now : Z) : Links :=
  let live := (c_id conn, c_remote_key conn) in
  match Links_find l uri [] with
  | Some at_ => update_entry l at_ (fun e => set_error None None (set_live (Some live) e))
  | None => mkLinks (lk_entries l ++ [new_entry uri [] Incoming (Some live) now]) (lk_next_token l)
  end.

Definition live_id (l : Links) (uri sintf : bytes) : option LinkId :=
  fst <$> (Links_find l uri sintf ≫= fun at_ => lk_entries l !! at_ ≫= en_live).

Definition Links_remove (l : Links) (uri sintf : bytes) : Links * (() + LinkError) :=
  match Links_find l uri sintf with
  | None => (l, inr NotConfigured)
  | Some at_ => (mkLinks (vec_remove (lk_entries l) at_) (lk_next_token l), inl ())
  end.

(** Whether a row is left alone by [start_due]. *)
Definition rests (now : Z) (e : Entry) : bool :=
  bool_decide (en_kind e = Incoming) || bool_decide (is_Some (en_live e)) || bool_decide (is_Some (en_dialing e)) ||
  negb (due (en_redial e) now []).

(** The loop over the rows: the rows, the next token, and the dials started. *)
Fixpoint start_rows (now token : Z) (es : list Entry) : list Entry * Z * list (Z * bytes) :=
  match es with
  | [] => ([], token, [])
  | e :: es =>
    if rests now e then
      let '(es, token, dials) := start_rows now token es in (e :: es, token, dials)
    else
      let '(es, token', dials) := start_rows now (wrapping_add token 1) es in
      (set_dialing (Some token) e :: es, token', (token, en_uri e) :: dials)
  end.

Definition start_due (l : Links) (now : Z) : Links * list (Z * bytes) :=
  let '(es, token, dials) := start_rows now (lk_next_token l) (lk_entries l) in
  (mkLinks es token, dials).

Definition has_token (token : Z) (e : Entry) : bool := bool_decide (en_dialing e = Some token).

Definition mark_live (l : Links) (token : Z) (conn : AnyConn) (now : Z) : Links * bool :=
  match position (has_token token) (lk_entries l) with
  | None => (l, false)
  | Some at_ =>
    (update_entry l at_ (fun e =>
       set_redial (record_success (en_redial e) now)
         (set_error None None (set_live (Some (c_id conn, c_remote_key conn)) (set_dialing None e)))), true)
  end.

(** [now] is when the error happened, [now'] the reading of [record_failure]. *)
Definition mark_failed (l : Links) (token : Z) (err : Error) (now now' : Z) : Links :=
  match position (has_token token) (lk_entries l) with
  | None => l
  | Some at_ =>
    match lk_entries l !! at_ with
    | None => l
    | Some e =>
      if bool_decide (en_kind e = Ephemeral) then mkLinks (vec_remove (lk_entries l) at_) (lk_next_token l)
      else update_entry l at_ (fun e =>
        set_redial (record_failure (en_redial e) (en_max_backoff e) now')
          (set_error (Some err) (Some now) (set_live None (set_dialing None e))))
    end
  end.

(** A row against the links that are up; [None] when it is dropped. *)
Definition note_row (links : LinkSet) (now : Z) (e : Entry) : option Entry :=
  match en_live e with
  | None => Some e
  | Some (id, _) =>
    if bool_decide (is_Some (link_stats now links id)) then Some e
    else
      let e := set_redial (record_failure (en_redial e) (en_max_backoff e) now) (set_live None e) in
      if bool_decide (en_kind e <> Persistent) then None else Some e
  end.

(** The [i]-th row reads the clock at [clk i]; the rows to drop go at the end. *)
Fixpoint note_rows (links : LinkSet) (clk : nat -> Z) (i : nat) (es : list Entry) : list Entry :=
  match es with
  | [] => []
  | e :: es =>
    match note_row links (clk i) e with
    | Some e => e :: note_rows links clk (S i) es
    | None => note_rows links clk (S i) es
    end
  end.

Definition note_liveness (l : Links) (links : LinkSet) (clk : nat -> Z) : Links :=
  mkLinks (note_rows links clk 0 (lk_entries l)) (lk_next_token l).
End peers.

(** ** The invariant of the table *)

Section invariant.
Context `{!Hex}.

Definition row_ok (next : Z) (e : Entry) : Prop :=
  match en_dialing e with Some t => 0 <= t < next /\ en_kind e <> Incoming | None => True end /\
  sp_uri (en_redial e) = en_uri e /\ 0 <= sp_failures (en_redial e) <= 32 /\ en_max_backoff e = backoff_cap (en_uri e) /\
  (en_kind e <> Incoming -> exists p, parse_link_uri (en_uri e) = Ok p).

(** One row per link, one row per dial in flight. *)
Definition links_inv (l : Links) : Prop :=
  NoDup (entry_info <$> lk_entries l) /\ NoDup (omap en_dialing (lk_entries l)) /\ Forall (row_ok (lk_next_token l)) (lk_entries l).

(** A row after an operation that neither renames it nor starts a dial. *)
Definition row_after (e' e : Entry) : Prop :=
  entry_info e' = entry_info e /\ (en_dialing e' = en_dialing e \/ en_dialing e' = None) /\
  (forall n, row_ok n e -> row_ok n e').

(** Rows changed so, some of them gone. *)
Inductive rows_after : list Entry -> list Entry -> Prop :=
  | rows_nil : rows_after [] []
  | rows_keep e' e l' l : row_after e' e -> rows_after l' l -> rows_after (e' :: l') (e :: l)
  | rows_gone e l' l : rows_after l' l -> rows_after l' (e :: l).

Lemma row_after_refl e : row_after e e.
Proof. split; [done|]. split; auto. Qed.

Lemma rows_after_refl l : rows_after l l.
Proof. induction l; constructor; auto using row_after_refl. Qed.

Lemma rows_after_elem l' l e' : rows_after l' l -> e' ∈ l' -> exists e, e ∈ l /\ row_after e' e.
Proof.
  induction 1 as [|a' a l' l Ha Hl IH|a l' l Hl IH]; intros He.
  - by apply not_elem_of_nil in He.
  - apply elem_of_cons in He as [->|He]; [exists a; split; [by left|done]|].
    destruct (IH He) as (e & ? & ?). exists e. split; [by right|done].
  - destruct (IH He) as (e & ? & ?). exists e. split; [by right|done].
Qed.

Lemma rows_after_inv l' l n : rows_after l' l ->
  NoDup (entry_info <$> l) -> NoDup (omap en_dialing l) -> Forall (row_ok n) l ->
  NoDup (entry_info <$> l') /\ NoDup (omap en_dialing l') /\ Forall (row_ok n) l'.
Proof.
  intros Hr Hi Hd Ho.
  assert (Forall (row_ok n) l') as Ho'.
  { apply Forall_forall. intros e' He'. destruct (rows_after_elem _ _ _ Hr He') as (e & He & _ & _ & Hn). apply Hn.
    rewrite Forall_forall in Ho. by apply Ho. }
  split; [clear Hd|split; [clear Hi|done]]; clear Ho Ho'.
  - induction Hr as [|a' a l' l Ha Hl IH|a l' l Hl IH]; cbn in *; [done| |by apply NoDup_cons in Hi as [_ Hi]; auto].
    apply NoDup_cons in Hi as [Hni Hi]. apply NoDup_cons. split; [|auto]. destruct Ha as [-> _]. intros Hin. apply Hni.
    apply list_elem_of_fmap in Hin as (e' & E & He'). destruct (rows_after_elem _ _ _ Hl He') as (e & He & Ei & _).
    rewrite E, Ei. by apply list_elem_of_fmap_2.
  - induction Hr as [|a' a l' l Ha Hl IH|a l' l Hl IH]; cbn in *; [done| |].
    + assert (NoDup (omap en_dialing l)) as Hd' by (destruct (en_dialing a); [by apply NoDup_cons in Hd as [_ Hd]|done]).
      destruct Ha as (_ & Hda & _). destruct (en_dialing a') as [t|] eqn:Et; [|auto]. destruct Hda as [E|E]; [|done].
      rewrite <-E in Hd. apply NoDup_cons in Hd as [Hni _]. apply NoDup_cons. split; [|auto]. intros Hin. apply Hni.
      apply list_elem_of_omap in Hin as (e' & He' & Ed). destruct (rows_after_elem _ _ _ Hl He') as (e & He & _ & Hde & _).
      apply list_elem_of_omap. exists e. split; [done|]. by destruct Hde as [<-|Hn]; [|rewrite Hn in Ed].
    + apply IH. destruct (en_dialing a); [by apply NoDup_cons in Hd as [_ Hd]|done].
Qed.

Lemma rows_after_alter f i l : (forall e, row_after (f e) e) -> rows_after (alter f i l) l.
Proof.
  intros Hf. revert i. induction l as [|e l IH]; intros [|i]; cbn; constructor; auto using row_after_refl, rows_after_refl.
Qed.

Lemma rows_after_remove i l : rows_after (vec_remove l i) l.
Proof.
  revert i. induction l as [|e l IH]; intros [|i]; cbn; try constructor; try apply row_after_refl.
  - apply rows_after_refl.
  - apply (IH i).
Qed.

Lemma update_entry_inv l i f : (forall e, row_after (f e) e) -> links_inv l -> links_inv (update_entry l i f).
Proof. intros Hf (H1 & H2 & H3). apply (rows_after_inv _ (lk_entries l)); try done. by apply rows_after_alter. Qed.

Lemma remove_inv l i : links_inv l -> links_inv (mkLinks (vec_remove (lk_entries l) i) (lk_next_token l)).
Proof. intros (H1 & H2 & H3). apply (rows_after_inv _ (lk_entries l)); try done. apply rows_after_remove. Qed.

Lemma failures_ok p cap now : 0 <= sp_failures p <= 32 -> 0 <= sp_failures (record_failure p cap now) <= 32.
Proof. intros Hp. cbn. unfold saturating_add32. lia. Qed.

Lemma find_None l uri sintf : Links_find l uri sintf = None -> LinkInfo_new uri sintf ∉ entry_info <$> lk_entries l.
Proof.
  intros Hf Hin. apply position_None in Hf. apply list_elem_of_fmap in Hin as (e & E & He). rewrite Forall_forall in Hf.
  specialize (Hf e He). by apply bool_decide_eq_false in Hf.
Qed.

Lemma push_inv l uri sintf kind live now : Links_find l uri sintf = None ->
  (kind <> Incoming -> exists p, parse_link_uri uri = Ok p) -> links_inv l ->
  links_inv (mkLinks (lk_entries l ++ [new_entry uri sintf kind live now]) (lk_next_token l)).
Proof.
  intros Hf Hk (H1 & H2 & H3). split; [|split]; cbn [lk_entries lk_next_token].
  - rewrite fmap_app. apply NoDup_app. split; [done|]. split; [|apply NoDup_singleton].
    intros i Hi Hin. cbn in Hin. apply list_elem_of_singleton in Hin as ->. by eapply find_None in Hf.
  - rewrite omap_app. cbn. by rewrite app_nil_r.
  - apply Forall_app. split; [done|]. constructor; [|constructor]. unfold row_ok. cbn. repeat split; auto; lia.
Qed.

Lemma Links_add_inv l uri sintf kind now : kind <> Incoming -> links_inv l -> links_inv (Links_add l uri sintf kind now).1.
Proof.
  intros Hk Hl. unfold Links_add. destruct (parse_link_uri uri) as [p|] eqn:Ep; [|exact Hl].
  destruct (Links_find l uri sintf) as [i|] eqn:Ef; cbn [fst].
  - apply update_entry_inv; [|done]. intros e. split; [done|]. split; [by left|]. intros n Hn. exact Hn.
  - apply push_inv; [done| |done]. by exists p.
Qed.

Lemma Links_accept_inv l uri conn now : links_inv l -> links_inv (Links_accept l uri conn now).
Proof.
  intros Hl. unfold Links_accept. destruct (Links_find l uri []) as [i|] eqn:Ef.
  - apply update_entry_inv; [|done]. intros e. split; [done|]. split; [by left|]. intros n Hn. exact Hn.
  - by apply push_inv.
Qed.

Lemma mark_live_inv l token conn now : links_inv l -> links_inv (mark_live l token conn now).1.
Proof.
  intros Hl. unfold mark_live. destruct (position _ _); [|exact Hl]. apply update_entry_inv; [|done].
  intros e. split; [done|]. split; [by right|]. intros k (_ & H2 & _ & H4). repeat split; cbn; auto; lia || apply H4.
Qed.

Lemma mark_failed_inv l token err now now' : links_inv l -> links_inv (mark_failed l token err now now').
Proof.
  intros Hl. unfold mark_failed. destruct (position _ _) as [i|]; [|exact Hl]. destruct (lk_entries l !! i); [|exact Hl].
  case_bool_decide; [by apply remove_inv|]. apply update_entry_inv; [|done]. intros e'. split; [done|]. split; [by right|].
  intros n (_ & H2 & H3 & H4). split; [done|]. split; [done|]. split; [by apply failures_ok|exact H4].
Qed.

Lemma note_row_after links now e e' : note_row links now e = Some e' -> row_after e' e.
Proof.
  unfold note_row. destruct (en_live e) as [[id k]|]; [|intros [= <-]; apply row_after_refl].
  case_bool_decide; [intros [= <-]; apply row_after_refl|]. cbn zeta. case_bool_decide; [done|]. intros [= <-].
  split; [done|]. split; [by left|]. intros n (R1 & R2 & R3 & R4). split; [exact R1|]. split; [exact R2|].
  split; [by apply failures_ok|exact R4].
Qed.

Lemma note_rows_after links clk i es : rows_after (note_rows links clk i es) es.
Proof.
  revert i. induction es as [|e es IH]; intros i; cbn; [constructor|].
  destruct (note_row links (clk i) e) eqn:E; constructor; auto. by eapply note_row_after.
Qed.

Lemma note_liveness_inv l links clk : links_inv l -> links_inv (note_liveness l links clk).
Proof. intros (H1 & H2 & H3). apply (rows_after_inv _ (lk_entries l)); try done. apply note_rows_after. Qed.

(** ** Starting dials *)

Lemma start_rows_spec now token es : 0 <= token -> token + Z.of_nat (length es) < 2 ^ 64 ->
  let '(es', token', dials) := start_rows now token es in
  token' = token + Z.of_nat (length dials) /\ (length dials <= length es)%nat /\
  Forall2 (fun e e' => (rests now e = true /\ e' = e) \/
    (rests now e = false /\ exists t, e' = set_dialing (Some t) e /\ token <= t < token' /\ (t, en_uri e) ∈ dials)) es es' /\
  ((forall x, x ∈ omap en_dialing es -> x < token) ->
     NoDup (omap en_dialing es) -> NoDup (omap en_dialing es') /\
     (forall x, x ∈ omap en_dialing es' -> x ∈ omap en_dialing es \/ token <= x < token')).
Proof.
  revert token. induction es as [|e es IH]; intros token H0t Ht; cbn [start_rows length] in *.
  - split; [cbn; lia|]. split; [lia|]. split; [constructor|]. intros _ Hn. split; [done|]. intros x Hx. by left.
  - destruct (rests now e) eqn:Er.
    + specialize (IH token H0t ltac:(lia)). destruct (start_rows now token es) as [[es' token'] dials].
      destruct IH as (E & Hl & Hf & Hd). split; [done|]. split; [lia|]. split; [constructor; [by left|done]|].
      intros Hlt Hn. cbn in *.
      destruct (en_dialing e) as [d|] eqn:Ed.
      * apply NoDup_cons in Hn as [Hni Hn]. destruct Hd as [Hn' Hx']; [intros x Hx; apply Hlt; by right|done|].
        split; [apply NoDup_cons; split; [|done]|].
        -- intros Hin. destruct (Hx' d Hin) as [?|Hr]; [done|]. specialize (Hlt d ltac:(left)). lia.
        -- intros x Hx. apply elem_of_cons in Hx as [->|Hx]; [left; by left|]. destruct (Hx' x Hx); [left; by right|by right].
      * by apply Hd.
    + assert (wrapping_add token 1 = token + 1) as Ew.
      { unfold wrapping_add, wrap64. apply Z.mod_small. lia. }
      rewrite Ew. specialize (IH (token + 1) ltac:(lia) ltac:(lia)). destruct (start_rows now (token + 1) es) as [[es' token'] dials].
      destruct IH as (E & Hl & Hf & Hd). cbn [length]. split; [lia|]. split; [lia|]. split.
      * constructor; [right; split; [done|]; exists token; split; [done|]; split; [lia|by left]|].
        eapply Forall2_impl; [exact Hf|]. intros a b [?|(Ha & t & -> & Htt & Hin)]; [by left|]. right. split; [done|].
        exists t. split; [done|]. split; [lia|by right].
      * intros Hlt Hn. cbn in *.
        assert (en_dialing e = None) as Ed.
        { unfold rests in Er. apply orb_false_iff in Er as [Er _]. apply orb_false_iff in Er as [_ Er].
          apply bool_decide_eq_false in Er. destruct (en_dialing e); [|done]. destruct Er. by eexists. }
        rewrite Ed in *. destruct Hd as [Hn' Hx']; [intros x Hx; specialize (Hlt x Hx); lia|done|].
        split; [apply NoDup_cons; split; [|done]|].
        -- intros Hin. destruct (Hx' token Hin) as [Hx|?]; [|lia]. specialize (Hlt token Hx). lia.
        -- intros x Hx. apply elem_of_cons in Hx as [->|Hx]; [right; lia|]. destruct (Hx' x Hx); [by left|right; lia].
Qed.

Lemma start_due_inv l now : links_inv l -> 0 <= lk_next_token l -> lk_next_token l + Z.of_nat (length (lk_entries l)) < 2 ^ 64 ->
  links_inv (start_due l now).1 /\ lk_next_token l <= lk_next_token (start_due l now).1.
Proof.
  intros (I1 & I2 & I3) Hz Hb. pose proof (start_rows_spec now (lk_next_token l) (lk_entries l) Hz Hb) as Hs. unfold start_due.
  destruct (start_rows _ _ _) as [[es' token'] dials]. destruct Hs as (E & Hl & Hf & Hd). cbn [fst lk_entries lk_next_token].
  assert (forall x, x ∈ omap en_dialing (lk_entries l) -> x < lk_next_token l) as Hlt.
  { intros x Hx. apply list_elem_of_omap in Hx as (e & He & Ed). rewrite Forall_forall in I3. specialize (I3 e He).
    unfold row_ok in I3. rewrite Ed in I3. apply I3. }
  split; [|lia]. split; [|split; [by apply Hd|]]; cbn [lk_entries lk_next_token].
  - clear -Hf I1. replace (entry_info <$> es') with (entry_info <$> lk_entries l); [done|].
    induction Hf as [|e e' es es'' He Hf IH]; [done|]. cbn in *. apply NoDup_cons in I1 as [_ I1]. rewrite <-(IH I1).
    f_equal. by destruct He as [[_ ->]|(_ & t & -> & _)].
  - clear -Hf I3 E Hz. induction Hf as [|e e' es es'' He Hf IH]; [constructor|]. apply Forall_cons in I3 as [Ie I3].
    constructor; [|by apply IH]. destruct He as [[_ ->]|(Er & t & -> & Ht & _)]; unfold row_ok in *; destruct Ie as (R1 & R2).
    + split; [|exact R2]. destruct (en_dialing e); [|done]. split; [lia|apply R1].
    + split; [|exact R2]. cbn. split; [lia|]. intros Ek. unfold rests in Er. by rewrite bool_decide_eq_true_2 in Er.
Qed.

(** ** Runs of the link manager *)

Inductive peers_event : Type :=
  | EvAdd (uri sintf : bytes) (kind : LinkKind) (now : Z)
  | EvAccept (uri : bytes) (conn : AnyConn) (now : Z)
  | EvRemove (uri sintf : bytes)
  | EvStart (now : Z)
  | EvLive (token : Z) (conn : AnyConn) (now : Z)
  | EvFailed (token : Z) (err : Error) (now now' : Z)
  | EvNote (links : LinkSet) (clk : nat -> Z).

Definition peers_step (l : Links) (e : peers_event) : Links :=
  match e with
  | EvAdd uri sintf kind now => (Links_add l uri sintf kind now).1
  | EvAccept uri conn now => Links_accept l uri conn now
  | EvRemove uri sintf => (Links_remove l uri sintf).1
  | EvStart now => (start_due l now).1
  | EvLive token conn now => (mark_live l token conn now).1
  | EvFailed token err now now' => mark_failed l token err now now'
  | EvNote links clk => note_liveness l links clk
  end.

(** Commands add dialled peers only, and the 64-bit token counter has room. *)
Definition peers_event_ok (l : Links) (e : peers_event) : Prop :=
  match e with
  | EvAdd _ _ kind _ => kind <> Incoming
  | EvStart _ => lk_next_token l + Z.of_nat (length (lk_entries l)) < 2 ^ 64
  | _ => True
  end.

Inductive peers_reachable : Links -> Prop :=
  | peers_start : peers_reachable Links_new
  | peers_next l e : peers_reachable l -> peers_event_ok l e -> peers_reachable (peers_step l e).

Lemma token_step l e : 0 <= lk_next_token l -> links_inv l -> peers_event_ok l e -> 0 <= lk_next_token (peers_step l e).
Proof.
  intros Hz Hi He. destruct e; cbn [peers_step] in *; try exact Hz.
  - unfold Links_add. destruct (parse_link_uri _); [|done]. by destruct (Links_find _ _ _).
  - unfold Links_accept. by destruct (Links_find _ _ _).
  - unfold Links_remove. by destruct (Links_find _ _ _).
  - etrans; [exact Hz|]. by apply start_due_inv.
  - unfold mark_live. by destruct (position _ _).
  - unfold mark_failed. destruct (position _ _); [|done]. destruct (_ !! _); [|done]. by case_bool_decide.
Qed.

Lemma peers_step_inv l e : 0 <= lk_next_token l -> links_inv l -> peers_event_ok l e -> links_inv (peers_step l e).
Proof.
  intros Hz Hi He. destruct e; cbn [peers_step peers_event_ok] in *.
  - by apply Links_add_inv.
  - by apply Links_accept_inv.
  - unfold Links_remove. destruct (Links_find _ _ _); [by apply remove_inv|done].
  - by apply start_due_inv.
  - by apply mark_live_inv.
  - by apply mark_failed_inv.
  - by apply note_liveness_inv.
Qed.

Lemma reachable_inv l : peers_reachable l -> links_inv l /\ 0 <= lk_next_token l.
Proof.
  induction 1 as [|l e Hl [IH Hz] He].
  - split; [|done]. split; [apply NoDup_nil_2|]. split; [apply NoDup_nil_2|constructor].
  - split; [by apply peers_step_inv|by apply token_step].
Qed.
End invariant.

(** ** Properties *)

Lemma alter_elem {A} (f : A -> A) (i : nat) (l : list A) x : x ∈ l -> x ∈ alter f i l \/ f x ∈ alter f i l.
Proof.
  revert i. induction l as [|y l IH]; intros i Hx; [by apply not_elem_of_nil in Hx|].
  apply elem_of_cons in Hx as [->|Hx]; destruct i as [|i]; cbn.
  - right. by left.
  - left. by left.
  - left. by right.
  - destruct (IH i Hx); [left|right]; by right.
Qed.

Lemma vec_remove_elem {A} i (l : list A) x : x ∈ l -> (forall y, l !! i = Some y -> y <> x) -> x ∈ vec_remove l i.
Proof.
  revert i. induction l as [|y l IH]; intros i Hx Hy; [by apply not_elem_of_nil in Hx|].
  apply elem_of_cons in Hx as [->|Hx]; destruct i as [|i].
  - by destruct (Hy y).
  - by left.
  - exact Hx.
  - right. by apply (IH i).
Qed.

Lemma position_lookup {A} (p : A -> bool) l i : position p l = Some i -> exists x, l !! i = Some x /\ p x = true.
Proof.
  intros E. apply position_Some in E as (l1 & x & l2 & -> & <- & Hx & _). exists x.
  split; [by rewrite list_lookup_middle|done].
Qed.

Section properties.
Context `{!Hex}.

(** C20: the link table is consistent in every run. Whatever is configured,
    dialled, accepted, removed or lost, there is at most one row for a URI
    without its query and a source interface, at most one row for a dial in
    flight, accepted rows never dial, configured rows hold valid URIs, and the
    failure counts stay within their cap. *)
Theorem peers_table_sound (l : Links) : peers_reachable l ->
  NoDup (entry_info <$> lk_entries l) /\ NoDup (omap en_dialing (lk_entries l)) /\
  Forall (fun e => (en_kind e = Incoming -> en_dialing e = None) /\
    (en_kind e <> Incoming -> exists p, parse_link_uri (en_uri e) = Ok p) /\
    0 <= sp_failures (en_redial e) <= 32 /\ en_max_backoff e = backoff_cap (en_uri e)) (lk_entries l).
Proof.
  intros Hl. apply reachable_inv in Hl as [(I1 & I2 & I3) _]. split; [done|]. split; [done|].
  apply (Forall_impl _ _ _ I3). intros e (R1 & _ & R3 & R4 & R5). split; [|done].
  intros Ek. destruct (en_dialing e); [|done]. by destruct R1.
Qed.

Lemma token_unique (l : Links) token e e' : links_inv l -> e ∈ lk_entries l -> e' ∈ lk_entries l ->
  en_dialing e = Some token -> en_dialing e' = Some token -> e = e'.
Proof.
  intros (_ & I2 & _). induction (lk_entries l) as [|a es IH]; intros He He' Ed Ed'; [by apply not_elem_of_nil in He|].
  cbn in I2. apply elem_of_cons in He as [->|He]; apply elem_of_cons in He' as [->|He']; [done| | |].
  - rewrite Ed in I2. apply NoDup_cons in I2 as [Hn _]. destruct Hn. apply list_elem_of_omap. by exists e'.
  - rewrite Ed' in I2. apply NoDup_cons in I2 as [Hn _]. destruct Hn. apply list_elem_of_omap. by exists e.
  - apply IH; try done. destruct (en_dialing a); [by apply NoDup_cons in I2 as [_ ?]|done].
Qed.

Lemma no_token_None (l : list Entry) token : (forall e, e ∈ l -> en_dialing e <> Some token) <-> position (has_token token) l = None.
Proof.
  rewrite position_None, Forall_forall. unfold has_token. split; intros Hn e He; specialize (Hn e He).
  - by apply bool_decide_eq_false.
  - by apply bool_decide_eq_false in Hn.
Qed.

Lemma update_at l i f e : lk_entries l !! i = Some e -> NoDup (entry_info <$> lk_entries l) ->
  forall e', e' ∈ lk_entries (update_entry l i f) -> e' = f e \/ (e' ∈ lk_entries l /\ entry_info e' <> entry_info e).
Proof.
  cbn. intros Hi Hn e' He'. apply list_elem_of_lookup in He' as [j Hj]. destruct (decide (j = i)) as [->|Hji].
  - left. rewrite list_lookup_alter_eq, Hi in Hj. cbn in Hj. congruence.
  - right. rewrite list_lookup_alter_ne in Hj by done. split; [by eapply list_elem_of_lookup_2|]. intros E.
    assert ((entry_info <$> lk_entries l) !! j = Some (entry_info e)) as H1 by (rewrite list_lookup_fmap, Hj; cbn; congruence).
    assert ((entry_info <$> lk_entries l) !! i = Some (entry_info e)) as H2 by (by rewrite list_lookup_fmap, Hi).
    by pose proof (NoDup_lookup _ _ _ _ Hn H1 H2).
Qed.

(** A dial's result counts once, for the row that asked. In every run the
    result of a dial whose row is gone is refused, so that its connection is
    dropped; a result that is taken makes exactly the row that started the dial
    live, with no dial in flight and its backoff reset, and neither a second
    result nor a failure with the same token changes anything. *)
Theorem dial_result_once (l : Links) (token : Z) (conn : AnyConn) (now : Z) : peers_reachable l ->
  let '(l', taken) := mark_live l token conn now in
  (taken = false <-> forall e, e ∈ lk_entries l -> en_dialing e <> Some token) /\
  (taken = false -> l' = l) /\
  (taken = true ->
    (exists e e', e ∈ lk_entries l /\ en_dialing e = Some token /\ e' ∈ lk_entries l' /\ entry_info e' = entry_info e /\
       en_live e' = Some (c_id conn, c_remote_key conn) /\ en_dialing e' = None /\ sp_failures (en_redial e') = 0) /\
    (forall conn' now', mark_live l' token conn' now' = (l', false)) /\
    (forall err t t', mark_failed l' token err t t' = l')).
Proof.
  intros Hl. apply reachable_inv in Hl as [Hi _]. pose proof Hi as (I1 & _). unfold mark_live.
  destruct (position (has_token token) (lk_entries l)) as [i|] eqn:Ep.
  - destruct (position_lookup _ _ _ Ep) as (e & Ee & Ht). apply bool_decide_eq_true in Ht.
    pose proof (list_elem_of_lookup_2 _ _ _ Ee) as Hin. split; [|split; [done|]].
    { split; [done|]. intros Hn. by destruct (Hn e Hin). }
    intros _. set (f := fun e0 : Entry => set_redial _ _). set (l' := update_entry l i f).
    assert (position (has_token token) (lk_entries l') = None) as Hnone.
    { apply no_token_None. intros e' He'. destruct (update_at l i f e Ee I1 e' He') as [->|[Hl' Hne]]; [done|].
      intros Ed. apply Hne. by rewrite (token_unique l token e' e). }
    split; [|split; [intros; by rewrite Hnone|intros; unfold mark_failed; by rewrite Hnone]].
    exists e, (f e). split; [done|]. split; [done|]. split; [|done]. apply list_elem_of_lookup. exists i. cbn.
    by rewrite list_lookup_alter_eq, Ee.
  - split; [|done]. split; [|done]. intros _. by apply no_token_None.
Qed.

(** A configured row that is still there after an operation. *)
Definition survives (e : Entry) (es : list Entry) : Prop :=
  exists e', e' ∈ es /\ entry_info e' = entry_info e /\ en_kind e' = Persistent.

Lemma survives_same e es : en_kind e = Persistent -> e ∈ es -> survives e es.
Proof. intros Hk He. by exists e. Qed.

Lemma survives_update e l i f : en_kind e = Persistent -> e ∈ lk_entries l ->
  (forall e, entry_info (f e) = entry_info e /\ en_kind (f e) = en_kind e) -> survives e (lk_entries (update_entry l i f)).
Proof.
  intros Hk He Hf. destruct (alter_elem f i (lk_entries l) e He) as [Hin|Hin]; [by apply survives_same|].
  destruct (Hf e) as [Ei Ek]. exists (f e). split; [exact Hin|]. split; [exact Ei|congruence].
Qed.

Lemma note_rows_persistent links clk i es e : e ∈ es -> en_kind e = Persistent ->
  exists j e', note_row links (clk j) e = Some e' /\ e' ∈ note_rows links clk i es.
Proof.
  intros He Hk. revert i. induction es as [|a es IH]; intros i; [by apply not_elem_of_nil in He|].
  apply elem_of_cons in He as [<-|He]; cbn [note_rows].
  - assert (exists e', note_row links (clk i) e = Some e') as [e' Ee].
    { unfold note_row. destruct (en_live e) as [[id k]|]; [|by eexists]. case_bool_decide; [by eexists|]. cbn zeta.
      rewrite bool_decide_eq_false_2; [by eexists|]. cbn. rewrite Hk. auto. }
    exists i, e'. split; [exact Ee|]. rewrite Ee. by left.
  - destruct (IH He (S i)) as (j & e' & Ej & Hin). exists j, e'. split; [exact Ej|].
    destruct (note_row links (clk i) a); [by right|done].
Qed.

Lemma note_row_info links now e e' : note_row links now e = Some e' -> entry_info e' = entry_info e /\ en_kind e' = en_kind e.
Proof.
  unfold note_row. destruct (en_live e) as [[id k]|]; [|by intros [= <-]]. case_bool_decide; [by intros [= <-]|].
  cbn zeta. case_bool_decide; [done|]. by intros [= <-].
Qed.

Lemma start_due_elem l now e : 0 <= lk_next_token l -> lk_next_token l + Z.of_nat (length (lk_entries l)) < 2 ^ 64 ->
  e ∈ lk_entries l ->
  (rests now e = true /\ e ∈ lk_entries (start_due l now).1) \/
  (rests now e = false /\ exists t, set_dialing (Some t) e ∈ lk_entries (start_due l now).1 /\ (t, en_uri e) ∈ (start_due l now).2).
Proof.
  intros Hz Hb He. pose proof (start_rows_spec now (lk_next_token l) (lk_entries l) Hz Hb) as Hs. unfold start_due.
  destruct (start_rows _ _ _) as [[es' token'] dials]. destruct Hs as (_ & _ & Hf & _). cbn [fst snd lk_entries].
  apply list_elem_of_lookup in He as [i Hi]. destruct (Forall2_lookup_l _ _ _ _ _ Hf Hi) as (e' & He' & [[Hr ->]|(Hr & t & -> & _ & Hin)]).
  - left. split; [done|]. by eapply list_elem_of_lookup_2.
  - right. split; [done|]. exists t. split; [by eapply list_elem_of_lookup_2|done].
Qed.

Lemma step_survives l ev e : peers_reachable l -> e ∈ lk_entries l -> en_kind e = Persistent -> peers_event_ok l ev ->
  (forall uri sintf, ev = EvRemove uri sintf -> LinkInfo_new uri sintf <> entry_info e) -> survives e (lk_entries (peers_step l ev)).
Proof.
  intros Hl He Hk Hok Hrm. apply reachable_inv in Hl as [Hi Hz]. destruct ev; cbn [peers_step].
  - unfold Links_add. destruct (parse_link_uri uri); [|by apply survives_same].
    destruct (Links_find l uri sintf); [by apply survives_update|]. apply survives_same; [done|]. cbn. apply elem_of_app. by left.
  - unfold Links_accept. destruct (Links_find l uri []); [by apply survives_update|].
    apply survives_same; [done|]. cbn. apply elem_of_app. by left.
  - unfold Links_remove. destruct (Links_find l uri sintf) as [i|] eqn:Ef; [|by apply survives_same].
    apply survives_same; [done|]. cbn. apply vec_remove_elem; [done|]. intros y Hy ->.
    destruct (position_lookup _ _ _ Ef) as (x & Hx & Hp). apply bool_decide_eq_true in Hp.
    rewrite Hy in Hx. injection Hx as <-. by apply (Hrm uri sintf).
  - destruct (start_due_elem l now e) as [[_ Hin]|(_ & t & Hin & _)]; try done; [by apply survives_same|].
    by exists (set_dialing (Some t) e).
  - unfold mark_live. destruct (position _ _); [by apply survives_update|by apply survives_same].
  - unfold mark_failed. destruct (position _ _) as [i|] eqn:Ep; [|by apply survives_same].
    destruct (position_lookup _ _ _ Ep) as (x & Hx & _). rewrite Hx. case_bool_decide as Hx'; [|by apply survives_update].
    apply survives_same; [done|]. cbn. apply vec_remove_elem; [done|]. intros y Hy ->. congruence.
  - destruct (note_rows_persistent links clk 0 (lk_entries l) e He Hk) as (j & e' & Ej & Hin).
    exists e'. split; [exact Hin|]. apply note_row_info in Ej as [-> ->]. done.
Qed.

(** C21: a configured peer is never given up. In every run a persistent row
    stays until it is removed itself; a link of it that died makes it wait at
    most its backoff cap; and whenever it is neither up nor being dialled and
    its retry time has come, starting the due dials dials it. *)
Theorem persistent_redialled (l : Links) (e : Entry) : peers_reachable l -> e ∈ lk_entries l -> en_kind e = Persistent ->
  (forall ev, peers_event_ok l ev -> (forall uri sintf, ev = EvRemove uri sintf -> LinkInfo_new uri sintf <> entry_info e) ->
     exists e', e' ∈ lk_entries (peers_step l ev) /\ entry_info e' = entry_info e /\ en_kind e' = Persistent) /\
  (forall id key links clk, en_live e = Some (id, key) -> (forall t, link_stats t links id = None) ->
     exists e' i, e' ∈ lk_entries (note_liveness l links clk) /\ entry_info e' = entry_info e /\ en_live e' = None /\
       sp_next_retry (en_redial e') <= clk i + backoff_cap (en_uri e)) /\
  (forall now, peers_event_ok l (EvStart now) -> en_live e = None -> en_dialing e = None -> sp_next_retry (en_redial e) <= now ->
     exists t, (t, en_uri e) ∈ (start_due l now).2 /\ set_dialing (Some t) e ∈ lk_entries (start_due l now).1).
Proof.
  intros Hl He Hk. split; [intros ev Hok Hrm; by apply step_survives|].
  apply reachable_inv in Hl as [(_ & _ & I3) Hz]. split.
  - intros id key links clk Hlive Hdead. destruct (note_rows_persistent links clk 0 (lk_entries l) e He Hk) as (j & e' & Ej & Hin).
    exists e', j. split; [exact Hin|]. split; [by apply note_row_info in Ej as [? _]|].
    unfold note_row in Ej. rewrite Hlive, Hdead in Ej. rewrite bool_decide_eq_false_2 in Ej by (by intros [? ?]). cbn zeta in Ej.
    case_bool_decide; [done|]. injection Ej as <-. split; [done|]. cbn. rewrite Forall_forall in I3.
    destruct (I3 e He) as (_ & _ & _ & -> & _). unfold backoff_delay. lia.
  - intros now Hok Hlive Hdial Hdue. destruct (start_due_elem l now e) as [[Hr _]|(_ & t & Hin & Ht)]; try done; [|by exists t].
    unfold rests in Hr. rewrite Hk, Hlive, Hdial in Hr. unfold due in Hr. cbn in Hr.
    rewrite (proj2 (Z.leb_le _ _) Hdue) in Hr. done.
Qed.
End properties.

(** ** Witnesses *)

Definition demo_peer_uri : bytes := str "tls://h:1?maxbackoff=1m".
Definition demo_peer_conn : AnyConn := mkAnyConn (replicate 32 9) 0 Go false 4 None (mkStream [] None [] []).

Definition demo_dialing : Links :=
  (start_due (@Links_add std_hex Links_new demo_peer_uri [] Persistent 0).1 1).1.

Definition demo_row (live : option (LinkId * bytes)) (dialing : option Z) (next : Z) : Entry :=
  mkEntry demo_peer_uri [] Persistent (mkSupervisedPeer demo_peer_uri 0 next) (from_secs 60) live None None dialing.

Lemma demo_dialing_rows : demo_dialing = mkLinks [demo_row None (Some 0) 0] 1.
Proof. vm_compute. reflexivity. Qed.

Lemma demo_added : @peers_reachable std_hex (@Links_add std_hex Links_new demo_peer_uri [] Persistent 0).1.
Proof. apply (@peers_next std_hex Links_new (EvAdd demo_peer_uri [] Persistent 0)); [constructor|done]. Qed.

Lemma demo_dialing_reachable : @peers_reachable std_hex demo_dialing.
Proof.
  apply (@peers_next std_hex (@Links_add std_hex Links_new demo_peer_uri [] Persistent 0).1 (EvStart 1));
    [apply demo_added|vm_compute; reflexivity].
Qed.

Lemma demo_up_reachable : @peers_reachable std_hex (mark_live demo_dialing 0 demo_peer_conn 2).1.
Proof. apply (@peers_next std_hex demo_dialing (EvLive 0 demo_peer_conn 2)); [apply demo_dialing_reachable|done]. Qed.

Lemma peers_table_sound_witness : NoDup (entry_info <$> lk_entries demo_dialing).
Proof. apply (@peers_table_sound std_hex demo_dialing). apply demo_dialing_reachable. Defined.

Lemma dial_result_once_witness : (mark_live demo_dialing 0 demo_peer_conn 2).2 = true /\
  mark_live (mark_live demo_dialing 0 demo_peer_conn 2).1 0 demo_peer_conn 3 = ((mark_live demo_dialing 0 demo_peer_conn 2).1, false).
Proof.
  pose proof (@dial_result_once std_hex demo_dialing 0 demo_peer_conn 2 demo_dialing_reachable) as Ho.
  destruct (mark_live demo_dialing 0 demo_peer_conn 2) as [l' taken] eqn:E.
  assert (taken = true) as -> by (rewrite demo_dialing_rows in E; injection E as _ <-; reflexivity).
  split; [reflexivity|]. apply (proj2 (proj2 Ho) eq_refl).
Defined.

Lemma persistent_redialled_witness : exists e' i,
  e' ∈ lk_entries (note_liveness (mark_live demo_dialing 0 demo_peer_conn 2).1 LinkSet_new (fun _ => 5)) /\
  en_live e' = None /\ sp_next_retry (en_redial e') <= (fun _ : nat => 5) i + from_secs 60.
Proof.
  destruct (proj1 (proj2 (@persistent_redialled std_hex (mark_live demo_dialing 0 demo_peer_conn 2).1
    (demo_row (Some (4, replicate 32 9)) None 2) demo_up_reachable ltac:(rewrite demo_dialing_rows; left) eq_refl))
    4 (replicate 32 9) LinkSet_new (fun _ => 5) eq_refl ltac:(reflexivity)) as (e' & i & Hin & _ & Hlive & Hr).
  exists e', i. split; [exact Hin|]. split; [exact Hlive|exact Hr].
Defined.

(** A link accepted on a row whose dial is in flight is forgotten when that dial
    fails: the row is free again although its link is up. *)
Example accepted_link_forgotten :
  busy (@Links_accept std_hex demo_dialing demo_peer_uri demo_peer_conn 3) demo_peer_uri = true /\
  busy (mark_failed (@Links_accept std_hex demo_dialing demo_peer_uri demo_peer_conn 3) 0 (Core Timeout) 4 5) demo_peer_uri = false.
Proof. split; vm_compute; reflexivity. Qed.
