(* ===== verification/Tun.v ===== *)
(** * Tun: the bridge between the kernel's interface and the mesh
    ([client/src/tun.rs]).

    The interface is what the next reads return and how the next writes end.
    Opening a real interface is system calls and is not modelled. *)
From stdpp Require Import base tactics list numbers gmap.
From S2P Require Import Prelude Errors Clock Frame Address Table Bloom Wire Handshake LinkSet Router Hoare Tree BloomTree Session Pathfind Protocol Driver Demo Text.

Local Open Scope Z_scope.

Definition MIN_MTU : Z := 1280.
Definition DEFAULT_MTU : Z := 1280.

Definition supported_mtu (configured : Z) : Z :=
  if configured =? 0 then DEFAULT_MTU
  else if configured <? MIN_MTU then MIN_MTU
  else configured.

(** One read of the interface: a packet, or a failure. *)
Inductive dev_read : Type := ReadPacket (p : bytes) | ReadFail (e : IoError).

Record Device : Type := mkDevice {
  dv_reads : list dev_read;  (** the next reads; none: nothing is waiting *)
  dv_wres : list (option IoError);  (** failures of the next writes; [\[\]]: none *)
  dv_written : list bytes;  (** what the kernel got *)
  dv_local : Address; dv_name : bytes; dv_mtu : Z; dv_out : list bytes; dv_buf_len : nat }.

Definition Device_new (name : bytes) (local : Address) (mtu : Z) : Device :=
  mkDevice [] [] [] local name mtu [] (Z.to_nat mtu + 64).

Definition set_dv_out (out : list bytes) (d : Device) : Device :=
  mkDevice (dv_reads d) (dv_wres d) (dv_written d) (dv_local d) (dv_name d) (dv_mtu d) out (dv_buf_len d).
Definition set_dv_reads (reads : list dev_read) (d : Device) : Device :=
  mkDevice reads (dv_wres d) (dv_written d) (dv_local d) (dv_name d) (dv_mtu d) (dv_out d) (dv_buf_len d).

Definition deliver (d : Device) (packet : bytes) : Device := set_dv_out (dv_out d ++ [packet]) d.

Definition link_local (a : Address) : bool :=
  (addr_octets a !!! 0%nat =? 254) && (Z.land (addr_octets a !!! 1%nat) 192 =? 128).

Definition mesh (a : Address) : bool := Z.land (addr_octets a !!! 0%nat) 254 =? Z.land NODE_PREFIX 254.

Definition destination (packet : bytes) : option Address :=
  if bool_decide (length packet < 40)%nat || negb (Z.shiftr (packet !!! 0%nat) 4 =? 6) then None
  else Some (mkAddress (slice packet 24 40)).

Definition wants (d : Device) (packet : bytes) : bool :=
  match destination packet with
  | None => false
  | Some dst =>
    if bool_decide (addr_octets dst = addr_octets (dv_local d)) then false
    else
      let src := mkAddress (slice packet 8 24) in
      negb (link_local dst) && negb (link_local src) && mesh dst && mesh src
  end.

(** [write_all] of one packet. *)
Definition dev_write (d : Device) (packet : bytes) : Device * option IoError :=
  match dv_wres d with
  | Some e :: rest => (mkDevice (dv_reads d) rest (dv_written d) (dv_local d) (dv_name d) (dv_mtu d) (dv_out d) (dv_buf_len d), Some e)
  | None :: rest => (mkDevice (dv_reads d) rest (dv_written d ++ [packet]) (dv_local d) (dv_name d) (dv_mtu d) (dv_out d) (dv_buf_len d), None)
  | [] => (mkDevice (dv_reads d) [] (dv_written d ++ [packet]) (dv_local d) (dv_name d) (dv_mtu d) (dv_out d) (dv_buf_len d), None)
  end.

(** The loop over the batch; the packets not written go back. *)
Fixpoint flush_batch (d : Device) (batch : list bytes) (written : Z) : Device * (Z * Z + IoError) :=
  match batch with
  | [] => (d, inl (written, 0))
  | p :: rest =>
    match dev_write d p with
    | (d, Some e) => (set_dv_out batch d, inr e)
    | (d, None) => flush_batch d rest (written + 1)
    end
  end.

Definition flush (d : Device) : Device * (Z * Z + IoError) := flush_batch (set_dv_out [] d) (dv_out d) 0.

Definition PUMP_LIMIT : Z := 64.

Section pump.
Context `{!Ed25519} `{!NaclBox} `{!Env}.

(** The loop [while handled < 64]: the reads that are left, and the outcome. *)
Fixpoint pump_reads (d : Device) (via : option LinkId) (reads : list dev_read) (handled : Z) : M (list dev_read * result Z) :=
  match reads with
  | [] => mret ([], Ok handled)
  | r :: rest =>
    if PUMP_LIMIT <=? handled then mret (reads, Ok handled)
    else
      match r with
      | ReadFail _ => mret (rest, Ok handled)
      | ReadPacket raw =>
        match take (dv_buf_len d) raw with
        | [] => mret (rest, Ok handled)
        | b :: p =>
          let packet := b :: p in
          if negb (wants d packet) then pump_reads d via rest handled
          else
            match destination packet with
            | None => pump_reads d via rest handled
            | Some dst =>
              match via with
              | None => mret (rest, Ok handled)
              | Some id =>
                sent ← attempt (send_or_resolve id dst packet);
                match sent with
                | Ok _ => pump_reads d via rest (handled + 1)
                | Err e => mret (rest, Err e)
                end
              end
            end
        end
      end
  end.

Definition pump (d : Device) (via : option LinkId) : M (Device * result Z) :=
  '(reads, r) ← pump_reads d via (dv_reads d) 0;
  mret (set_dv_reads reads d, r).
End pump.

(** ** Which packets are carried *)

(** Node addresses and subnet prefixes: [0200::/7]. *)
Definition in_mesh (octets : bytes) : Prop := octets !!! 0%nat = 2 \/ octets !!! 0%nat = 3.

Lemma mesh_byte b : is_u8 b ->
  eqb (Z.land b 254 =? Z.land NODE_PREFIX 254) ((b =? 2) || (b =? 3)) = true.
Proof. apply (byte_forall (fun b => eqb (Z.land b 254 =? Z.land NODE_PREFIX 254) ((b =? 2) || (b =? 3)))). vm_compute. reflexivity. Qed.

Lemma mesh_iff a : bytes_ok (addr_octets a) -> mesh a = true <-> in_mesh (addr_octets a).
Proof.
  intros Ha. unfold mesh, in_mesh. pose proof (mesh_byte _ (bytes_ok_lookup_total _ 0%nat Ha)) as Hm.
  apply eqb_prop in Hm. rewrite Hm, orb_true_iff, !Z.eqb_eq. done.
Qed.

(** An address of the mesh is not link-local. *)
Lemma mesh_not_link_local a : in_mesh (addr_octets a) -> link_local a = false.
Proof. unfold in_mesh, link_local. by intros [-> | ->]. Qed.

Lemma bytes_ok_slice l a b : bytes_ok l -> bytes_ok (slice l a b).
Proof. unfold slice. auto with roots. Qed.

(** An IPv6 packet from one address to another. *)
Definition ipv6_packet (packet src dst : bytes) : Prop :=
  (40 <= length packet)%nat /\ Z.shiftr (packet !!! 0%nat) 4 = 6 /\ slice packet 8 24 = src /\ slice packet 24 40 = dst.

Lemma wants_iff d packet : bytes_ok packet ->
  wants d packet = true <->
  exists src dst, ipv6_packet packet src dst /\ dst <> addr_octets (dv_local d) /\ in_mesh src /\ in_mesh dst.
Proof.
  intros Hp. unfold wants, destination, ipv6_packet.
  destruct (decide (length packet < 40)%nat) as [Hl|Hl].
  { rewrite bool_decide_eq_true_2 by done. cbn. split; [done|]. intros (src & dst & (? & _) & _). lia. }
  rewrite bool_decide_eq_false_2 by done. cbn [orb]. destruct (Z.eqb_spec (Z.shiftr (packet !!! 0%nat) 4) 6) as [Hv|Hv]; cbn [negb].
  2: { split; [done|]. by intros (src & dst & (_ & ? & _) & _). }
  cbn [addr_octets]. case_bool_decide as Hd.
  { split; [done|]. intros (src & dst & (_ & _ & _ & <-) & Hne & _). by destruct Hne. }
  rewrite !andb_true_iff, !negb_true_iff, !mesh_iff by (by apply bytes_ok_slice). cbn [addr_octets]. split.
  - intros [[[_ _] Hm1] Hm2]. exists (slice packet 8 24), (slice packet 24 40). repeat split; try done. lia.
  - intros (src & dst & (_ & _ & <- & <-) & _ & Hs & Hm). split; [split; [split|]|]; try done; by apply mesh_not_link_local.
Qed.

Lemma addr_in_mesh k : key_ok k -> in_mesh (addr_octets (addr_for_key k)).
Proof. intros Hk. destruct (addr_for_key_shape k Hk) as (o & P & _ & _ & _ & _ & ->). by left. Qed.

Lemma subnet_in_mesh k host : key_ok k -> in_mesh (addr_octets (subnet_addr (subnet_for_key k) host)).
Proof.
  intros Hk. destruct (subnet_shape k Hk) as (o & P & _ & _ & _ & _ & ->). by right.
Qed.

(** The addresses a node answers for: its own, and those of its subnet. *)
Definition node_addr (k addr : bytes) : Prop :=
  addr = addr_octets (addr_for_key k) \/ exists host, addr = addr_octets (subnet_addr (subnet_for_key k) host).

Lemma node_addr_mesh k addr : key_ok k -> node_addr k addr -> in_mesh addr.
Proof. intros Hk [->|(host & ->)]; [by apply addr_in_mesh|by apply subnet_in_mesh]. Qed.

(** The bridge carries exactly the mesh's packets. A packet is forwarded if
    and only if it is a whole IPv6 packet for another node with source and
    destination in [0200::/7] (no link-local address is); in particular every
    packet between the addresses and subnets of any two nodes is. *)
Theorem wants_exactly_mesh (d : Device) (packet : bytes) : bytes_ok packet ->
  (wants d packet = true <->
   exists src dst, ipv6_packet packet src dst /\ dst <> addr_octets (dv_local d) /\ in_mesh src /\ in_mesh dst) /\
  (forall k k' src dst, key_ok k -> key_ok k' -> node_addr k src -> node_addr k' dst ->
     ipv6_packet packet src dst -> dst <> addr_octets (dv_local d) ->
     wants d packet = true /\ destination packet = Some (mkAddress dst)).
Proof.
  intros Hp. split; [by apply wants_iff|]. intros k k' src dst Hk Hk' Hs Hd Hpk Hne. split.
  - apply wants_iff; [done|]. exists src, dst. split; [done|]. split; [done|].
    split; [apply (node_addr_mesh k)|apply (node_addr_mesh k')]; done.
  - destruct Hpk as (Hl & Hv & _ & <-). unfold destination. rewrite bool_decide_eq_false_2 by lia. by rewrite Hv.
Qed.

(** ** Writing to the kernel *)

Lemma flush_batch_spec d batch n : let '(d', r) := flush_batch d batch n in
  exists sent kept, batch = sent ++ kept /\ dv_written d' = dv_written d ++ sent /\
    match r with
    | inl (written, held) => kept = [] /\ dv_out d' = dv_out d /\ written = n + Z.of_nat (length sent) /\ held = 0
    | inr e => kept <> [] /\ dv_out d' = kept
    end.
Proof.
  revert d n. induction batch as [|p batch IH]; intros d n; cbn [flush_batch].
  - exists [], []. split; [done|]. split; [by rewrite app_nil_r|]. cbn [length]. repeat split; lia.
  - assert (let '(d1, r) := dev_write d p in dv_out d1 = dv_out d /\ dv_written d1 = dv_written d ++ match r with None => [p] | Some _ => [] end) as Hw.
    { unfold dev_write. destruct (dv_wres d) as [|[e|] w]; cbn; rewrite ?app_nil_r; done. }
    destruct (dev_write d p) as [d1 [e|]]; destruct Hw as [Ho Hw].
    + exists [], (p :: batch). cbn. rewrite Hw, !app_nil_r. done.
    + specialize (IH d1 (n + 1)). destruct (flush_batch d1 batch (n + 1)) as [d' r]. destruct IH as (sent & kept & -> & Hw' & Hr).
      exists (p :: sent), kept. split; [done|]. split; [by rewrite Hw', Hw, <-app_assoc|].
      destruct r as [[written held]|e]; [|exact Hr]. destruct Hr as (-> & Ho' & -> & ->). cbn [length]. repeat split; [congruence|lia].
Qed.

(** No packet for the kernel is lost or reordered. Flushing writes a prefix
    of the queue in order and keeps exactly the rest; it succeeds when, and only
    when, nothing is left, and then reports the number of packets written. *)
Theorem flush_keeps_packets (d : Device) : let '(d', r) := flush d in
  exists sent, dv_out d = sent ++ dv_out d' /\ dv_written d' = dv_written d ++ sent /\
    match r with
    | inl (written, held) => dv_out d' = [] /\ written = Z.of_nat (length (dv_out d)) /\ held = 0
    | inr _ => dv_out d' <> []
    end.
Proof.
  unfold flush. pose proof (flush_batch_spec (set_dv_out [] d) (dv_out d) 0) as Hf.
  destruct (flush_batch _ _ _) as [d' r]. destruct Hf as (sent & kept & E & Hw & Hr). exists sent.
  destruct r as [[written held]|e].
  - destruct Hr as (-> & Ho & -> & ->). cbn in Ho. rewrite Ho. split; [done|]. split; [done|].
    split; [done|]. rewrite E, app_nil_r. split; lia.
  - destruct Hr as [Hn Ho]. rewrite Ho. done.
Qed.

(** ** Reading from the kernel *)

Section pump_props.
Context `{!Ed25519} `{!NaclBox} `{!Env}.

Lemma total_pump_reads d via reads handled : total (pump_reads d via reads handled).
Proof.
  revert handled. induction reads as [|r reads IH]; intros handled; cbn [pump_reads]; [done|]. destruct (_ <=? _); [done|].
  destruct r as [raw|e]; [|done]. destruct (take _ raw) as [|b p]; [done|]. destruct (negb _); [apply IH|].
  destruct (destination _) as [dst|]; [|apply IH]. destruct via as [id|]; [|done].
  apply total_bind; [apply total_attempt, total_send_or_resolve|]. intros [u|e]; [apply IH|done].
Qed.

Lemma pump_reads_bounded d via reads handled w w' rest n : 0 <= handled <= PUMP_LIMIT ->
  pump_reads d via reads handled w = Done w' (Ok (rest, Ok n)) ->
  handled <= n <= PUMP_LIMIT /\ exists used, reads = used ++ rest /\ n - handled <= Z.of_nat (length used).
Proof.
  revert handled w. induction reads as [|r reads IH]; intros handled w Hh; cbn [pump_reads].
  { intros [= _ <- <-]. split; [lia|]. exists []. cbn. split; [done|lia]. }
  assert (forall r' handled' w1, 0 <= handled' <= PUMP_LIMIT -> handled <= handled' <= handled + 1 ->
    pump_reads d via reads handled' w1 = Done w' (Ok (rest, Ok n)) ->
    handled <= n <= PUMP_LIMIT /\ exists used, r' :: reads = used ++ rest /\ n - handled <= Z.of_nat (length used)) as Hnext.
  { intros r' h' w1 Hb Hs E. destruct (IH h' w1 Hb E) as [Hn (used & -> & Hu)]. split; [lia|].
    exists (r' :: used). split; [done|]. cbn [length]. lia. }
  assert (forall r', Done w (Ok (reads, Ok handled)) = Done w' (Ok (rest, Ok n)) ->
    handled <= n <= PUMP_LIMIT /\ exists used, r' :: reads = used ++ rest /\ n - handled <= Z.of_nat (length used)) as Hstop.
  { intros r' [= _ <- <-]. split; [lia|]. exists [r']. cbn. split; [done|lia]. }
  destruct (Z.leb_spec PUMP_LIMIT handled) as [Hl|Hl].
  { intros [= _ <- <-]. split; [lia|]. exists []. cbn. split; [done|lia]. }
  destruct r as [raw|e]; [|apply Hstop]. destruct (take _ raw) as [|b p]; [apply Hstop|].
  destruct (negb _); [apply Hnext; lia|]. destruct (destination _) as [dst|]; [|apply Hnext; lia].
  destruct via as [id|]; [|apply Hstop]. unfold mbind, M_bind, attempt.
  destruct (send_or_resolve id dst (b :: p) w) as [w1 [u|e]| |]; [apply Hnext; lia|done..].
Qed.

(** The bound of [pump] counts the packets it forwards only: any number of
    packets it does not want is read in one call, with none handled. *)
Lemma unwanted_reads_unbounded d via raw n w : wants d (take (dv_buf_len d) raw) = false -> take (dv_buf_len d) raw <> [] ->
  pump_reads d via (replicate n (ReadPacket raw)) 0 w = Done w (Ok ([], Ok 0)).
Proof.
  intros Hw Hn. induction n as [|n IH]; [done|]. cbn [replicate pump_reads]. change (PUMP_LIMIT <=? 0) with false. cbn match.
  destruct (take (dv_buf_len d) raw) as [|b p]; [done|]. by rewrite Hw.
Qed.

(** One turn forwards a bounded number of packets. Pumping a finite queue
    comes to rest, hands at most 64 packets to the mesh, and consumes a prefix
    of what the kernel has, leaving the rest for the next turn. *)
Theorem pump_bounded (d : Device) (via : option LinkId) (w : World) : pump d via w <> OutOfFuel /\
  forall w' d' n, pump d via w = Done w' (Ok (d', Ok n)) ->
    0 <= n <= 64 /\ exists used, dv_reads d = used ++ dv_reads d' /\ n <= Z.of_nat (length used) /\ dv_out d' = dv_out d.
Proof.
  unfold pump. split.
  - revert w. apply total_bind; [apply total_pump_reads|]. by intros [reads r].
  - intros w' d' n. unfold mbind, M_bind. destruct (pump_reads d via (dv_reads d) 0 w) as [w1 [[reads r]|e]| |] eqn:E; try done.
    intros [= -> <- ->]. destruct (pump_reads_bounded d via (dv_reads d) 0 w w' reads n ltac:(unfold PUMP_LIMIT; lia) E) as [Hn (used & Hu & Hl)].
    unfold PUMP_LIMIT in Hn. split; [lia|]. exists used. cbn. split; [done|]. split; [lia|done].
Qed.
End pump_props.

(** ** Witnesses *)

Definition demo_packet (src dst : bytes) : bytes := 96 :: replicate 7 0 ++ src ++ dst ++ [1; 2; 3].

Lemma wants_exactly_mesh_witness :
  wants (Device_new [] (addr_for_key (demo_key 3)) 1280)
    (demo_packet (addr_octets (addr_for_key (demo_key 1))) (addr_octets (addr_for_key (demo_key 2)))) = true.
Proof.
  apply (proj2 (wants_exactly_mesh (Device_new [] (addr_for_key (demo_key 3)) 1280)
    (demo_packet (addr_octets (addr_for_key (demo_key 1))) (addr_octets (addr_for_key (demo_key 2)))) ltac:(by_dec))
    (demo_key 1) (demo_key 2) (addr_octets (addr_for_key (demo_key 1))) (addr_octets (addr_for_key (demo_key 2))));
    [by_dec|by_dec|left; reflexivity|left; reflexivity| |by_dec].
  split; [vm_compute; lia|]. split; [vm_compute; reflexivity|]. split; vm_compute; reflexivity.
Defined.
