(* ===== verification/Views.v ===== *)
(** * Views: what the router reports about itself ([src/views.rs]).

    Snapshots for the admin adapter and for diagnostics. Tables are listed in
    the order of their keys, whatever the order of the hash map. *)
From stdpp Require Import base tactics list numbers sorting gmap.
From S2P Require Import Prelude Errors Clock Frame Address Table Bloom Wire Handshake LinkSet Router Hoare Tree BloomTree Session Pathfind Demo.

Local Open Scope Z_scope.

(** [out.sort_by_key(..)] on a byte-string key. *)
Definition key_le {A} (key : A -> bytes) (a b : A) : Prop := lex_le (key a) (key b).

#[export] Instance key_le_dec {A} (key : A -> bytes) : RelDecision (key_le key).
Proof. intros a b. unfold key_le. apply _. Defined.
#[export] Instance key_le_total {A} (key : A -> bytes) : Total (key_le key).
Proof. intros a b. apply lex_le_total. Qed.
#[export] Instance key_le_trans {A} (key : A -> bytes) : Transitive (key_le key).
Proof. intros a b c. unfold key_le. apply transitivity. Qed.

Definition sort_on {A} (key : A -> bytes) (l : list A) : list A := merge_sort (key_le key) l.

Record LinkPeer : Type := mkLinkPeer {
  lp_id : LinkId; lp_key : bytes; lp_port : Z; lp_priority : Z; lp_responded : bool; lp_lag_ms : Z; lp_latency : option Z }.

Definition parent (r : Router) : option bytes := i_parent <$> t_infos (r_tree r) !! r_pubkey r.

Fixpoint root_depth_loop (fuel : nat) (infos : gmap bytes Info) (next : bytes) (depth : nat) : option (bytes * nat) :=
  match fuel with
  | O => None
  | S fuel =>
    info ← infos !! next;
    if bool_decide (i_parent info = next) then Some (next, depth)
    else
      let depth := S depth in
      if bool_decide (1024 < depth)%nat then None else root_depth_loop fuel infos (i_parent info) depth
  end.

(** The loop makes at most 1025 turns: it stops by itself at depth 1025. *)
Definition root_and_depth (r : Router) : option (bytes * nat) :=
  root_depth_loop 1025 (t_infos (r_tree r)) (r_pubkey r) 0.

Definition known_nodes (r : Router) : nat := size (t_infos (r_tree r)).

Definition has_path (r : Router) (key : bytes) : bool := bool_decide (is_Some (pa_entries (r_path r) !! key)).
Definition has_session (r : Router) (key : bytes) : bool := bool_decide (is_Some (ss_sessions (r_sess r) !! key)).

Definition path_details (r : Router) (key : bytes) : option (list Z * Z) :=
  (fun e => (pe_path e, pe_seq e)) <$> pa_entries (r_path r) !! key.

Definition get_paths (r : Router) : list (bytes * list Z * Z) :=
  sort_on (fun x => x.1.1) ((fun ke => (ke.1, pe_path ke.2, pe_seq ke.2)) <$> map_to_list (pa_entries (r_path r))).

Definition get_sessions (r : Router) : list bytes := sort_keys (map_to_list (ss_sessions (r_sess r))).*1.

(** The nearest multiple of 10 microseconds, when it is not zero. *)
Definition go_latency (srrt srst : option Instant) : option Z :=
  srrt ← srrt;
  srst ← srst;
  let delta := duration_since srrt srst in
  let hundredths := wrapping_add (wrap64 delta) 5000 / 10000 in
  if 0 <? hundredths then Some (hundredths * 10000) else None.

Definition link_peer (t : TreeState) (id : LinkId) (l : LinkState) : LinkPeer :=
  mkLinkPeer id (l_peer l) (unwrap_or (p_port <$> t_peers t !! l_peer l) 0) (l_prio l) (l_responded l)
    (as_millis (l_lag l)) (go_latency (l_srrt l) (l_sent_at l)).

(** [sort_by_key(|p| (p.key, p.id))]. *)
Definition link_peer_le (a b : LinkPeer) : Prop :=
  lex_lt (lp_key a) (lp_key b) \/ (lp_key a = lp_key b /\ lp_id a <= lp_id b).

#[export] Instance link_peer_le_dec : RelDecision link_peer_le.
Proof. intros a b. unfold link_peer_le, lex_lt. apply _. Defined.

Definition Router_link_peers (r : Router) : list LinkPeer :=
  merge_sort link_peer_le ((fun il => link_peer (r_tree r) il.1 il.2) <$> map_to_list (t_links (r_tree r))).

Definition next_hop (r : Router) (links : LinkSet) (dest : bytes) : option LinkId :=
  path ← root_path_for (t_infos (r_tree r)) dest;
  (greedy_next r links path U64_MAX).1.

Fixpoint dedup (l : list bytes) : list bytes :=
  match l with
  | a :: (b :: _) as l' => if bool_decide (a = b) then dedup l' else a :: dedup l'
  | _ => l
  end.

Definition pending_routes (r : Router) : list bytes :=
  let keys := (map_to_list (pa_entries (r_path r))).*1 in
  dedup (sort_keys (
    (fun ru => addr_octets (addr_for_key (unwrap_or (find_first (fun k => bool_decide (xkey k = xkey (r_dest ru))) keys) (r_dest ru))))
    <$> filter (fun ru => is_Some (r_pending ru)) (map_to_list (pa_rumors (r_path r))).*2)).

Definition tree_entries (r : Router) : list (bytes * bytes * Z) :=
  sort_on (fun x => x.1.1)
    ((fun ki => (ki.1, i_parent ki.2, req_seq (res_req (i_res ki.2)))) <$> map_to_list (t_infos (r_tree r))).

(** ** The tree as reported *)

(** The root a node hangs from, and how deep. *)
Inductive tree_root (infos : gmap bytes Info) : bytes -> bytes -> nat -> Prop :=
  | tree_root_self k i : infos !! k = Some i -> i_parent i = k -> tree_root infos k k 0
  | tree_root_child k i root d : infos !! k = Some i -> i_parent i <> k -> tree_root infos (i_parent i) root d ->
      tree_root infos k root (S d).

Lemma root_depth_sound fuel infos k d0 root d : root_depth_loop fuel infos k d0 = Some (root, d) ->
  exists n, tree_root infos k root n /\ d = (d0 + n)%nat /\ ((d0 <= 1024)%nat -> (d <= 1024)%nat).
Proof.
  revert k d0. induction fuel as [|fuel IH]; intros k d0; [done|]. cbn [root_depth_loop].
  destruct (infos !! k) as [i|] eqn:Ei; [|done]. cbn [mbind option_bind]. case_bool_decide as Hp.
  - intros [= <- <-]. exists 0%nat. split; [by eapply tree_root_self|]. lia.
  - cbn zeta. case_bool_decide as Hd; [done|]. intros E. destruct (IH _ _ E) as (n & Hn & -> & Hl).
    exists (S n). split; [by eapply tree_root_child|]. lia.
Qed.

Lemma root_depth_complete fuel infos k d0 root n : tree_root infos k root n -> (n < fuel)%nat -> (d0 + n <= 1024)%nat ->
  root_depth_loop fuel infos k d0 = Some (root, (d0 + n)%nat).
Proof.
  intros Hr. revert fuel d0. induction Hr as [k i Ei Ep|k i root n Ei Ep Hr IH]; intros [|fuel] d0 Hf Hd; try lia; cbn [root_depth_loop]; rewrite Ei; cbn [mbind option_bind].
  - rewrite bool_decide_eq_true_2 by done. do 2 f_equal. lia.
  - rewrite bool_decide_eq_false_2 by done. cbn zeta. rewrite bool_decide_eq_false_2 by lia.
    rewrite IH by lia. do 2 f_equal. lia.
Qed.

Lemma tree_path_root_depth infos k p : tree_path infos k p -> exists root, tree_root infos k root (length p).
Proof.
  induction 1 as [k i Ei Ep|k i p Ei Ep Hp [root Hr]]; [exists k; by eapply tree_root_self|].
  exists root. rewrite length_app, Nat.add_1_r. by eapply tree_root_child.
Qed.

Lemma tree_root_path infos k root d : tree_root infos k root d -> exists p, tree_path infos k p /\ length p = d.
Proof.
  induction 1 as [k i Ei Ep|k i root d Ei Ep Hr (p & Hp & <-)]; [exists []; split; [by eapply tree_path_root|done]|].
  exists (p ++ [res_port (i_res i)]). split; [by eapply tree_path_child|]. rewrite length_app. cbn. lia.
Qed.

(** The root and depth reported are those of the tree. They are reported
    exactly when the walk along the parents reaches a node that is its own
    parent within 1024 steps, and the depth is then the number of coordinates
    the node routes by. *)
Theorem root_and_depth_exact (r : Router) (root : bytes) (d : nat) :
  (root_and_depth r = Some (root, d) <-> tree_root (t_infos (r_tree r)) (r_pubkey r) root d /\ (d <= 1024)%nat) /\
  (forall p, root_path r = Some p -> (length p <= 1024)%nat -> exists root', root_and_depth r = Some (root', length p)) /\
  (root_and_depth r = Some (root, d) -> exists p, root_path r = Some p /\ length p = d).
Proof.
  unfold root_and_depth, root_path. split; [split|split].
  - intros E. destruct (root_depth_sound _ _ _ _ _ _ E) as (n & Hn & -> & Hl). split; [exact Hn|apply Hl; lia].
  - intros [Hr Hd]. apply (root_depth_complete 1025 _ _ 0); [done|lia|lia].
  - intros p Hp Hl. apply root_path_for_iff in Hp. destruct (tree_path_root_depth _ _ _ Hp) as [root' Hr]. exists root'.
    apply (root_depth_complete 1025 _ _ 0 root' (length p)); [done| |]; lia.
  - intros E. destruct (root_depth_sound _ _ _ _ _ _ E) as (n & Hn & -> & _). destruct (tree_root_path _ _ _ _ Hn) as (p & Hp & <-).
    exists p. split; [by apply root_path_for_iff|done].
Qed.

(** ** Tables are listed exactly, in key order *)

Lemma sort_on_spec {A} (key : A -> bytes) (l : list A) : Sorted (key_le key) (sort_on key l) /\ sort_on key l ≡ₚ l.
Proof. split; [apply Sorted_merge_sort; apply _|apply merge_sort_Permutation]. Qed.

Lemma listed_in_order {V X} (f : bytes -> V -> X) (key : X -> bytes) (m : gmap bytes V) :
  (forall k v, key (f k v) = k) ->
  let l := sort_on key ((fun kv => f kv.1 kv.2) <$> map_to_list m) in
  StronglySorted (key_le key) l /\ NoDup (key <$> l) /\ (forall x, x ∈ l <-> exists k v, m !! k = Some v /\ x = f k v).
Proof.
  intros Hk. cbn zeta. destruct (sort_on_spec key ((fun kv => f kv.1 kv.2) <$> map_to_list m)) as [Hs Hp].
  split; [apply Sorted_StronglySorted; [apply _|exact Hs]|]. split.
  - rewrite Hp, <-list_fmap_compose. rewrite (list_fmap_ext _ fst); [apply NoDup_fst_map_to_list|].
    intros i [k v] _. apply Hk.
  - intros x. rewrite Hp, list_elem_of_fmap. split.
    + intros ([k v] & -> & Hin). apply elem_of_map_to_list in Hin. by exists k, v.
    + intros (k & v & Hm & ->). exists (k, v). split; [done|]. by apply elem_of_map_to_list.
Qed.

(** The reported tables are the router's. The tree entries and the paths
    are listed once per key, in the order of the keys, exactly as the tables
    hold them; so are the keys of the open sessions. *)
Theorem views_exact (r : Router) :
  (StronglySorted (key_le (fun x => x.1.1)) (tree_entries r) /\ NoDup ((fun x => x.1.1) <$> tree_entries r) /\
   forall k p s, (k, p, s) ∈ tree_entries r <->
     exists i, t_infos (r_tree r) !! k = Some i /\ p = i_parent i /\ s = req_seq (res_req (i_res i))) /\
  (StronglySorted (key_le (fun x => x.1.1)) (get_paths r) /\ NoDup ((fun x => x.1.1) <$> get_paths r) /\
   forall k p s, (k, p, s) ∈ get_paths r <-> path_details r k = Some (p, s)) /\
  (Sorted lex_le (get_sessions r) /\ NoDup (get_sessions r) /\ forall k, k ∈ get_sessions r <-> has_session r k = true).
Proof.
  split; [|split].
  - destruct (listed_in_order (fun k i => (k, i_parent i, req_seq (res_req (i_res i)))) (fun x => x.1.1) (t_infos (r_tree r)))
      as (H1 & H2 & H3); [done|]. split; [exact H1|]. split; [exact H2|]. intros k p s. unfold tree_entries. rewrite H3. split.
    + intros (k' & i & Hi & [= -> -> ->]). by exists i.
    + intros (i & Hi & -> & ->). by exists k, i.
  - destruct (listed_in_order (fun k e => (k, pe_path e, pe_seq e)) (fun x => x.1.1) (pa_entries (r_path r)))
      as (H1 & H2 & H3); [done|]. split; [exact H1|]. split; [exact H2|]. intros k p s. unfold get_paths. rewrite H3.
    unfold path_details. split.
    + intros (k' & e & He & [= -> -> ->]). by rewrite He.
    + destruct (pa_entries (r_path r) !! k) as [e|] eqn:He; [|done]. intros [= <- <-]. by exists k, e.
  - unfold get_sessions, has_session. split; [apply sort_keys_sorted|]. split; [rewrite sort_keys_perm; apply NoDup_fst_map_to_list|].
    intros k. rewrite sort_keys_elem, list_elem_of_fmap, bool_decide_eq_true. split.
    + intros ([k' v] & -> & Hin). apply elem_of_map_to_list in Hin. by exists v.
    + intros [v Hv]. exists (k, v). split; [done|]. by apply elem_of_map_to_list.
Qed.

(** The latency is the round trip rounded to ten microseconds. It is
    reported exactly when the answer came at least five microseconds after the
    request, and then it is a positive multiple of ten microseconds within five
    of the measured time; an answer that precedes the request reports none. *)
Theorem go_latency_rounds (answered sent : Instant) : is_instant answered -> is_instant sent ->
  nanos answered + 5000 < 2 ^ 64 ->
  (go_latency (Some answered) (Some sent) = None <-> nanos answered - nanos sent < 5000) /\
  (forall l, go_latency (Some answered) (Some sent) = Some l ->
     0 < l /\ l mod 10000 = 0 /\ - 5000 <= nanos answered - nanos sent - l <= 5000).
Proof.
  unfold is_instant, is_u64, go_latency, duration_since, saturating_sub. cbn [mbind option_bind]. intros Ha Hs Hb.
  set (delta := Z.max (nanos answered - nanos sent) 0).
  assert (wrapping_add (wrap64 delta) 5000 = delta + 5000) as ->.
  { unfold wrapping_add, wrap64. rewrite (Z.mod_small delta) by lia. apply Z.mod_small. lia. }
  pose proof (Z.div_mod (delta + 5000) 10000 ltac:(lia)) as Hd. pose proof (Z.mod_pos_bound (delta + 5000) 10000 ltac:(lia)) as Hm.
  set (q := (delta + 5000) / 10000) in *. destruct (Z.ltb_spec 0 q) as [Hq|Hq].
  - split; [split; [done|intros; lia]|]. intros l [= <-]. rewrite Z.mod_mul by lia. lia.
  - split; [split; [intros _; lia|done]|done].
Qed.

Lemma go_latency_rounds_witness : go_latency (Some (mkInstant 3600000012345)) (Some (mkInstant 3600000000000)) = Some 10000 /\
  10000 mod 10000 = 0.
Proof.
  split; [vm_compute; reflexivity|].
  apply (go_latency_rounds (mkInstant 3600000012345) (mkInstant 3600000000000)); unfold is_instant, is_u64; cbn; lia || reflexivity.
Defined.
