(* ===== verification/Node.v ===== *)
(** * Node: the client's node task ([client/src/node.rs]).

    The state of the task beside the router and the links: the link manager, the
    payloads to send, the remote questions that wait for an answer, the TUN
    bridge. A command's answer channel is a number; the answers given are kept
    in order. One turn of [run] drains the commands and the dial results,
    reconciles the links, starts dials, serves for one tick, settles the
    questions and pumps the bridge. *)
From stdpp Require Import base tactics list numbers gmap.
From S2P Require Import Prelude Errors Clock Frame Address Table Bloom Wire Handshake LinkSet Router Hoare Tree BloomTree Session Pathfind Protocol Driver Text Uri Peers Tun Views.

Local Open Scope Z_scope.

Inductive RemoteQuery : Type := NodeInfo | SelfInfo | Peers | Tree.

Definition answer_tag (q : RemoteQuery) : Z * option Z :=
  match q with
  | NodeInfo => (PROTO_NODEINFO_RES, None)
  | SelfInfo => (PROTO_DEBUG, Some DEBUG_GETSELF_RES)
  | Peers => (PROTO_DEBUG, Some DEBUG_GETPEERS_RES)
  | Tree => (PROTO_DEBUG, Some DEBUG_GETTREE_RES)
  end.

Definition REMOTE_TIMEOUT : Z := from_secs 6.

(** A channel an answer goes to. *)
Abbreviation Chan := nat (only parsing).

Record PeerRow : Type := mkPeerRow {
  pr_uri : bytes; pr_sintf : bytes; pr_key : option bytes; pr_up : bool; pr_inbound : bool; pr_port : Z; pr_priority : Z;
  pr_cost : Z; pr_latency : option Z; pr_up_for : Z; pr_rx_bytes : Z; pr_tx_bytes : Z; pr_rx_rate : Z; pr_tx_rate : Z;
  pr_last_error : option Error; pr_err_at : option Z }.

Record Snapshot : Type := mkSnapshot {
  sn_key : bytes; sn_routing_entries : nat; sn_tree : list (bytes * bytes * Z); sn_paths : list (bytes * list Z * Z);
  sn_sessions : list bytes; sn_peers : list PeerRow }.

(** Why a remote question failed. *)
Inductive RemoteError : Type := RemoteTimedOut (q : RemoteQuery) | RemoteSend (e : Error).

Inductive Reply : Type :=
  | ReplyPeer (r : () + LinkError)
  | ReplyReport (s : Snapshot)
  | ReplyRemote (r : bytes + RemoteError)
  | ReplyTun (r : option (bytes * Z)).

Inductive Cmd : Type :=
  | CmdDial (uri sintf : bytes) (persistent : bool) (respond : option Chan)
  | CmdDrop (uri sintf : bytes) (respond : option Chan)
  | CmdAccept (conn : AnyConn) (uri : option bytes)
  | CmdSend (dest payload : bytes)
  | CmdReport (respond : Chan)
  | CmdRemote (key : bytes) (what : RemoteQuery) (respond : Chan)
  | CmdTun (respond : Chan)
  | CmdQuit.

Record PendingRemote : Type := mkPending { pq_key : bytes; pq_what : RemoteQuery; pq_asked_at : Z; pq_respond : Chan }.

Record NodeState : Type := mkNode {
  nd_peers : Links; nd_outbox : list (bytes * bytes); nd_quit : bool; nd_pending : list PendingRemote;
  nd_tun : option Device; nd_replies : list (Chan * Reply) }.

Definition set_peers_n (p : Links) (n : NodeState) : NodeState :=
  mkNode p (nd_outbox n) (nd_quit n) (nd_pending n) (nd_tun n) (nd_replies n).
Definition set_outbox_n (o : list (bytes * bytes)) (n : NodeState) : NodeState :=
  mkNode (nd_peers n) o (nd_quit n) (nd_pending n) (nd_tun n) (nd_replies n).
Definition set_quit_n (n : NodeState) : NodeState :=
  mkNode (nd_peers n) (nd_outbox n) true (nd_pending n) (nd_tun n) (nd_replies n).
Definition set_pending_n (p : list PendingRemote) (n : NodeState) : NodeState :=
  mkNode (nd_peers n) (nd_outbox n) (nd_quit n) p (nd_tun n) (nd_replies n).
Definition set_tun_n (t : option Device) (n : NodeState) : NodeState :=
  mkNode (nd_peers n) (nd_outbox n) (nd_quit n) (nd_pending n) t (nd_replies n).
Definition reply (c : Chan) (r : Reply) (n : NodeState) : NodeState :=
  mkNode (nd_peers n) (nd_outbox n) (nd_quit n) (nd_pending n) (nd_tun n) (nd_replies n ++ [(c, r)]).
Definition reply_to (c : option Chan) (r : Reply) (n : NodeState) : NodeState :=
  match c with Some c => reply c r n | None => n end.

Definition Node_new : NodeState := mkNode Links_new [] false [] None [].

(** ** Snapshots *)

Definition peer_row (links : LinkSet) (known : list LinkPeer) (now : Z) (e : Entry) : PeerRow :=
  let live := en_live e ≫= fun ik => (fun s => (ik.1, ik.2, s)) <$> link_stats now links ik.1 in
  let router := live ≫= fun l => find_first (fun p => lp_id p =? l.1.1) known in
  let '(port, priority, cost, latency) :=
    match router with
    | Some p => (lp_port p, lp_priority p, wrap64 (Z.max (lp_lag_ms p) 1), lp_latency p)
    | None => (0, 0, 0, None)
    end in
  mkPeerRow (link_id (en_uri e)) (en_sintf e) ((fun l => l.1.2) <$> live) (bool_decide (is_Some live))
    (bool_decide (is_Some live) && bool_decide (en_kind e = Incoming)) port priority cost latency
    (unwrap_or ((fun l => ls_up l.2) <$> live) 0) (unwrap_or ((fun l => ls_rx_bytes l.2) <$> live) 0)
    (unwrap_or ((fun l => ls_tx_bytes l.2) <$> live) 0) (unwrap_or ((fun l => ls_rx_rate l.2) <$> live) 0)
    (unwrap_or ((fun l => ls_tx_rate l.2) <$> live) 0) (en_last_error e) (en_err_at e).

Definition snapshot (r : Router) (links : LinkSet) (peers : Links) (now : Z) : Snapshot :=
  mkSnapshot (r_pubkey r) (known_nodes r) (tree_entries r) (get_paths r) (get_sessions r)
    (peer_row links (Router_link_peers r) now <$> lk_entries peers).

(** ** Remote questions *)

Definition is_answer (payload : bytes) (tag : Z) (sub : option Z) : bool :=
  match sub with
  | None => match payload with b :: _ => b =? tag | [] => false end
  | Some sub => match payload with b :: s :: _ => (b =? tag) && (s =? sub) | _ => false end
  end.

Definition answer_body (payload : bytes) (sub : option Z) : bytes :=
  drop (match sub with Some _ => 2 | None => 1 end)%nat payload.

Definition answers (q : PendingRemote) (m : bytes * bytes) : bool :=
  let '(tag, sub) := answer_tag (pq_what q) in bool_decide (m.1 = pq_key q) && is_answer m.2 tag sub.

(** The loop over the questions: the inbox, the questions that stay, the answers. *)
Fixpoint settle (now : Z) (inbox : list (bytes * bytes)) (qs : list PendingRemote)
  : list (bytes * bytes) * list PendingRemote * list (Chan * Reply) :=
  match qs with
  | [] => (inbox, [], [])
  | q :: qs =>
    if REMOTE_TIMEOUT <=? std_duration_since now (pq_asked_at q) then
      let '(inbox, still, out) := settle now inbox qs in
      (inbox, still, (pq_respond q, ReplyRemote (inr (RemoteTimedOut (pq_what q)))) :: out)
    else
      match position (answers q) inbox with
      | Some at_ =>
        let body := answer_body (unwrap_or (snd <$> inbox !! at_) []) (answer_tag (pq_what q)).2 in
        let '(inbox, still, out) := settle now (vec_remove inbox at_) qs in
        (inbox, still, (pq_respond q, ReplyRemote (inl body)) :: out)
      | None =>
        let '(inbox, still, out) := settle now inbox qs in
        (inbox, q :: still, out)
      end
  end.

Definition set_proto_inbox (l : list (bytes * bytes)) (r : Router) : Router :=
  mkRouter (r_clock r) (r_key r) (r_pubkey r) (r_tree r) (r_path r) (r_bloom r) (r_sess r) (r_nodeinfo r)
    (r_inbox r) l (r_frames r) (r_dropped_no_link r).

Definition set_inbox (l : list (bytes * bytes)) (r : Router) : Router :=
  mkRouter (r_clock r) (r_key r) (r_pubkey r) (r_tree r) (r_path r) (r_bloom r) (r_sess r) (r_nodeinfo r)
    l (r_proto_inbox r) (r_frames r) (r_dropped_no_link r).

Section node.
Context `{!Hex} `{!Ed25519} `{!NaclBox} `{!Env}.

Definition settle_remote (n : NodeState) : M NodeState :=
  match nd_pending n with
  | [] => mret n
  | qs =>
    now ← instant_now;
    inbox ← asks r_proto_inbox;
    let '(inbox, still, out) := settle now inbox qs in
    _ ← modify (set_proto_inbox inbox);
    mret (mkNode (nd_peers n) (nd_outbox n) (nd_quit n) still (nd_tun n) (nd_replies n ++ out))
  end.

(** ** Links *)

Definition links_add (conn : AnyConn) : M () := fun w =>
  Done (mkWorld (w_router w) (LinkSet_add (clock_at (w_ticks w)) (w_links w) conn).1 (S (w_ticks w))) (Ok ()).

Definition dial_failed (n : NodeState) (token : Z) (e : Error) : M NodeState :=
  now ← instant_now;
  now' ← instant_now;
  mret (set_peers_n (mark_failed (nd_peers n) token e now now') n).

(** What a dial task brings back. *)
Definition on_dial (n : NodeState) (token : Z) (outcome : AnyConn + Error) : M NodeState :=
  match outcome with
  | inr e => dial_failed n token e
  | inl conn =>
    '(conn, registered) ← register conn (c_remote_key conn) (c_id conn);
    match registered with
    | Err e => dial_failed n token e
    | Ok _ =>
      now ← instant_now;
      let '(peers, taken) := mark_live (nd_peers n) token conn now in
      _ ← when taken (links_add conn);
      mret (set_peers_n peers n)
    end
  end.

Definition on_cmd (n : NodeState) (cmd : Cmd) : M NodeState :=
  match cmd with
  | CmdDial uri sintf persistent respond =>
    now ← instant_now;
    let '(peers, outcome) := Links_add (nd_peers n) uri sintf (if persistent then Persistent else Ephemeral) now in
    mret (reply_to respond (ReplyPeer outcome) (set_peers_n peers n))
  | CmdDrop uri sintf respond =>
    let id := live_id (nd_peers n) uri sintf in
    let '(peers, outcome) := Links_remove (nd_peers n) uri sintf in
    _ ← match outcome, id with
        | inl _, Some id => _ ← links_remove id; forget_link id
        | _, _ => mret ()
        end;
    mret (reply_to respond (ReplyPeer outcome) (set_peers_n peers n))
  | CmdAccept conn uri =>
    if match uri with Some uri => busy (nd_peers n) uri | None => false end then mret n
    else
      '(conn, registered) ← register conn (c_remote_key conn) (c_id conn);
      match registered with
      | Err _ => mret n
      | Ok _ =>
        now ← instant_now;
        _ ← links_add conn;
        mret (match uri with Some uri => set_peers_n (Links_accept (nd_peers n) uri conn now) n | None => n end)
      end
  | CmdReport respond =>
    now ← instant_now;
    w ← get_world;
    mret (reply respond (ReplyReport (snapshot (w_router w) (w_links w) (nd_peers n) now)) n)
  | CmdSend dest payload => mret (set_outbox_n (nd_outbox n ++ [(dest, payload)]) n)
  | CmdTun respond => mret (reply respond (ReplyTun ((fun t => (dv_name t, dv_mtu t)) <$> nd_tun n)) n)
  | CmdRemote key what respond =>
    sent ← attempt (match what with
                    | NodeInfo => request_nodeinfo key
                    | SelfInfo => request_debug key DEBUG_GETSELF_REQ
                    | Peers => request_debug key DEBUG_GETPEERS_REQ
                    | Tree => request_debug key DEBUG_GETTREE_REQ
                    end);
    match sent with
    | Ok _ => now ← instant_now; mret (set_pending_n (nd_pending n ++ [mkPending key what now respond]) n)
    | Err e => mret (reply respond (ReplyRemote (inr (RemoteSend e))) n)
    end
  | CmdQuit => mret (set_quit_n n)
  end.

(** ** The bridge *)

Definition pump_tun (n : NodeState) : M NodeState :=
  match nd_tun n with
  | None => mret n
  | Some device =>
    inbox ← asks r_inbox;
    _ ← modify (set_inbox []);
    let device := fold_left deliver inbox.*2 device in
    via ← asks_links (fun ls => head (link_ids ls));
    '(device, pumped) ← match via with
                        | None => mret (device, Ok 0)
                        | Some _ => pump device via
                        end;
    match pumped with
    | Err e => if Error_is_link e then
                 let '(device, flushed) := flush device in
                 mret (set_tun_n (match flushed with inl _ => Some device | inr _ => None end) n)
               else mret (set_tun_n None n)
    | Ok _ =>
      let '(device, flushed) := flush device in
      mret (set_tun_n (match flushed with inl _ => Some device | inr _ => None end) n)
    end
  end.

(** ** The loop *)

Fixpoint drain {A} (f : NodeState -> A -> M NodeState) (n : NodeState) (l : list A) : M NodeState :=
  match l with
  | [] => mret n
  | x :: l => n ← f n x; drain f n l
  end.

Definition links_update_rates : M () := fun w =>
  Done (mkWorld (w_router w) (update_rates (clock_at (w_ticks w)) (w_links w)) (S (w_ticks w))) (Ok ()).

(** What waits at the start of a turn, and what arrives while it serves. *)
Record turn_input : Type := mkTurn {
  ti_cmds : list Cmd; ti_dials : list (Z * (AnyConn + Error)); ti_net : list (LinkSet -> LinkSet) }.

(** One turn of [run]; the dials it starts go to tasks of their own. *)
Definition run_turn (tick : Z) (n : NodeState) (input : turn_input) : M (NodeState * list (Z * bytes)) :=
  n ← drain on_cmd n (ti_cmds input);
  n ← drain (fun n d => on_dial n d.1 d.2) n (ti_dials input);
  w ← get_world;
  let peers := note_liveness (nd_peers n) (w_links w) (fun i => clock_at (w_ticks w + i)) in
  _ ← links_update_rates;
  now ← instant_now;
  let '(peers, dials) := start_due peers now in
  '(served, outbox) ← serve_links (Some tick) (nd_outbox n) (ti_net input);
  let n := set_outbox_n outbox (set_peers_n peers n) in
  match served with
  | Err e => if Error_is_link e then
               n ← settle_remote n; n ← pump_tun n; mret (n, dials)
             else throw e
  | Ok _ => n ← settle_remote n; n ← pump_tun n; mret (n, dials)
  end.

(** [while !self.quit], one turn per input. *)
Fixpoint run (tick : Z) (n : NodeState) (inputs : list turn_input) : M NodeState :=
  match inputs with
  | [] => mret n
  | i :: inputs =>
    if nd_quit n then mret n
    else '(n, _) ← run_turn tick n i; run tick n inputs
  end.
End node.
