(* ===== verification/Discover.v ===== *)
(** * Discover: the client's half of LAN discovery.

    The sockets and timers around the state machine of [Lan]
    ([client/src/multicast.rs]): which configured row applies to an interface,
    the kernel's table of addresses, the scan, one tick, and the beacons read;
    and the task that runs it ([run_multicast] of [client/src/main.rs]), which
    starts listeners ([client/src/listen.rs]) and hands the node its dials. The
    kernel is a [Host]: what its files hold and whether its calls succeed. The
    [regex] crate is an interface. *)
From Stdlib Require Import Strings.String.
From stdpp Require Import base tactics list numbers gmap sorting.
From S2P Require Import Prelude Errors Clock Text Words Frame Address Wire Handshake LinkSet Uri Lan Node.

Local Open Scope Z_scope.

(** [Regex::new] and [is_match]: [None] for a pattern that does not compile. *)
Class Regex := { regex_match : bytes -> bytes -> option bool }.

Record MulticastRow : Type := mkMulticastRow {
  mr_regex : bytes; mr_beacon : bool; mr_listen : bool; mr_port : Z; mr_priority : Z; mr_password : bytes }.

Record MulticastInterfaceState : Type := mkMulticastInterfaceState {
  ms_name : bytes; ms_address : bytes; ms_beacon : bool; ms_listen : bool; ms_password : bool }.

(** ** Which row applies *)

Section rows.
Context `{!Regex}.

Definition matches (pattern name : bytes) : bool :=
  match regex_match pattern name with Some m => m | None => false end.

Definition config_for (rows : list MulticastRow) (name : bytes) : option MulticastRow :=
  find_first (fun row =>
    if negb (mr_beacon row) && negb (mr_listen row) then false
    else if negb (matches (mr_regex row) name) then false
    else bool_decide (length (mr_password row) <= 64)%nat) rows.
End rows.

(** ** The kernel's addresses *)

Definition TENTATIVE : Z := 4.
Definition DAD_FAILED : Z := 64.
Definition LINK_SCOPE : bytes := str "20".
Definition U32_MAX : Z := 2 ^ 32 - 1.

(** [Ipv6Addr::from] of 16 octets. *)
Fixpoint ipv6_from (octets : bytes) : Ipv6Addr :=
  match octets with
  | hi :: lo :: rest => (hi * 256 + lo) :: ipv6_from rest
  | _ => []
  end.

Definition is_unicast_link_local (a : Ipv6Addr) : bool := Z.land (a !!! 0%nat) 65472 =? 65152.

Section kernel.
Context `{!Hex}.

(** One line: the name, the address, and whether the address is unusable. *)
Definition if_inet6_line (line : bytes) : option (bytes * (Ipv6Addr * bool)) :=
  match split_whitespace line with
  | address :: _ :: _ :: scope :: flags :: name :: _ =>
    if bool_decide (scope <> LINK_SCOPE) then None
    else
      let octets := unwrap_or (hex_decode address) [] in
      if bool_decide (length octets <> 16)%nat then None
      else
        let addr := ipv6_from octets in
        if negb (is_unicast_link_local addr) then None
        else Some (name, (addr, negb (Z.land (unwrap_or (from_str_radix U32_MAX flags 16) 0) (Z.lor TENTATIVE DAD_FAILED) =? 0)))
  | _ => None
  end.

Fixpoint push_address (out : list (bytes * list (Ipv6Addr * bool))) (name : bytes) (a : Ipv6Addr * bool)
  : list (bytes * list (Ipv6Addr * bool)) :=
  match out with
  | [] => [(name, [a])]
  | (n, addrs) :: out' => if bool_decide (n = name) then (n, addrs ++ [a]) :: out' else (n, addrs) :: push_address out' name a
  end.

Definition name_le {A} (a b : bytes * A) : Prop := lex_le a.1 b.1.

(** [sort_by_key] on [(!unusable, addr)]; [false] sorts before [true]. *)
Definition addr_rank (a : Ipv6Addr * bool) : list Z := (if negb a.2 then 1 else 0) :: a.1.
Definition addr_le (a b : Ipv6Addr * bool) : Prop := lex_le (addr_rank a) (addr_rank b).

#[global] Instance name_le_dec {A} : RelDecision (@name_le A).
Proof. intros a b. unfold name_le. apply _. Defined.
#[global] Instance addr_le_dec : RelDecision addr_le.
Proof. intros a b. unfold addr_le. apply _. Defined.

(** [dedup_by_key] on the address: of a run of equal addresses the first stays. *)
Fixpoint dedup_after (prev : Ipv6Addr) (l : list (Ipv6Addr * bool)) : list (Ipv6Addr * bool) :=
  match l with
  | [] => []
  | a :: l' => if bool_decide (a.1 = prev) then dedup_after prev l' else a :: dedup_after a.1 l'
  end.

Definition dedup_addrs (l : list (Ipv6Addr * bool)) : list (Ipv6Addr * bool) :=
  match l with
  | [] => []
  | a :: l' => a :: dedup_after a.1 l'
  end.

Definition parse_if_inet6 (text : bytes) : list (bytes * list Ipv6Addr) :=
  let out := fold_left (fun out line => match if_inet6_line line with
                                        | Some (name, a) => push_address out name a
                                        | None => out
                                        end) (lines text) [] in
  (fun na => (na.1, (dedup_addrs (merge_sort addr_le na.2)).*1)) <$> merge_sort name_le out.
End kernel.

(** A network interface's index: from the table of addresses, or else from the
    interface's own file, [sys] being its number when that file can be read. *)
Definition index_line (name line : bytes) : option Z :=
  match split_whitespace line with
  | _ :: index :: _ :: _ :: _ :: last :: _ => if bool_decide (last = name) then from_str_radix U32_MAX index 16 else None
  | _ => None
  end.

Definition interface_index (proc : option bytes) (sys : bytes -> option Z) (name : bytes) : option Z :=
  match (text ← proc; head (omap (index_line name) (lines text))) with
  | Some index => Some index
  | None => if bool_decide (name = [] \/ 47 ∈ name) then None else sys name
  end.

(** What the kernel answers during one turn of the task. [/proc/net/if_inet6]
    is read anew by every scan and every index lookup. *)
Record Host : Type := mkHost {
  h_inet6 : nat -> option bytes;            (** the file at the [k]th scan *)
  h_proc : nat -> option bytes;             (** the file at the [k]th index lookup *)
  h_sys : bytes -> option Z;                (** an interface's own index file *)
  h_bind : bytes -> bool;                   (** [bind_reuse] for an interface *)
  h_send : bytes -> bool;                   (** [send_to] on an interface *)
  h_listen : Scheme -> bytes -> result bytes (** a listener's local address *) }.

Definition h_index (h : Host) (k : nat) (name : bytes) : option Z := interface_index (h_proc h k) (h_sys h) name.

Definition link_local_addresses `{!Hex} (h : Host) (k : nat) : list (bytes * list Ipv6Addr) :=
  match h_inet6 h k with
  | Some text => parse_if_inet6 text
  | None => []
  end.

(** ** The sockets *)

(** What waits on a socket. *)
Inductive recv_event : Type :=
  | RecvV6 (from : SocketAddrV6) (data : bytes)
  | RecvV4 (data : bytes)
  | RecvErr.

Definition RECV : nat := 2048.
Definition TICK : Z := from_secs 1.

Record Discovery : Type := mkDiscovery {
  d_socks : gmap bytes (list recv_event); d_inner : Multicast; d_config : list MulticastRow;
  d_listening : gmap bytes bytes; d_published : list MulticastInterfaceState; d_next_tick : Z }.

Definition set_socks (f : gmap bytes (list recv_event) -> gmap bytes (list recv_event)) (d : Discovery) : Discovery :=
  mkDiscovery (f (d_socks d)) (d_inner d) (d_config d) (d_listening d) (d_published d) (d_next_tick d).
Definition set_inner (m : Multicast) (d : Discovery) : Discovery :=
  mkDiscovery (d_socks d) m (d_config d) (d_listening d) (d_published d) (d_next_tick d).
Definition set_listening (f : gmap bytes bytes -> gmap bytes bytes) (d : Discovery) : Discovery :=
  mkDiscovery (d_socks d) (d_inner d) (d_config d) (f (d_listening d)) (d_published d) (d_next_tick d).

(** The state before the probe of the group port, and what the probe leaves. *)
Definition Discovery_new (pubkey : bytes) (now : Z) : Discovery := mkDiscovery ∅ (Multicast_new pubkey) [] ∅ [] now.
Definition with_table (bindable : bool) (pubkey : bytes) (now : Z) : option Discovery :=
  if bindable then Some (Discovery_new pubkey now) else None.

Definition set_config (rows : list MulticastRow) (d : Discovery) : Discovery :=
  mkDiscovery (d_socks d) (d_inner d) rows (d_listening d) (d_published d) (d_next_tick d).

Definition listener_bound (d : Discovery) (iface address : bytes) : Discovery := set_listening <[iface := address]> d.
Definition listener_gone (d : Discovery) (iface : bytes) : Discovery := set_listening (delete iface) d.

Section tick.
Context `{!Regex} `{!Hex} `{!Blake2}.

Definition scan_interface (rows : list MulticastRow) (na : bytes * list Ipv6Addr) : option InterfaceConfig :=
  row ← config_for rows na.1;
  link_local ← head na.2;
  Some (mkInterfaceConfig na.1 link_local (mr_beacon row) (mr_listen row) (mr_port row) (mr_priority row) (mr_password row)).

Definition scan_interfaces (d : Discovery) (h : Host) (k : nat) : list InterfaceConfig :=
  omap (scan_interface (d_config d)) (link_local_addresses h k).

(** The interfaces that need a group socket. *)
Definition wanted (h : Host) (ifaces : list InterfaceConfig) : list bytes :=
  omap (fun i => if if_listen i then (fun _ => if_name i) <$> h_index h 0 (if_name i) else None) ifaces.

Definition open_socket (h : Host) (socks : gmap bytes (list recv_event)) (name : bytes) : gmap bytes (list recv_event) :=
  match socks !! name with
  | Some _ => socks
  | None => if h_bind h name then <[name := []]> socks else socks
  end.

Definition rescan (d : Discovery) (h : Host) : Discovery :=
  let names := wanted h (scan_interfaces d h 0) in
  set_socks (fun socks => filter (fun ns => ns.1 ∈ names) (fold_left (open_socket h) names socks)) d.

(** A beacon leaves by the socket of its interface. *)
Definition send_beacon (d : Discovery) (h : Host) (iface : bytes) : bool :=
  match d_socks d !! iface with
  | None => false
  | Some _ => match h_index h 1 iface with Some _ => h_send h iface | None => false end
  end.

(** The state, the commands for the caller, and the beacons that went out. *)
Definition carry_out (h : Host) (acc : Discovery * list Command * list (bytes * bytes)) (cmd : Command)
  : Discovery * list Command * list (bytes * bytes) :=
  let '(d, out, sent) := acc in
  match cmd with
  | Beacon iface b => (d, out, if send_beacon d h iface then sent ++ [(iface, b)] else sent)
  | Bind iface link_local _ uri => (d, out ++ [Bind iface link_local 0 uri], sent)
  | Unbind iface => (set_listening (delete iface) (set_socks (delete iface) d), out, sent)
  | DialPeer _ _ _ => (d, out ++ [cmd], sent)
  end.

Definition publish (d : Discovery) (h : Host) : Discovery :=
  mkDiscovery (d_socks d) (d_inner d) (d_config d) (d_listening d)
    ((fun i => mkMulticastInterfaceState (if_name i) (unwrap_or (d_listening d !! if_name i) (str "-"))
                 (if_beacon i) (if_listen i) (bool_decide (if_password i <> []))) <$> scan_interfaces d h 2)
    (d_next_tick d).

Definition report_ports (bind_listener : bytes -> Ipv6Addr -> option Z) (m : Multicast) (iface : InterfaceConfig) : Multicast :=
  match bind_listener (if_name iface) (if_link_local iface) with
  | Some port => listener_up m (if_name iface) port
  | None => m
  end.

Definition Discovery_tick (d : Discovery) (h : Host) (bind_listener : bytes -> Ipv6Addr -> option Z) (now : Z)
  : Discovery * list Command * list (bytes * bytes) :=
  let d := rescan d h in
  let ifaces := scan_interfaces d h 1 in
  let inner := fold_left (report_ports bind_listener) ifaces (d_inner d) in
  let inner := set_interfaces inner ifaces in
  let '(inner, announced) := announce inner now in
  let '(d, out, sent) := fold_left (carry_out h) announced (set_inner inner d, [], []) in
  let d := publish d h in
  (mkDiscovery (d_socks d) (d_inner d) (d_config d) (d_listening d) (d_published d) (now + TICK), out, sent).

(** At most 32 datagrams of one socket. *)
Fixpoint drain_socket (n : nat) (m : Multicast) (zone : bytes) (queue : list recv_event) : list recv_event * list Command :=
  match n, queue with
  | O, _ => (queue, [])
  | _, [] => ([], [])
  | S _, RecvErr :: rest => (rest, [])
  | S n, RecvV4 _ :: rest => drain_socket n m zone rest
  | S n, RecvV6 from data :: rest =>
    let '(queue, out) := drain_socket n m zone rest in
    (queue, match receive m zone from (take RECV data) with Some cmd => cmd :: out | None => out end)
  end.

Definition receive_socket (acc : Discovery * list Command) (zone : bytes) : Discovery * list Command :=
  let '(d, out) := acc in
  match d_socks d !! zone with
  | None => acc
  | Some queue =>
    let '(queue, cmds) := drain_socket 32 (d_inner d) zone queue in
    (set_socks <[zone := queue]> d, out ++ cmds)
  end.

Definition Discovery_receive (d : Discovery) : Discovery * list Command :=
  fold_left receive_socket (sort_keys (map_to_list (d_socks d)).*1) (d, []).
End tick.

(** ** The task *)

Definition scheme_name (s : Scheme) : bytes :=
  match s with
  | SchemeTcp => str "tcp"
  | SchemeTls => str "tls"
  | SchemeWs => str "ws"
  | SchemeWss => str "wss"
  | SchemeQuic => str "quic"
  end.

(** What a listener sends the node for a link it accepted. *)
Definition listen_accept (scheme : bytes) (conn : AnyConn) : Cmd :=
  CmdAccept conn ((fun addr => scheme ++ str "://" ++ addr) <$> c_remote_addr conn).

Definition with_zone_index (uri : bytes) (index : Z) : bytes :=
  match find_char 91 uri with
  | None => uri
  | Some open =>
    match find_char 93 (drop open uri) with
    | None => uri
    | Some at_ =>
      let close := (open + at_)%nat in
      if bool_decide (37 ∈ slice uri (open + 1) close) then uri
      else take close uri ++ str "%" ++ dec index ++ drop close uri
    end
  end.

Definition bound_addr (uri : option bytes) : option (bytes * Z) :=
  uri ← uri;
  '(_, addr) ← split_once_str (str "://") uri;
  '(_, tail) ← rsplit_once 58 addr;
  port ← parse_uint U16_MAX tail;
  Some (addr, port).

Definition dial_once (uri sintf : bytes) : Cmd := CmdDial uri sintf false None.

Record LanTask : Type := mkLanTask { lt_discovery : Discovery; lt_listeners : gmap bytes Z }.

(** The task does not start when no row asks for anything, nor when the group
    port cannot be bound. *)
Definition lan_task (rows : list MulticastRow) (bindable : bool) (pubkey : bytes) (now : Z) : option LanTask :=
  if forallb (fun r => negb (mr_beacon r) && negb (mr_listen r)) rows then None
  else d ← with_table bindable pubkey now; Some (mkLanTask (set_config rows d) ∅).

Section task.
Context `{!Regex} `{!Hex} `{!Blake2}.

Fixpoint spawn_listeners (h : Host) (uris : list bytes) : result (list bytes) :=
  match uris with
  | [] => Ok []
  | uri :: uris =>
    '(scheme, _) ← parse_link_uri uri;
    addr ← h_listen h scheme uri;
    served ← spawn_listeners h uris;
    Ok ((scheme_name scheme ++ str "://" ++ addr) :: served)
  end.

Definition on_bind (h : Host) (t : LanTask) (iface uri : bytes) : LanTask :=
  match lt_listeners t !! iface with
  | Some _ => t
  | None =>
    match h_index h 2 iface with
    | None => t
    | Some index =>
      match spawn_listeners h [with_zone_index uri index] with
      | Err _ => t
      | Ok served =>
        match bound_addr (head served) with
        | Some (addr, port) => mkLanTask (listener_bound (lt_discovery t) iface addr) (<[iface := port]> (lt_listeners t))
        | None => t
        end
      end
    end
  end.

Definition on_command (h : Host) (acc : LanTask * list Cmd) (cmd : Command) : LanTask * list Cmd :=
  let '(t, out) := acc in
  match cmd with
  | Bind iface _ _ uri => (on_bind h t iface uri, out)
  | Unbind iface => (mkLanTask (listener_gone (lt_discovery t) iface) (delete iface (lt_listeners t)), out)
  | DialPeer uri sintf _ => (t, out ++ [dial_once uri sintf])
  | Beacon _ _ => acc
  end.

(** Datagrams that arrive wait on the socket of their interface. *)
Definition arrive (arrivals : gmap bytes (list recv_event)) (d : Discovery) : Discovery :=
  set_socks (map_imap (fun zone queue => Some (queue ++ unwrap_or (arrivals !! zone) []))) d.

Definition received_dial (cmd : Command) : option Cmd :=
  match cmd with DialPeer uri sintf _ => Some (dial_once uri sintf) | _ => None end.

(** One turn of the loop: the task, the beacons sent, the commands to the node. *)
Definition lan_turn (h : Host) (now : Z) (arrivals : gmap bytes (list recv_event)) (t : LanTask)
  : LanTask * list (bytes * bytes) * list Cmd :=
  let known := lt_listeners t in
  let '(d, cmds, sent) := Discovery_tick (lt_discovery t) h (fun iface _ => known !! iface) now in
  let '(t, out) := fold_left (on_command h) cmds (mkLanTask d known, []) in
  let '(d, cmds) := Discovery_receive (arrive arrivals (lt_discovery t)) in
  (mkLanTask d (lt_listeners t), sent, out ++ omap received_dial cmds).
End task.

(** ** The scan *)

Section scan.
Context `{!Hex}.

Lemma push_names out name a : (push_address out name a).*1 = if bool_decide (name ∈ out.*1) then out.*1 else out.*1 ++ [name].
Proof.
  induction out as [|[n l] out IH]; cbn [push_address fmap list_fmap fst app].
  { by rewrite bool_decide_eq_false_2 by apply not_elem_of_nil. }
  destruct (decide (n = name)) as [->|Hn].
  - rewrite (bool_decide_eq_true_2 (name = name)), bool_decide_eq_true_2; [done|by left|done].
  - rewrite (bool_decide_eq_false_2 (n = name)) by done. cbn [fmap list_fmap fst]. rewrite IH.
    destruct (decide (name ∈ out.*1)); [rewrite !bool_decide_eq_true_2; [done|by right|done]|].
    rewrite !bool_decide_eq_false_2; [done| |done]. rewrite not_elem_of_cons. by split.
Qed.

(** The table under construction lists exactly the addresses seen. *)
Definition table_of (rows : list (bytes * (Ipv6Addr * bool))) (out : list (bytes * list (Ipv6Addr * bool))) : Prop :=
  NoDup out.*1 /\ (forall n, n ∈ out.*1 <-> n ∈ rows.*1) /\ (forall n l, (n, l) ∈ out -> l <> [] /\ forall a, a ∈ l <-> (n, a) ∈ rows).

Lemma pair_fst_elem {A B} (a : A) (b : B) (l : list (A * B)) : (a, b) ∈ l -> a ∈ l.*1.
Proof. intros Hin. change a with (fst (a, b)). by apply list_elem_of_fmap_2. Qed.

Lemma push_elem out name a n l : NoDup out.*1 -> (n, l) ∈ push_address out name a ->
  (n <> name /\ (n, l) ∈ out) \/ (n = name /\ ((exists l', (n, l') ∈ out /\ l = l' ++ [a]) \/ ((name ∉ out.*1) /\ l = [a]))).
Proof.
  induction out as [|[m k] out IH]; cbn [push_address fmap list_fmap fst]; intros Hnd Hin.
  { apply list_elem_of_singleton in Hin as [= -> ->]. right. split; [done|]. right. split; [apply not_elem_of_nil|done]. }
  apply NoDup_cons in Hnd as [Hm Hnd]. destruct (decide (m = name)) as [->|Hne].
  - rewrite (bool_decide_eq_true_2 (name = name)) in Hin by done. apply elem_of_cons in Hin as [[= -> ->]|Hin].
    + right. split; [done|]. left. exists k. split; [by left|done].
    + left. split; [|by right]. intros ->. by apply Hm, (pair_fst_elem _ l).
  - rewrite (bool_decide_eq_false_2 (m = name)) in Hin by done. apply elem_of_cons in Hin as [[= -> ->]|Hin]; [left; split; [done|by left]|].
    destruct (IH Hnd Hin) as [[? ?]|[-> [(l' & ? & ->)|[Hn ->]]]].
    + left. split; [done|by right].
    + right. split; [done|]. left. exists l'. split; [by right|done].
    + right. split; [done|]. right. split; [by rewrite not_elem_of_cons|done].
Qed.

Lemma push_table rows out name a : table_of rows out -> table_of (rows ++ [(name, a)]) (push_address out name a).
Proof.
  intros (Hnd & Hn & Hl). split; [|split].
  - rewrite push_names. case_bool_decide as Hin; [done|]. apply NoDup_app. split; [done|]. split; [|apply NoDup_singleton].
    intros x Hx Hs. apply list_elem_of_singleton in Hs as ->. done.
  - intros n. rewrite push_names, fmap_app, elem_of_app, <-Hn. cbn [fmap list_fmap fst]. rewrite list_elem_of_singleton.
    case_bool_decide as Hin; [|by rewrite elem_of_app, list_elem_of_singleton]. split; [by left|]. intros [?| ->]; done.
  - intros n l Hin. apply push_elem in Hin as [[Hne Hin]|[-> [(l' & Hin & ->)|[Hno ->]]]]; [..|done].
    + destruct (Hl n l Hin) as [He Ha]. split; [done|]. intros b. rewrite Ha, elem_of_app, list_elem_of_singleton.
      split; [by left|]. intros [?|[= -> _]]; done.
    + destruct (Hl name l' Hin) as [He Ha]. split; [by destruct l'|]. intros b.
      rewrite !elem_of_app, Ha, !list_elem_of_singleton. split; (intros [?|E]; [by left|right]); [by rewrite E|by injection E].
    + split; [done|]. intros b. rewrite elem_of_app, !list_elem_of_singleton. split; [intros ->; by right|].
      intros [Hb|E]; [|by injection E]. destruct Hno. apply Hn. by apply (pair_fst_elem _ b).
Qed.

Definition kernel_rows (text : bytes) : list (bytes * (Ipv6Addr * bool)) := omap if_inet6_line (lines text).

Lemma omap_app {A B} (f : A -> option B) l k : omap f (l ++ k) = omap f l ++ omap f k.
Proof. induction l as [|x l IH]; cbn; [done|]. rewrite IH. by destruct (f x). Qed.

Lemma table_of_text ls : table_of (omap if_inet6_line ls)
  (fold_left (fun out line => match if_inet6_line line with Some (name, a) => push_address out name a | None => out end) ls []).
Proof.
  induction ls as [|line ls IH] using rev_ind; cbn [fold_left omap list_omap].
  { split; [apply NoDup_nil_2|]. split; [done|]. by intros n l ?%not_elem_of_nil. }
  rewrite fold_left_app, omap_app. cbn [fold_left omap list_omap].
  destruct (if_inet6_line line) as [[name a]|]; [by apply push_table|by rewrite app_nil_r].
Qed.

#[local] Instance name_le_total {A} : Total (@name_le A).
Proof. intros a b. apply (lex_le_total a.1 b.1). Qed.
#[local] Instance name_le_trans {A} : Transitive (@name_le A).
Proof. intros a b c. unfold name_le. apply transitivity. Qed.
#[local] Instance addr_le_total : Total addr_le.
Proof. intros a b. apply (lex_le_total (addr_rank a) (addr_rank b)). Qed.
#[local] Instance addr_le_trans : Transitive addr_le.
Proof. intros a b c. unfold addr_le. apply transitivity. Qed.

Lemma dedup_after_elem prev l x : x ∈ l.*1 -> x = prev \/ x ∈ (dedup_after prev l).*1.
Proof.
  revert prev. induction l as [|[a u] l IH]; intros prev Hx; cbn [dedup_after]; [by apply not_elem_of_nil in Hx|].
  cbn [fmap list_fmap fst] in *. case_bool_decide as E; cbn [fmap list_fmap fst] in *.
  - apply elem_of_cons in Hx as [->|Hx]; [by left|by apply IH].
  - apply elem_of_cons in Hx as [->|Hx]; [right; by left|]. destruct (IH a Hx) as [->|?]; right; [by left|by right].
Qed.

Lemma dedup_after_sub prev l x : x ∈ dedup_after prev l -> x ∈ l.
Proof.
  revert prev. induction l as [|a l IH]; intros prev; cbn [dedup_after]; [done|]. case_bool_decide; [intros Hx; right; by eapply IH|].
  intros [->|Hx]%elem_of_cons; [by left|right; by eapply IH].
Qed.

Lemma dedup_addrs_elem l x : x ∈ (dedup_addrs l).*1 <-> x ∈ l.*1.
Proof.
  destruct l as [|a l]; [done|]. cbn [dedup_addrs fmap list_fmap]. rewrite !elem_of_cons. split.
  - intros [->|Hx]; [by left|]. right. apply list_elem_of_fmap in Hx as (y & -> & Hy). apply list_elem_of_fmap_2. by eapply dedup_after_sub.
  - intros [->|Hx]; [by left|]. destruct (dedup_after_elem a.1 l x Hx) as [->|?]; [by left|by right].
Qed.

Lemma kernel_rows_elem text n a : (n, a) ∈ kernel_rows text <-> exists line, line ∈ lines text /\ if_inet6_line line = Some (n, a).
Proof. unfold kernel_rows. by rewrite list_elem_of_omap. Qed.

(** The rows of the answer against the table they are made of. *)
Lemma parse_row text name addrs : (name, addrs) ∈ parse_if_inet6 text -> exists l,
  addrs = (dedup_addrs (merge_sort addr_le l)).*1 /\ l <> [] /\ forall a, a ∈ l <-> (name, a) ∈ kernel_rows text.
Proof.
  unfold parse_if_inet6. intros Hin. apply list_elem_of_fmap in Hin as ([n l] & E & Hin). injection E as -> ->.
  rewrite merge_sort_Permutation in Hin. destruct (table_of_text (lines text)) as (_ & _ & Ht). destruct (Ht n l Hin) as [He Ha]. by exists l.
Qed.

Lemma parse_names text : (parse_if_inet6 text).*1 = (merge_sort name_le (fold_left (fun out line =>
    match if_inet6_line line with Some (name, a) => push_address out name a | None => out end) (lines text) [])).*1.
Proof. unfold parse_if_inet6. by rewrite <-list_fmap_compose. Qed.

Lemma parse_names_nodup text : NoDup (parse_if_inet6 text).*1.
Proof. rewrite parse_names, merge_sort_Permutation. apply (table_of_text (lines text)). Qed.

Lemma line_link_local line name a u : if_inet6_line line = Some (name, (a, u)) -> is_unicast_link_local a = true.
Proof.
  unfold if_inet6_line. repeat case_match; try done. intros E. simplify_eq. by apply negb_false_iff.
Qed.

(** The scan of the kernel's table is exact. An interface is listed once, in
    name order, exactly when a line gives it an address of link scope; and its
    addresses are exactly those lines' addresses, at least one, all in
    [fe80::/10]. *)
Theorem if_inet6_exact (text : bytes) : let r := parse_if_inet6 text in
  NoDup r.*1 /\ StronglySorted (fun a b => lex_le a b) r.*1 /\
  (forall name, name ∈ r.*1 <-> exists line a u, line ∈ lines text /\ if_inet6_line line = Some (name, (a, u))) /\
  (forall name addrs, (name, addrs) ∈ r -> addrs <> [] /\ Forall (fun a => is_unicast_link_local a = true) addrs /\
     forall a, a ∈ addrs <-> exists line u, line ∈ lines text /\ if_inet6_line line = Some (name, (a, u))).
Proof.
  intros r. destruct (table_of_text (lines text)) as (_ & Hn & _). split; [apply parse_names_nodup|]. split; [|split].
  - unfold r. rewrite parse_names. apply (StronglySorted_fmap fst name_le); [by intros a b|]. apply StronglySorted_merge_sort; apply _.
  - intros name. unfold r. rewrite parse_names, merge_sort_Permutation, Hn, list_elem_of_fmap. split.
    + intros ([n [a u]] & -> & Hin). apply kernel_rows_elem in Hin as (line & Hl & E). by exists line, a, u.
    + intros (line & a & u & Hl & E). exists (name, (a, u)). split; [done|]. apply kernel_rows_elem. by exists line.
  - intros name addrs Hin. apply parse_row in Hin as (l & -> & Hne & Hl).
    assert (forall a, a ∈ (dedup_addrs (merge_sort addr_le l)).*1 <-> exists line u, line ∈ lines text /\ if_inet6_line line = Some (name, (a, u))) as Ha.
    { intros a. rewrite dedup_addrs_elem, merge_sort_Permutation, list_elem_of_fmap. split.
      - intros ([a' u] & -> & Hin). apply Hl, kernel_rows_elem in Hin as (line & ? & E). by exists line, u.
      - intros (line & u & Hline & E). exists (a, u). split; [done|]. apply Hl, kernel_rows_elem. by exists line. }
    split; [|split; [|exact Ha]].
    + destruct l as [|[a u] l]; [done|]. intros E. assert (a ∈ (dedup_addrs (merge_sort addr_le ((a, u) :: l))).*1) as Hin.
      { apply dedup_addrs_elem. rewrite merge_sort_Permutation. by left. }
      rewrite E in Hin. by apply not_elem_of_nil in Hin.
    + apply Forall_forall. intros a Hin. apply Ha in Hin as (line & u & _ & E). by eapply line_link_local.
Qed.

(** The first address of an interface, the one a listener is bound to, is one
    that cannot be used as soon as the interface has any such address. *)
Lemma unusable_first text name a rest b : (name, a :: rest) ∈ parse_if_inet6 text ->
  (name, (b, true)) ∈ kernel_rows text -> (name, (a, true)) ∈ kernel_rows text.
Proof.
  intros Hin Hb. apply parse_row in Hin as (l & E & _ & Hl). pose proof (StronglySorted_merge_sort addr_le l) as Hs.
  assert (forall x, x ∈ merge_sort addr_le l <-> x ∈ l) as Hp by (intros x; by rewrite merge_sort_Permutation).
  destruct (merge_sort addr_le l) as [|[a' u] k]; [done|]. cbn in E. injection E as -> _.
  apply Hl in Hb. apply Hp in Hb. destruct u; [apply Hl, Hp; by left|]. exfalso.
  apply StronglySorted_inv in Hs as [_ Hs]. rewrite Forall_forall in Hs.
  apply elem_of_cons in Hb as [[=]|Hb]. specialize (Hs _ Hb). unfold addr_le, lex_le, addr_rank in Hs. done.
Qed.
End scan.
