(* ===== verification/LanTask.v ===== *)
(** * LanTask: what the discovery task does, turn by turn.

    The announce machine of [Lan] taken apart by interface (each pass of a tick
    touches one interface at a time), a tick of [Discover] in terms of it, and
    the properties of the task's runs: its beacons are honest, its dials go to
    members only, and a node that wants to be found is heard. *)
From Stdlib Require Import Strings.String.
From stdpp Require Import base tactics list numbers gmap sorting.
From S2P Require Import Prelude Errors Clock Text Words Frame Address Wire Handshake LinkSet Uri Lan Node Discover.

Local Open Scope Z_scope.

(** ** The state machine, interface by interface *)

(** A step of [announce] on the state of one interface alone. *)
Definition alone (f : gmap bytes IfaceState * list Command -> bytes -> gmap bytes IfaceState * list Command)
    (name : bytes) (st : option IfaceState) : option IfaceState * list Command :=
  let '(ifaces, out) := f (from_option (singletonM name) ∅ st, []) name in (ifaces !! name, out).

(** A step that touches its own interface only. *)
Definition local_step (f : gmap bytes IfaceState * list Command -> bytes -> gmap bytes IfaceState * list Command) : Prop :=
  forall ifaces out name,
    (f (ifaces, out) name).1 !! name = (alone f name (ifaces !! name)).1 /\
    (f (ifaces, out) name).2 = out ++ (alone f name (ifaces !! name)).2 /\
    forall n, n <> name -> (f (ifaces, out) name).1 !! n = ifaces !! n.

Lemma from_option_lookup (name : bytes) (st : option IfaceState) :
  (from_option (singletonM name) ∅ st : gmap bytes IfaceState) !! name = st.
Proof. destruct st; cbn; [apply lookup_singleton_eq|apply lookup_empty]. Qed.

Lemma stop_local : local_step announce_stop.
Proof.
  intros ifaces out name. unfold alone, announce_stop. rewrite from_option_lookup. destruct (ifaces !! name) as [st|] eqn:E.
  - destruct (listener_stale st); cbn [fst snd]; rewrite ?lookup_insert_eq, ?app_nil_r, ?from_option_lookup.
    + split; [done|]. split; [done|]. intros n Hn. by rewrite lookup_insert_ne.
    + by rewrite E.
  - cbn [fst snd]. by rewrite ?app_nil_r, ?from_option_lookup, E.
Qed.

Lemma one_local `{!Blake2} pk now : local_step (announce_one pk now).
Proof.
  intros ifaces out name. unfold alone, announce_one. rewrite from_option_lookup.
  destruct (ifaces !! name) as [st|] eqn:E; [|cbn [fst snd]; by rewrite ?app_nil_r, ?from_option_lookup, E].
  destruct (is_cfg st) as [cfg|]; [|cbn [fst snd]; by rewrite ?app_nil_r, ?from_option_lookup, E].
  cbn [is_bind_addr is_listener_port is_last_beacon is_interval is_hash is_cfg]. cbn zeta.
  repeat case_match; cbn [fst snd]; rewrite !lookup_insert_eq, ?app_nil_r;
    (split; [done|]; split; [done|intros n Hn; by rewrite lookup_insert_ne]).
Qed.

Lemma fold_local f names ifaces out : local_step f -> NoDup names ->
  let '(ifaces', out') := fold_left f names (ifaces, out) in
  (forall name, ifaces' !! name = if bool_decide (name ∈ names) then (alone f name (ifaces !! name)).1 else ifaces !! name) /\
  out' = out ++ flat_map (fun name => (alone f name (ifaces !! name)).2) names.
Proof.
  intros Hf. revert ifaces out. induction names as [|n names IH]; intros ifaces out Hnd; cbn [fold_left flat_map].
  { split; [|by rewrite app_nil_r]. intros name. by rewrite bool_decide_eq_false_2 by apply not_elem_of_nil. }
  apply NoDup_cons in Hnd as [Hn Hnd]. destruct (Hf ifaces out n) as (H1 & H2 & H3).
  destruct (f (ifaces, out) n) as [ifaces1 out1]. cbn [fst snd] in *. specialize (IH ifaces1 out1 Hnd).
  destruct (fold_left f names (ifaces1, out1)) as [ifaces' out']. destruct IH as [I1 I2]. split.
  - intros name. rewrite I1. destruct (decide (name = n)) as [->|Hne].
    + rewrite bool_decide_eq_false_2 by done. rewrite bool_decide_eq_true_2 by left. done.
    + rewrite H3 by done. destruct (decide (name ∈ names)).
      * rewrite !bool_decide_eq_true_2; [done|by right|done].
      * rewrite !bool_decide_eq_false_2; [done| |done]. by rewrite not_elem_of_cons.
  - rewrite I2, H2, <-app_assoc. do 2 f_equal. clear -H3 Hn. induction names as [|x names IH]; cbn [flat_map]; [done|].
    apply not_elem_of_cons in Hn as [Hx Hn]. by rewrite H3, IH by done.
Qed.

Section ticks.
Context `{!Blake2}.

(** The state an interface has after a tick, and the two passes' commands. *)
Definition stopped (name : bytes) (st : option IfaceState) : option IfaceState * list Command := alone announce_stop name st.
Definition announced (pk : bytes) (now : Z) (name : bytes) (st : option IfaceState) : option IfaceState * list Command :=
  alone (announce_one pk now) name (stopped name st).1.

Lemma announce_each m now : let '(m', out) := announce m now in
  mc_local_pubkey m' = mc_local_pubkey m /\
  (forall name, mc_ifaces m' !! name = (announced (mc_local_pubkey m) now name (mc_ifaces m !! name)).1) /\
  (forall cmd, cmd ∈ out <-> exists name st, mc_ifaces m !! name = Some st /\
     (cmd ∈ (stopped name (Some st)).2 \/ cmd ∈ (announced (mc_local_pubkey m) now name (Some st)).2)).
Proof.
  unfold announce. set (names := sort_keys _).
  assert (NoDup names) as Hnd by (unfold names, sort_keys; rewrite merge_sort_Permutation; apply NoDup_fst_map_to_list).
  assert (forall name, name ∈ names <-> is_Some (mc_ifaces m !! name)) as Hin.
  { intros name. unfold names, sort_keys. rewrite merge_sort_Permutation, list_elem_of_fmap. split.
    - intros ([n st] & -> & Hn). apply elem_of_map_to_list in Hn. by eexists.
    - intros [st Hst]. exists (name, st). split; [done|]. by apply elem_of_map_to_list. }
  pose proof (fold_local announce_stop names (mc_ifaces m) [] stop_local Hnd) as H1.
  destruct (fold_left announce_stop names (mc_ifaces m, [])) as [i1 o1]. destruct H1 as [A1 B1].
  pose proof (fold_local (announce_one (mc_local_pubkey m) now) names i1 o1 (one_local _ _) Hnd) as H2.
  destruct (fold_left _ names (i1, o1)) as [i2 o2]. destruct H2 as [A2 B2]. cbn [mc_local_pubkey mc_ifaces]. split; [done|].
  assert (forall name, name ∈ names -> i1 !! name = (stopped name (mc_ifaces m !! name)).1) as Hi1.
  { intros name Hn. rewrite A1, bool_decide_eq_true_2; done. }
  split.
  - intros name. rewrite A2. destruct (decide (name ∈ names)) as [Hn|Hn].
    + rewrite bool_decide_eq_true_2 by done. unfold announced. by rewrite Hi1.
    + rewrite bool_decide_eq_false_2 by done. rewrite A1, bool_decide_eq_false_2 by done.
      destruct (mc_ifaces m !! name) eqn:E; [destruct Hn; apply Hin; by eexists|].
      unfold announced, stopped, alone, announce_stop, announce_one. cbn. rewrite !lookup_empty. cbn. by rewrite lookup_empty.
  - intros cmd. rewrite B2, B1, app_nil_l, elem_of_app, !flat_map_elem. split.
    + intros [(n & Hn & Hc)|(n & Hn & Hc)].
      * destruct (proj1 (Hin n) Hn) as [st E]. rewrite E in Hc. exists n, st. split; [done|]. by left.
      * rewrite Hi1 in Hc by done. destruct (proj1 (Hin n) Hn) as [st E]. rewrite E in Hc. exists n, st. split; [done|]. by right.
    + intros (n & st & E & [Hc|Hc]); [left|right]; exists n; (split; [apply Hin; by eexists|]).
      * by rewrite E.
      * rewrite Hi1 by (apply Hin; by eexists). by rewrite E.
Qed.
End ticks.

Section scans.
Context `{!Blake2}.

Definition eligible (cfg : InterfaceConfig) : Prop :=
  if_beacon cfg || if_listen cfg = true /\ (length (if_password cfg) <= MAX_PASSWORD_LEN)%nat.

Lemma scan_one_cases pk old next cfg :
  (~ eligible cfg /\ scan_one pk (old, next) cfg = (old, next)) \/
  (eligible cfg /\ scan_one pk (old, next) cfg =
     (delete (if_name cfg) old, <[if_name cfg := scanned pk cfg (old !! if_name cfg)]> next)).
Proof.
  unfold scan_one, eligible. destruct (if_beacon cfg), (if_listen cfg); cbn [negb andb orb]; try (left; split; [by intros [? _]|done]);
    destruct (decide _); (left; split; [by intros [_ ?]; lia|done]) || (right; split; [split; [done|lia]|done]).
Qed.

Lemma scan_fold pk ifaces old next : NoDup (if_name <$> ifaces) ->
  let '(old', next') := fold_left (scan_one pk) ifaces (old, next) in
  (forall cfg, cfg ∈ ifaces -> eligible cfg ->
     next' !! if_name cfg = Some (scanned pk cfg (old !! if_name cfg)) /\ old' !! if_name cfg = None) /\
  (forall name, (forall cfg, cfg ∈ ifaces -> eligible cfg -> if_name cfg <> name) ->
     next' !! name = next !! name /\ old' !! name = old !! name).
Proof.
  revert old next. induction ifaces as [|cfg ifaces IH]; intros old next Hnd; cbn [fold_left].
  { split; [by intros cfg ?%not_elem_of_nil|done]. }
  cbn [fmap list_fmap] in Hnd. apply NoDup_cons in Hnd as [Hni Hnd].
  assert (forall c, c ∈ ifaces -> if_name c <> if_name cfg) as Hne.
  { intros c Hc E. apply Hni. rewrite <-E. by apply list_elem_of_fmap_2. }
  destruct (scan_one_cases pk old next cfg) as [[Hel ->]|[Hel ->]].
  - specialize (IH old next Hnd). destruct (fold_left _ _ _) as [old' next']. destruct IH as [I1 I2]. split.
    + intros c [->|Hc]%elem_of_cons He; [done|by apply I1].
    + intros name Hn. apply I2. intros c Hc. apply Hn. by right.
  - specialize (IH (delete (if_name cfg) old) (<[if_name cfg := scanned pk cfg (old !! if_name cfg)]> next) Hnd).
    destruct (fold_left _ _ _) as [old' next']. destruct IH as [I1 I2]. split.
    + intros c [->|Hc]%elem_of_cons He.
      * destruct (I2 (if_name cfg)) as [-> ->]; [intros c Hc _; by apply Hne|]. by rewrite lookup_insert_eq, lookup_delete_eq.
      * destruct (I1 c Hc He) as [-> ->]. rewrite lookup_delete_ne; [done|]. intros E. by apply (Hne c).
    + intros name Hn. destruct (I2 name) as [-> ->]; [intros c Hc; apply Hn; by right|].
      assert (if_name cfg <> name) by (apply Hn; [by left|done]). by rewrite lookup_insert_ne, lookup_delete_ne.
Qed.

(** An interface of the scan, and one that is not in it. *)
Lemma set_interfaces_listed m ifaces cfg : NoDup (if_name <$> ifaces) -> cfg ∈ ifaces -> eligible cfg ->
  mc_ifaces (set_interfaces m ifaces) !! if_name cfg = Some (scanned (mc_local_pubkey m) cfg (mc_ifaces m !! if_name cfg)).
Proof.
  intros Hnd Hin Hel. unfold set_interfaces. pose proof (scan_fold (mc_local_pubkey m) ifaces (mc_ifaces m) ∅ Hnd) as Hs.
  destruct (fold_left _ _ _) as [old next]. destruct Hs as [Hs _]. destruct (Hs cfg Hin Hel) as [Hn Ho]. cbn [mc_ifaces].
  by rewrite lookup_union, lookup_omap, Ho, Hn.
Qed.

Lemma set_interfaces_cfg m ifaces name st cfg : NoDup (if_name <$> ifaces) ->
  mc_ifaces (set_interfaces m ifaces) !! name = Some st -> is_cfg st = Some cfg -> cfg ∈ ifaces /\ if_name cfg = name /\ eligible cfg.
Proof.
  intros Hnd. unfold set_interfaces. pose proof (scan_fold (mc_local_pubkey m) ifaces (mc_ifaces m) ∅ Hnd) as Hs.
  destruct (fold_left _ _ _) as [old next]. destruct Hs as [H1 H2]. cbn [mc_ifaces]. intros Hl Hc.
  destruct (decide (Exists (fun c => if_name c = name /\ if_beacon c || if_listen c = true /\ (length (if_password c) <= MAX_PASSWORD_LEN)%nat) ifaces)) as [He|He].
  - apply Exists_exists in He as (c & Hin & <- & Hel). destruct (H1 c Hin Hel) as [Hn Ho].
    rewrite lookup_union, lookup_omap, Ho, Hn in Hl. cbn in Hl. injection Hl as <-.
    assert (is_cfg (scanned (mc_local_pubkey m) c (mc_ifaces m !! if_name c)) = Some c) as E by (unfold scanned; by destruct (mc_ifaces m !! if_name c)).
    rewrite E in Hc. injection Hc as <-. done.
  - destruct (H2 name) as [Hn Ho]. { intros c Hin Hel E. apply He, Exists_exists. exists c. done. }
    rewrite lookup_union, lookup_omap, Ho, Hn, lookup_empty in Hl. destruct (mc_ifaces m !! name) as [o|]; cbn in Hl; [|done].
    unfold left_scan in Hl. destruct (is_bind_addr o); cbn in Hl; [|done]. by injection Hl as <-.
Qed.

(** A tick keeps the configuration of every interface, and dials nobody. *)
Lemma announced_cfg pk now name st : exists st', (announced pk now name (Some st)).1 = Some st' /\ is_cfg st' = is_cfg st.
Proof.
  unfold announced, stopped, alone, announce_stop, announce_one. cbn [from_option]. rewrite lookup_singleton_eq.
  destruct (listener_stale st); cbn [fst snd]; rewrite ?insert_singleton_eq, ?lookup_singleton_eq; cbn [from_option];
    rewrite ?lookup_singleton_eq; cbn [is_cfg is_bind_addr is_listener_port is_last_beacon is_interval is_hash is_joined]; cbn zeta;
    repeat (case_match; simplify_eq/=); rewrite ?lookup_insert_eq, ?lookup_singleton_eq; eexists; (split; [reflexivity|]); done.
Qed.

Lemma announce_no_dial m now m' out uri sintf peer : announce m now = (m', out) -> DialPeer uri sintf peer ∉ out.
Proof.
  intros E Hin. pose proof (announce_each m now) as Ha. rewrite E in Ha. destruct Ha as (_ & _ & Ho).
  apply Ho in Hin as (name & st & _ & Hc). revert Hc.
  unfold announced, stopped, alone, announce_stop, announce_one. cbn [from_option]. rewrite lookup_singleton_eq.
  destruct (listener_stale st); cbn [fst snd]; rewrite ?insert_singleton_eq, ?lookup_singleton_eq; cbn [from_option];
    rewrite ?lookup_singleton_eq; cbn [is_cfg is_bind_addr is_listener_port is_last_beacon is_interval is_hash is_joined]; cbn zeta;
    repeat (case_match; simplify_eq/=); rewrite ?list_elem_of_singleton; intros [Hc|Hc];
    try (by apply not_elem_of_nil in Hc); done.
Qed.
End scans.

(** ** A tick *)

Section tick_lemmas.
Context `{!Regex} `{!Hex} `{!Blake2}.

Lemma config_for_sound rows name row : config_for rows name = Some row ->
  row ∈ rows /\ mr_beacon row || mr_listen row = true /\ matches (mr_regex row) name = true /\ (length (mr_password row) <= 64)%nat.
Proof.
  intros E. apply find_first_Some in E as [Hin E]. split; [done|].
  destruct (mr_beacon row), (mr_listen row); cbn [negb andb orb] in *; try done;
    (destruct (matches (mr_regex row) name); [|done]; cbn in E; by apply bool_decide_eq_true in E).
Qed.

Lemma scan_elem d h k cfg : cfg ∈ scan_interfaces d h k -> eligible cfg /\
  exists addrs, (if_name cfg, addrs) ∈ link_local_addresses h k /\ head addrs = Some (if_link_local cfg) /\
  exists row, config_for (d_config d) (if_name cfg) = Some row /\ if_beacon cfg = mr_beacon row /\ if_listen cfg = mr_listen row /\
    if_port cfg = mr_port row /\ if_priority cfg = mr_priority row /\ if_password cfg = mr_password row.
Proof.
  unfold scan_interfaces. intros Hin. apply list_elem_of_omap in Hin as ([name addrs] & Hin & E). unfold scan_interface in E. cbn [fst snd] in E.
  destruct (config_for (d_config d) name) as [row|] eqn:Er; [|done]. cbn in E. destruct (head addrs) as [a|] eqn:Eh; [|done]. injection E as <-.
  destruct (config_for_sound _ _ _ Er) as (_ & Hf & _ & Hp). split; [by split|]. cbn. exists addrs. do 2 (split; [done|]). by exists row.
Qed.

Lemma scan_nodup d h k : NoDup (if_name <$> scan_interfaces d h k).
Proof.
  unfold scan_interfaces. assert (NoDup (link_local_addresses h k).*1) as Hnd.
  { unfold link_local_addresses. destruct (h_inet6 h k); [apply parse_names_nodup|apply NoDup_nil_2]. }
  induction (link_local_addresses h k) as [|[name addrs] l IH]; [apply NoDup_nil_2|]. cbn [fmap list_fmap fst] in Hnd.
  apply NoDup_cons in Hnd as [Hn Hnd]. cbn [omap list_omap]. destruct (scan_interface (d_config d) (name, addrs)) as [cfg|] eqn:E; [|by apply IH].
  cbn [fmap list_fmap]. apply NoDup_cons. split; [|by apply IH]. intros Hin. apply Hn.
  apply list_elem_of_fmap in Hin as (cfg' & Ec & Hin). apply list_elem_of_omap in Hin as ([n' a'] & Hin & E').
  assert (forall na c, scan_interface (d_config d) na = Some c -> if_name c = na.1) as Hname.
  { intros na c. unfold scan_interface. destruct (config_for _ na.1); [|done]. cbn. destruct (head na.2); [|done]. cbn. by intros [= <-]. }
  apply Hname in E, E'. cbn in E, E'. rewrite <-E, Ec, E'. by apply (pair_fst_elem _ a').
Qed.

(** What a tick's commands become for the caller. *)
Definition to_caller (cmd : Command) : option Command :=
  match cmd with
  | Bind iface link_local _ uri => Some (Bind iface link_local 0 uri)
  | DialPeer _ _ _ => Some cmd
  | _ => None
  end.

Lemma carry_out_all h cmds d out sent : let '(d', out', sent') := fold_left (carry_out h) cmds (d, out, sent) in
  d_inner d' = d_inner d /\ d_config d' = d_config d /\ d_socks d' ⊆ d_socks d /\ out' = out ++ omap to_caller cmds /\
  (forall i b, (i, b) ∈ sent' -> (i, b) ∈ sent \/ (Beacon i b ∈ cmds /\ is_Some (d_socks d !! i))) /\
  (forall i b, (i, b) ∈ sent \/ (Beacon i b ∈ cmds /\ (Unbind i ∉ cmds) /\ send_beacon d h i = true) -> (i, b) ∈ sent').
Proof.
  revert d out sent. induction cmds as [|cmd cmds IH]; intros d out sent; cbn [fold_left].
  { cbn [omap list_omap]. rewrite app_nil_r. do 4 (split; [done|]). split; [by left|]. intros i b [?|[Hb _]]; [done|by apply not_elem_of_nil in Hb]. }
  assert (exists d1 out1 sent1, carry_out h (d, out, sent) cmd = (d1, out1, sent1) /\ d_inner d1 = d_inner d /\ d_config d1 = d_config d /\
    d_socks d1 ⊆ d_socks d /\ out1 = out ++ omap to_caller [cmd] /\
    (forall i b, (i, b) ∈ sent1 -> (i, b) ∈ sent \/ (cmd = Beacon i b /\ is_Some (d_socks d !! i))) /\
    (forall i b, (i, b) ∈ sent \/ (cmd = Beacon i b /\ send_beacon d h i = true) -> (i, b) ∈ sent1) /\
    (forall i, cmd <> Unbind i -> send_beacon d1 h i = send_beacon d h i)) as (d1 & out1 & sent1 & -> & A1 & A2 & A3 & A4 & A5 & A6 & A7).
  { unfold carry_out. destruct cmd as [iface ll port uri|iface b|uri sintf peer|iface]; do 3 eexists; (split; [reflexivity|]); do 2 (split; [done|]).
    - split; [done|]. split; [done|]. split; [by left|]. split; [by intros i b [?|[? _]]|done].
    - split; [done|]. split; [by rewrite app_nil_r|]. split; [|split; [|done]].
      + intros i b' Hin. destruct (send_beacon d h iface) eqn:Es; [|by left]. apply elem_of_app in Hin as [?|Hin]; [by left|].
        apply list_elem_of_singleton in Hin as [= -> ->]. right. split; [done|]. unfold send_beacon in Es. destruct (d_socks d !! iface); [by eexists|done].
      + intros i b' [Hin|[[= -> ->] ->]]; [case_match; [apply elem_of_app; by left|done]|]. apply elem_of_app. right. by left.
    - split; [done|]. split; [done|]. split; [by left|]. split; [by intros i b [?|[? _]]|done].
    - split; [apply delete_subseteq|]. split; [by rewrite app_nil_r|]. split; [by left|]. split; [by intros i b [?|[? _]]|].
      intros i Hi. unfold send_beacon. cbn. rewrite lookup_delete_ne; [done|]. by intros ->. }
  specialize (IH d1 out1 sent1). destruct (fold_left (carry_out h) cmds (d1, out1, sent1)) as [[d' out'] sent'].
  destruct IH as (B1 & B2 & B3 & B4 & B5 & B6). rewrite B1, B2. do 2 (split; [done|]). split; [by etrans|]. split.
  { rewrite B4, A4, <-app_assoc. f_equal. symmetry. apply (omap_app to_caller [cmd] cmds). }
  split.
  - intros i b Hin. destruct (B5 i b Hin) as [Hs|[Hb Hs]].
    + destruct (A5 i b Hs) as [?|[-> ?]]; [by left|right; split; [by left|done]].
    + right. split; [by right|]. destruct Hs as [q Hq]. exists q. by eapply lookup_weaken.
  - intros i b [Hs|(Hb & Hu & Hsb)]; apply B6; [left; apply A6; by left|]. apply not_elem_of_cons in Hu as [Hu1 Hu2].
    apply elem_of_cons in Hb as [<-|Hb]; [left; apply A6; by right|]. right. split; [done|]. split; [done|]. by rewrite A7.
Qed.

Lemma rescan_inner d h : d_inner (rescan d h) = d_inner d /\ d_config (rescan d h) = d_config d.
Proof. done. Qed.

Lemma rescan_sock d h name queue : d_socks (rescan d h) !! name = Some queue ->
  (exists cfg, cfg ∈ scan_interfaces d h 0 /\ if_name cfg = name /\ if_listen cfg = true) /\
  (queue = [] \/ d_socks d !! name = Some queue).
Proof.
  unfold rescan. cbn [set_socks d_socks]. intros Hl. apply map_lookup_filter_Some in Hl as [Hl Hn]. cbn in Hn. split.
  - unfold wanted in Hn. apply list_elem_of_omap in Hn as (cfg & Hin & E). exists cfg. split; [done|].
    destruct (if_listen cfg); [|done]. destruct (h_index h 0 (if_name cfg)); [|done]. cbn in E. by injection E.
  - revert Hl. generalize (wanted h (scan_interfaces d h 0)) as names. generalize (d_socks d) as socks. clear.
    intros socks names. revert socks. induction names as [|n names IH]; intros socks; cbn [fold_left]; [by right|].
    intros Hl. apply IH in Hl as [->|Hl]; [by left|]. unfold open_socket in Hl. destruct (socks !! n); [by right|].
    destruct (h_bind h n); [|by right]. destruct (decide (n = name)) as [->|Hne]; [rewrite lookup_insert_eq in Hl; left; by injection Hl|].
    rewrite lookup_insert_ne in Hl by done. by right.
Qed.

Lemma tick_shape d h bl now d' out sent : Discovery_tick d h bl now = (d', out, sent) ->
  exists cmds, announce (set_interfaces (fold_left (report_ports bl) (scan_interfaces d h 1) (d_inner d)) (scan_interfaces d h 1)) now
      = (d_inner d', cmds) /\
    d_config d' = d_config d /\ d_socks d' ⊆ d_socks (rescan d h) /\ out = omap to_caller cmds /\
    (forall i b, (i, b) ∈ sent -> Beacon i b ∈ cmds /\ is_Some (d_socks (rescan d h) !! i)) /\
    (forall i b, Beacon i b ∈ cmds -> (Unbind i ∉ cmds) -> send_beacon (rescan d h) h i = true -> (i, b) ∈ sent).
Proof.
  unfold Discovery_tick. change (scan_interfaces (rescan d h) h 1) with (scan_interfaces d h 1). change (d_inner (rescan d h)) with (d_inner d).
  destruct (announce _ now) as [inner cmds] eqn:Ea.
  pose proof (carry_out_all h cmds (set_inner inner (rescan d h)) [] []) as Hc.
  destruct (fold_left (carry_out h) cmds _) as [[d1 out1] sent1]. destruct Hc as (C1 & C2 & C3 & C4 & C5 & C6). intros [= <- <- <-].
  exists cmds. cbn [publish d_inner d_config d_socks]. rewrite C1, C2. cbn. split; [done|]. split; [done|]. split; [exact C3|].
  split; [done|]. split.
  - intros i b Hin. destruct (C5 i b Hin) as [Hn|?]; [by apply not_elem_of_nil in Hn|done].
  - intros i b Hb Hu Hs. apply C6. right. done.
Qed.
End tick_lemmas.

(** ** The task's turns *)

Section turn.
Context `{!Regex} `{!Hex} `{!Blake2}.

Definition is_bind (cmd : Command) : Prop := match cmd with Bind _ _ _ _ => True | _ => False end.

Lemma tick_binds m now m' cmds : announce m now = (m', cmds) -> Forall is_bind (omap to_caller cmds).
Proof.
  intros E. apply Forall_forall. intros c Hc. apply list_elem_of_omap in Hc as (cmd & Hin & Ec).
  destruct cmd; cbn in Ec; simplify_eq; [done|]. by apply (announce_no_dial _ _ _ _ _ _ _ E) in Hin.
Qed.

(** Asking for listeners only adds listeners. *)
Lemma on_bind_keeps h t iface uri : lt_listeners t ⊆ lt_listeners (on_bind h t iface uri) /\
  d_inner (lt_discovery (on_bind h t iface uri)) = d_inner (lt_discovery t) /\
  d_socks (lt_discovery (on_bind h t iface uri)) = d_socks (lt_discovery t) /\
  d_config (lt_discovery (on_bind h t iface uri)) = d_config (lt_discovery t).
Proof.
  unfold on_bind. destruct (lt_listeners t !! iface) eqn:El; [done|]. destruct (h_index h 2 iface); [|done].
  destruct (spawn_listeners h _); [|done]. destruct (bound_addr _) as [[addr port]|]; [|done]. split; [|done]. by apply insert_subseteq.
Qed.

Lemma on_commands h cmds t out : Forall is_bind cmds -> let '(t', out') := fold_left (on_command h) cmds (t, out) in
  out' = out /\ lt_listeners t ⊆ lt_listeners t' /\ d_inner (lt_discovery t') = d_inner (lt_discovery t) /\
  d_socks (lt_discovery t') = d_socks (lt_discovery t) /\ d_config (lt_discovery t') = d_config (lt_discovery t).
Proof.
  revert t out. induction cmds as [|cmd cmds IH]; intros t out Hb; cbn [fold_left]; [done|].
  apply Forall_cons in Hb as [Hc Hb]. destruct cmd as [iface ll port uri| | |]; try done. cbn [on_command].
  specialize (IH (on_bind h t iface uri) out Hb). destruct (fold_left _ _ _) as [t' out'].
  destruct IH as (-> & I2 & -> & -> & ->). destruct (on_bind_keeps h t iface uri) as (O1 & O2 & O3 & O4). split; [done|].
  split; [by etrans|]. done.
Qed.

Lemma drain_cmds n m zone queue c : c ∈ (drain_socket n m zone queue).2 ->
  exists from data, RecvV6 from data ∈ queue /\ receive m zone from (take RECV data) = Some c.
Proof.
  revert queue. induction n as [|n IH]; intros queue; [by intros ?%not_elem_of_nil|].
  destruct queue as [|[from data|data|] rest]; cbn [drain_socket]; [by intros ?%not_elem_of_nil| | |by intros ?%not_elem_of_nil].
  - specialize (IH rest). destruct (drain_socket n m zone rest) as [q out]. cbn [snd] in *.
    destruct (receive m zone from (take RECV data)) as [cmd|] eqn:Er; [intros [->|Hc]%elem_of_cons|intros Hc].
    + exists from, data. split; [by left|done].
    + destruct (IH Hc) as (f & x & Hx & E). exists f, x. split; [by right|done].
    + destruct (IH Hc) as (f & x & Hx & E). exists f, x. split; [by right|done].
  - intros Hc. destruct (IH rest Hc) as (f & x & Hx & E). exists f, x. split; [by right|done].
Qed.

Lemma receive_cmds d c : c ∈ (Discovery_receive d).2 -> exists zone queue from data, d_socks d !! zone = Some queue /\
  RecvV6 from data ∈ queue /\ receive (d_inner d) zone from (take RECV data) = Some c.
Proof.
  unfold Discovery_receive. set (names := sort_keys _).
  assert (NoDup names) as Hnd by (unfold names, sort_keys; rewrite merge_sort_Permutation; apply NoDup_fst_map_to_list).
  clearbody names.
  assert (forall d0 out, d_inner d0 = d_inner d -> (forall n, n ∈ names -> d_socks d0 !! n = d_socks d !! n) ->
    c ∈ (fold_left receive_socket names (d0, out)).2 -> c ∈ out \/ exists zone queue from data, d_socks d !! zone = Some queue /\
      RecvV6 from data ∈ queue /\ receive (d_inner d) zone from (take RECV data) = Some c) as Hf.
  { induction names as [|n names IH]; intros d0 out Hi Hs; cbn [fold_left]; [by left|]. apply NoDup_cons in Hnd as [Hn Hnd].
    unfold receive_socket at 2. destruct (d_socks d0 !! n) as [queue|] eqn:Eq.
    - pose proof (drain_cmds 32 (d_inner d0) n queue c) as Hd. destruct (drain_socket 32 (d_inner d0) n queue) as [q cmds]. cbn [snd] in Hd.
      intros Hc. apply IH in Hc as [Hc|?]; [|by right|done|done|].
      + apply elem_of_app in Hc as [?|Hc]; [by left|]. right. destruct (Hd Hc) as (from & data & Hin & E). rewrite Hi in E.
        exists n, queue, from, data. rewrite <-Hs by left. done.
      + intros n' Hn'. cbn. rewrite lookup_insert_ne by (by intros ->). apply Hs. by right.
    - apply IH; [done|done|]. intros n' Hn'. apply Hs. by right. }
  intros Hc. destruct (Hf d [] eq_refl (fun _ _ => eq_refl) Hc) as [?%not_elem_of_nil|?]; done.
Qed.

Lemma turn_shape h now arrivals t t' sent cmds : lan_turn h now arrivals t = (t', sent, cmds) ->
  exists d out t1 rc d2, Discovery_tick (lt_discovery t) h (fun iface _ => lt_listeners t !! iface) now = (d, out, sent) /\
    fold_left (on_command h) out (mkLanTask d (lt_listeners t), []) = (t1, []) /\ Forall is_bind out /\
    Discovery_receive (arrive arrivals (lt_discovery t1)) = (d2, rc) /\ t' = mkLanTask d2 (lt_listeners t1) /\
    cmds = omap received_dial rc /\ lt_listeners t ⊆ lt_listeners t1 /\
    d_inner (lt_discovery t1) = d_inner d /\ d_socks (lt_discovery t1) = d_socks d /\ d_config (lt_discovery t1) = d_config d.
Proof.
  unfold lan_turn. destruct (Discovery_tick _ h _ now) as [[d out] sent'] eqn:Et.
  destruct (tick_shape _ _ _ _ _ _ _ Et) as (acmds & Ea & _ & _ & Eo & _).
  assert (Forall is_bind out) as Hb by (rewrite Eo; by eapply tick_binds).
  pose proof (on_commands h out (mkLanTask d (lt_listeners t)) [] Hb) as Hc.
  destruct (fold_left (on_command h) out _) as [t1 o] eqn:Ef. destruct Hc as (-> & C2 & C3 & C4 & C5).
  destruct (Discovery_receive _) as [d2 rc] eqn:Er. intros [= <- <- <-]. exists d, out, t1, rc, d2. done.
Qed.

Lemma report_ports_pubkey bl m ifaces : mc_local_pubkey (fold_left (report_ports bl) ifaces m) = mc_local_pubkey m.
Proof.
  revert m. induction ifaces as [|i ifaces IH]; intros m; cbn [fold_left]; [done|]. rewrite IH. unfold report_ports. by destruct (bl _ _).
Qed.

Lemma set_interfaces_pubkey m ifaces : mc_local_pubkey (set_interfaces m ifaces) = mc_local_pubkey m.
Proof. unfold set_interfaces. by destruct (fold_left _ _ _). Qed.

(** The configuration an interface has after a tick is the scan's. *)
Lemma tick_cfg d h bl now d' out sent name st cfg : Discovery_tick d h bl now = (d', out, sent) ->
  mc_ifaces (d_inner d') !! name = Some st -> is_cfg st = Some cfg -> cfg ∈ scan_interfaces d h 1 /\ if_name cfg = name.
Proof.
  intros Et Hst Hcfg. destruct (tick_shape _ _ _ _ _ _ _ Et) as (cmds & Ea & _).
  pose proof (announce_each (set_interfaces (fold_left (report_ports bl) (scan_interfaces d h 1) (d_inner d)) (scan_interfaces d h 1)) now) as Hw.
  rewrite Ea in Hw. destruct Hw as (_ & Hw & _). rewrite Hw in Hst.
  set (m := set_interfaces _ _) in *. destruct (mc_ifaces m !! name) as [st0|] eqn:E0.
  - destruct (announced_cfg (mc_local_pubkey m) now name st0) as (st1 & E1 & Ec). rewrite E1 in Hst. injection Hst as ->.
    rewrite Hcfg in Ec. destruct (set_interfaces_cfg _ _ _ _ cfg (scan_nodup d h 1) E0) as (? & ? & _); [done|]. done.
  - unfold announced, stopped, alone, announce_stop, announce_one in Hst. cbn in Hst. rewrite !lookup_empty in Hst. cbn in Hst. by rewrite lookup_empty in Hst.
Qed.

Lemma tick_pubkey d h bl now d' out sent : Discovery_tick d h bl now = (d', out, sent) ->
  mc_local_pubkey (d_inner d') = mc_local_pubkey (d_inner d).
Proof.
  intros Et. destruct (tick_shape _ _ _ _ _ _ _ Et) as (cmds & Ea & _).
  pose proof (announce_each (set_interfaces (fold_left (report_ports bl) (scan_interfaces d h 1) (d_inner d)) (scan_interfaces d h 1)) now) as Hw.
  rewrite Ea in Hw. destruct Hw as (-> & _). by rewrite set_interfaces_pubkey, report_ports_pubkey.
Qed.
End turn.

(** ** Ports *)

(** Goes through the members of a literal list. *)
Ltac in_list Hin := repeat first [by apply not_elem_of_nil in Hin|apply elem_of_cons in Hin as [Hin|Hin]].

Section ports.
Context `{!Regex} `{!Hex} `{!Blake2}.

Definition with_port (port : Z) (st : IfaceState) : IfaceState :=
  mkIfaceState (is_cfg st) (is_hash st) (Some port) (is_bind_addr st) (is_last_beacon st) (is_interval st) (is_joined st).

(** The ports the task knows reach every interface of the scan, and no other. *)
Lemma report_ports_lookup (known : gmap bytes Z) ifaces m name :
  mc_ifaces (fold_left (report_ports (fun iface _ => known !! iface)) ifaces m) !! name =
  match known !! name with
  | Some port => if bool_decide (name ∈ if_name <$> ifaces) then with_port port <$> mc_ifaces m !! name else mc_ifaces m !! name
  | None => mc_ifaces m !! name
  end.
Proof.
  revert m. induction ifaces as [|i ifaces IH]; intros m; cbn [fold_left].
  { cbn [fmap list_fmap]. rewrite bool_decide_eq_false_2 by apply not_elem_of_nil. by destruct (known !! name). }
  rewrite IH. unfold report_ports. cbn [fmap list_fmap]. destruct (decide (if_name i = name)) as [<-|Hne].
  - destruct (known !! if_name i) as [port|] eqn:E; [|done]. cbn [listener_up mc_ifaces]. rewrite lookup_alter_eq.
    rewrite (bool_decide_eq_true_2 (_ ∈ _ :: _)) by left. case_bool_decide; destruct (mc_ifaces m !! if_name i); done.
  - assert (mc_ifaces (match known !! if_name i with Some port => listener_up m (if_name i) port | None => m end) !! name = mc_ifaces m !! name) as ->.
    { destruct (known !! if_name i); [|done]. cbn [listener_up mc_ifaces]. by rewrite lookup_alter_ne. }
    destruct (known !! name); [|done]. destruct (decide (name ∈ if_name <$> ifaces)).
    + rewrite !bool_decide_eq_true_2; [done|by right|done].
    + rewrite !bool_decide_eq_false_2; [done| |done]. rewrite not_elem_of_cons. by split.
Qed.

Lemma known_keeps_inv (known : gmap bytes Z) ifaces m : (forall name st p, mc_ifaces m !! name = Some st -> is_listener_port st = Some p -> known !! name = Some p) ->
  forall name st p, mc_ifaces (fold_left (report_ports (fun iface _ => known !! iface)) ifaces m) !! name = Some st ->
    is_listener_port st = Some p -> known !! name = Some p.
Proof.
  intros Hk name st p. rewrite report_ports_lookup. destruct (known !! name) as [port|] eqn:E.
  - case_bool_decide.
    + destruct (mc_ifaces m !! name); [|done]. cbn. by intros [= <-] [= <-].
    + intros Hst Hp. rewrite <-E. by apply (Hk name st).
  - intros Hst Hp. by rewrite (Hk name st p) in E.
Qed.

Lemma set_interfaces_port m ifaces name st : NoDup (if_name <$> ifaces) -> mc_ifaces (set_interfaces m ifaces) !! name = Some st ->
  is_listener_port st = None \/ exists st0, mc_ifaces m !! name = Some st0 /\ is_listener_port st = is_listener_port st0.
Proof.
  intros Hnd. unfold set_interfaces. pose proof (scan_fold (mc_local_pubkey m) ifaces (mc_ifaces m) ∅ Hnd) as Hs.
  destruct (fold_left _ _ _) as [old next]. destruct Hs as [F1 F2]. cbn [mc_ifaces]. intros Hl.
  destruct (decide (Exists (fun c => if_name c = name /\ if_beacon c || if_listen c = true /\ (length (if_password c) <= MAX_PASSWORD_LEN)%nat) ifaces)) as [He|He].
  - apply Exists_exists in He as (c & Hin & <- & Hel). destruct (F1 c Hin Hel) as [Hn Ho].
    rewrite lookup_union, lookup_omap, Ho, Hn in Hl. cbn in Hl. injection Hl as <-. unfold scanned.
    destruct (mc_ifaces m !! if_name c) as [st0|]; [right; by exists st0|by left].
  - destruct (F2 name) as [Hn Ho]. { intros c Hin Hel E. apply He, Exists_exists. exists c. done. }
    rewrite lookup_union, lookup_omap, Ho, Hn, lookup_empty in Hl. destruct (mc_ifaces m !! name) as [o|]; cbn in Hl; [|done].
    unfold left_scan in Hl. destruct (is_bind_addr o); cbn in Hl; [|done]. injection Hl as <-. right. by exists o.
Qed.

(** What a tick does to a port, and what a beacon says. *)
Lemma announced_port pk now name st st' : (announced pk now name (Some st)).1 = Some st' ->
  is_listener_port st' = None \/ is_listener_port st' = is_listener_port st.
Proof.
  unfold announced, stopped, alone, announce_stop, announce_one. cbn [from_option]. rewrite lookup_singleton_eq.
  destruct (listener_stale st); cbn [fst snd]; rewrite ?insert_singleton_eq, ?lookup_singleton_eq; cbn [from_option];
    rewrite ?lookup_singleton_eq; cbn [is_cfg is_bind_addr is_listener_port is_last_beacon is_interval is_hash is_joined]; cbn zeta;
    repeat (case_match; simplify_eq/=); rewrite ?lookup_insert_eq, ?lookup_singleton_eq; intros [= <-]; cbn; auto.
Qed.

Lemma announced_beacon pk now name st i b : Beacon i b ∈ (stopped name (Some st)).2 ++ (announced pk now name (Some st)).2 ->
  i = name /\ exists cfg port, is_cfg st = Some cfg /\ if_beacon cfg = true /\ is_listener_port st = Some port /\
    b = Advertisement_encode (mkAdvertisement PROTO_MAJOR PROTO_MINOR pk port (is_hash st)).
Proof.
  unfold announced, stopped, alone, announce_stop, announce_one. cbn [from_option]. rewrite lookup_singleton_eq.
  destruct (listener_stale st); cbn [fst snd]; rewrite ?insert_singleton_eq, ?lookup_singleton_eq; cbn [from_option];
    rewrite ?lookup_singleton_eq; cbn [is_cfg is_bind_addr is_listener_port is_last_beacon is_interval is_hash is_joined]; cbn zeta;
    repeat (case_match; simplify_eq/=); intros Hin; in_list Hin; simplify_eq/=;
    (split; [done|]; do 2 eexists; split; [done|]; split; [by apply negb_false_iff|done]).
Qed.
End ports.

(** ** Properties of the task *)

Section properties.
Context `{!Regex} `{!Hex} `{!Blake2}.

(** The states of the task, from its start. *)
Inductive lan_reach (rows : list MulticastRow) (pk : bytes) : LanTask -> Prop :=
  | reach_start bindable now t : lan_task rows bindable pk now = Some t -> lan_reach rows pk t
  | reach_turn t h now arrivals t' sent cmds : lan_reach rows pk t -> lan_turn h now arrivals t = (t', sent, cmds) -> lan_reach rows pk t'.

Definition task_inv (rows : list MulticastRow) (pk : bytes) (t : LanTask) : Prop :=
  mc_local_pubkey (d_inner (lt_discovery t)) = pk /\ d_config (lt_discovery t) = rows /\
  forall name st p, mc_ifaces (d_inner (lt_discovery t)) !! name = Some st -> is_listener_port st = Some p -> lt_listeners t !! name = Some p.

Lemma receive_keeps d : d_inner (Discovery_receive d).1 = d_inner d /\ d_config (Discovery_receive d).1 = d_config d.
Proof.
  unfold Discovery_receive. generalize (sort_keys (map_to_list (d_socks d)).*1) as names. intros names.
  assert (forall d0 out, d_inner (fold_left receive_socket names (d0, out)).1 = d_inner d0 /\
                         d_config (fold_left receive_socket names (d0, out)).1 = d_config d0) as Hf; [|apply Hf].
  induction names as [|n names IH]; intros d0 out; cbn [fold_left]; [done|]. unfold receive_socket at 2 4.
  destruct (d_socks d0 !! n) as [q|]; [|apply IH]. destruct (drain_socket _ _ _ _) as [q' cs].
  destruct (IH (set_socks <[n := q']> d0) (out ++ cs)) as [-> ->]. done.
Qed.

Lemma tick_ports d h known now d' out sent :
  Discovery_tick d h (fun iface _ => known !! iface) now = (d', out, sent) ->
  (forall name st p, mc_ifaces (d_inner d) !! name = Some st -> is_listener_port st = Some p -> known !! name = Some p) ->
  forall name st p, mc_ifaces (d_inner d') !! name = Some st -> is_listener_port st = Some p -> (known : gmap bytes Z) !! name = Some p.
Proof.
  intros Et Hk name st p Hst Hp. destruct (tick_shape _ _ _ _ _ _ _ Et) as (cmds & Ea & _).
  set (m0 := fold_left (report_ports _) _ _) in Ea. set (ifaces := scan_interfaces d h 1) in *.
  pose proof (announce_each (set_interfaces m0 ifaces) now) as Hw. rewrite Ea in Hw. destruct Hw as (_ & Hw & _). rewrite Hw in Hst.
  destruct (mc_ifaces (set_interfaces m0 ifaces) !! name) as [st1|] eqn:E1.
  - destruct (announced_port _ _ _ _ _ Hst) as [?|Ep]; [congruence|].
    destruct (set_interfaces_port m0 ifaces name st1 (scan_nodup d h 1) E1) as [?|(st0 & E0 & Ep')]; [congruence|].
    apply (known_keeps_inv known ifaces (d_inner d) Hk name st0 p E0). congruence.
  - unfold announced, stopped, alone, announce_stop, announce_one in Hst. cbn in Hst. rewrite !lookup_empty in Hst. cbn in Hst. by rewrite lookup_empty in Hst.
Qed.

Lemma reach_inv rows pk t : lan_reach rows pk t -> task_inv rows pk t.
Proof.
  induction 1 as [bindable now t E|t h now arrivals t' sent cmds Hr (I1 & I2 & I3) Et].
  - unfold lan_task, with_table in E. destruct (forallb _ rows), bindable; [done..| |done]. injection E as <-. split; [done|]. split; [done|].
    intros name st p Hl. cbn in Hl. by rewrite lookup_empty in Hl.
  - destruct (turn_shape _ _ _ _ _ _ _ Et) as (d & out & t1 & rc & d2 & Ek & _ & _ & Er & -> & _ & Hls & D1 & D2 & D3).
    destruct (receive_keeps (arrive arrivals (lt_discovery t1))) as [R1 R2]. rewrite Er in R1, R2. cbn [fst] in R1, R2.
    unfold task_inv. cbn [lt_discovery lt_listeners]. rewrite R1, R2. cbn [arrive set_socks d_inner d_config]. rewrite D1, D3.
    destruct (tick_shape _ _ _ _ _ _ _ Ek) as (cmds' & _ & Ec & _). split; [by rewrite (tick_pubkey _ _ _ _ _ _ _ Ek)|]. split; [congruence|].
    intros name st p Hst Hp. eapply lookup_weaken; [|exact Hls]. by eapply (tick_ports _ _ _ _ _ _ _ Ek).
Qed.

(** Every beacon is honest. In every run of the task, a beacon that goes out
    leaves by an interface whose row listens and beacons, and carries our key,
    our version, the hash under that interface's password, and the port of a
    listener the task holds for the interface. *)
Theorem lan_beacons_honest (rows : list MulticastRow) (pk : bytes) (t t' : LanTask) (h : Host) (now : Z)
    (arrivals : gmap bytes (list recv_event)) (sent : list (bytes * bytes)) (cmds : list Cmd) (iface b : bytes) :
  lan_reach rows pk t -> lan_turn h now arrivals t = (t', sent, cmds) -> (iface, b) ∈ sent ->
  (exists row, config_for rows iface = Some row /\ mr_listen row = true) /\
  (exists cfg port, cfg ∈ scan_interfaces (lt_discovery t) h 1 /\ if_name cfg = iface /\ if_beacon cfg = true /\
     lt_listeners t !! iface = Some port /\
     b = Advertisement_encode (mkAdvertisement PROTO_MAJOR PROTO_MINOR pk port (membership_hash (if_password cfg) pk))).
Proof.
  intros Hr Et Hin. apply reach_inv in Hr as (Epk & Erows & Hports).
  destruct (turn_shape _ _ _ _ _ _ _ Et) as (d & out & t1 & rc & d2 & Ek & _).
  destruct (tick_shape _ _ _ _ _ _ _ Ek) as (acmds & Ea & _ & _ & _ & Hs & _). destruct (Hs _ _ Hin) as [Hb [q Hq]]. split.
  - destruct (rescan_sock _ _ _ _ Hq) as [(cfg & Hc & <- & Hl) _].
    destruct (scan_elem _ _ _ _ Hc) as [_ (addrs & _ & _ & row & Er & _ & El & _)]. rewrite Erows in Er. exists row. split; [done|congruence].
  - set (m0 := fold_left (report_ports _) _ _) in Ea. set (ifaces := scan_interfaces (lt_discovery t) h 1) in *.
    pose proof (announce_each (set_interfaces m0 ifaces) now) as Hw. rewrite Ea in Hw. destruct Hw as (_ & _ & Hw).
    apply Hw in Hb as (name & st & Est & Hb). rewrite <-elem_of_app in Hb. destruct (announced_beacon _ _ _ _ _ _ Hb) as (-> & cfg & port & Ec & Ebc & Ep & ->).
    destruct (set_interfaces_cfg _ _ _ _ cfg (scan_nodup _ h 1) Est Ec) as (Hcin & Hcn & Hel).
    assert (mc_local_pubkey (set_interfaces m0 ifaces) = pk) as Epk' by (rewrite set_interfaces_pubkey; unfold m0; by rewrite report_ports_pubkey).
    exists cfg, port. split; [done|]. split; [done|]. split; [done|]. split.
    + destruct (set_interfaces_port m0 ifaces name st (scan_nodup _ h 1) Est) as [?|(st0 & E0 & Ep0)]; [congruence|].
      apply (known_keeps_inv (lt_listeners t) ifaces _ Hports name st0 port E0). congruence.
    + rewrite Epk'. do 2 f_equal. subst name. rewrite (set_interfaces_listed m0 ifaces cfg (scan_nodup _ h 1) Hcin Hel) in Est.
      assert (mc_local_pubkey m0 = pk) as <- by (unfold m0; by rewrite report_ports_pubkey). injection Est as <-. unfold scanned. by case_match.
Qed.

(** A link that was bound is never given up by the task: not even when the
    interface's address moves or the interface is gone. *)
Lemma listeners_kept h now arrivals t t' sent cmds : lan_turn h now arrivals t = (t', sent, cmds) -> lt_listeners t ⊆ lt_listeners t'.
Proof.
  intros Et. destruct (turn_shape _ _ _ _ _ _ _ Et) as (d & out & t1 & rc & d2 & _ & _ & _ & _ & -> & _ & Hl & _). exact Hl.
Qed.

(** C17: the node dials on the local network only those who prove membership. In
    every run of the task, a command it hands to the node is one dial, not to be
    repeated, for a datagram that waited on the socket of an interface: the
    datagram decodes to a beacon of our version, of another node, whose hash is
    the one of that key under the password of the row that applies to the
    interface and listens; and the dial goes to the datagram's source. *)
Theorem lan_dials_members (rows : list MulticastRow) (pk : bytes) (t t' : LanTask) (h : Host) (now : Z)
    (arrivals : gmap bytes (list recv_event)) (sent : list (bytes * bytes)) (cmds : list Cmd) (c : Cmd) :
  lan_reach rows pk t -> lan_turn h now arrivals t = (t', sent, cmds) -> c ∈ cmds ->
  exists zone from data adv cfg,
    RecvV6 from data ∈ unwrap_or (d_socks (lt_discovery t) !! zone) [] ++ unwrap_or (arrivals !! zone) [] /\
    Advertisement_decode (take RECV data) = Ok adv /\ adv_major adv = PROTO_MAJOR /\ adv_minor adv = PROTO_MINOR /\
    adv_pubkey adv <> pk /\ cfg ∈ scan_interfaces (lt_discovery t) h 1 /\ if_name cfg = zone /\ if_listen cfg = true /\
    adv_hash adv = membership_hash (if_password cfg) (adv_pubkey adv) /\
    c = CmdDial (dial_uri cfg adv (sa_ip from) zone) zone false None.
Proof.
  intros Hr Et Hin. apply reach_inv in Hr as (Epk & _ & _).
  destruct (turn_shape _ _ _ _ _ _ _ Et) as (d & out & t1 & rc & d2 & Ek & _ & _ & Er & _ & -> & _ & D1 & D2 & _).
  apply list_elem_of_omap in Hin as (cmd & Hin & Ec).
  destruct (receive_cmds (arrive arrivals (lt_discovery t1)) cmd) as (zone & queue & from & data & Hq & Hd & Erc); [by rewrite Er|].
  cbn [arrive set_socks d_inner] in Erc. rewrite D1 in Erc.
  apply receive_Some in Erc as (adv & st & cfg & ? & ? & ? & Hne & Est & Ecfg & ? & ? & ->).
  destruct (tick_cfg _ _ _ _ _ _ _ _ _ _ Ek Est Ecfg) as [Hcin Hname]. rewrite (tick_pubkey _ _ _ _ _ _ _ Ek), Epk in Hne.
  cbn in Ec. injection Ec as <-. exists zone, from, data, adv, cfg. split; [|done].
  cbn [arrive set_socks d_socks] in Hq. rewrite D2, map_lookup_imap in Hq. destruct (d_socks d !! zone) as [q0|] eqn:Eq; [|done]. cbn in Hq.
  injection Hq as <-. apply elem_of_app in Hd as [Hd|Hd]; apply elem_of_app; [left|by right].
  destruct (tick_shape _ _ _ _ _ _ _ Ek) as (acmds & _ & _ & Hsub & _).
  assert (d_socks (rescan (lt_discovery t) h) !! zone = Some q0) as Eq' by (by eapply lookup_weaken).
  destruct (rescan_sock _ _ _ _ Eq') as [_ [-> | ->]]; [by apply not_elem_of_nil in Hd|exact Hd].
Qed.

(** ** A node that wants to be found beacons *)

(** A listener that can be started is, and its port is known. *)
Lemma on_commands_bind h cmds t out iface uri index served addr port : Forall is_bind cmds ->
  (exists ll p, Bind iface ll p uri ∈ cmds) -> (forall ll p u, Bind iface ll p u ∈ cmds -> u = uri) -> lt_listeners t !! iface = None ->
  h_index h 2 iface = Some index -> spawn_listeners h [with_zone_index uri index] = Ok served -> bound_addr (head served) = Some (addr, port) ->
  lt_listeners (fold_left (on_command h) cmds (t, out)).1 !! iface = Some port.
Proof.
  intros Hb (ll & p & Hin) Hu Hn Hi Hs Ha. revert t out Hn. induction cmds as [|cmd cmds IH]; intros t out Hn; [by apply not_elem_of_nil in Hin|].
  apply Forall_cons in Hb as [Hc Hb]. destruct cmd as [i l q u| | |]; try done. cbn [fold_left on_command].
  destruct (decide (i = iface)) as [->|Hne].
  - rewrite (Hu l q u) by left. pose proof (on_commands h cmds (on_bind h t iface uri) out Hb) as Hk.
    destruct (fold_left _ cmds _) as [t' out']. destruct Hk as (_ & Hk & _). cbn [fst]. eapply lookup_weaken; [|exact Hk].
    unfold on_bind. rewrite Hn, Hi, Hs, Ha. cbn. apply lookup_insert_eq.
  - apply IH; [done| |intros ll' p' u' Hx; apply (Hu ll' p'); by right|].
    + apply elem_of_cons in Hin as [Hx|Hx]; [|done]. injection Hx as Hx _. congruence.
    + unfold on_bind. repeat case_match; try done. cbn [lt_listeners]. by rewrite lookup_insert_ne.
Qed.

Lemma rescan_opens d h cfg : cfg ∈ scan_interfaces d h 0 -> if_listen cfg = true -> is_Some (h_index h 0 (if_name cfg)) ->
  h_bind h (if_name cfg) = true -> is_Some (d_socks (rescan d h) !! if_name cfg).
Proof.
  intros Hin Hl [index Hi] Hb. unfold rescan. cbn [set_socks d_socks].
  assert (if_name cfg ∈ wanted h (scan_interfaces d h 0)) as Hw.
  { unfold wanted. apply list_elem_of_omap. exists cfg. split; [done|]. by rewrite Hl, Hi. }
  set (names := wanted _ _) in *.
  assert (is_Some (fold_left (open_socket h) names (d_socks d) !! if_name cfg)) as [q Hq].
  { clearbody names. generalize (d_socks d) as socks. intros socks.
    assert (forall l s, is_Some (s !! if_name cfg) -> is_Some (fold_left (open_socket h) l s !! if_name cfg)) as Hkeep.
    { induction l as [|n l IH]; intros s Hs; cbn [fold_left]; [done|]. apply IH. unfold open_socket. destruct (s !! n); [done|].
      destruct (h_bind h n); [|done]. destruct (decide (n = if_name cfg)) as [->|]; [rewrite lookup_insert_eq; by eexists|by rewrite lookup_insert_ne]. }
    revert socks. induction names as [|n names IH]; intros socks; [by apply not_elem_of_nil in Hw|]. cbn [fold_left].
    apply elem_of_cons in Hw as [<-|Hw]; [|by apply IH]. apply Hkeep. unfold open_socket. destruct (socks !! if_name cfg) eqn:E; [by rewrite E; eexists|].
    rewrite Hb, lookup_insert_eq. by eexists. }
  exists q. apply map_lookup_filter_Some. done.
Qed.

Lemma tick_binds_first pk now name cfg st : is_cfg st = Some cfg -> if_beacon cfg = true -> is_bind_addr st = None ->
  (stopped name (Some st)).2 = [] /\ (announced pk now name (Some st)).2 = [Bind name (if_link_local cfg) (if_port cfg) (listen_uri cfg)] /\
  exists joined, (announced pk now name (Some st)).1 =
    Some (mkIfaceState (Some cfg) (is_hash st) (is_listener_port st) (Some (if_link_local cfg)) (is_last_beacon st) (is_interval st) joined).
Proof.
  intros Hc Hb Ha. unfold announced, stopped, alone, announce_stop, announce_one. cbn [from_option]. rewrite lookup_singleton_eq.
  unfold listener_stale. rewrite Ha. cbn [fst snd]. rewrite lookup_singleton_eq. cbn [from_option]. rewrite lookup_singleton_eq, Hc. cbn zeta.
  cbn [is_bind_addr is_cfg is_hash is_listener_port is_last_beacon is_interval]. rewrite Hb, Ha. cbn [negb fst snd]. rewrite lookup_insert_eq.
  split; [done|]. split; [done|]. by eexists.
Qed.

Lemma tick_beacons_next pk now name cfg st port : is_cfg st = Some cfg -> if_beacon cfg = true ->
  is_bind_addr st = Some (if_link_local cfg) -> is_listener_port st = Some port -> is_last_beacon st = None ->
  (stopped name (Some st)).2 = [] /\
  (announced pk now name (Some st)).2 = [Beacon name (Advertisement_encode (mkAdvertisement PROTO_MAJOR PROTO_MINOR pk port (is_hash st)))].
Proof.
  intros Hc Hb Ha Hp Hl. unfold announced, stopped, alone, announce_stop, announce_one. cbn [from_option]. rewrite lookup_singleton_eq.
  unfold listener_stale. rewrite Ha, Hc, bool_decide_eq_false_2 by auto. cbn [fst snd]. rewrite lookup_singleton_eq. cbn [from_option].
  rewrite lookup_singleton_eq, Hc. cbn zeta. cbn [is_bind_addr is_cfg is_hash is_listener_port is_last_beacon is_interval].
  rewrite Hb, Ha, Hp, Hl. done.
Qed.

(** The commands of a tick that name one interface are that interface's. *)
Lemma announced_name pk now name st cmd : cmd ∈ (stopped name (Some st)).2 ++ (announced pk now name (Some st)).2 ->
  match cmd with Bind i _ _ _ | Beacon i _ | Unbind i => i = name | DialPeer _ _ _ => False end.
Proof.
  unfold announced, stopped, alone, announce_stop, announce_one. cbn [from_option]. rewrite lookup_singleton_eq.
  destruct (listener_stale st); cbn [fst snd]; rewrite ?insert_singleton_eq, ?lookup_singleton_eq; cbn [from_option];
    rewrite ?lookup_singleton_eq; cbn [is_cfg is_bind_addr is_listener_port is_last_beacon is_interval is_hash is_joined]; cbn zeta;
    repeat (case_match; simplify_eq/=); intros Hin; in_list Hin; simplify_eq/=; done.
Qed.

Lemma announce_of m now m' cmds name st cmd : announce m now = (m', cmds) -> mc_ifaces m !! name = Some st ->
  match cmd with Bind i _ _ _ | Beacon i _ | Unbind i => i = name | DialPeer _ _ _ => False end ->
  cmd ∈ cmds <-> cmd ∈ (stopped name (Some st)).2 ++ (announced (mc_local_pubkey m) now name (Some st)).2.
Proof.
  intros Ea Est Hname. pose proof (announce_each m now) as Hw. rewrite Ea in Hw. destruct Hw as (_ & _ & Hw). rewrite Hw, elem_of_app. split.
  - intros (n & st' & Est' & Hc). rewrite <-elem_of_app in Hc. pose proof (announced_name _ _ _ _ _ Hc) as Hn.
    assert (n = name) as -> by (by destruct cmd; subst). rewrite Est in Est'. injection Est' as <-. by apply elem_of_app.
  - intros Hc. by exists name, st.
Qed.

Lemma scan_config d d' h k : d_config d = d_config d' -> scan_interfaces d h k = scan_interfaces d' h k.
Proof. unfold scan_interfaces. by intros ->. Qed.

(** An interface whose listener was asked for beacons as soon as its port is known. *)
Lemma known_port_beacons pk h now arrivals t t' sent cmds cfg port joined :
  mc_local_pubkey (d_inner (lt_discovery t)) = pk ->
  mc_ifaces (d_inner (lt_discovery t)) !! if_name cfg =
    Some (mkIfaceState (Some cfg) (membership_hash (if_password cfg) pk) None (Some (if_link_local cfg)) None 0 joined) ->
  lt_listeners t !! if_name cfg = Some port -> if_beacon cfg = true -> if_listen cfg = true ->
  cfg ∈ scan_interfaces (lt_discovery t) h 0 -> cfg ∈ scan_interfaces (lt_discovery t) h 1 ->
  is_Some (h_index h 0 (if_name cfg)) -> is_Some (h_index h 1 (if_name cfg)) ->
  h_bind h (if_name cfg) = true -> h_send h (if_name cfg) = true -> lan_turn h now arrivals t = (t', sent, cmds) ->
  (if_name cfg, Advertisement_encode (mkAdvertisement PROTO_MAJOR PROTO_MINOR pk port (membership_hash (if_password cfg) pk))) ∈ sent.
Proof.
  intros Epk Est Hport Hb Hl Hin0 Hin1 Hi0 [ix Hi1] Hbind Hsend Et. destruct (scan_elem _ _ _ _ Hin1) as [Hel _].
  destruct (turn_shape _ _ _ _ _ _ _ Et) as (d & out & t1 & rc & d2 & Ek & _).
  destruct (tick_shape _ _ _ _ _ _ _ Ek) as (acmds & Ea & _ & _ & _ & _ & Hs). set (m0 := fold_left (report_ports _) _ _) in Ea.
  assert (mc_local_pubkey m0 = pk) as Epk0 by (unfold m0; by rewrite report_ports_pubkey).
  assert (mc_ifaces m0 !! if_name cfg = Some (mkIfaceState (Some cfg) (membership_hash (if_password cfg) pk) (Some port) (Some (if_link_local cfg)) None 0 joined)) as Em0.
  { unfold m0. rewrite report_ports_lookup, Hport, bool_decide_eq_true_2, Est; [done|by apply list_elem_of_fmap_2]. }
  pose proof (set_interfaces_listed m0 _ cfg (scan_nodup _ h 1) Hin1 Hel) as Est'. rewrite Em0, Epk0 in Est'. cbn [scanned] in Est'.
  destruct (tick_beacons_next pk now (if_name cfg) cfg (mkIfaceState (Some cfg) (membership_hash (if_password cfg) pk) (Some port)
    (Some (if_link_local cfg)) None 0 joined) port eq_refl Hb eq_refl eq_refl eq_refl) as [B1 B2].
  cbn [is_listener_port is_bind_addr is_last_beacon is_interval is_joined] in Est'.
  assert (mc_local_pubkey (set_interfaces m0 (scan_interfaces (lt_discovery t) h 1)) = pk) as Epks by (by rewrite set_interfaces_pubkey).
  apply Hs.
  - apply (announce_of _ _ _ _ _ _ _ Ea Est'); [done|]. rewrite Epks, B1, B2. by left.
  - intros Hu. apply (announce_of _ _ _ _ _ _ _ Ea Est') in Hu; [|done]. rewrite Epks, B1, B2 in Hu. by apply list_elem_of_singleton in Hu.
  - unfold send_beacon. destruct (rescan_opens _ _ _ Hin0 Hl Hi0 Hbind) as [q ->]. by rewrite Hi1.
Qed.

(** C19: a node that wants to be found is heard. When an interface is up in two
    turns from the start, its row beacons and listens, and the kernel grants the
    listener, the socket and the send, then the second turn sends a beacon on it
    with our key, the membership hash of the row's password, and the port the
    listener got. *)
Theorem lan_task_beacons (rows : list MulticastRow) (pk : bytes) (t0 t1 t2 : LanTask) (h1 h2 : Host) (now0 now1 now2 : Z)
    (a1 a2 : gmap bytes (list recv_event)) (s1 s2 : list (bytes * bytes)) (c1 c2 : list Cmd)
    (cfg : InterfaceConfig) (index : Z) (served : list bytes) (addr : bytes) (port : Z) :
  lan_task rows true pk now0 = Some t0 -> if_beacon cfg = true -> if_listen cfg = true ->
  cfg ∈ scan_interfaces (lt_discovery t0) h1 1 -> h_index h1 2 (if_name cfg) = Some index ->
  spawn_listeners h1 [with_zone_index (listen_uri cfg) index] = Ok served -> bound_addr (head served) = Some (addr, port) ->
  cfg ∈ scan_interfaces (lt_discovery t0) h2 0 -> cfg ∈ scan_interfaces (lt_discovery t0) h2 1 ->
  is_Some (h_index h2 0 (if_name cfg)) -> is_Some (h_index h2 1 (if_name cfg)) ->
  h_bind h2 (if_name cfg) = true -> h_send h2 (if_name cfg) = true ->
  lan_turn h1 now1 a1 t0 = (t1, s1, c1) -> lan_turn h2 now2 a2 t1 = (t2, s2, c2) ->
  (if_name cfg, Advertisement_encode (mkAdvertisement PROTO_MAJOR PROTO_MINOR pk port (membership_hash (if_password cfg) pk))) ∈ s2.
Proof.
  intros Estart Hb Hl Hin1 Hix Hsp Hba Hin20 Hin21 Hi0 [ix1 Hi1] Hbind Hsend Et1 Et2.
  assert (d_config (lt_discovery t0) = rows /\ d_inner (lt_discovery t0) = Multicast_new pk /\ lt_listeners t0 = ∅) as (Ec0 & Ei0 & El0).
  { unfold lan_task, with_table in Estart. destruct (forallb _ rows); [done|]. by injection Estart as <-. }
  assert (lan_reach rows pk t1) as Hr1 by (eapply reach_turn; [by eapply reach_start|exact Et1]). apply reach_inv in Hr1 as (Epk1 & Ec1 & _).
  destruct (scan_elem _ _ _ _ Hin1) as [Hel _].
  (* the first turn *)
  destruct (turn_shape _ _ _ _ _ _ _ Et1) as (d & out & t1' & rc & d2 & Ek & Ef & Hob & Er & -> & _ & _ & D1 & _ & _).
  destruct (tick_shape _ _ _ _ _ _ _ Ek) as (cmds & Ea & _ & _ & Eo & _). rewrite Ei0 in Ea. set (m0 := fold_left (report_ports _) _ _) in Ea.
  assert (mc_local_pubkey m0 = pk) as Epk0 by (unfold m0; by rewrite report_ports_pubkey).
  assert (mc_ifaces m0 !! if_name cfg = None) as Em0 by (unfold m0; rewrite report_ports_lookup, El0, lookup_empty; cbn; apply lookup_empty).
  pose proof (set_interfaces_listed m0 _ cfg (scan_nodup _ h1 1) Hin1 Hel) as Est. rewrite Em0, Epk0 in Est. cbn [scanned] in Est.
  destruct (tick_binds_first pk now1 (if_name cfg) cfg (mkIfaceState (Some cfg) (membership_hash (if_password cfg) pk) None None None 0 false)
    eq_refl Hb eq_refl) as (B1 & B2 & joined & B3).
  assert (mc_local_pubkey (set_interfaces m0 (scan_interfaces (lt_discovery t0) h1 1)) = pk) as Epks by (by rewrite set_interfaces_pubkey).
  assert (lt_listeners t1' !! if_name cfg = Some port) as Hport.
  { change t1' with (t1', @nil Cmd).1. rewrite <-Ef. apply (on_commands_bind h1 out _ [] (if_name cfg) (listen_uri cfg) index served addr port); try done.
    - exists (if_link_local cfg), 0. rewrite Eo. apply list_elem_of_omap. exists (Bind (if_name cfg) (if_link_local cfg) (if_port cfg) (listen_uri cfg)).
      split; [|done]. apply (announce_of _ _ _ _ _ _ _ Ea Est); [done|]. rewrite Epks, B1, B2. by left.
    - intros ll p u Hu. rewrite Eo in Hu. apply list_elem_of_omap in Hu as (cmd & Hc & Ecmd).
      destruct cmd as [i l q u'| | |]; cbn in Ecmd; simplify_eq. apply (announce_of _ _ _ _ _ _ _ Ea Est) in Hc; [|done].
      rewrite Epks, B1, B2 in Hc. by apply list_elem_of_singleton in Hc as [= _ _ ->].
    - cbn. by rewrite El0, lookup_empty. }
  assert (mc_ifaces (d_inner d) !! if_name cfg = Some (mkIfaceState (Some cfg) (membership_hash (if_password cfg) pk) None
            (Some (if_link_local cfg)) None 0 joined)) as Est1.
  { pose proof (announce_each (set_interfaces m0 (scan_interfaces (lt_discovery t0) h1 1)) now1) as Hw. rewrite Ea in Hw.
    destruct Hw as (_ & Hw & _). by rewrite Hw, Est, Epks, B3. }
  destruct (receive_keeps (arrive a1 (lt_discovery t1'))) as [R1 _]. rewrite Er in R1. cbn [fst arrive set_socks d_inner] in R1. rewrite D1 in R1.
  assert (d_config d2 = rows) as Ec2 by exact Ec1.
  rewrite (scan_config _ d2) in Hin20, Hin21 by (cbn; congruence).
  eapply (known_port_beacons pk h2 now2 a2 (mkLanTask d2 (lt_listeners t1')) t2 s2 c2 cfg port joined); try done.
  cbn. by rewrite R1.
Qed.
End properties.

(** ** Witnesses *)

(** A host with one interface, a row for every name, and a kernel that grants
    everything. *)
Definition any_regex : Regex := {| regex_match _ _ := Some true |}.

Definition demo_rows : list MulticastRow := [mkMulticastRow (str ".*") true true 0 0 (str "pw")].

Definition inet6_line (last : string) : bytes := str "fe80000000000000000000000000000" ++ str last ++ str " 02 40 20 80     eth0" ++ [10].

Definition demo_host (text : bytes) : Host :=
  mkHost (fun _ => Some text) (fun _ => Some text) (fun _ => None) (fun _ => true) (fun _ => true) (fun _ _ => Ok (str "[fe80::1%2]:9002")).

Definition demo_cfg : InterfaceConfig := mkInterfaceConfig (str "eth0") [65152; 0; 0; 0; 0; 0; 0; 1] true true 0 0 (str "pw").

Definition demo_pk : bytes := replicate 32 1.
Definition demo_peer_pk : bytes := replicate 32 2.

Definition demo_task : LanTask := mkLanTask (set_config demo_rows (Discovery_new demo_pk 0)) ∅.

Definition demo_beacon (pk : bytes) (port : Z) : bytes :=
  Advertisement_encode (mkAdvertisement PROTO_MAJOR PROTO_MINOR pk port (@membership_hash toy_blake2 (str "pw") pk)).

Definition demo_turn1 := @lan_turn any_regex std_hex toy_blake2 (demo_host (inet6_line "1")) 0 ∅ demo_task.
Definition demo_turn2 := @lan_turn any_regex std_hex toy_blake2 (demo_host (inet6_line "1")) (from_secs 1)
  {[str "eth0" := [RecvV4 [1]; RecvV6 demo_from (demo_beacon demo_peer_pk 4444)]]} demo_turn1.1.1.

Lemma demo_scan k : @scan_interfaces any_regex std_hex (lt_discovery demo_task) (demo_host (inet6_line "1")) k = [demo_cfg].
Proof. by vm_compute. Qed.

Lemma demo_turns : demo_turn1.1.2 = [] /\ demo_turn2.1.2 = [(str "eth0", demo_beacon demo_pk 9002)] /\
  length demo_turn2.2 = 1%nat.
Proof. by vm_compute. Qed.

Lemma triple {A B C} (x : A * B * C) : x = (x.1.1, x.1.2, x.2).
Proof. by destruct x as [[a b] c]. Qed.

Lemma demo_reach1 : @lan_reach any_regex std_hex toy_blake2 demo_rows demo_pk demo_turn1.1.1.
Proof. exact (@reach_turn any_regex std_hex toy_blake2 demo_rows demo_pk _ _ _ _ _ _ _ (reach_start demo_rows demo_pk true 0 demo_task eq_refl) (triple demo_turn1)). Qed.

Lemma lan_task_beacons_witness : (str "eth0", demo_beacon demo_pk 9002) ∈ demo_turn2.1.2.
Proof.
  apply (@lan_task_beacons any_regex std_hex toy_blake2 demo_rows demo_pk demo_task demo_turn1.1.1 demo_turn2.1.1
    (demo_host (inet6_line "1")) (demo_host (inet6_line "1")) 0 0 (from_secs 1) ∅
    {[str "eth0" := [RecvV4 [1]; RecvV6 demo_from (demo_beacon demo_peer_pk 4444)]]} demo_turn1.1.2 demo_turn2.1.2 demo_turn1.2 demo_turn2.2
    demo_cfg 2 [str "tls://[fe80::1%2]:9002"] (str "[fe80::1%2]:9002") 9002); try (rewrite demo_scan; by left);
    try exact (triple _); try (exists 2; vm_compute; reflexivity); vm_compute; reflexivity.
Defined.

Lemma lan_beacons_honest_witness : (str "eth0", demo_beacon demo_pk 9002) ∈ demo_turn2.1.2 /\
  exists row, @config_for any_regex demo_rows (str "eth0") = Some row /\ mr_listen row = true.
Proof.
  assert ((str "eth0", demo_beacon demo_pk 9002) ∈ demo_turn2.1.2) as Hin by (rewrite (proj1 (proj2 demo_turns)); by left).
  split; [exact Hin|].
  exact (proj1 (@lan_beacons_honest any_regex std_hex toy_blake2 demo_rows demo_pk demo_turn1.1.1 demo_turn2.1.1
    (demo_host (inet6_line "1")) (from_secs 1) _ demo_turn2.1.2 demo_turn2.2 _ _ demo_reach1 (triple demo_turn2) Hin)).
Defined.

Lemma lan_dials_members_witness : exists c, c ∈ demo_turn2.2 /\ exists zone from data adv cfg,
  Advertisement_decode (take RECV data) = Ok adv /\ adv_pubkey adv <> demo_pk /\
  adv_hash adv = @membership_hash toy_blake2 (if_password cfg) (adv_pubkey adv) /\
  c = CmdDial (@dial_uri std_hex cfg adv (sa_ip from) zone) zone false None.
Proof.
  pose proof (proj2 (proj2 demo_turns)) as Hlen. destruct demo_turn2.2 as [|c cs] eqn:Ec; [discriminate Hlen|].
  exists c. split; [by left|].
  destruct (@lan_dials_members any_regex std_hex toy_blake2 demo_rows demo_pk demo_turn1.1.1 demo_turn2.1.1
    (demo_host (inet6_line "1")) (from_secs 1) _ demo_turn2.1.2 demo_turn2.2 c demo_reach1 (triple demo_turn2)) as
    (zone & from & data & adv & cfg & _ & Ed & _ & _ & Hne & _ & _ & _ & Hh & E); [rewrite Ec; by left|].
  exists zone, from, data, adv, cfg. exact (conj Ed (conj Hne (conj Hh E))).
Defined.

(** When the interface's address moves, the machine asks for a new listener; the
    task still holds the old one and starts none, and from the next turn on the
    beacon advertises the port of a listener bound to the old address. *)
Definition demo_moved1 := @lan_turn any_regex std_hex toy_blake2 (demo_host (inet6_line "7")) (from_secs 2) ∅ demo_turn2.1.1.
Definition demo_moved2 := @lan_turn any_regex std_hex toy_blake2 (demo_host (inet6_line "7")) (from_secs 3) ∅ demo_moved1.1.1.

Example moved_address_keeps_listener :
  lt_listeners demo_moved1.1.1 = lt_listeners demo_turn1.1.1 /\
  d_listening (lt_discovery demo_moved1.1.1) = ∅ /\ demo_moved2.1.2 = [(str "eth0", demo_beacon demo_pk 9002)].
Proof. by vm_compute. Qed.
