(* ===== verification/Config.v ===== *)
(** * Config: the node's configuration ([client/src/config.rs]) and start-up.

    JSON documents as [serde_json::Value] has them; [null]s dropped as Go drops
    them; the configuration laid over freshly generated defaults, and written
    back; identity and allowlist; the command line; and what [boot] of
    [client/src/main.rs] hands to the node. Reading and printing JSON text is
    [serde_json]'s, and the generated key a parameter. *)
From Stdlib Require Import Strings.String.
From stdpp Require Import base tactics list numbers gmap sorting.
From S2P Require Import Prelude Errors Clock Text Words Frame Address Wire Handshake LinkSet Uri Lan Peers Router Hoare Session Node Discover.

Local Open Scope Z_scope.

(** ** Documents *)

(** [serde_json::Number]; a float is its bits. *)
Inductive Number : Type := PosInt (n : Z) | NegInt (n : Z) | Float (bits : Z).

(** An object is a [BTreeMap]: its members in key order. *)
Inductive Value : Type :=
  | VNull
  | VBool (b : bool)
  | VNumber (n : Number)
  | VString (s : bytes)
  | VArray (items : list Value)
  | VObject (members : list (bytes * Value)).

Definition is_null (v : Value) : bool := match v with VNull => true | _ => false end.

Fixpoint strip_nulls (v : Value) : Value :=
  match v with
  | VObject members =>
    VObject ((fix go (ms : list (bytes * Value)) : list (bytes * Value) :=
                match ms with
                | [] => []
                | (k, m) :: ms => if is_null m then go ms else (k, strip_nulls m) :: go ms
                end) members)
  | VArray items => VArray (map strip_nulls items)
  | _ => v
  end.

(** [Map::get]. *)
Fixpoint member (ms : list (bytes * Value)) (key : bytes) : option Value :=
  match ms with
  | [] => None
  | (k, v) :: ms' => if bool_decide (k = key) then Some v else member ms' key
  end.

(** ** The configuration *)

Definition DEFAULT_ADMIN_LISTEN : bytes := str "unix:///var/run/yggdrasil.sock".
Definition DEFAULT_IF_NAME : bytes := str "auto".
Definition DEFAULT_IF_MTU : Z := 65535.
Definition PRIVATE_KEY_LEN : nat := 64.

(** A failure to read a file, or in [serde], is not told apart further. *)
Inductive ConfigError : Type :=
  | ConfigIo | ConfigJson | ConfigHex (entry : bytes) | ConfigLength (want found : nat) | KeyMismatch | KeyFile.

Record MulticastIface : Type := mkMulticastIface {
  mi_regex : bytes; mi_beacon : bool; mi_listen : bool; mi_port : Z; mi_priority : Z; mi_password : bytes }.

Record Config : Type := mkConfig {
  cf_private_key : bytes; cf_private_key_path : bytes; cf_peers : list bytes; cf_interface_peers : list (bytes * list bytes);
  cf_listen : list bytes; cf_admin_listen : bytes; cf_multicast_interfaces : list MulticastIface;
  cf_allowed_public_keys : list bytes; cf_group_password : bytes; cf_if_name : bytes; cf_if_mtu : Z; cf_log_lookups : bool;
  cf_node_info_privacy : bool; cf_node_info : option (list (bytes * Value)) }.

Definition set_private_key (k : bytes) (c : Config) : Config :=
  mkConfig k (cf_private_key_path c) (cf_peers c) (cf_interface_peers c) (cf_listen c) (cf_admin_listen c)
    (cf_multicast_interfaces c) (cf_allowed_public_keys c) (cf_group_password c) (cf_if_name c) (cf_if_mtu c) (cf_log_lookups c)
    (cf_node_info_privacy c) (cf_node_info c).

Definition MulticastIface_default : MulticastIface := mkMulticastIface [] false false 0 0 [].

Section config.
Context `{!Hex} `{!Ed25519}.

Definition go_private_key_bytes (key : bytes) : bytes := key ++ verifying_key key.

(** [key] is the identity just generated. *)
Definition defaults (key : bytes) : Config :=
  mkConfig (go_private_key_bytes key) [] [] [] [] DEFAULT_ADMIN_LISTEN [mkMulticastIface (str ".*") true true 0 0 []]
    [] [] DEFAULT_IF_NAME DEFAULT_IF_MTU false false None.

(** *** Reading: what [#[derive(Deserialize)]] does with the attributes given.
    A struct is read from an object by its fields' names, or from an array by
    their positions; a field that is not there keeps its default. *)

Definition field (v : Value) (at_ : nat) (name : bytes) : option Value :=
  match v with
  | VObject ms => member ms name
  | VArray items => items !! at_
  | _ => None
  end.

Definition struct_shape (fields : nat) (v : Value) : option () :=
  match v with
  | VObject _ => Some ()
  | VArray items => if bool_decide (length items <= fields)%nat then Some () else None
  | _ => None
  end.

Definition read_field {A} (v : Value) (at_ : nat) (name : bytes) (read : Value -> option A) (default : A) : option A :=
  match field v at_ name with
  | Some m => read m
  | None => Some default
  end.

Definition read_string (v : Value) : option bytes := match v with VString s => Some s | _ => None end.
Definition read_bool (v : Value) : option bool := match v with VBool b => Some b | _ => None end.
Definition read_uint (max : Z) (v : Value) : option Z :=
  match v with VNumber (PosInt n) => if n <=? max then Some n else None | _ => None end.
Definition read_vec {A} (read : Value -> option A) (v : Value) : option (list A) :=
  match v with VArray items => mapM read items | _ => None end.
Definition read_map {A} (read : Value -> option A) (v : Value) : option (list (bytes * A)) :=
  match v with VObject ms => mapM (fun km => (fun a => (km.1, a)) <$> read km.2) ms | _ => None end.
Definition de_hex (v : Value) : option bytes := read_string v ≫= hex_decode.
Definition read_opt_map (v : Value) : option (option (list (bytes * Value))) :=
  match v with VNull => Some None | VObject ms => Some (Some ms) | _ => None end.

Definition MulticastIface_from_value (v : Value) : option MulticastIface :=
  _ ← struct_shape 6 v;
  regex ← read_field v 0 (str "Regex") read_string [];
  beacon ← read_field v 1 (str "Beacon") read_bool false;
  listen ← read_field v 2 (str "Listen") read_bool false;
  port ← read_field v 3 (str "Port") (read_uint U16_MAX) 0;
  priority ← read_field v 4 (str "Priority") (read_uint U64_MAX) 0;
  password ← read_field v 5 (str "Password") read_string [];
  Some (mkMulticastIface regex beacon listen port priority password).

Definition Config_from_value (d : Config) (v : Value) : option Config :=
  _ ← struct_shape 14 v;
  private_key ← read_field v 0 (str "PrivateKey") de_hex (cf_private_key d);
  private_key_path ← read_field v 1 (str "PrivateKeyPath") read_string (cf_private_key_path d);
  peers ← read_field v 2 (str "Peers") (read_vec read_string) (cf_peers d);
  interface_peers ← read_field v 3 (str "InterfacePeers") (read_map (read_vec read_string)) (cf_interface_peers d);
  listen ← read_field v 4 (str "Listen") (read_vec read_string) (cf_listen d);
  admin_listen ← read_field v 5 (str "AdminListen") read_string (cf_admin_listen d);
  multicast ← read_field v 6 (str "MulticastInterfaces") (read_vec MulticastIface_from_value) (cf_multicast_interfaces d);
  allowed ← read_field v 7 (str "AllowedPublicKeys") (read_vec read_string) (cf_allowed_public_keys d);
  group ← read_field v 8 (str "GroupPassword") read_string (cf_group_password d);
  if_name ← read_field v 9 (str "IfName") read_string (cf_if_name d);
  if_mtu ← read_field v 10 (str "IfMTU") (read_uint U64_MAX) (cf_if_mtu d);
  log_lookups ← read_field v 11 (str "LogLookups") read_bool (cf_log_lookups d);
  privacy ← read_field v 12 (str "NodeInfoPrivacy") read_bool (cf_node_info_privacy d);
  node_info ← read_field v 13 (str "NodeInfo") read_opt_map (cf_node_info d);
  Some (mkConfig private_key private_key_path peers interface_peers listen admin_listen multicast allowed group if_name if_mtu
          log_lookups privacy node_info).

(** [PrivateKeyPath]: [read_key] is the key in the PEM file at a path, when
    there is one. *)
Definition postprocess (read_key : bytes -> option bytes) (c : Config) : Config + ConfigError :=
  match cf_private_key_path c with
  | [] => inl c
  | path => match read_key path with
            | Some key => inl (set_private_key (go_private_key_bytes key) c)
            | None => inr KeyFile
            end
  end.

(** From a document on; [fresh] is the key generated for the defaults. *)
Definition Config_from_doc (fresh : bytes) (read_key : bytes -> option bytes) (doc : option Value) : Config + ConfigError :=
  match doc with
  | None => inr ConfigJson
  | Some doc =>
    match Config_from_value (defaults fresh) (strip_nulls doc) with
    | None => inr ConfigJson
    | Some c => postprocess read_key c
    end
  end.

(** *** Writing: a member for every field that is not skipped. *)

Definition member_unless (skip : bool) (name : bytes) (v : Value) : list (bytes * Value) := if skip then [] else [(name, v)].
Definition is_empty {A} (l : list A) : bool := match l with [] => true | _ :: _ => false end.

Definition MulticastIface_to_value (m : MulticastIface) : Value :=
  VObject ([(str "Regex", VString (mi_regex m)); (str "Beacon", VBool (mi_beacon m)); (str "Listen", VBool (mi_listen m))] ++
    member_unless (mi_port m =? 0) (str "Port") (VNumber (PosInt (mi_port m))) ++
    member_unless (mi_priority m =? 0) (str "Priority") (VNumber (PosInt (mi_priority m))) ++
    [(str "Password", VString (mi_password m))]).

Definition Config_to_value (c : Config) : Value :=
  VObject (member_unless (is_empty (cf_private_key c)) (str "PrivateKey") (VString (hex_encode (cf_private_key c))) ++
    member_unless (is_empty (cf_private_key_path c)) (str "PrivateKeyPath") (VString (cf_private_key_path c)) ++
    [(str "Peers", VArray (VString <$> cf_peers c));
     (str "InterfacePeers", VObject ((fun ku => (ku.1, VArray (VString <$> ku.2))) <$> cf_interface_peers c));
     (str "Listen", VArray (VString <$> cf_listen c))] ++
    member_unless (is_empty (cf_admin_listen c)) (str "AdminListen") (VString (cf_admin_listen c)) ++
    [(str "MulticastInterfaces", VArray (MulticastIface_to_value <$> cf_multicast_interfaces c));
     (str "AllowedPublicKeys", VArray (VString <$> cf_allowed_public_keys c));
     (str "GroupPassword", VString (cf_group_password c)); (str "IfName", VString (cf_if_name c));
     (str "IfMTU", VNumber (PosInt (cf_if_mtu c)))] ++
    member_unless (negb (cf_log_lookups c)) (str "LogLookups") (VBool (cf_log_lookups c)) ++
    [(str "NodeInfoPrivacy", VBool (cf_node_info_privacy c));
     (str "NodeInfo", match cf_node_info c with Some ms => VObject ms | None => VNull end)]).

(** [-genconf]. *)
Definition Config_generate (key : bytes) : Value :=
  let d := defaults key in
  Config_to_value (mkConfig (cf_private_key d) (cf_private_key_path d) (cf_peers d) (cf_interface_peers d) (cf_listen d) []
    (cf_multicast_interfaces d) (cf_allowed_public_keys d) (cf_group_password d) (cf_if_name d) (cf_if_mtu d) (cf_log_lookups d)
    (cf_node_info_privacy d) (cf_node_info d)).

(** *** Identity and allowlist *)

Definition signing_key (c : Config) : bytes + ConfigError :=
  if bool_decide (length (cf_private_key c) <> PRIVATE_KEY_LEN) then inr (ConfigLength PRIVATE_KEY_LEN (length (cf_private_key c)))
  else
    let seed := take 32 (cf_private_key c) in
    if bool_decide (verifying_key seed <> drop 32 (cf_private_key c)) then inr KeyMismatch else inl seed.

Definition public_key (c : Config) : bytes + ConfigError :=
  match signing_key c with inl seed => inl (verifying_key seed) | inr e => inr e end.
Definition config_address (c : Config) : Address + ConfigError :=
  match public_key c with inl key => inl (addr_for_key key) | inr e => inr e end.
Definition config_subnet (c : Config) : Subnet + ConfigError :=
  match public_key c with inl key => inl (subnet_for_key key) | inr e => inr e end.

Fixpoint allowed_keys (entries : list bytes) : list bytes + ConfigError :=
  match entries with
  | [] => inl []
  | entry :: entries =>
    match hex_decode entry with
    | None => inr (ConfigHex entry)
    | Some key =>
      if bool_decide (length key <> 32)%nat then inr (ConfigLength 32 (length key))
      else match allowed_keys entries with inl keys => inl (key :: keys) | inr e => inr e end
    end
  end.

Definition link_options (c : Config) : LinkOptions + ConfigError :=
  match allowed_keys (cf_allowed_public_keys c) with
  | inl keys => inl (mkLinkOptions [] 0 None keys)
  | inr e => inr e
  end.
End config.

(** ** Documents without nulls *)

Section value_ind.
Context (P : Value -> Prop) (Hnull : P VNull) (Hbool : forall b, P (VBool b)) (Hnum : forall n, P (VNumber n))
  (Hstr : forall s, P (VString s)) (Harr : forall items, Forall P items -> P (VArray items))
  (Hobj : forall ms, Forall (fun km => P km.2) ms -> P (VObject ms)).

Fixpoint value_ind (v : Value) : P v :=
  match v with
  | VNull => Hnull
  | VBool b => Hbool b
  | VNumber n => Hnum n
  | VString s => Hstr s
  | VArray items =>
    Harr items ((fix go l : Forall P l :=
                   match l with [] => Forall_nil_2 P | x :: l' => Forall_cons_2 P x l' (value_ind x) (go l') end) items)
  | VObject ms =>
    Hobj ms ((fix go l : Forall (fun km => P km.2) l :=
                match l with
                | [] => Forall_nil_2 (fun km => P km.2)
                | (k, x) :: l' => Forall_cons_2 (fun km => P km.2) (k, x) l' (value_ind x) (go l')
                end) ms)
  end.
End value_ind.

(** No member of an object is [null], at any depth. *)
Fixpoint null_free (v : Value) : bool :=
  match v with
  | VObject ms => forallb (fun km => negb (is_null km.2) && null_free km.2) ms
  | VArray items => forallb null_free items
  | _ => true
  end.

Definition strip_members (ms : list (bytes * Value)) : list (bytes * Value) :=
  omap (fun km => if is_null km.2 then None else Some (km.1, strip_nulls km.2)) ms.

Lemma strip_object ms : strip_nulls (VObject ms) = VObject (strip_members ms).
Proof.
  cbn [strip_nulls]. f_equal. unfold strip_members. induction ms as [|[k m] ms IH]; [done|].
  cbn [omap list_omap fst snd]. rewrite <-IH. by destruct (is_null m).
Qed.

Lemma is_null_strip v : is_null (strip_nulls v) = is_null v.
Proof. by destruct v. Qed.

Lemma strip_null_free v : null_free (strip_nulls v) = true.
Proof.
  induction v as [| | | |items IH|ms IH] using value_ind; try done.
  - cbn [strip_nulls null_free]. induction IH as [|x items Hx IH IH2]; cbn; [done|]. by rewrite Hx.
  - rewrite strip_object. cbn [null_free]. unfold strip_members.
    induction IH as [|[k m] ms Hm IH IH2]; cbn [omap list_omap fst snd]; [done|].
    destruct (is_null m) eqn:En; [exact IH2|]. cbn [fst snd forallb] in *. by rewrite is_null_strip, En, Hm.
Qed.

Lemma strip_id v : null_free v = true -> strip_nulls v = v.
Proof.
  induction v as [| | | |items IH|ms IH] using value_ind; try done.
  - cbn [strip_nulls null_free]. intros Hn. f_equal. induction IH as [|x items Hx IH IH2]; cbn in *; [done|].
    apply andb_true_iff in Hn as [Ha Hb]. by rewrite Hx, IH2.
  - rewrite strip_object. cbn [null_free]. intros Hn. f_equal. unfold strip_members.
    induction IH as [|[k m] ms Hm IH IH2]; cbn in *; [done|].
    apply andb_true_iff in Hn as [Ha Hb]. apply andb_true_iff in Ha as [Ha Hc]. apply negb_true_iff in Ha. by rewrite Ha, Hm, IH2.
Qed.

Lemma member_None ms key : member ms key = None <-> key ∉ ms.*1.
Proof.
  induction ms as [|[k m] ms IH]; cbn [member fmap list_fmap fst]; [split; [intros _; apply not_elem_of_nil|done]|].
  rewrite not_elem_of_cons, <-IH. case_bool_decide as E; [subst; by split; [|intros [? _]]|]. split; [|by intros [_ ?]]. intros ?. by split; [congruence|].
Qed.

Lemma strip_member ms key : NoDup ms.*1 -> member (strip_members ms) key =
  match member ms key with Some m => if is_null m then None else Some (strip_nulls m) | None => None end.
Proof.
  intros Hnd. unfold strip_members. induction ms as [|[k m] ms IH]; [done|].
  cbn [fmap list_fmap fst] in Hnd. apply NoDup_cons in Hnd as [Hk Hnd]. cbn [omap list_omap fst snd member].
  destruct (decide (k = key)) as [->|Hne].
  - rewrite (bool_decide_eq_true_2 (key = key)) by done. destruct (is_null m); [|cbn; by rewrite bool_decide_eq_true_2].
    rewrite (IH Hnd). by apply member_None in Hk as ->.
  - rewrite (bool_decide_eq_false_2 (k = key)) by done. destruct (is_null m); [by apply IH|]. cbn [member].
    rewrite (bool_decide_eq_false_2 (k = key)) by done. by apply IH.
Qed.

(** Stripping a document leaves exactly its nulls out. No member of an
    object of the result is null, at any depth; a document without null members
    is left as it is; and a key of an object is found afterwards exactly when it
    was there with a value other than null. *)
Theorem strip_nulls_exact (v : Value) :
  null_free (strip_nulls v) = true /\ (null_free v = true -> strip_nulls v = v) /\
  (forall ms key, v = VObject ms -> NoDup ms.*1 -> field (strip_nulls v) 0 key =
     match member ms key with Some m => if is_null m then None else Some (strip_nulls m) | None => None end).
Proof.
  split; [apply strip_null_free|]. split; [apply strip_id|]. intros ms key -> Hnd. rewrite strip_object. by apply strip_member.
Qed.

(** ** Written and read back *)

(** What reading a printed float gives, as bits: [serde_json] parses without its
    [float_roundtrip] feature, so that this need not be the float printed. *)
Class FloatText := { refloat : Z -> Z }.

Section reading_back.
Context `{!FloatText}.

(** What reading a printed document gives: the members of an object are held in
    key order, and floats are read as they can be. *)
Fixpoint reread (v : Value) : Value :=
  match v with
  | VNumber (Float bits) => VNumber (Float (refloat bits))
  | VObject ms => VObject (merge_sort name_le (map (fun km => (km.1, reread km.2)) ms))
  | VArray items => VArray (map reread items)
  | _ => v
  end.

Lemma member_Some ms key v : NoDup ms.*1 -> member ms key = Some v <-> (key, v) ∈ ms.
Proof.
  intros Hnd. induction ms as [|[k m] ms IH]; cbn [member]; [split; [done|by intros ?%not_elem_of_nil]|].
  cbn [fmap list_fmap fst] in Hnd. apply NoDup_cons in Hnd as [Hk Hnd]. rewrite elem_of_cons. case_bool_decide as E.
  - subst. split; [intros [= ->]; by left|]. intros [[= <-]|Hin]; [done|]. destruct Hk. by apply (pair_fst_elem _ v).
  - rewrite (IH Hnd). split; [by right|]. intros [[= -> _]|?]; done.
Qed.

Lemma member_perm ms ms' key : NoDup ms.*1 -> ms ≡ₚ ms' -> member ms key = member ms' key.
Proof.
  intros Hnd Hp. assert (NoDup ms'.*1) as Hnd' by (by rewrite <-Hp). apply option_eq. intros v. rewrite !member_Some by done. by rewrite Hp.
Qed.

Lemma member_map (f : Value -> Value) ms key : member (map (fun km => (km.1, f km.2)) ms) key = f <$> member ms key.
Proof. induction ms as [|[k m] ms IH]; cbn; [done|]. by case_bool_decide. Qed.

Lemma is_null_reread v : is_null (reread v) = is_null v.
Proof. by destruct v as [| |[]| | |]. Qed.

(** Reading a member back from what was written. *)
Lemma read_back {A} ms at_ name (read : Value -> option A) d : NoDup ms.*1 ->
  read_field (strip_nulls (reread (VObject ms))) at_ name read d =
  match member ms name with Some m => if is_null m then Some d else read (strip_nulls (reread m)) | None => Some d end.
Proof.
  intros Hnd. cbn [reread]. rewrite strip_object. unfold read_field. cbn [field].
  assert ((map (fun km => (km.1, reread km.2)) ms).*1 = ms.*1) as E by (clear; induction ms as [|[k m] ms IH]; [done|]; cbn [map fmap list_fmap fst]; f_equal; exact IH).
  rewrite strip_member by (rewrite merge_sort_Permutation, E; done).
  rewrite (member_perm _ (map (fun km => (km.1, reread km.2)) ms)) by first [by rewrite merge_sort_Permutation, E|apply merge_sort_Permutation].
  rewrite member_map. destruct (member ms name) as [m|]; cbn; [|done]. by rewrite is_null_reread; destruct (is_null m).
Qed.

Lemma strings_back l : read_vec read_string (strip_nulls (reread (VArray (VString <$> l)))) = Some l.
Proof.
  cbn [reread strip_nulls read_vec]. induction l as [|s l IH]; [done|]. cbn [map fmap list_fmap mapM] in *. cbn. by rewrite IH.
Qed.

Lemma sort_sorted {A} (l : list (bytes * A)) : NoDup l.*1 -> StronglySorted name_le l -> merge_sort name_le l = l.
Proof.
  intros Hnd Hs. assert (forall x y, x ∈ l -> y ∈ l -> x.1 = y.1 -> x = y) as Hu.
  { intros x y Hx Hy E. apply list_elem_of_lookup in Hx as [i Hi], Hy as [j Hj].
    assert (l.*1 !! i = Some x.1) by (by rewrite list_lookup_fmap, Hi). assert (l.*1 !! j = Some x.1) by (by rewrite E, list_lookup_fmap, Hj).
    assert (i = j) as -> by (by eapply NoDup_lookup). congruence. }
  apply (StronglySorted_unique_strong name_le).
  - intros x y Hx Hy Hxy Hyx. rewrite merge_sort_Permutation in Hx. apply Hu; [done..|]. by apply (anti_symm lex_le).
  - apply StronglySorted_merge_sort; [intros a b c; unfold name_le; apply transitivity|intros a b; apply (lex_le_total a.1 b.1)].
  - done.
  - apply merge_sort_Permutation.
Qed.

Definition iface_row_ok (m : MulticastIface) : Prop := mi_port m <= U16_MAX /\ mi_priority m <= U64_MAX.

Lemma iface_back m : iface_row_ok m -> MulticastIface_from_value (strip_nulls (reread (MulticastIface_to_value m))) = Some m.
Proof.
  intros [Hp Hq]. destruct m as [re be li po pr pw]. cbn [mi_port mi_priority] in *.
  unfold MulticastIface_to_value. cbn [mi_regex mi_beacon mi_listen mi_port mi_priority mi_password].
  set (ms := _ ++ _). assert (NoDup ms.*1) as Hnd by (unfold ms; destruct (po =? 0), (pr =? 0); cbn [member_unless app fmap list_fmap fst]; by_dec).
  unfold MulticastIface_from_value. change (struct_shape 6 (strip_nulls (reread (VObject ms)))) with (Some ()). cbn [mbind option_bind].
  rewrite !(read_back ms _ _ _ _ Hnd).
  assert (member ms (str "Regex") = Some (VString re) /\ member ms (str "Beacon") = Some (VBool be) /\ member ms (str "Listen") = Some (VBool li) /\
    member ms (str "Password") = Some (VString pw) /\
    member ms (str "Port") = (if po =? 0 then None else Some (VNumber (PosInt po))) /\
    member ms (str "Priority") = (if pr =? 0 then None else Some (VNumber (PosInt pr)))) as (-> & -> & -> & -> & -> & ->).
  { unfold ms. destruct (po =? 0), (pr =? 0); vm_compute; done. }
  cbn [is_null reread strip_nulls read_string read_bool mbind option_bind].
  destruct (Z.eqb_spec po 0) as [->|], (Z.eqb_spec pr 0) as [->|]; cbn [is_null reread strip_nulls read_uint mbind option_bind];
    rewrite ?(proj2 (Z.leb_le po U16_MAX) Hp), ?(proj2 (Z.leb_le pr U64_MAX) Hq); reflexivity.
Qed.

Lemma ifaces_back l : Forall iface_row_ok l ->
  read_vec MulticastIface_from_value (strip_nulls (reread (VArray (MulticastIface_to_value <$> l)))) = Some l.
Proof.
  intros Hl. cbn [reread strip_nulls read_vec]. induction Hl as [|m l Hm Hl IH]; [done|]. cbn [map fmap list_fmap mapM] in *.
  rewrite iface_back by done. cbn [mbind option_bind]. by rewrite IH.
Qed.

Lemma peers_back (ip : list (bytes * list bytes)) : NoDup ip.*1 -> StronglySorted name_le ip ->
  read_map (read_vec read_string) (strip_nulls (reread (VObject ((fun ku => (ku.1, VArray (VString <$> ku.2))) <$> ip)))) = Some ip.
Proof.
  intros Hnd Hs. cbn [reread]. rewrite strip_object. cbn [read_map].
  assert (map (fun km => (km.1, reread km.2)) ((fun ku => (ku.1, VArray (VString <$> ku.2))) <$> ip) =
          (fun ku => (ku.1, reread (VArray (VString <$> ku.2)))) <$> ip) as -> by (clear; induction ip as [|[k us] ip IH]; [done|]; cbn [map fmap list_fmap fst snd]; f_equal; exact IH).
  rewrite sort_sorted.
  - clear Hnd Hs. induction ip as [|[k us] ip IH]; [done|]. unfold strip_members in *. cbn [fmap list_fmap omap list_omap fst snd mapM].
    change (is_null (reread (VArray (VString <$> us)))) with false. cbn [mapM fst snd]. rewrite strings_back. cbn [fmap option_fmap option_map mbind option_bind].
    cbn [fmap list_fmap] in IH. by rewrite IH.
  - rewrite <-list_fmap_compose. exact Hnd.
  - apply (StronglySorted_fmap _ name_le); [|done]. by intros x y.
Qed.

End reading_back.

Section round_trip.
Context `{!Hex} `{!HexLaws} `{!Ed25519} `{!FloatText}.

(** What the types and the maps of a configuration guarantee. *)
Definition config_ok (c : Config) : Prop :=
  bytes_ok (cf_private_key c) /\ NoDup (cf_interface_peers c).*1 /\ StronglySorted name_le (cf_interface_peers c) /\
  Forall iface_row_ok (cf_multicast_interfaces c) /\ cf_if_mtu c <= U64_MAX.

(** The members of a document after printing and reading: nulls dropped, in key
    order. *)
Definition reread_members (ms : list (bytes * Value)) : list (bytes * Value) :=
  match strip_nulls (reread (VObject ms)) with VObject ms => ms | _ => [] end.

(** The node info is the same after printing and reading: it is in key order, has
    no null members, and each of its floats is read as printed. *)
Definition info_survives (c : Config) : Prop :=
  match cf_node_info c with Some ms => reread (VObject ms) = VObject ms /\ null_free (VObject ms) = true | None => True end.

(** A configuration after printing and reading over the defaults [d]: a blank key
    or admin address is not written, and reads as the default. *)
Definition blank_as (d c : Config) : Config :=
  mkConfig (if is_empty (cf_private_key c) then cf_private_key d else cf_private_key c) (cf_private_key_path c) (cf_peers c)
    (cf_interface_peers c) (cf_listen c) (if is_empty (cf_admin_listen c) then cf_admin_listen d else cf_admin_listen c)
    (cf_multicast_interfaces c) (cf_allowed_public_keys c) (cf_group_password c) (cf_if_name c) (cf_if_mtu c) (cf_log_lookups c)
    (cf_node_info_privacy c) (reread_members <$> cf_node_info c).

Lemma blank_as_same d c : cf_private_key c <> [] -> cf_admin_listen c <> [] -> info_survives c -> blank_as d c = c.
Proof.
  destruct c as [pk pp ps ip ls al mc ak gp na mtu ll np ni]. unfold blank_as, info_survives, reread_members.
  cbn [cf_private_key cf_private_key_path cf_peers cf_interface_peers cf_listen cf_admin_listen cf_multicast_interfaces
    cf_allowed_public_keys cf_group_password cf_if_name cf_if_mtu cf_log_lookups cf_node_info_privacy cf_node_info].
  intros Hk Ha Hn. destruct pk; [done|]. destruct al; [done|]. destruct ni as [ms|]; [|done].
  destruct Hn as [E Hn]. cbn [fmap option_fmap option_map]. by rewrite E, (strip_id _ Hn).
Qed.

Definition written (c : Config) : list (bytes * Value) := match Config_to_value c with VObject ms => ms | _ => [] end.

Lemma written_keys c : NoDup (written c).*1.
Proof.
  unfold written, Config_to_value, member_unless.
  destruct (is_empty (cf_private_key c)), (is_empty (cf_private_key_path c)), (is_empty (cf_admin_listen c)), (negb (cf_log_lookups c));
    cbn [app fmap list_fmap fst]; by_dec.
Qed.

Lemma written_members c :
  member (written c) (str "PrivateKey") = (if is_empty (cf_private_key c) then None else Some (VString (hex_encode (cf_private_key c)))) /\
  member (written c) (str "PrivateKeyPath") = (if is_empty (cf_private_key_path c) then None else Some (VString (cf_private_key_path c))) /\
  member (written c) (str "Peers") = Some (VArray (VString <$> cf_peers c)) /\
  member (written c) (str "InterfacePeers") = Some (VObject ((fun ku => (ku.1, VArray (VString <$> ku.2))) <$> cf_interface_peers c)) /\
  member (written c) (str "Listen") = Some (VArray (VString <$> cf_listen c)) /\
  member (written c) (str "AdminListen") = (if is_empty (cf_admin_listen c) then None else Some (VString (cf_admin_listen c))) /\
  member (written c) (str "MulticastInterfaces") = Some (VArray (MulticastIface_to_value <$> cf_multicast_interfaces c)) /\
  member (written c) (str "AllowedPublicKeys") = Some (VArray (VString <$> cf_allowed_public_keys c)) /\
  member (written c) (str "GroupPassword") = Some (VString (cf_group_password c)) /\
  member (written c) (str "IfName") = Some (VString (cf_if_name c)) /\
  member (written c) (str "IfMTU") = Some (VNumber (PosInt (cf_if_mtu c))) /\
  member (written c) (str "LogLookups") = (if negb (cf_log_lookups c) then None else Some (VBool (cf_log_lookups c))) /\
  member (written c) (str "NodeInfoPrivacy") = Some (VBool (cf_node_info_privacy c)) /\
  member (written c) (str "NodeInfo") = Some (match cf_node_info c with Some ms => VObject ms | None => VNull end).
Proof.
  unfold written, Config_to_value, member_unless.
  destruct (is_empty (cf_private_key c)), (is_empty (cf_private_key_path c)), (is_empty (cf_admin_listen c)), (negb (cf_log_lookups c));
    vm_compute; repeat (split; [reflexivity|]); reflexivity.
Qed.

Lemma config_back d c : cf_private_key_path d = [] -> cf_log_lookups d = false -> cf_node_info d = None -> config_ok c ->
  Config_from_value d (strip_nulls (reread (Config_to_value c))) = Some (blank_as d c).
Proof.
  intros Dp Dl Dn (Hk & Hnd & Hs & Hm & Hmtu). change (Config_to_value c) with (VObject (written c)).
  unfold Config_from_value. change (struct_shape 14 _) with (Some ()). cbn [mbind option_bind].
  rewrite !(read_back (written c) _ _ _ _ (written_keys c)).
  destruct (written_members c) as (-> & -> & -> & -> & -> & -> & -> & -> & -> & -> & -> & -> & -> & ->).
  rewrite !strings_back, (peers_back _ Hnd Hs), (ifaces_back _ Hm).
  cbn [is_null reread strip_nulls read_string read_bool mbind option_bind read_uint]. rewrite (proj2 (Z.leb_le _ _) Hmtu). unfold blank_as.
  assert (match match cf_node_info c with Some ms => VObject ms | None => VNull end with VNull => Some (cf_node_info d)
          | m => read_opt_map (strip_nulls (reread m)) end = Some (reread_members <$> cf_node_info c)) as Eni.
  { by destruct (cf_node_info c) as [ms|]; [|rewrite Dn]. }
  destruct (cf_private_key c) as [|x pk] eqn:Epk, (cf_private_key_path c) as [|y pp] eqn:Epp, (cf_admin_listen c) as [|z al] eqn:Eal,
    (cf_log_lookups c) eqn:Ell; cbn [is_empty negb is_null reread strip_nulls read_string read_bool de_hex mbind option_bind];
    unfold de_hex; cbn [read_string mbind option_bind]; rewrite ?hex_roundtrip by done; cbn [mbind option_bind];
    destruct (cf_node_info c) as [ms|]; cbn [is_null mbind option_bind] in *; rewrite ?Eni; cbn [mbind option_bind];
    rewrite ?Dp, ?Dl, ?Dn; cbn [mbind option_bind]; try reflexivity.
Qed.

(** A generated configuration loads as the defaults it was generated from. *)
Lemma generated_loads fresh key read_key : bytes_ok key -> bytes_ok (verifying_key key) -> key <> [] ->
  Config_from_doc fresh read_key (Some (reread (Config_generate key))) = inl (defaults key).
Proof.
  intros Hk Hv Hne. unfold Config_from_doc, Config_generate. rewrite config_back; [|done..|].
  - unfold blank_as, postprocess. cbn. unfold go_private_key_bytes. by destruct key.
  - split; [cbn; unfold go_private_key_bytes; by apply bytes_ok_app|]. cbn. split; [apply NoDup_nil_2|]. split; [constructor|].
    split; [repeat constructor; unfold U16_MAX, U64_MAX; cbn; lia|]. unfold DEFAULT_IF_MTU, U64_MAX. lia.
Qed.

(** C38: a configuration that is printed is loaded again, key file and all.
    What is loaded is the configuration over the defaults generated for the load:
    a blank key or admin address reads as theirs, and the node info as what its
    text says. Where a key file is named the key in it takes the place of the one
    written, and the load fails if there is none. So a configuration with a key
    and an admin address, no key file, and a node info that survives its text is
    loaded as it was; and a generated one loads as the defaults it was generated
    from. *)
Theorem config_roundtrip (fresh : bytes) (read_key : bytes -> option bytes) (c : Config) : config_ok c ->
  let loaded := Config_from_doc fresh read_key (Some (reread (Config_to_value c))) in
  (cf_private_key_path c = [] -> loaded = inl (blank_as (defaults fresh) c)) /\
  (cf_private_key_path c <> [] -> loaded =
     match read_key (cf_private_key_path c) with
     | Some key => inl (set_private_key (key ++ verifying_key key) (blank_as (defaults fresh) c))
     | None => inr KeyFile
     end) /\
  (cf_private_key_path c = [] -> cf_private_key c <> [] -> cf_admin_listen c <> [] -> info_survives c -> loaded = inl c) /\
  (forall key, bytes_ok key -> bytes_ok (verifying_key key) -> key <> [] ->
     Config_from_doc fresh read_key (Some (reread (Config_generate key))) = inl (defaults key)).
Proof.
  intros Hc. cbv zeta. unfold Config_from_doc at 1 2 3. rewrite config_back by done. unfold postprocess.
  cbn [blank_as cf_private_key_path]. split; [by intros ->|]. split; [|split].
  - destruct (cf_private_key_path c) as [|x path]; [done|]. intros _. by destruct (read_key (x :: path)).
  - intros -> Hk Ha Hn. f_equal. by apply blank_as_same.
  - intros key. apply generated_loads.
Qed.
End round_trip.

(** ** Identity *)

Section identity.
Context `{!Hex} `{!Ed25519} `{!Ed25519Laws}.

(** A node runs as the identity its key says. A private key is accepted
    exactly when it is a 32-byte seed followed by the public key of that seed;
    the key, address and subnet are then that seed's; and the key of generated
    defaults is accepted as the one generated. *)
Theorem signing_key_exact (c : Config) (seed : bytes) :
  (signing_key c = inl seed <-> cf_private_key c = go_private_key_bytes seed /\ length seed = 32%nat) /\
  (signing_key c = inl seed -> public_key c = inl (verifying_key seed) /\
     config_address c = inl (addr_for_key (verifying_key seed)) /\ config_subnet c = inl (subnet_for_key (verifying_key seed))) /\
  (length seed = 32%nat -> signing_key (defaults seed) = inl seed).
Proof.
  assert (forall c, signing_key c = inl seed <-> cf_private_key c = go_private_key_bytes seed /\ length seed = 32%nat) as Hs.
  { clear c. intros c. unfold signing_key, go_private_key_bytes, PRIVATE_KEY_LEN. split.
    - case_bool_decide as Hl; [done|]. case_bool_decide as Hv; [done|]. intros [= <-].
      assert (length (cf_private_key c) = 64%nat) as El by (by destruct (decide (length (cf_private_key c) = 64%nat))).
      assert (verifying_key (take 32 (cf_private_key c)) = drop 32 (cf_private_key c)) as ->
        by (by destruct (decide (verifying_key (take 32 (cf_private_key c)) = drop 32 (cf_private_key c)))).
      split; [by rewrite take_drop|]. rewrite length_take. lia.
    - intros [-> Hl]. destruct (verifying_key_ok seed) as [_ Hk]. unfold KEY_LEN in Hk. rewrite bool_decide_eq_false_2 by (rewrite length_app; lia).
      rewrite take_app_length', drop_app_length' by done. by rewrite bool_decide_eq_false_2 by auto. }
  split; [apply Hs|]. split.
  - intros E. unfold config_address, config_subnet, public_key. by rewrite E.
  - intros Hl. by apply Hs.
Qed.

(** The allowlist is the keys written in the configuration. The options are
    accepted exactly when every entry is the hexadecimal text of 32 bytes; they
    then allow those keys, in order, and set no password and no pinned key. *)
Theorem link_options_exact (c : Config) (opts : LinkOptions) :
  link_options c = inl opts <->
  exists keys, Forall2 (fun entry key => hex_decode entry = Some key /\ length key = 32%nat) (cf_allowed_public_keys c) keys /\
    opts = mkLinkOptions [] 0 None keys.
Proof.
  assert (forall entries keys, allowed_keys entries = inl keys <->
    Forall2 (fun entry key => hex_decode entry = Some key /\ length key = 32%nat) entries keys) as Ha.
  { induction entries as [|entry entries IH]; intros keys; cbn [allowed_keys].
    - split; [intros [= <-]; constructor|]. intros Hf. by inversion Hf.
    - split.
      + destruct (hex_decode entry) as [key|] eqn:Eh; [|done]. case_bool_decide as Hl; [done|].
        destruct (allowed_keys entries) as [ks|]; [|done]. intros [= <-]. constructor; [|by apply IH].
        split; [done|]. by destruct (decide (length key = 32%nat)).
      + intros Hf. inversion Hf as [|? key ? ks [Eh Hl] Hr]; subst. rewrite Eh, bool_decide_eq_false_2 by auto.
        by rewrite (proj2 (IH ks) Hr). }
  unfold link_options. split.
  - destruct (allowed_keys _) as [keys|] eqn:E; [|done]. intros [= <-]. exists keys. split; [by apply Ha|done].
  - intros (keys & Hf & ->). by rewrite (proj2 (Ha _ _) Hf).
Qed.
End identity.

(** ** The command line *)

Inductive ConfigSource : Type := Stdin | File (path : bytes).

Record Flags : Type := mkFlags {
  fl_genconf : bool; fl_useconf : bool; fl_useconffile : option bytes; fl_address : bool; fl_subnet : bool; fl_publickey : bool;
  fl_json : bool; fl_help : bool; fl_rejected : option bytes; fl_positionals : list bytes }.

Definition Flags_default : Flags := mkFlags false false None false false false false false None [].

Definition set_useconffile (p : option bytes) (f : Flags) : Flags :=
  mkFlags (fl_genconf f) (fl_useconf f) p (fl_address f) (fl_subnet f) (fl_publickey f) (fl_json f) (fl_help f) (fl_rejected f) (fl_positionals f).
Definition set_rejected (r : option bytes) (f : Flags) : Flags :=
  mkFlags (fl_genconf f) (fl_useconf f) (fl_useconffile f) (fl_address f) (fl_subnet f) (fl_publickey f) (fl_json f) (fl_help f) r (fl_positionals f).

(** A flag by its name: the flags, and whether the next argument is its value. *)
Definition flag_named (f : Flags) (name : bytes) (inline : option bytes) : Flags * bool :=
  if bool_decide (name = str "genconf") then
    (mkFlags true (fl_useconf f) (fl_useconffile f) (fl_address f) (fl_subnet f) (fl_publickey f) (fl_json f) (fl_help f) (fl_rejected f) (fl_positionals f), false)
  else if bool_decide (name = str "useconf") then
    (mkFlags (fl_genconf f) true (fl_useconffile f) (fl_address f) (fl_subnet f) (fl_publickey f) (fl_json f) (fl_help f) (fl_rejected f) (fl_positionals f), false)
  else if bool_decide (name = str "useconffile") then
    match inline with Some path => (set_useconffile (Some path) f, false) | None => (f, true) end
  else if bool_decide (name = str "address") then
    (mkFlags (fl_genconf f) (fl_useconf f) (fl_useconffile f) true (fl_subnet f) (fl_publickey f) (fl_json f) (fl_help f) (fl_rejected f) (fl_positionals f), false)
  else if bool_decide (name = str "subnet") then
    (mkFlags (fl_genconf f) (fl_useconf f) (fl_useconffile f) (fl_address f) true (fl_publickey f) (fl_json f) (fl_help f) (fl_rejected f) (fl_positionals f), false)
  else if bool_decide (name = str "publickey") then
    (mkFlags (fl_genconf f) (fl_useconf f) (fl_useconffile f) (fl_address f) (fl_subnet f) true (fl_json f) (fl_help f) (fl_rejected f) (fl_positionals f), false)
  else if bool_decide (name = str "json") then
    (mkFlags (fl_genconf f) (fl_useconf f) (fl_useconffile f) (fl_address f) (fl_subnet f) (fl_publickey f) true (fl_help f) (fl_rejected f) (fl_positionals f), false)
  else if bool_decide (name = str "help" \/ name = str "h") then
    (mkFlags (fl_genconf f) (fl_useconf f) (fl_useconffile f) (fl_address f) (fl_subnet f) (fl_publickey f) (fl_json f) true (fl_rejected f) (fl_positionals f), false)
  else
    match fl_rejected f with
    | None => (set_rejected (Some (str "flag provided but not defined: -" ++ name)) f, false)
    | Some _ => (f, false)
    end.

Definition flag_arg (st : Flags * bool) (arg : bytes) : Flags * bool :=
  let '(f, next_is_file) := st in
  if next_is_file then (set_useconffile (Some arg) f, false)
  else
    match (match strip_prefix (str "--") arg with Some rest => Some rest | None => strip_prefix (str "-") arg end) with
    | Some rest =>
      match split_once 61 rest with
      | Some (name, v) => flag_named f name (Some v)
      | None => flag_named f rest None
      end
    | None =>
      (mkFlags (fl_genconf f) (fl_useconf f) (fl_useconffile f) (fl_address f) (fl_subnet f) (fl_publickey f) (fl_json f) (fl_help f)
         (fl_rejected f) (fl_positionals f ++ [arg]), false)
    end.

Definition Flags_parse (args : list bytes) : Flags :=
  let '(f, next_is_file) := fold_left flag_arg args (Flags_default, false) in
  if next_is_file && bool_decide (fl_rejected f = None) then set_rejected (Some (str "flag needs an argument: -useconffile")) f else f.

Definition Flags_source (f : Flags) : option ConfigSource :=
  if fl_useconf f then Some Stdin else File <$> fl_useconffile f.

(** What the process does: it exits with a message, prints, boots a node, or
    probes one peer. *)
Inductive Startup : Type :=
  | ExitUsage (msg : bytes)
  | PrintUsage
  | PrintConfig
  | ExitConfig (e : ConfigError)
  | PrintAddress (a : Address)
  | PrintSubnet (s : Subnet)
  | PrintKey (key : bytes)
  | BootNode (c : Config)
  | Probe (positionals : list bytes).

Section startup.
Context `{!Ed25519}.

Definition print_identity (f : Flags) (c : Config) : option Startup + ConfigError :=
  if fl_address f then match config_address c with inl a => inl (Some (PrintAddress a)) | inr e => inr e end
  else if fl_subnet f then match config_subnet c with inl s => inl (Some (PrintSubnet s)) | inr e => inr e end
  else if fl_publickey f then match public_key c with inl k => inl (Some (PrintKey k)) | inr e => inr e end
  else inl None.

(** [None] when no document flag was given. *)
Definition config_stage (load : ConfigSource -> Config + ConfigError) (f : Flags) : option Startup :=
  if fl_genconf f then Some PrintConfig
  else
    source ← Flags_source f;
    Some (match load source with
          | inr e => ExitConfig e
          | inl c => match print_identity f c with
                     | inl (Some printed) => printed
                     | inl None => BootNode c
                     | inr e => ExitConfig e
                     end
          end).

Definition startup (load : ConfigSource -> Config + ConfigError) (args : list bytes) : Startup :=
  let f := Flags_parse args in
  match fl_rejected f with
  | Some msg => ExitUsage msg
  | None =>
    if fl_help f then PrintUsage
    else match config_stage load f with Some s => s | None => Probe (fl_positionals f) end
  end.
End startup.

(** ** What [boot] hands over *)

Definition boot_cmds (c : Config) : list Cmd :=
  ((fun uri => CmdDial uri [] true None) <$> cf_peers c) ++
  flat_map (fun su => (fun uri => CmdDial uri su.1 true None) <$> su.2) (cf_interface_peers c).

Definition multicast_rows (c : Config) : list MulticastRow :=
  (fun i => mkMulticastRow (mi_regex i) (mi_beacon i) (mi_listen i) (mi_port i) (Z.min (mi_priority i) U8_MAX) (mi_password i))
  <$> cf_multicast_interfaces c.

Section boot.
Context `{!Hex} `{!Ed25519} `{!NaclBox} `{!Env}.

(** What a row says, its redial apart. *)
Definition row_shape (e : Entry) : LinkInfo * LinkKind * option (LinkId * bytes) * option Z :=
  (entry_info e, en_kind e, en_live e, en_dialing e).
Definition idle_row (uri sintf : bytes) : LinkInfo * LinkKind * option (LinkId * bytes) * option Z :=
  (LinkInfo_new uri sintf, Persistent, None, None).
Definition row_shapes (n : NodeState) := row_shape <$> lk_entries (nd_peers n).
Definition dial_cmd (us : bytes * bytes) : Cmd := CmdDial us.1 us.2 true None.

Lemma add_shapes l uri sintf now :
  let l' := (Links_add l uri sintf Persistent now).1 in
  match parse_link_uri uri with
  | Ok _ => if bool_decide (LinkInfo_new uri sintf ∈ entry_info <$> lk_entries l) then row_shape <$> lk_entries l' = row_shape <$> lk_entries l
            else row_shape <$> lk_entries l' = (row_shape <$> lk_entries l) ++ [idle_row uri sintf]
  | Err _ => l' = l
  end.
Proof.
  unfold Links_add. destruct (parse_link_uri uri); [|done]. destruct (Links_find l uri sintf) as [i|] eqn:Ef; cbn [fst].
  - destruct (position_lookup _ _ _ Ef) as (e & He & Hp). apply bool_decide_eq_true in Hp. rewrite bool_decide_eq_true_2.
    + cbn [update_entry lk_entries]. by apply fmap_alter_same.
    + rewrite <-Hp. apply list_elem_of_fmap_2. by eapply list_elem_of_lookup_2.
  - rewrite bool_decide_eq_false_2 by (by apply find_None). cbn [lk_entries]. by rewrite fmap_app.
Qed.

Lemma boot_drain (us : list (bytes * bytes)) n w : Forall (fun s => exists u i, s = idle_row u i) (row_shapes n) ->
  exists w' n', drain on_cmd n (dial_cmd <$> us) w = Done w' (Ok n') /\ w_router w' = w_router w /\ w_links w' = w_links w /\
    (links_inv (nd_peers n) -> links_inv (nd_peers n')) /\
    (forall s, s ∈ row_shapes n' <-> s ∈ row_shapes n \/ exists u i, (u, i) ∈ us /\ (exists p, parse_link_uri u = Ok p) /\ s = idle_row u i).
Proof.
  revert n w. induction us as [|[u i] us IH]; intros n w Hn.
  { exists w, n. split; [done|]. do 3 (split; [done|]). intros s. split; [by left|]. by intros [?|(u & i & ?%not_elem_of_nil & _)]. }
  cbn [fmap list_fmap drain]. pose proof (add_shapes (nd_peers n) u i (clock_at (w_ticks w))) as Ha.
  set (l1 := Links_add (nd_peers n) u i Persistent (clock_at (w_ticks w))) in *.
  assert (exists n1 w1, on_cmd n (dial_cmd (u, i)) w = Done w1 (Ok n1) /\ w_router w1 = w_router w /\ w_links w1 = w_links w /\
    nd_peers n1 = l1.1) as (n1 & w1 & E1 & R1 & L1 & P1).
  { unfold on_cmd, dial_cmd. cbn [fst snd]. unfold mbind at 1, M_bind at 1, instant_now, tick. fold l1. destruct l1 as [peers outcome].
    do 2 eexists. split; [reflexivity|done]. }
  unfold mbind at 1, M_bind at 1. rewrite E1.
  assert (forall s, s ∈ row_shapes n1 <-> s ∈ row_shapes n \/ ((exists p, parse_link_uri u = Ok p) /\ s = idle_row u i)) as Hs1.
  { intros s. unfold row_shapes. rewrite P1. destruct (parse_link_uri u) as [p|e] eqn:Ep.
    - case_bool_decide as Hin; rewrite Ha.
      + split; [by left|]. intros [?|[_ ->]]; [done|]. apply list_elem_of_fmap in Hin as (e & Ee & He).
        rewrite Forall_forall in Hn. destruct (Hn (row_shape e)) as (u' & i' & Es); [by apply list_elem_of_fmap_2|].
        apply list_elem_of_fmap. exists e. split; [|done]. unfold row_shape, idle_row in *. rewrite Ee.
        assert (en_kind e = Persistent /\ en_live e = None /\ en_dialing e = None) as (-> & -> & ->) by (repeat split; congruence). done.
      + rewrite elem_of_app, list_elem_of_singleton. split; (intros [?|E]; [by left|right]); [split; [by eexists|done]|by destruct E].
    - rewrite Ha. split; [by left|]. intros [?|[[p [=]] _]]; done. }
  destruct (IH n1 w1) as (w' & n' & E & R & L & Hi & Hs).
  { apply Forall_forall. intros s Hin. apply Hs1 in Hin as [Hin|[_ ->]]; [|by eexists _, _]. rewrite Forall_forall in Hn. by apply Hn. }
  exists w', n'. split; [exact E|]. split; [congruence|]. split; [congruence|].
  split; [intros Hi0; apply Hi; rewrite P1; by apply Links_add_inv|]. intros s. rewrite Hs, Hs1. split.
  - intros [[?|[Hp ->]]|(u' & i' & Hin & Hp & ->)]; [by left|right..].
    + exists u, i. split; [by left|done].
    + exists u', i'. split; [by right|done].
  - intros [?|(u' & i' & Hin & Hp & ->)]; [left; by left|]. apply elem_of_cons in Hin as [[= -> ->]|Hin]; [left; by right|].
    right. by exists u', i'.
Qed.

(** The peers a configuration names, each with its source interface. *)
Definition configured (c : Config) (uri sintf : bytes) : Prop :=
  (uri ∈ cf_peers c /\ sintf = []) \/ exists uris, (sintf, uris) ∈ cf_interface_peers c /\ uri ∈ uris.

(** C22: a node starts with the peers of its configuration. Handling what boot
    hands over changes neither the router nor the links; afterwards no two rows
    of the table are of one peering (a URI without its query and a source
    interface), it holds for every configured URI that parses the row of its
    peering, persistent and neither up nor being dialled, and it holds no other
    row. *)
Theorem boot_configures (c : Config) (w : World) :
  exists w' n', drain on_cmd Node_new (boot_cmds c) w = Done w' (Ok n') /\ w_router w' = w_router w /\ w_links w' = w_links w /\
    NoDup (entry_info <$> lk_entries (nd_peers n')) /\
    forall info kind live dialing,
      (exists e, e ∈ lk_entries (nd_peers n') /\ row_shape e = (info, kind, live, dialing)) <->
      exists uri sintf, configured c uri sintf /\ (exists p, parse_link_uri uri = Ok p) /\
        info = LinkInfo_new uri sintf /\ kind = Persistent /\ live = None /\ dialing = None.
Proof.
  set (us := ((fun uri => (uri, [])) <$> cf_peers c) ++ flat_map (fun su => (fun uri => (uri, su.1)) <$> su.2) (cf_interface_peers c)).
  assert (boot_cmds c = dial_cmd <$> us) as ->.
  { unfold boot_cmds, us. rewrite fmap_app, <-list_fmap_compose. f_equal. induction (cf_interface_peers c) as [|[s l] ip IH]; [done|].
    cbn [flat_map fst snd]. by rewrite fmap_app, <-list_fmap_compose, IH. }
  assert (forall uri sintf, (uri, sintf) ∈ us <-> configured c uri sintf) as Hus.
  { intros uri sintf. unfold us, configured. rewrite elem_of_app, flat_map_elem, list_elem_of_fmap. split.
    - intros [(x & [= -> ->] & Hx)|([s l] & Hin & Hx)]; [by left|right]. apply list_elem_of_fmap in Hx as (x & [= -> ->] & Hx). by exists l.
    - intros [[Hx ->]|(l & Hin & Hx)]; [left; by exists uri|right]. exists (sintf, l). split; [done|]. apply list_elem_of_fmap. by exists uri. }
  destruct (boot_drain us Node_new w) as (w' & n' & E & R & L & Hi & Hs); [constructor|].
  exists w', n'. split; [done|]. do 2 (split; [done|]). split; [apply Hi; by repeat constructor|]. intros info kind live dialing. specialize (Hs (info, kind, live, dialing)).
  unfold row_shapes in Hs at 1. rewrite list_elem_of_fmap in Hs. split.
  - intros (e & He & Es). destruct (proj1 Hs) as [Hn|(u & i & Hin & Hp & Ei)]; [exists e; done|by apply not_elem_of_nil in Hn|].
    exists u, i. split; [by apply Hus|]. split; [done|]. unfold idle_row in Ei. by simplify_eq.
  - intros (u & i & Hc & Hp & -> & -> & -> & ->). destruct (proj2 Hs) as (e & Es & He); [right; exists u, i; split; [by apply Hus|done]|].
    by exists e.
Qed.
End boot.

(** The command line decides what runs. A node is booted exactly when no flag
    was refused, neither help nor a new configuration was asked for, a document
    was named and loads, and no part of the identity was to be printed; the two
    spellings of the file flag mean the same, and the first flag that is not
    defined is the one reported. *)
Theorem startup_exact `{!Ed25519} (load : ConfigSource -> Config + ConfigError) (args : list bytes) (c : Config) :
  (startup load args = BootNode c <->
   let f := Flags_parse args in
   fl_rejected f = None /\ fl_help f = false /\ fl_genconf f = false /\ fl_address f = false /\ fl_subnet f = false /\ fl_publickey f = false /\
   exists source, Flags_source f = Some source /\ load source = inl c) /\
  (forall pre path post, (fold_left flag_arg pre (Flags_default, false)).2 = false ->
     Flags_parse (pre ++ str "-useconffile" :: path :: post) = Flags_parse (pre ++ (str "-useconffile=" ++ path) :: post)) /\
  (forall st arg msg, fl_rejected (fst st) = Some msg -> fl_rejected (fst (flag_arg st arg)) = Some msg).
Proof.
  split; [|split].
  - unfold startup, config_stage, print_identity. cbn zeta. set (f := Flags_parse args).
    destruct (fl_rejected f); [split; [done|by intros [? _]]|].
    destruct (fl_help f); [split; [done|by intros (_ & ? & _)]|].
    destruct (fl_genconf f); [split; [done|by intros (_ & _ & ? & _)]|].
    destruct (Flags_source f) as [src|]; cbn [mbind option_bind]; [|split; [done|by intros (_ & _ & _ & _ & _ & _ & s & ? & _)]].
    destruct (load src) as [c'|e] eqn:El; [|split; [done|intros (_ & _ & _ & _ & _ & _ & s & [= <-] & ?); congruence]].
    destruct (fl_address f); [split; [by destruct (config_address c')|by intros (_ & _ & _ & ? & _)]|].
    destruct (fl_subnet f); [split; [by destruct (config_subnet c')|by intros (_ & _ & _ & _ & ? & _)]|].
    destruct (fl_publickey f); [split; [by destruct (public_key c')|by intros (_ & _ & _ & _ & _ & ? & _)]|]. split.
    + intros [= ->]. do 6 (split; [done|]). by exists src.
    + intros (_ & _ & _ & _ & _ & _ & s & [= <-] & E). congruence.
  - intros pre path post Hp. unfold Flags_parse. rewrite !fold_left_app. destruct (fold_left flag_arg pre _) as [f b]. cbn [snd] in Hp. subst b.
    cbn [fold_left]. reflexivity.
  - intros [f []] arg msg Hr; cbn [fst] in *; unfold flag_arg; [done|].
    assert (forall name inline, fl_rejected (fst (flag_named f name inline)) = Some msg) as Hn.
    { intros name inline. unfold flag_named. rewrite Hr. by repeat case_match. }
    destruct (match strip_prefix (str "--") arg with Some rest => Some rest | None => strip_prefix (str "-") arg end) as [rest|]; [|done].
    destruct (split_once 61 rest) as [[name v]|]; apply Hn.
Qed.

(** ** Witnesses *)

Definition demo_config : Config :=
  mkConfig (replicate 64 7) [] [str "tcp://h:1"] [(str "eth0", [str "tls://h:2"]); (str "eth1", [])] [] (str "none")
    [mkMulticastIface (str "^en") true false 9 0 (str "pw")] [] [] (str "auto") 1280 true false
    (Some [(str "a", VNumber (PosInt 1)); (str "b", VArray [VNull])]).

(** Floats that come back as they were printed, and floats cut to whole ones. *)
Definition exact_floats : FloatText := {| refloat b := b |}.
Definition blunt_floats : FloatText := {| refloat b := 2 ^ 52 * (b / 2 ^ 52) |}.

Lemma config_roundtrip_witness :
  @Config_from_doc std_hex toy_ed25519 [5] (fun _ => None) (Some (@reread blunt_floats (@Config_to_value std_hex demo_config))) = inl demo_config /\
  @Config_from_doc std_hex toy_ed25519 [5] (fun _ => None) (Some (@reread blunt_floats (@Config_generate std_hex toy_ed25519 (replicate 32 9)))) =
    inl (@defaults toy_ed25519 (replicate 32 9)).
Proof.
  destruct (@config_roundtrip std_hex std_hex_laws toy_ed25519 blunt_floats [5] (fun _ => None) demo_config) as (_ & _ & H3 & H4).
  - split; [by_dec|]. split; [by_dec|]. split; [repeat constructor|]. split; [repeat constructor; unfold U16_MAX, U64_MAX; cbn; lia|].
    unfold U64_MAX; cbn; lia.
  - split; [apply H3; [reflexivity|discriminate|discriminate|split; vm_compute; reflexivity]|]. apply H4; [by_dec..|discriminate].
Defined.

(** A node info with a float that is not read back is loaded changed. *)
Example float_lost : @info_survives exact_floats (mkConfig [] [] [] [] [] [] [] [] [] [] 0 false false (Some [(str "a", VNumber (Float 1))])) /\
  @reread_members blunt_floats [(str "a", VNumber (Float 1))] = [(str "a", VNumber (Float 0))].
Proof. split; [split; vm_compute; reflexivity|vm_compute; reflexivity]. Qed.

Lemma signing_key_exact_witness :
  @signing_key toy_ed25519 (@defaults toy_ed25519 (replicate 32 9)) = inl (replicate 32 9) /\
  @public_key toy_ed25519 (@defaults toy_ed25519 (replicate 32 9)) = inl (@verifying_key toy_ed25519 (replicate 32 9)).
Proof.
  destruct (@signing_key_exact toy_ed25519 toy_ed25519_laws (@defaults toy_ed25519 (replicate 32 9)) (replicate 32 9)) as (_ & Hk & Hd).
  split; [|apply Hk]; apply Hd; reflexivity.
Defined.
