(* ===== verification/PeerList.v ===== *)
(** * PeerList: the rows of [getPeers] and their order ([client/src/admin.rs]).

    Go's comparators are reproduced with their quirks: differences of [u64]s
    wrap into an [i64], and a difference of uptimes below a second counts as
    equal, which is not transitive. Uptimes are binary64 floats. *)
From Stdlib Require Import Strings.String Floats.SpecFloat.
From stdpp Require Import base tactics list numbers gmap sorting.
From S2P Require Import Prelude Errors Clock Frame Address Table Bloom Wire Handshake LinkSet Router Text Uri Views Node Discover.

Local Open Scope Z_scope.

(** ** Binary64 *)

Abbreviation f64 := spec_float (only parsing).

Definition f64_sub (a b : f64) : f64 := SFsub 53 1024 a b.
Definition f64_of_u64 (n : Z) : f64 := binary_normalize 53 1024 n 0 false.
Definition f64_zero : f64 := S754_zero false.

(** [Duration::as_secs_f64], of a number of nanoseconds. *)
Definition as_secs_f64 (d : Z) : f64 :=
  SFadd 53 1024 (f64_of_u64 (d / 10 ^ 9)) (SFdiv 53 1024 (f64_of_u64 (d mod 10 ^ 9)) (f64_of_u64 (10 ^ 9))).

Definition I64_MIN : Z := - 2 ^ 63.
Definition I64_MAX : Z := 2 ^ 63 - 1.

(** [as i64]: towards zero, saturating, and 0 for NaN. *)
Definition f64_as_i64 (x : f64) : Z :=
  match x with
  | S754_zero _ | S754_nan => 0
  | S754_infinity s => if s then I64_MIN else I64_MAX
  | S754_finite s m e =>
    let n := Z.shiftl (Z.pos m) e in
    if s then Z.max (- n) I64_MIN else Z.min n I64_MAX
  end.

(** A [u64] reinterpreted. *)
Definition u64_as_i64 (n : Z) : Z := if n <? 2 ^ 63 then n else n - 2 ^ 64.

(** ** Rows *)

(** Where the code holds the text of an error, the error itself is held. *)
Record PeerEntry : Type := mkPeerEntry {
  pe_remote : bytes; pe_up : bool; pe_inbound : bool; pe_address : bytes; pe_key : bytes; pe_port : Z; pe_priority : Z;
  pe_cost : Z; pe_bytes_recvd : Z; pe_bytes_sent : Z; pe_rate_recvd : Z; pe_rate_sent : Z; pe_uptime : f64; pe_latency : Z;
  pe_last_error_time : Z; pe_last_error : option Error }.

Definition Address_text (a : Address) : bytes := ipv6_display (ipv6_from (addr_octets a)).
Definition Subnet_text (s : Subnet) : bytes := ipv6_display (ipv6_from (snet_octets s ++ replicate (ADDR_LEN - SUBNET_LEN) 0)) ++ str "/64".

Definition peer_entry `{!Hex} (now : Z) (p : PeerRow) : PeerEntry :=
  mkPeerEntry (pr_uri p) (pr_up p) (pr_inbound p) (unwrap_or ((fun k => Address_text (addr_for_key k)) <$> pr_key p) [])
    (unwrap_or (hex_encode <$> pr_key p) []) (pr_port p) (pr_priority p) (pr_cost p) (pr_rx_bytes p) (pr_tx_bytes p)
    (pr_rx_rate p) (pr_tx_rate p) (as_secs_f64 (pr_up_for p)) (unwrap_or (wrap64 <$> pr_latency p) 0)
    (match pr_last_error p, pr_err_at p with Some _, Some at_ => wrap64 (std_duration_since now at_) | _, _ => 0 end)
    (pr_last_error p).

(** ** Order *)

(** The inner loop of the sort: [x] moves over the rows before it, nearest
    first, while the row before it is greater. *)
Fixpoint sink {A} (by_ : A -> A -> comparison) (x : A) (before : list A) : list A :=
  match before with
  | [] => [x]
  | y :: before => match by_ y x with Gt => y :: sink by_ x before | _ => x :: y :: before end
  end.

Definition sort_stable {A} (by_ : A -> A -> comparison) (rows : list A) : list A :=
  reverse (fold_left (fun sorted x => sink by_ x sorted) rows []).

Definition go_u64 (a b : Z) : option comparison :=
  if a =? b then None else Some (u64_as_i64 (wrapping_sub a b) ?= 0).

Definition go_f64 (a b : f64) : option comparison :=
  let d := f64_sub a b in
  if SFeqb d f64_zero then None else Some (f64_as_i64 d ?= 0).

Definition go_key (a b : bytes) : option comparison :=
  if bool_decide (a = b) then None else Some (if lex_leb a b then Lt else Gt).

(** The keys of a comparator, the first that differs deciding. *)
Definition go_then (d : option comparison) (rest : comparison) : comparison :=
  match d with Some d => d | None => rest end.

Definition by_default (a b : PeerEntry) : comparison :=
  if negb (eqb (pe_inbound a) (pe_inbound b)) then (if pe_inbound a then Gt else Lt)
  else go_then (go_key (pe_key a) (pe_key b)) (go_then (go_u64 (pe_priority a) (pe_priority b))
    (go_then (go_u64 (pe_cost a) (pe_cost b)) (go_then (go_f64 (pe_uptime a) (pe_uptime b)) Eq))).

Definition by_cost (a b : PeerEntry) : comparison :=
  go_then (go_u64 (pe_cost a) (pe_cost b)) (go_then (go_key (pe_key a) (pe_key b))
    (go_then (go_u64 (pe_priority a) (pe_priority b)) (go_then (go_f64 (pe_uptime a) (pe_uptime b)) Eq))).

Definition by_uptime (a b : PeerEntry) : comparison :=
  go_then (go_f64 (pe_uptime a) (pe_uptime b)) (go_then (go_key (pe_key a) (pe_key b))
    (go_then (go_u64 (pe_priority a) (pe_priority b)) (go_then (go_u64 (pe_cost a) (pe_cost b)) Eq))).

(** The comparator a lower-cased [sort] argument names. *)
Definition comparator (sort : bytes) : PeerEntry -> PeerEntry -> comparison :=
  if bool_decide (sort = str "uptime") then by_uptime
  else if bool_decide (sort = str "cost") then by_cost
  else by_default.

Definition peer_list `{!Hex} (now : Z) (sort : bytes) (rows : list PeerRow) : list PeerEntry :=
  sort_stable (comparator sort) (peer_entry now <$> rows).

(** ** Sorting with a comparator that need not be transitive *)

(** What Go's comparators have in common. *)
Class Antisymmetric {A} (by_ : A -> A -> comparison) : Prop := gt_flips a b : by_ a b = Gt -> by_ b a = Lt.

Section sorting.
Context {A : Type} (by_ : A -> A -> comparison).

Lemma sink_perm x before : sink by_ x before ≡ₚ x :: before.
Proof.
  induction before as [|y before IH]; [done|]. cbn [sink]. destruct (by_ y x); [done..|]. rewrite IH. apply Permutation_swap.
Qed.

Lemma sort_stable_perm rows : sort_stable by_ rows ≡ₚ rows.
Proof.
  unfold sort_stable. rewrite reverse_Permutation. assert (forall acc, fold_left (fun sorted x => sink by_ x sorted) rows acc ≡ₚ rows ++ acc) as H.
  { induction rows as [|x rows IH]; intros acc; [done|]. cbn [fold_left app]. rewrite IH, sink_perm. by rewrite Permutation_middle. }
  rewrite H. by rewrite app_nil_r.
Qed.

(** No row is greater than the one after it; [rev_ok] reads the list backwards. *)
Definition rev_ok (l : list A) : Prop := forall i a b, l !! i = Some a -> l !! S i = Some b -> by_ b a <> Gt.

Lemma rev_ok_cons a l : rev_ok (a :: l) <-> (forall b, head l = Some b -> by_ b a <> Gt) /\ rev_ok l.
Proof.
  unfold rev_ok. split.
  - intros H. split; [|intros i; apply (H (S i))]. intros b Hb. apply (H 0%nat); [done|]. by destruct l.
  - intros [H1 H2] [|i] x y Hx Hy; [|by eapply H2]. injection Hx as <-. apply H1. by destruct l.
Qed.

Lemma sink_ok `{!Antisymmetric by_} x before : rev_ok before -> rev_ok (sink by_ x before).
Proof.
  induction before as [|y before IH]; intros H; cbn [sink].
  { apply rev_ok_cons. by split. }
  destruct (by_ y x) eqn:E; [apply rev_ok_cons; split; [|done]; intros b [= <-]; by rewrite E..|].
  apply rev_ok_cons in H as [H1 H2]. apply rev_ok_cons. split; [|by apply IH].
  intros b Hb. destruct before as [|z before]; cbn [sink] in Hb; [|destruct (by_ z x); cbn in Hb]; injection Hb as <-.
  1-3: by rewrite (gt_flips _ _ E).
  by apply H1.
Qed.

Lemma sort_stable_ok `{!Antisymmetric by_} rows i a b :
  sort_stable by_ rows !! i = Some a -> sort_stable by_ rows !! S i = Some b -> by_ a b <> Gt.
Proof.
  assert (forall acc, rev_ok acc -> rev_ok (fold_left (fun sorted x => sink by_ x sorted) rows acc)) as H.
  { induction rows as [|x rows IH]; intros acc Hacc; [done|]. by apply IH, sink_ok. }
  specialize (H [] ltac:(intros i' ?? E; discriminate)). unfold sort_stable. set (l := fold_left _ rows []) in *.
  intros Ha Hb. assert (S i < length l)%nat as Hl by (apply lookup_lt_Some in Hb; by rewrite length_reverse in Hb).
  rewrite reverse_lookup in Ha, Hb by lia. apply (H (length l - S (S i))%nat b a); [exact Hb|].
  rewrite <-Ha. f_equal. lia.
Qed.

(** A list that is already in order is left as it is. *)
Lemma sort_stable_id rows : (forall i a b, rows !! i = Some a -> rows !! S i = Some b -> by_ a b <> Gt) -> sort_stable by_ rows = rows.
Proof.
  intros H. unfold sort_stable. assert (forall post pre, rows = pre ++ post -> fold_left (fun sorted x => sink by_ x sorted) post (reverse pre) = reverse rows) as Hf.
  { induction post as [|x post IH]; intros pre E; cbn [fold_left].
    - by rewrite app_nil_r in E; subst.
    - rewrite <-(IH (pre ++ [x])); [|by rewrite <-app_assoc]. f_equal. rewrite reverse_snoc.
      destruct (reverse pre) as [|y pre'] eqn:Er; [done|]. cbn [sink].
      assert (pre = reverse pre' ++ [y]) as -> by (by rewrite <-(reverse_involutive pre), Er, reverse_cons).
      destruct (by_ y x) eqn:Eb; [done..|]. destruct (H (length (reverse pre')) y x); [| |done].
      + rewrite E, <-app_assoc. cbn [app]. by rewrite list_lookup_middle.
      + rewrite E, lookup_app_r by (rewrite length_app; cbn; lia). rewrite length_app. cbn [length]. replace (_ - _)%nat with 0%nat by lia. done. }
  change [] with (reverse (A:=A) []). rewrite (Hf rows []) by done. apply reverse_involutive.
Qed.
End sorting.

(** ** The comparators *)

Lemma round_aux_flip p em s m e l : binary_round_aux p em (negb s) m e l = SFopp (binary_round_aux p em s m e l).
Proof.
  unfold binary_round_aux. destruct (shr_fexp p em m e l) as [mrs e']. destruct (shr_fexp _ _ _ e' _) as [mrs' e''].
  destruct (shr_m mrs'); [done| |done]. by destruct (e'' <=? _).
Qed.

Lemma normalize_flip p em m e z : m <> 0 -> binary_normalize p em (- m) e z = SFopp (binary_normalize p em m e z).
Proof.
  destruct m as [|m|m]; [done|change (- Z.pos m) with (Z.neg m)|change (- Z.neg m) with (Z.pos m)]; intros _;
    cbn [binary_normalize]; unfold binary_round; destruct (shl_align _ _ _) as [mz ez];
    [apply (round_aux_flip _ _ false)|apply (round_aux_flip _ _ true)].
Qed.

Lemma f64_sub_flip a b : f64_sub b a = SFopp (f64_sub a b) \/ exists s s', f64_sub a b = S754_zero s /\ f64_sub b a = S754_zero s'.
Proof.
  unfold f64_sub. destruct a as [[]|[]| |sa ma ea], b as [[]|[]| |sb mb eb]; try (by left; cbn; rewrite ?negb_involutive); try (right; by do 2 eexists).
  cbn [SFsub]. rewrite (Z.min_comm eb ea). set (x := cond_Zopp sa _). set (y := cond_Zopp sb _).
  destruct (decide (x - y = 0)) as [E|E].
  - right. exists false, false. by rewrite E, (ltac:(lia) : y - x = 0).
  - left. rewrite <-normalize_flip by done. f_equal. lia.
Qed.

(** Two answers of a key, of the rows in one order and in the other. *)
Definition flips (d d' : option comparison) : Prop :=
  (d = None <-> d' = None) /\ (d = Some Gt -> d' = Some Lt) /\ (d' = Some Gt -> d = Some Lt).

Lemma go_u64_flips a b : flips (go_u64 a b) (go_u64 b a).
Proof.
  unfold flips, go_u64. rewrite (Z.eqb_sym b a). destruct (Z.eqb_spec a b); [done|]. split; [done|].
  unfold u64_as_i64, wrapping_sub, wrap64. pose proof (Z.mod_pos_bound (a - b) (2 ^ 64) ltac:(lia)) as Hr.
  assert ((b - a) mod 2 ^ 64 = if (a - b) mod 2 ^ 64 =? 0 then 0 else 2 ^ 64 - (a - b) mod 2 ^ 64) as ->.
  { replace (b - a) with (- (a - b)) by lia. destruct (Z.eqb_spec ((a - b) mod 2 ^ 64) 0) as [E|E]; [by apply Z_mod_zero_opp_full|by apply Z_mod_nz_opp_full]. }
  set (v := (a - b) mod 2 ^ 64) in *. clearbody v.
  destruct (Z.eqb_spec v 0), (Z.ltb_spec v (2 ^ 63)); repeat case_match; split; intros [= ?%Z.compare_gt_iff]; f_equal; apply Z.compare_lt_iff; lia.
Qed.

Lemma go_f64_flips a b : flips (go_f64 a b) (go_f64 b a).
Proof.
  unfold flips, go_f64. cbn zeta. destruct (f64_sub_flip a b) as [->|(s & s' & -> & ->)]; [|done].
  destruct (f64_sub a b) as [s|s| |s m e]; [done|destruct s; split; [done..|]; split; done|done|].
  unfold f64_as_i64, SFopp, SFeqb, f64_zero. cbn [SFcompare]. unfold I64_MIN, I64_MAX.
  destruct s; cbn [negb]; (split; [done|]); split; intros [= ?%Z.compare_gt_iff]; f_equal; apply Z.compare_lt_iff; lia.
Qed.

Lemma go_key_flips a b : flips (go_key a b) (go_key b a).
Proof.
  unfold flips, go_key. destruct (decide (a = b)) as [->|Hne]; [by rewrite bool_decide_eq_true_2|].
  rewrite !bool_decide_eq_false_2 by auto. split; [done|].
  destruct (lex_leb a b) eqn:E1, (lex_leb b a) eqn:E2; try done.
  by rewrite (lex_leb_total _ _ E1) in E2.
Qed.

Lemma flips_then d d' c c' : flips d d' -> (c = Gt -> c' = Lt) -> go_then d c = Gt -> go_then d' c' = Lt.
Proof.
  intros (H1 & H2 & _) Hc. destruct d as [x|]; cbn [go_then].
  - intros ->. by rewrite (H2 eq_refl).
  - rewrite (proj1 H1 eq_refl). exact Hc.
Qed.

#[export] Hint Resolve go_u64_flips go_f64_flips go_key_flips flips_then : roots.

#[export] Instance by_cost_antisymmetric : Antisymmetric by_cost.
Proof. intros a b. unfold by_cost. repeat (apply flips_then; [auto with roots|]). done. Qed.

#[export] Instance by_uptime_antisymmetric : Antisymmetric by_uptime.
Proof. intros a b. unfold by_uptime. repeat (apply flips_then; [auto with roots|]). done. Qed.

#[export] Instance by_default_antisymmetric : Antisymmetric by_default.
Proof.
  intros a b. unfold by_default. destruct (pe_inbound a), (pe_inbound b); cbn [eqb negb]; [|done..|]; repeat (apply flips_then; [auto with roots|]); done.
Qed.

#[export] Instance comparator_antisymmetric sort : Antisymmetric (comparator sort).
Proof. unfold comparator. repeat case_bool_decide; apply _. Qed.

(** ** The list *)

(** The order of the default comparator: outbound rows first, each direction by key. *)
Definition direction_key_le (a b : PeerEntry) : Prop :=
  (pe_inbound a = false /\ pe_inbound b = true) \/ (pe_inbound a = pe_inbound b /\ lex_le (pe_key a) (pe_key b)).

#[export] Instance direction_key_le_trans : Transitive direction_key_le.
Proof.
  intros a b c [[Ha Hb]|[Ed Hk]] [[Hb' Hc]|[Ed' Hk']]; unfold direction_key_le.
  - congruence.
  - left. split; congruence.
  - left. split; congruence.
  - right. split; [congruence|]. by transitivity (pe_key b).
Qed.

Definition cost_le (a b : PeerEntry) : Prop := pe_cost a <= pe_cost b.

#[export] Instance cost_le_trans : Transitive cost_le.
Proof. intros a b c. unfold cost_le. lia. Qed.

Lemma by_default_le a b : by_default a b <> Gt -> direction_key_le a b.
Proof.
  unfold by_default, direction_key_le, go_key. destruct (pe_inbound a), (pe_inbound b); cbn [eqb negb]; [|done|auto|].
  all: case_bool_decide as E; cbn [go_then]; [rewrite E; right; split; [done|apply lex_leb_refl]|].
  all: destruct (lex_leb (pe_key a) (pe_key b)) eqn:El; [by right|done].
Qed.

Lemma by_cost_le a b : 0 <= pe_cost a < 2 ^ 63 -> 0 <= pe_cost b < 2 ^ 63 -> by_cost a b <> Gt -> cost_le a b.
Proof.
  unfold by_cost, go_u64, cost_le. intros Ha Hb. destruct (Z.eqb_spec (pe_cost a) (pe_cost b)) as [->|Hne]; [intros _; lia|]. cbn [go_then].
  unfold u64_as_i64, wrapping_sub, wrap64. intros Hc. destruct (Z.le_gt_cases (pe_cost a) (pe_cost b)) as [|Hgt]; [done|]. destruct Hc.
  rewrite Z.mod_small by lia. rewrite (proj2 (Z.ltb_lt _ _)) by lia. apply Z.compare_gt_iff. lia.
Qed.

(** Neighbours in order, for an order that is transitive. *)
Lemma adjacent_sorted {A} (R : A -> A -> Prop) `{!Transitive R} (l : list A) :
  (forall i a b, l !! i = Some a -> l !! S i = Some b -> R a b) -> StronglySorted R l.
Proof.
  intros H. apply Sorted_StronglySorted; [intros a b c; apply transitivity|]. induction l as [|a l IH]; constructor.
  - apply IH. intros i. apply (H (S i)).
  - destruct l as [|b l]; constructor. by apply (H 0%nat).
Qed.

(** C29: the peers are listed completely and in the order asked for. Whatever
    comparator the [sort] argument names, the list has one row per peer and no
    row is greater than the one after it; rows that are in order already keep
    their places; by default outbound peers come first and each direction is
    sorted by key; and by cost the costs ascend, as long as they are below
    [2^63], where Go's wrapped difference is still the difference. *)
Theorem peer_list_ordered `{!Hex} (now : Z) (sort : bytes) (rows : list PeerRow) :
  let l := peer_list now sort rows in
  l ≡ₚ peer_entry now <$> rows /\
  (forall i a b, l !! i = Some a -> l !! S i = Some b -> comparator sort a b <> Gt) /\
  (forall rs, peer_list now sort rs = peer_entry now <$> rs <->
     forall i a b, (peer_entry now <$> rs) !! i = Some a -> (peer_entry now <$> rs) !! S i = Some b -> comparator sort a b <> Gt) /\
  (sort <> str "uptime" -> sort <> str "cost" -> StronglySorted direction_key_le l) /\
  (sort = str "cost" -> Forall (fun p => 0 <= pr_cost p < 2 ^ 63) rows -> StronglySorted cost_le l).
Proof.
  assert (forall rs, peer_list now sort rs ≡ₚ peer_entry now <$> rs) as Hp by (intros rs; apply sort_stable_perm).
  assert (forall rs i a b, peer_list now sort rs !! i = Some a -> peer_list now sort rs !! S i = Some b -> comparator sort a b <> Gt) as Ho
    by (intros rs i a b; apply sort_stable_ok; apply _).
  intros l. split; [apply Hp|]. split; [apply Ho|]. split; [|split].
  - intros rs. split; [intros E i a b; rewrite <-E; apply Ho|apply sort_stable_id].
  - intros Hu Hc. apply adjacent_sorted; [apply _|]. intros i a b Ha Hb. apply by_default_le. specialize (Ho rows i a b Ha Hb).
    unfold comparator in Ho. by rewrite !bool_decide_eq_false_2 in Ho.
  - intros -> Hc. apply adjacent_sorted; [apply _|]. intros i a b Ha Hb.
    assert (Forall (fun e => 0 <= pe_cost e < 2 ^ 63) l) as Hl by (unfold l; rewrite (Hp rows); by apply Forall_fmap).
    apply by_cost_le; [exact (Forall_lookup_1 _ _ _ _ Hl Ha)|exact (Forall_lookup_1 _ _ _ _ Hl Hb)|exact (Ho rows i a b Ha Hb)].
Qed.

(** ** Witnesses *)

Definition demo_row (uri : string) (cost up : Z) : PeerRow :=
  mkPeerRow (str uri) [] None false false 0 0 cost None up 0 0 0 0 None None.

(** Three links a little over half a second apart: neighbours tie, and the list
    by uptime keeps the order of the configuration although the first has been
    up a second longer than the last. *)
Example uptime_not_transitive : let rows := [demo_row "a" 0 2200000000; demo_row "b" 0 1600000000; demo_row "c" 0 1000000000] in
  pe_remote <$> @peer_list std_hex 0 (str "uptime") rows = [str "a"; str "b"; str "c"] /\
  by_uptime (@peer_entry std_hex 0 (demo_row "a" 0 2200000000)) (@peer_entry std_hex 0 (demo_row "c" 0 1000000000)) = Gt.
Proof. vm_compute. split; reflexivity. Qed.

(** Costs half the range apart or more wrap: the larger is listed first. *)
Example cost_wraps : pe_remote <$> @peer_list std_hex 0 (str "cost") [demo_row "low" 1 0; demo_row "high" (2 ^ 63 + 2) 0] = [str "high"; str "low"].
Proof. vm_compute. reflexivity. Qed.
