(* ===== verification/Admin.v ===== *)
(** * Admin: the admin socket ([client/src/admin.rs]).

    A connection is a stream of JSON requests, answered one for one. A request
    is answered at once or asks the node one question: a command on the node's
    channel, and an answer that comes back later ([Interaction]). JSON text is
    [serde_json]'s, and Unicode case folding a parameter. *)
From Stdlib Require Import Strings.String.
From stdpp Require Import base tactics list numbers gmap sorting.
From S2P Require Import Prelude Errors Clock Frame Address Table Bloom Wire Handshake LinkSet Router Text Words Uri Peers Views Node Discover Config PeerList.

Local Open Scope Z_scope.

(** ** What is not the program's own *)

(** The first value of a [StreamDeserializer] over a slice, with the bytes it
    took; the slice ended inside it; no value can begin so; or nothing is left. *)
Inductive JsonStep : Type := JValue (v : Value) (used : nat) | JEof | JError | JEnd.

Class Json := { json_next : bytes -> JsonStep; json_from_slice : bytes -> option Value }.

Class Unicode := { to_lowercase : bytes -> bytes }.

(** What [hex::decode] reports of a text it refuses. *)
Inductive FromHexError : Type := OddLength | InvalidHexCharacter (c : Z) | InvalidStringLength.

Class HexReport := { hex_error : bytes -> FromHexError }.

(** [char]'s UTF-8 and [{:04X}]. *)
Definition utf8_char (c : Z) : bytes :=
  if c <? 128 then [c]
  else if c <? 2048 then [192 + Z.shiftr c 6; 128 + Z.land c 63]
  else if c <? 65536 then [224 + Z.shiftr c 12; 128 + Z.land (Z.shiftr c 6) 63; 128 + Z.land c 63]
  else [240 + Z.shiftr c 18; 128 + Z.land (Z.shiftr c 12) 63; 128 + Z.land (Z.shiftr c 6) 63; 128 + Z.land c 63].

Definition upper_hex4 (n : Z) : bytes :=
  let s := map (fun b => if is_ascii_lower b then b - 32 else b) (lower_hex n) in replicate (4 - length s) 48 ++ s.

(** ** Commands *)

(** A name, its description, its arguments. *)
Definition COMMANDS : list (bytes * bytes * list bytes) :=
  [(str "addpeer", str "Add a peer to the peer list", [str "uri"; str "interface"]);
   (str "debug_remotegetself", str "Debug use only", [str "key"]);
   (str "debug_remotegetpeers", str "Debug use only", [str "key"]);
   (str "debug_remotegettree", str "Debug use only", [str "key"]);
   (str "getmulticastinterfaces", str "Show which interfaces multicast is enabled on", []);
   (str "getnodeinfo", str "Request nodeinfo from a remote node by its public key", [str "key"]);
   (str "getpaths", str "Show established paths through this node", []);
   (str "getpeers", str "Show directly connected peers", [str "sort"]);
   (str "getsessions", str "Show established traffic sessions with remote nodes", []);
   (str "getself", str "Show details about this node", []);
   (str "gettun", str "Show information about the node's TUN interface", []);
   (str "gettree", str "Show known Tree entries", []);
   (str "list", str "List available commands", []);
   (str "removepeer", str "Remove a peer from the peer list", [str "uri"; str "interface"])].

Definition known (name : bytes) : bool := existsb (fun c => bool_decide (c.1.1 = name)) COMMANDS.

Definition for_command (name : bytes) : option RemoteQuery :=
  if bool_decide (name = str "getnodeinfo") then Some NodeInfo
  else if bool_decide (name = str "debug_remotegetself") then Some SelfInfo
  else if bool_decide (name = str "debug_remotegetpeers") then Some Peers
  else if bool_decide (name = str "debug_remotegettree") then Some Tree
  else None.

#[export] Instance RemoteQuery_eq_dec : EqDecision RemoteQuery.
Proof. solve_decision. Defined.

Definition KEY_SIZE : nat := 32.

(** An error text; where it is the text of a library's error, that error. *)
Inductive AdminError : Type := Said (text : bytes) | ErrorText (e : Error) | BadRemoteJson.

Definition FAILED_TO_FIND : AdminError := Said (str "failed to find request").
Definition FAILED_TO_UNMARSHAL : AdminError := Said (str "failed to unmarshal request").
Definition NO_REQUEST : AdminError := Said (str "no request specified").
Definition unknown_action (name : bytes) : AdminError := Said (str "unknown action '" ++ name ++ str "', try 'list' for help").

Definition LinkError_message (e : LinkError) : AdminError :=
  match e with
  | AlreadyConfigured => Said (str "peer is already configured")
  | NotConfigured => Said (str "peer is not configured")
  | InvalidUri e => ErrorText e
  end.

Definition RemoteError_text (e : RemoteError) : AdminError :=
  match e with
  | RemoteTimedOut NodeInfo => Said (str "timed out waiting for response")
  | RemoteTimedOut _ => Said (str "timeout")
  | RemoteSend e => ErrorText e
  end.

(** ** Bodies *)

Record ListEntry : Type := mkListEntry { le_command : bytes; le_description : bytes; le_fields : list bytes }.
Record GetSelfResponse : Type := mkGetSelf {
  gs_build_name : bytes; gs_build_version : bytes; gs_key : bytes; gs_address : bytes; gs_routing_entries : nat; gs_subnet : bytes }.
Record TreeEntry : Type := mkTreeEntry { te_address : bytes; te_key : bytes; te_parent : bytes; te_sequence : Z }.
Record PathRow : Type := mkPathRow { pw_address : bytes; pw_key : bytes; pw_path : list Z; pw_sequence : Z }.
Record SessionEntry : Type := mkSessionEntry { se_address : bytes; se_key : bytes }.
Record GetTunResponse : Type := mkGetTun { gt_enabled : bool; gt_name : option bytes; gt_mtu : option Z }.

Inductive Body : Type :=
  | BodyNull
  | BodyEmpty
  | BodyList (list : list ListEntry)
  | BodySelf (b : GetSelfResponse)
  | BodyPeers (peers : list PeerEntry)
  | BodyTree (tree : list TreeEntry)
  | BodyPaths (paths : list PathRow)
  | BodySessions (sessions : list SessionEntry)
  | BodyMulticast (multicast_interfaces : list MulticastInterfaceState)
  | BodyTun (b : GetTunResponse)
  | BodyMap (v : Value).

Definition command_le (a b : ListEntry) : Prop := lex_le (le_command a) (le_command b).
#[global] Instance command_le_dec : RelDecision command_le.
Proof. intros a b. unfold command_le. apply _. Defined.
Definition iface_le (a b : MulticastInterfaceState) : Prop := lex_le (ms_name a) (ms_name b).
#[global] Instance iface_le_dec : RelDecision iface_le.
Proof. intros a b. unfold iface_le. apply _. Defined.

Definition list_body : list ListEntry := merge_sort command_le ((fun c => mkListEntry c.1.1 c.1.2 c.2) <$> COMMANDS).

(** A poisoned lock reads as an empty table. *)
Definition multicast_interfaces (ifaces : option (list MulticastInterfaceState)) : Body :=
  BodyMulticast (merge_sort iface_le (unwrap_or ifaces [])).

(** [args.get(name).and_then(Value::as_str)] *)
Definition arg_str (args : Value) (name : bytes) : option bytes :=
  match args with
  | VObject ms => match member ms name with Some (VString s) => Some s | _ => None end
  | _ => None
  end.

Section bodies.
Context `{!Hex}.

Definition get_self (snap : Snapshot) : GetSelfResponse :=
  mkGetSelf (str "roots") (str "0.1.0") (hex_encode (sn_key snap)) (Address_text (addr_for_key (sn_key snap)))
    (sn_routing_entries snap) (Subnet_text (subnet_for_key (sn_key snap))).

Definition get_tree (snap : Snapshot) : list TreeEntry :=
  (fun e => mkTreeEntry (Address_text (addr_for_key e.1.1)) (hex_encode e.1.1) (hex_encode e.1.2) e.2) <$> sn_tree snap.

Definition get_path_rows (snap : Snapshot) : list PathRow :=
  (fun e => mkPathRow (Address_text (addr_for_key e.1.1)) (hex_encode e.1.1) e.1.2 e.2) <$> sn_paths snap.

Definition get_session_rows (snap : Snapshot) : list SessionEntry :=
  (fun key => mkSessionEntry (Address_text (addr_for_key key)) (hex_encode key)) <$> sn_sessions snap.

Definition get_peers `{!Unicode} (now : Z) (snap : Snapshot) (args : Value) : list PeerEntry :=
  peer_list now (to_lowercase (unwrap_or (arg_str args (str "sort")) [])) (sn_peers snap).
End bodies.

(** ** Questions to the node *)

(** The channel is closed, the node dropped the question, or it answered. *)
Inductive Asked (A : Type) : Type := NotRunning | NoAnswer | Got (a : A).
Arguments NotRunning {A}.
Arguments NoAnswer {A}.
Arguments Got {A} a.

Definition got {A B} (a : Asked A) (k : A -> B + AdminError) : B + AdminError :=
  match a with
  | NotRunning => inr (Said (str "node is not running"))
  | NoAnswer => inr (Said (str "node did not answer"))
  | Got a => k a
  end.

(** How a handler goes on: it answers, or it sends one command and answers from
    what comes back. [None] is [unreachable!]. *)
Inductive Interaction : Type :=
  | Say (r : Body + AdminError)
  | AskReport (k : Asked Snapshot -> option (Body + AdminError))
  | AskPeer (cmd : nat -> Cmd) (k : Asked (() + LinkError) -> Body + AdminError)
  | AskRemote (key : bytes) (what : RemoteQuery) (k : Asked (bytes + RemoteError) -> Body + AdminError)
  | AskTun (k : Asked (option (bytes * Z)) -> Body + AdminError).

(** The command sent, with the channel its answer goes to. *)
Definition command_of (i : Interaction) (chan : nat) : option Cmd :=
  match i with
  | Say _ => None
  | AskReport _ => Some (CmdReport chan)
  | AskPeer cmd _ => Some (cmd chan)
  | AskRemote key what _ => Some (CmdRemote key what chan)
  | AskTun _ => Some (CmdTun chan)
  end.

(** The channels of the code are typed; a reply of another type counts as none. *)
Definition conclude (i : Interaction) (a : Asked Reply) : option (Body + AdminError) :=
  match i with
  | Say r => Some r
  | AskReport k => k (match a with Got (ReplyReport s) => Got s | NotRunning => NotRunning | _ => NoAnswer end)
  | AskPeer _ k => Some (k (match a with Got (ReplyPeer r) => Got r | NotRunning => NotRunning | _ => NoAnswer end))
  | AskRemote _ _ k => Some (k (match a with Got (ReplyRemote r) => Got r | NotRunning => NotRunning | _ => NoAnswer end))
  | AskTun k => Some (k (match a with Got (ReplyTun r) => Got r | NotRunning => NotRunning | _ => NoAnswer end))
  end.

(** ** Handlers *)

Definition go_hex_error (text : bytes) (err : option FromHexError) : AdminError :=
  match err with
  | Some OddLength => Said (str "failed to decode public key: encoding/hex: odd length hex string")
  | Some (InvalidHexCharacter c) =>
    Said (str "failed to decode public key: encoding/hex: invalid byte: U+" ++ upper_hex4 c ++ str " '" ++ utf8_char c ++ str "'")
  | _ => Said (str "failed to decode public key: " ++ text)
  end.

(** The whole chunks of a slice. *)
Fixpoint chunks (fuel n : nat) (b : bytes) : list bytes :=
  match fuel with
  | O => []
  | S fuel => if bool_decide (length b < n)%nat then [] else take n b :: chunks fuel n (drop n b)
  end.

Section handlers.
Context `{!Hex} `{!HexReport} `{!Unicode} `{!Json}.

Definition decode_remote_key (text : bytes) : bytes + AdminError :=
  if negb (Nat.even (length text)) then inr (go_hex_error text None)
  else match hex_decode text with
  | None => inr (go_hex_error text (Some (hex_error text)))
  | Some key => if bool_decide (length key <> KEY_SIZE) then inr (Said (str "invalid public key length")) else inl key
  end.

Definition remote_body (what : RemoteQuery) (body : bytes) : Value + AdminError :=
  match json_from_slice body with
  | None => inr BadRemoteJson
  | Some parsed =>
    inl (match what with
         | NodeInfo | SelfInfo => parsed
         | Peers | Tree => VObject [(str "keys", VArray ((fun c => VString (hex_encode c)) <$> chunks (length body) KEY_SIZE body))]
         end)
  end.

Definition remote_query (what : RemoteQuery) (args : Value) : Interaction :=
  let key_text := unwrap_or (arg_str args (str "key")) [] in
  if bool_decide (what = NodeInfo) && bool_decide (key_text = []) then Say (inr (Said (str "no remote public key supplied")))
  else match decode_remote_key key_text with
  | inr e => Say (inr e)
  | inl key =>
    AskRemote key what (fun answer => got answer (fun answer =>
      match answer with
      | inr e => inr (RemoteError_text e)
      | inl body =>
        let name := match what with NodeInfo => hex_encode key | _ => Address_text (addr_for_key key) end in
        match remote_body what body with
        | inr e => inr e
        | inl v => inl (BodyMap (VObject [(name, v)]))
        end
      end))
  end.

Definition change_peer (name : bytes) (args : Value) : Interaction :=
  let uri := unwrap_or (arg_str args (str "uri")) [] in
  let sintf := unwrap_or (arg_str args (str "interface")) [] in
  AskPeer (fun chan => if bool_decide (name = str "addpeer") then CmdDial uri sintf true (Some chan) else CmdDrop uri sintf (Some chan))
    (fun answer => got answer (fun r => match r with inl _ => inl BodyEmpty | inr e => inr (LinkError_message e) end)).

Definition get_tun : Interaction :=
  AskTun (fun answer => got answer (fun device =>
    inl (BodyTun (match device with
                  | Some (name, mtu) => mkGetTun true (Some name) (Some mtu)
                  | None => mkGetTun false None None
                  end)))).

(** The body made of a snapshot; [None] for a name that is not listed. *)
Definition snapshot_body (now : Z) (name : bytes) (args : Value) (snap : Snapshot) : option Body :=
  if bool_decide (name = str "getself") then Some (BodySelf (get_self snap))
  else if bool_decide (name = str "getpeers") then Some (BodyPeers (get_peers now snap args))
  else if bool_decide (name = str "gettree") then Some (BodyTree (get_tree snap))
  else if bool_decide (name = str "getpaths") then Some (BodyPaths (get_path_rows snap))
  else if bool_decide (name = str "getsessions") then Some (BodySessions (get_session_rows snap))
  else None.

Definition dispatch (now : Z) (name : bytes) (args : Value) (ifaces : option (list MulticastInterfaceState)) : Interaction :=
  if bool_decide (name = str "list") then Say (inl (BodyList list_body))
  else if bool_decide (name = str "addpeer") || bool_decide (name = str "removepeer") then change_peer name args
  else match for_command name with
  | Some what => remote_query what args
  | None =>
    if bool_decide (name = str "getmulticastinterfaces") then Say (inl (multicast_interfaces ifaces))
    else if bool_decide (name = str "gettun") then get_tun
    else AskReport (fun answer =>
      match answer with
      | Got snap => inl <$> snapshot_body now name args snap
      | NotRunning => Some (inr (Said (str "node is not running")))
      | NoAnswer => Some (inr (Said (str "node did not answer")))
      end)
  end.
End handlers.

(** ** Requests *)

Definition go_kind (v : Value) : bytes :=
  match v with
  | VNull => str "null"
  | VBool _ => str "bool"
  | VNumber _ => str "number"
  | VString _ => str "string"
  | VArray _ => str "array"
  | VObject _ => str "object"
  end.

(** Go's struct for a command's arguments, and its string fields. *)
Definition request_struct (name : bytes) : option (bytes * list bytes) :=
  if bool_decide (name = str "getself") then Some (str "GetSelfRequest", [])
  else if bool_decide (name = str "gettree") then Some (str "GetTreeRequest", [])
  else if bool_decide (name = str "gettun") then Some (str "tun.GetTUNRequest", [])
  else if bool_decide (name = str "getpaths") then Some (str "GetPathsRequest", [])
  else if bool_decide (name = str "getsessions") then Some (str "GetSessionsRequest", [])
  else if bool_decide (name = str "getpeers") then Some (str "GetPeersRequest", [str "sort"])
  else if bool_decide (name = str "getmulticastinterfaces") then Some (str "multicast.GetMulticastInterfacesRequest", [])
  else if bool_decide (name = str "addpeer") then Some (str "AddPeerRequest", [str "uri"; str "interface"])
  else if bool_decide (name = str "removepeer") then Some (str "RemovePeerRequest", [str "uri"; str "interface"])
  else if bool_decide (name = str "getnodeinfo") then Some (str "core.GetNodeInfoRequest", [str "key"])
  else if bool_decide (name = str "debug_remotegetself") then Some (str "core.DebugGetSelfRequest", [str "key"])
  else if bool_decide (name = str "debug_remotegetpeers") then Some (str "core.DebugGetPeersRequest", [str "key"])
  else if bool_decide (name = str "debug_remotegettree") then Some (str "core.DebugGetTreeRequest", [str "key"])
  else None.

Definition is_string (v : Value) : bool := match v with VString _ => true | _ => false end.

(** The loop over the fields: the first whose value is neither null nor a string. *)
Fixpoint bad_field (struct_name : bytes) (ms : list (bytes * Value)) (fields : list bytes) : option AdminError :=
  match fields with
  | [] => None
  | field :: fields =>
    match member ms field with
    | Some v =>
      if negb (is_null v) && negb (is_string v)
      then Some (Said (str "json: cannot unmarshal " ++ go_kind v ++ str " into Go struct field " ++ struct_name ++ str "." ++ field ++
                       str " of type string"))
      else bad_field struct_name ms fields
    | None => bad_field struct_name ms fields
    end
  end.

(** [None] when the arguments are accepted. *)
Definition decode_args (name : bytes) (args : Value) : option AdminError :=
  match request_struct name with
  | None => None
  | Some (struct_name, fields) =>
    match args with
    | VObject ms => bad_field struct_name ms fields
    | VNull => None
    | _ => Some (Said (str "json: cannot unmarshal " ++ go_kind args ++ str " into Go value of type admin." ++ struct_name))
    end
  end.

Record Request : Type := mkRequest { rq_request : bytes; rq_arguments : option Value; rq_keepalive : bool }.

Definition parse_request (v : Value) : option Request :=
  match v with
  | VObject ms =>
    request ← match member ms (str "request") with
              | None | Some VNull => Some []
              | Some (VString s) => Some s
              | Some _ => None
              end;
    keepalive ← match member ms (str "keepalive") with
                | None | Some VNull => Some false
                | Some (VBool b) => Some b
                | Some _ => None
                end;
    Some (mkRequest request (Some (unwrap_or (member ms (str "arguments")) (VObject []))) keepalive)
  | _ => None
  end.

Record Response : Type := mkResponse { rs_status : bytes; rs_error : option AdminError; rs_request : Request; rs_response : Body }.

(** ** The connection *)

(** What a read returns; [Data] with no bytes is the end of the stream, and so is
    the end of the list. *)
Inductive read_event : Type := Data (b : bytes) | ReadError.

Inductive taken : Type := TakenValue (v : Value) (rest : bytes) | TakenNone | TakenError.

Definition is_json_space (b : Z) : bool := (b =? 32) || (b =? 9) || (b =? 13) || (b =? 10).

Fixpoint skip_spaces (buf : bytes) : bytes :=
  match buf with
  | [] => []
  | b :: buf' => if is_json_space b then skip_spaces buf' else buf
  end.

Section conn.
Context `{!Hex} `{!HexReport} `{!Unicode} `{!Json}.

Definition take_value (buf : bytes) : taken :=
  match skip_spaces buf with
  | [] => TakenNone
  | rest =>
    match json_next rest with
    | JValue v used => TakenValue v (drop used rest)
    | JEof | JEnd => TakenNone
    | JError => TakenError
    end
  end.

(** The value, if one came; the reads left; the buffer; whether the end was seen. *)
Fixpoint next_value (reads : list read_event) (buf : bytes) (at_eof : bool) : option Value * list read_event * bytes * bool :=
  match take_value buf with
  | TakenValue v rest => (Some v, reads, rest, at_eof)
  | TakenError => (None, reads, buf, at_eof)
  | TakenNone =>
    if at_eof then (None, reads, buf, true)
    else match reads with
    | [] => (None, [], buf, true)
    | ReadError :: reads => (None, reads, buf, true)
    | Data [] :: reads => (None, reads, buf, true)
    | Data b :: reads => next_value reads (buf ++ b) false
    end
  end.

Definition zero_request : Request := mkRequest [] None false.

(** What is done for a value, the request echoed and whether to go on. *)
Definition handle_value (now : Z) (ifaces : option (list MulticastInterfaceState)) (v : option Value) : Interaction * Request * bool :=
  match v with
  | None => (Say (inr FAILED_TO_FIND), zero_request, false)
  | Some v =>
    match parse_request v with
    | None => (Say (inr FAILED_TO_UNMARSHAL), zero_request, false)
    | Some echo =>
      let keepalive := rq_keepalive echo in
      if bool_decide (rq_request echo = []) then (Say (inr NO_REQUEST), echo, keepalive)
      else
        let name := to_lowercase (rq_request echo) in
        if negb (known name) then (Say (inr (unknown_action name)), echo, keepalive)
        else
          let args := unwrap_or (rq_arguments echo) VNull in
          match decode_args name args with
          | Some e => (Say (inr e), echo, keepalive)
          | None => (dispatch now name args ifaces, echo, keepalive)
          end
    end
  end.

Definition handle_one (now : Z) (ifaces : option (list MulticastInterfaceState)) (reads : list read_event) (buf : bytes) (at_eof : bool)
  : Interaction * Request * bool * (list read_event * bytes * bool) :=
  let '(v, reads, buf, at_eof) := next_value reads buf at_eof in
  (handle_value now ifaces v, (reads, buf, at_eof)).

(** What surrounds a connection, by request number: the time, the table of
    interfaces, what the node answers, whether the write succeeds. *)
Record Around : Type := mkAround {
  ar_now : nat -> Z; ar_ifaces : nat -> option (list MulticastInterfaceState); ar_answer : nat -> Asked Reply; ar_write : nat -> bool }.

(** A command that reached the node, if the request sent one, and the response. *)
Definition Exchange : Type := option Cmd * Response.

Inductive Ending : Type := Closed | Unreachable | Starved.

Definition response_of (echo : Request) (r : Body + AdminError) : Response :=
  match r with
  | inl body => mkResponse (str "success") None echo body
  | inr e => mkResponse (str "error") (Some e) echo BodyNull
  end.

Definition command_sent (i : Interaction) (chan : nat) (a : Asked Reply) : option Cmd :=
  match a with NotRunning => None | _ => command_of i chan end.

(** The loop; [n] is the number of the request. *)
Fixpoint admin_conn (fuel : nat) (env : Around) (n : nat) (reads : list read_event) (buf : bytes) (at_eof : bool) : list Exchange * Ending :=
  match fuel with
  | O => ([], Starved)
  | S fuel =>
    let '(i, echo, keepalive, (reads, buf, at_eof)) := handle_one (ar_now env n) (ar_ifaces env n) reads buf at_eof in
    match conclude i (ar_answer env n) with
    | None => ([], Unreachable)
    | Some r =>
      let exchange := (command_sent i n (ar_answer env n), response_of echo r) in
      if negb (ar_write env n) || negb keepalive then ([exchange], Closed)
      else let '(rest, e) := admin_conn fuel env (S n) reads buf at_eof in (exchange :: rest, e)
    end
  end.
End conn.

(** ** The listener *)

(** What the kernel says of a path or an address; errors are [Some]. *)
Inductive probe_result : Type := ProbeConnected | ProbeRefused | ProbeTimedOut.

Record SocketHost : Type := mkSocketHost {
  sh_exists : bytes -> bool; sh_probe : bytes -> probe_result; sh_remove : bytes -> option Error;
  sh_unix : bytes -> option Error; sh_tcp : bytes -> option Error }.

Inductive Bound : Type := BoundTcp (addr : bytes) | BoundUnix (path : bytes).

(** What is done to files: a socket removed, and one given mode 0660 if possible. *)
Inductive file_action : Type := Removed (path : bytes) | Mode0660 (path : bytes).

Definition bind_unix (h : SocketHost) (path : bytes) : (Bound + AdminError) * list file_action :=
  let abstract_socket := bool_decide (head path = Some 64) in
  let '(stale, actions) :=
    if negb abstract_socket && sh_exists h path then
      match sh_probe h path with
      | ProbeConnected | ProbeTimedOut =>
        (Some (Said (str "Admin socket " ++ path ++ str " already exists and is in use by another process")), [])
      | ProbeRefused => match sh_remove h path with Some e => (Some (ErrorText e), []) | None => (None, [Removed path]) end
      end
    else (None, []) in
  match stale with
  | Some e => (inr e, actions)
  | None =>
    match sh_unix h path with
    | Some e => (inr (ErrorText e), actions)
    | None => (inl (BoundUnix path), actions ++ (if abstract_socket then [] else [Mode0660 path]))
    end
  end.

Definition bind_tcp (h : SocketHost) (addr : bytes) : (Bound + AdminError) * list file_action :=
  (match sh_tcp h addr with Some e => inr (ErrorText e) | None => inl (BoundTcp addr) end, []).

Section bind.
Context `{!Unicode}.

Definition admin_scheme (uri : bytes) : bytes * bytes :=
  match split_once_str (str "://") uri with
  | Some (scheme, rest) => (to_lowercase scheme, rest)
  | None => ([], uri)
  end.

(** [inl None] when no socket is asked for. *)
Definition bind_admin (h : SocketHost) (uri : bytes) : (option Bound + AdminError) * list file_action :=
  if bool_decide (uri = str "none") || bool_decide (uri = []) then (inl None, [])
  else
    let '(scheme, rest) := admin_scheme uri in
    let '(bound, actions) :=
      if bool_decide (scheme = str "unix") then bind_unix h rest
      else if bool_decide (scheme = str "tcp") then bind_tcp h rest
      else bind_tcp h uri in
    (match bound with inl b => inl (Some b) | inr e => inr e end, actions).

(** What a bind leaves alone and what it touches. *)
Definition bind_ok (h : SocketHost) (bound : Bound + AdminError) (actions : list file_action) : Prop :=
  (forall path, Removed path ∈ actions -> sh_exists h path = true /\ head path <> Some 64 /\ sh_probe h path = ProbeRefused) /\
  (forall path, bound = inl (BoundUnix path) -> head path <> Some 64 ->
     Mode0660 path ∈ actions /\ (sh_exists h path = true -> Removed path ∈ actions)).

Lemma bind_error_ok h e : bind_ok h (inr e) [].
Proof. split; [intros ? Hin; inversion Hin|done]. Qed.

Lemma bind_tcp_ok h addr : bind_ok h (bind_tcp h addr).1 (bind_tcp h addr).2.
Proof. split; cbn; [intros ? Hin; inversion Hin|]. by destruct (sh_tcp h addr). Qed.

Lemma bind_unix_ok h path : bind_ok h (bind_unix h path).1 (bind_unix h path).2.
Proof.
  unfold bind_unix. case_bool_decide as Ha; cbn [negb andb].
  - destruct (sh_unix h path); cbn; [apply bind_error_ok|]. split; [intros ? Hin; inversion Hin|]. by intros ? [= ->].
  - destruct (sh_exists h path) eqn:Ex; [destruct (sh_probe h path) eqn:Ep; [apply bind_error_ok| |apply bind_error_ok];
      destruct (sh_remove h path); [apply bind_error_ok|]|]; destruct (sh_unix h path); cbn [fst snd app]; split;
      try (intros p Hin; rewrite ?elem_of_cons, ?elem_of_nil in Hin; destruct_or? Hin; simplify_eq; done); intros p [= <-] _; rewrite !elem_of_cons; split; auto; congruence.
Qed.

(** Starting the admin socket never takes it from a running node. A file is
    removed only when it was there, is not an abstract name, and nothing accepts
    connections on it; a file socket that is bound is given mode 0660, and what
    was in its place is removed; and no socket is bound exactly when none is
    asked for. *)
Theorem bind_admin_safe (h : SocketHost) (uri : bytes) (r : option Bound + AdminError) (actions : list file_action) :
  bind_admin h uri = (r, actions) ->
  (forall path, Removed path ∈ actions -> sh_exists h path = true /\ head path <> Some 64 /\ sh_probe h path = ProbeRefused) /\
  (forall path, r = inl (Some (BoundUnix path)) -> head path <> Some 64 ->
     Mode0660 path ∈ actions /\ (sh_exists h path = true -> Removed path ∈ actions)) /\
  (r = inl None <-> uri = str "none" \/ uri = []).
Proof.
  unfold bind_admin. destruct (decide (uri = str "none" \/ uri = [])) as [Hn|Hn].
  { replace (bool_decide (uri = str "none") || bool_decide (uri = [])) with true by (destruct Hn as [-> | ->]; reflexivity).
    intros [= <- <-]. split; [intros ? Hin; inversion Hin|]. by split. }
  rewrite !bool_decide_eq_false_2 by tauto. cbn [orb]. destruct (admin_scheme uri) as [scheme rest].
  set (b := if bool_decide (scheme = str "unix") then _ else _).
  assert (bind_ok h b.1 b.2) as [H1 H2] by (unfold b; repeat case_bool_decide; auto using bind_unix_ok, bind_tcp_ok).
  destruct b as [bound acts]. cbn [fst snd] in *. intros [= <- <-]. split; [done|]. split; [|by destruct bound; split].
  intros path E. destruct bound as [b'|]; [|done]. injection E as ->. by apply H2.
Qed.
End bind.

(** A stale socket file is replaced. *)
Definition demo_socket : SocketHost :=
  mkSocketHost (fun _ => true) (fun _ => ProbeRefused) (fun _ => None) (fun _ => None) (fun _ => None).

Lemma bind_admin_safe_witness : sh_exists demo_socket (str "/run/a") = true.
Proof.
  apply (proj1 (@bind_admin_safe {| to_lowercase b := b |} demo_socket (str "unix:///run/a") (inl (Some (BoundUnix (str "/run/a"))))
    [Removed (str "/run/a"); Mode0660 (str "/run/a")] ltac:(vm_compute; reflexivity))). left.
Defined.
