(* ===== verification/Carry.v ===== *)
(** * Carry: how the operations of the router move the rest of the world.

    The router touches the links only by sending frames, and the clock only by
    reading it. A preorder on worlds that allows a change of the router, a
    reading and a send is therefore followed by every operation of the router.
    Two are used: that a property of the link set is kept, and that the clock
    does not go back. *)
From stdpp Require Import base tactics list numbers gmap.
From S2P Require Import Prelude Errors Clock Frame Address Table Bloom Wire Handshake LinkSet Router Hoare Tree BloomTree Session Pathfind Protocol Driver.

Local Open Scope Z_scope.

(** What a run of an operation may do to the world. *)
Class Allowed (R : World -> World -> Prop) : Prop := {
  al_trans w1 w2 w3 : R w1 w2 -> R w2 w3 -> R w1 w3;
  al_router w r : R w (mkWorld r (w_links w) (w_ticks w));
  al_ticks w n : R w (mkWorld (w_router w) (w_links w) (w_ticks w + n));
  al_send w now id t p ls r : LinkSet_send now (w_links w) id t p = Some (ls, r) -> R w (mkWorld (w_router w) ls (w_ticks w)) }.

(** The world that [m] leaves is one that [R] allows. *)
Definition follows (R : World -> World -> Prop) {A} (m : M A) : Prop := forall w, wp m (fun _ w' => R w w') w.

(** A property of the links that a send keeps. *)
Definition link_rel (P : LinkSet -> Prop) (w w' : World) : Prop := P (w_links w) -> P (w_links w').
Abbreviation carries P m := (follows (link_rel P) m).

Lemma link_allowed P : (forall now ls id t p ls' r, P ls -> LinkSet_send now ls id t p = Some (ls', r) -> P ls') -> Allowed (link_rel P).
Proof. intros Hs. constructor; unfold link_rel; cbn; eauto. Qed.

(** The clock is read at later and later times. *)
Definition tick_rel (w w' : World) : Prop := (w_ticks w <= w_ticks w')%nat.

#[export] Instance tick_allowed : Allowed tick_rel.
Proof. constructor; unfold tick_rel; cbn; intros; lia. Qed.

Create HintDb follows discriminated.

Section follow.
Context (R : World -> World -> Prop) `{!Allowed R}.

Lemma al_refl w : R w w.
Proof. destruct w as [r ls n]. exact (al_router (mkWorld r ls n) r). Qed.

Lemma follows_ret {A} (a : A) : follows R (mret a).
Proof. intros w. apply al_refl. Qed.

Lemma follows_bind {A B} (m : M A) (k : A -> M B) : follows R m -> (forall a, follows R (k a)) -> follows R (m ≫= k).
Proof.
  intros Hm Hk w. specialize (Hm w). unfold wp, mbind, M_bind in *. destruct (m w) as [w' [a|e]| |]; try done.
  specialize (Hk a w'). unfold wp in Hk. destruct (k a w'); [by eapply al_trans|done..].
Qed.

Lemma follows_asks {A} (f : Router -> A) : follows R (asks f).
Proof. intros w. apply al_refl. Qed.
Lemma follows_asks_links {A} (f : LinkSet -> A) : follows R (asks_links f).
Proof. intros w. apply al_refl. Qed.
Lemma follows_modify f : follows R (modify f).
Proof. intros w. apply al_router. Qed.
Lemma follows_modify_tree f : follows R (modify_tree f).
Proof. intros w. apply al_router. Qed.
Lemma follows_throw {A} e : follows R (@throw A e).
Proof. intros w. apply al_refl. Qed.
Lemma follows_lift {A} (r : result A) : follows R (lift r).
Proof. intros w. apply al_refl. Qed.
Lemma follows_panic {A} : follows R (@panic A).
Proof. intros w. exact I. Qed.
Lemma follows_tick {A} (f : nat -> A) : follows R (tick f).
Proof. intros w. unfold wp, tick. rewrite <-Nat.add_1_r. apply al_ticks. Qed.
Lemma follows_clock_now `{!Env} : follows R clock_now.
Proof. intros w. exact (follows_tick (fun n => StdClock_now (r_clock (w_router w)) (clock_at n)) w). Qed.
Lemma follows_attempt {A} (m : M A) : follows R m -> follows R (attempt m).
Proof. intros Hm w. specialize (Hm w). unfold wp, attempt in *. by destruct (m w). Qed.
Lemma follows_when b (m : M ()) : follows R m -> follows R (when b m).
Proof. destruct b; [done|intros _; apply follows_ret]. Qed.
Lemma follows_for_each {A} (l : list A) (f : A -> M ()) : (forall x, follows R (f x)) -> follows R (for_each_m l f).
Proof. intros Hf. induction l as [|x l IH]; cbn; [apply follows_ret|by apply follows_bind]. Qed.
End follow.

#[export] Hint Resolve follows_ret follows_asks follows_asks_links follows_modify follows_modify_tree follows_throw follows_lift
  follows_panic follows_tick follows_clock_now follows_attempt follows_when follows_for_each : follows.

#[export] Hint Extern 0 (Allowed _) => exact _ : follows.

Ltac follows_step :=
  first
    [ solve [eauto with follows]
    | apply follows_bind; [exact _|..|intros ?]
    | apply follows_attempt | apply follows_when; [exact _|] | apply follows_for_each; [exact _|]; intros ?
    | walk_match ].
Ltac follows_tac := repeat follows_step.

Section operations.
Context `{!Ed25519} `{!NaclBox} `{!Env}.
Context (R : World -> World -> Prop) `{!Allowed R}.

(** A change of the links that is a run of sends. *)
Definition sends_to (ls ls' : LinkSet) : Prop := forall r n, R (mkWorld r ls n) (mkWorld r ls' n).

Lemma follows_run_links {A} (f : nat -> LinkSet -> option (LinkSet * result A)) n :
  (forall k ls ls' r, f k ls = Some (ls', r) -> sends_to ls ls') -> follows R (run_links f n).
Proof.
  intros Hf w. unfold wp, run_links. destruct (f _ _) as [[ls r]|] eqn:E; [|done]. destruct w as [rt l t]. eapply al_trans; [by eapply Hf|].
  apply (al_ticks (mkWorld rt ls t)).
Qed.

Lemma send_sends now ls id t p ls' r : LinkSet_send now ls id t p = Some (ls', r) -> sends_to ls ls'.
Proof. intros E rt n. by eapply (al_send (mkWorld rt ls n)). Qed.

Lemma write_sends now ls id t p ls' r : LinkSet_write now ls id t p = Some (ls', r) -> sends_to ls ls'.
Proof.
  unfold LinkSet_write. destruct (LinkSet_send now ls id t p) as [[ls1 r1]|] eqn:E; [|done]. cbn.
  intros [= <- _]. by eapply send_sends.
Qed.

Lemma write_targets_sends ids nows ls t p ls' r : write_targets nows ls ids t p = Some (ls', r) -> sends_to ls ls'.
Proof.
  revert nows ls. induction ids as [|id ids IH]; intros nows ls; cbn [write_targets]; [intros [= <- _] rt n; by apply al_refl|].
  destruct (LinkSet_write _ ls id t p) as [[ls1 r1]|] eqn:E; [|done]. cbn [mbind option_bind]. apply write_sends in E.
  destruct r1; [|by intros [= <- _]]. intros Hw rt n. eapply al_trans; [apply E|]. by eapply IH.
Qed.

Lemma follows_links_write id t p : follows R (links_write id t p).
Proof. apply follows_run_links. intros k ls ls' r. apply write_sends. Qed.
Lemma follows_links_write_via id t p : follows R (links_write_via id t p).
Proof. apply follows_run_links. intros k ls ls' r. apply send_sends. Qed.
Lemma follows_links_write_all k t p : follows R (links_write_all k t p).
Proof.
  intros w. apply follows_run_links. intros n ls ls' r. unfold LinkSet_write_all. destruct (links_to ls k) as [|id ids].
  - intros [= <- _] rt m. by apply al_refl.
  - apply write_targets_sends.
Qed.
#[local] Hint Resolve follows_links_write follows_links_write_via follows_links_write_all : follows.

Lemma follows_write_via id t p : follows R (write_via id t p).
Proof. unfold write_via. follows_tac. Qed.
Lemma follows_next_init_seq : follows R next_init_seq.
Proof. unfold next_init_seq, unix_now. follows_tac. Qed.
Lemma follows_new_req : follows R new_req.
Proof. unfold new_req, rand_u64. follows_tac. Qed.
Lemma follows_instant_now : follows R instant_now.
Proof. by apply follows_tick. Qed.
Lemma follows_rand_bytes : follows R rand_bytes.
Proof. by apply follows_tick. Qed.
#[local] Hint Resolve follows_write_via follows_next_init_seq follows_new_req follows_instant_now follows_rand_bytes : follows.

Lemma follows_send_req k : follows R (send_req k).
Proof. unfold send_req, alter_links. follows_tac. Qed.
Lemma follows_update a : follows R (update a).
Proof. unfold update. follows_tac. Qed.
#[local] Hint Resolve follows_send_req follows_update : follows.
Lemma follows_send_all_reqs : follows R send_all_reqs.
Proof. unfold send_all_reqs. follows_tac. Qed.
Lemma follows_become_root : follows R become_root.
Proof. unfold become_root. follows_tac. Qed.
Lemma follows_use_response k s : follows R (use_response k s).
Proof. unfold use_response. follows_tac. Qed.
#[local] Hint Resolve follows_send_all_reqs follows_become_root follows_use_response : follows.
Lemma follows_fix_parent : follows R fix_parent.
Proof. unfold fix_parent, fix_apply. follows_tac. Qed.
Lemma follows_send_announces : follows R send_announces.
Proof. unfold send_announces. follows_tac. Qed.
Lemma follows_expire : follows R expire.
Proof. unfold expire. follows_tac. Qed.
Lemma follows_handle_announce k a : follows R (handle_announce k a).
Proof. unfold handle_announce. follows_tac. Qed.
Lemma follows_handle_request c k q : follows R (handle_request c k q).
Proof. unfold handle_request. follows_tac. Qed.
Lemma follows_handle_response c k q : follows R (handle_response c k q).
Proof. unfold handle_response. follows_tac. Qed.
Lemma follows_bloom_handle k p : follows R (bloom_handle k p).
Proof. unfold bloom_handle. apply follows_bind; [done|by apply follows_lift|intros b]. follows_tac. Qed.
Lemma follows_bloom_maintenance : follows R bloom_maintenance.
Proof. unfold bloom_maintenance. follows_tac. Qed.
Lemma follows_multicast f t ft p : follows R (multicast f t ft p).
Proof. unfold multicast. follows_tac. Qed.
#[local] Hint Resolve follows_fix_parent follows_send_announces follows_expire follows_handle_announce follows_handle_request
  follows_handle_response follows_bloom_handle follows_bloom_maintenance follows_multicast : follows.

Lemma follows_fresh_box : follows R fresh_box.
Proof. unfold fresh_box. follows_tac. Qed.
Lemma follows_seal_init i mt d : follows R (seal_init i mt d).
Proof. unfold seal_init. follows_tac. Qed.
Lemma follows_encode_traffic t : follows R (encode_traffic t).
Proof. unfold encode_traffic. follows_tac. Qed.
#[local] Hint Resolve follows_fresh_box follows_seal_init follows_encode_traffic : follows.
Lemma follows_route_traffic t : follows R (route_traffic t).
Proof. unfold route_traffic. follows_tac. Qed.
#[local] Hint Resolve follows_route_traffic : follows.

Section turn.
Context (snd : bytes -> bytes -> M ()) (Hsnd : forall d p, follows R (snd d p)).
#[local] Hint Resolve Hsnd : follows.

Lemma follows_session_send_inner d k m : follows R (session_send_inner snd d k m).
Proof. unfold session_send_inner, net_send. follows_tac. Qed.
#[local] Hint Resolve follows_session_send_inner : follows.
Lemma follows_session_send_kind d k m : follows R (session_send_kind snd d k m).
Proof. unfold session_send_kind, net_send. follows_tac. Qed.
#[local] Hint Resolve follows_session_send_kind : follows.
Lemma follows_handle_notify n : follows R (handle_notify snd n).
Proof. unfold handle_notify, session_send, accept_notify, take_held. follows_tac. Qed.
#[local] Hint Resolve follows_handle_notify : follows.
Lemma follows_handle_lookup f l : follows R (handle_lookup snd f l).
Proof. unfold handle_lookup, own_notify. follows_tac. Qed.
#[local] Hint Resolve follows_handle_lookup : follows.
Lemma follows_rumor_lookup d : follows R (rumor_lookup snd d).
Proof. unfold rumor_lookup, send_lookup. follows_tac. Qed.
#[local] Hint Resolve follows_rumor_lookup : follows.
Lemma follows_hold_for_lookup d p : follows R (hold_for_lookup snd d p).
Proof. unfold hold_for_lookup. follows_tac. Qed.
Lemma follows_handle_broken b : follows R (handle_broken snd b).
Proof. unfold handle_broken. follows_tac. Qed.
Lemma follows_pathfinder_turn d p : follows R (pathfinder_turn snd d p).
Proof. unfold pathfinder_turn. follows_tac. Qed.
End turn.

Lemma follows_send d p : follows R (send d p).
Proof.
  unfold send. generalize SEND_FUEL. intros n. revert d p.
  induction n as [|n IH]; intros d p; [intros w; exact I|]. exact (follows_pathfinder_turn _ IH d p).
Qed.
#[local] Hint Resolve follows_send follows_session_send_kind follows_session_send_inner follows_handle_lookup follows_handle_notify
  follows_handle_broken follows_rumor_lookup follows_hold_for_lookup : follows.

Lemma follows_session_send d m : follows R (session_send send d m).
Proof. apply follows_session_send_kind, follows_send. Qed.
Lemma follows_proto_send d p : follows R (proto_send d p).
Proof. unfold proto_send. follows_tac. Qed.
#[local] Hint Resolve follows_session_send follows_proto_send : follows.
Lemma follows_handle_proto f p : follows R (handle_proto_bytes f p).
Proof. unfold handle_proto_bytes, handle_debug_bytes. follows_tac. Qed.
Lemma follows_handle_init f d now : follows R (handle_init_bytes f d now).
Proof. unfold handle_init_bytes, session_for_init, send_ack, put_session, box_priv, net_send. follows_tac. Qed.
#[local] Hint Resolve follows_handle_proto follows_handle_init : follows.
Lemma follows_handle_traffic f d now : follows R (handle_traffic_bytes f d now).
Proof. unfold handle_traffic_bytes, put_session, net_send. follows_tac. Qed.
#[local] Hint Resolve follows_handle_traffic : follows.
Lemma follows_handle_session f d : follows R (handle_session_bytes f d).
Proof. unfold handle_session_bytes. follows_tac. Qed.
#[local] Hint Resolve follows_handle_session : follows.
Lemma follows_inbound tr : follows R (handle_inbound_traffic tr).
Proof. unfold handle_inbound_traffic. follows_tac. Qed.
#[local] Hint Resolve follows_inbound : follows.
Lemma follows_handle_frame c k t p : follows R (handle_frame c k t p).
Proof. unfold handle_frame. destruct t; follows_tac. Qed.
Lemma follows_keepalive c : follows R (keepalive_if_idle c).
Proof. unfold keepalive_if_idle. follows_tac. Qed.
#[local] Hint Resolve follows_handle_frame follows_keepalive : follows.
Lemma follows_dispatch_frame c t p : follows R (dispatch_frame c t p).
Proof. unfold dispatch_frame. destruct t; follows_tac. Qed.
Lemma follows_send_or_resolve v d p : follows R (send_or_resolve v d p).
Proof. unfold send_or_resolve. follows_tac. Qed.
Lemma follows_maintain : follows R maintain.
Proof. unfold maintain, expire_ephemeral. follows_tac. Qed.

(** *** Registering a link, and the turns of serving and resolving *)

Lemma follows_conn_write c t p k : (forall c, follows R (k c)) -> follows R (conn_write c t p k).
Proof. intros Hk. unfold conn_write. destruct (conn_write_frame c t p) as [[c' [?|?]]|]; follows_tac. Qed.
Lemma follows_replay anns c : follows R (replay_announces c anns).
Proof. revert c. induction anns as [|a anns IH]; intros c; cbn [replay_announces]; [follows_tac|]. apply follows_conn_write. intros c'. follows_tac. Qed.
Lemma follows_register c k id : follows R (register c k id).
Proof.
  unfold register. do 7 (apply follows_bind; [done|follows_tac|intros ?]).
  destruct (BloomFilter_encode <$> _) as [[f|]|]; [|follows_tac|]; (apply follows_conn_write; intros c1; apply follows_conn_write; intros c2; apply follows_replay).
Qed.
End operations.
