(* ===== verification/Rest.v ===== *)
(** * Rest: serving and resolving come to an end.

    Every operation of the router ends, the cycle of lookup, notify and send
    included; and the loops of [serve_links] and [resolve] ([src/driver.rs]) end by
    their deadline, on a clock that passes every time. *)
From stdpp Require Import base tactics list numbers gmap.
From S2P Require Import Prelude Errors Clock Frame Address Table Bloom Wire Handshake LinkSet Router Hoare Demo Tree BloomTree Session Pathfind Protocol Driver Carry.

Local Open Scope Z_scope.

(** Time goes on: the readings of the clock pass any instant for good. *)
Class ClockPasses `{!Env} : Prop := { clock_passes t : exists n, forall m, (n <= m)%nat -> t <= clock_at m }.

Section rest.
Context `{!Ed25519} `{!NaclBox} `{!Env}.

(** ** A turn reads the clock *)

Lemma ticks_links_read id : follows tick_rel (links_read id).
Proof. intros w. unfold wp, links_read, tick_rel. destruct (read_frame_slice _ _). cbn. lia. Qed.
Lemma ticks_links_remove id : follows tick_rel (links_remove id).
Proof. intros w. unfold wp, tick_rel. cbn. lia. Qed.
Lemma ticks_arrive f : follows tick_rel (arrive f).
Proof. intros w. unfold wp, tick_rel. cbn. lia. Qed.
Lemma ticks_forget_link id : follows tick_rel (forget_link id).
Proof. unfold forget_link. follows_tac. Qed.
#[local] Hint Resolve ticks_links_read ticks_links_remove ticks_arrive ticks_forget_link follows_maintain follows_dispatch_frame
  follows_keepalive follows_session_send : follows.

Lemma ticks_rumor_lookup d : follows tick_rel (rumor_lookup send d).
Proof. apply (follows_rumor_lookup _), (follows_send _). Qed.
Lemma ticks_unless_fatal e k : follows tick_rel k -> follows tick_rel (unless_fatal e k).
Proof. intros Hk. unfold unless_fatal. follows_tac. Qed.
#[local] Hint Resolve ticks_rumor_lookup ticks_unless_fatal : follows.

Lemma ticks_read_links ids : follows tick_rel (read_links ids).
Proof. induction ids as [|id ids IH]; cbn [read_links]; follows_tac. Qed.
Lemma ticks_send_outgoing out : follows tick_rel (send_outgoing out).
Proof. induction out as [|[d m] out IH]; cbn [send_outgoing]; follows_tac. Qed.
Lemma ticks_maintain_soft : follows tick_rel maintain_soft.
Proof. unfold maintain_soft. follows_tac. Qed.
#[local] Hint Resolve ticks_read_links ticks_send_outgoing ticks_maintain_soft : follows.

(** What comes after a reading happens at a later tick. *)
Lemma ticks_after_now {A} (k : Z -> M A) w : (forall t, follows tick_rel (k t)) ->
  wp (t ← instant_now; k t) (fun _ w' => (w_ticks w < w_ticks w')%nat) w.
Proof.
  intros Hk. specialize (Hk (clock_at (w_ticks w)) (mkWorld (w_router w) (w_links w) (S (w_ticks w)))).
  unfold wp, tick_rel in *. change ((t ← instant_now; k t) w) with (k (clock_at (w_ticks w)) (mkWorld (w_router w) (w_links w) (S (w_ticks w)))).
  destruct (k _ _); [|done..]. cbn in Hk. lia.
Qed.

Lemma ticks_serve_turn e l o w : wp (serve_turn e l o) (fun _ w' => (w_ticks w < w_ticks w')%nat) w.
Proof. apply ticks_after_now. intros now. follows_tac. Qed.

(** ** Deadlines *)

(** [m] does not run out of fuel, and it does not stop for want of arrivals: it
    panics, or has a result that is not [unfinished]. *)
Definition ends {A} (m : M A) (unfinished : A -> Prop) (w : World) : Prop :=
  m w = Panic \/ exists w' r, m w = Done w' r /\ forall a, r = Ok a -> ~ unfinished a.

(** Serving stopped while its time was not up. *)
Definition serving (r : result bool * list (bytes * bytes)) : Prop := r.1 = Ok false.

Lemma serve_turn_over end_ l o w : end_ <= clock_at (w_ticks w) ->
  serve_turn (Some end_) l o w = Done (mkWorld (w_router w) (w_links w) (S (w_ticks w))) (Ok None).
Proof. intros He. unfold serve_turn, mbind, M_bind, instant_now, tick. by rewrite (proj2 (Z.leb_le _ _) He). Qed.

Lemma serve_loop_ends n end_ l o net w : (forall m, (n <= m)%nat -> end_ <= clock_at m) -> (n - w_ticks w < length net)%nat ->
  ends (serve_loop (Some end_) l o net) serving w.
Proof.
  intros Hn. revert l o w. induction net as [|f net IH]; intros l o w Hl; [cbn in Hl; lia|]. cbn [length] in Hl.
  set (w1 := mkWorld (w_router w) (f (w_links w)) (w_ticks w)).
  pose proof (ticks_serve_turn (Some end_) l o w1) as Ht. pose proof (total_serve_turn (Some end_) l o w1) as Hf.
  pose proof (serve_turn_over end_ l o w1) as Ho. unfold wp, ends in *.
  change (serve_loop (Some end_) l o (f :: net) w) with ((next ← attempt (serve_turn (Some end_) l o);
    match next with Err e => mret (Err e, []) | Ok None => mret (Ok true, o) | Ok (Some (l, o)) => serve_loop (Some end_) l o net end) w1).
  unfold mbind, M_bind, attempt. destruct (serve_turn (Some end_) l o w1) as [w2 [[[l' o']|]|e]| |]; [| | |by left|done].
  - apply IH. cbn in Ht. destruct (decide (n <= w_ticks w)%nat) as [Hw|]; [|lia]. by specialize (Ho (Hn _ Hw)).
  - right. do 2 eexists. split; [reflexivity|]. by intros a [= <-].
  - right. do 2 eexists. split; [reflexivity|]. by intros a [= <-].
Qed.

(** Serving reads the clock twice, maintains, and then goes round. *)
Lemma serve_links_start hold out net w : exists r o now, serve_links hold out net w =
  (soft ← attempt maintain_soft;
   match soft with
   | Err e => mret (Err e, o)
   | Ok _ => serve_loop ((fun h => clock_at (w_ticks w) + h) <$> hold) now o net
   end) (mkWorld r (w_links w) (S (S (w_ticks w)))).
Proof. destruct w as [r ls k]. do 3 eexists. unfold serve_links, mbind at 1 2 3 4, M_bind, asks, modify, instant_now, tick. cbn [w_router w_links w_ticks mret M_ret]. reflexivity. Qed.

Lemma serve_ends `{!ClockPasses} hold out w : exists n, forall net, (n <= length net)%nat -> ends (serve_links (Some hold) out net) serving w.
Proof.
  destruct (clock_passes (clock_at (w_ticks w) + hold)) as [n Hn]. exists (S n). intros net Hl.
  destruct (serve_links_start (Some hold) out net w) as (r & o & l & E).
  unfold ends in *. rewrite E. clear E. pose proof (total_maintain_soft (mkWorld r (w_links w) (S (S (w_ticks w))))) as Hf.
  unfold mbind, M_bind, attempt. destruct (maintain_soft _) as [w1 [u|e]| |]; [|right|by left|done].
  - apply (serve_loop_ends n); [exact Hn|]. lia.
  - do 2 eexists. split; [reflexivity|]. by intros a [= <-].
Qed.

Lemma resolve_loop_ends n conn addr end_ l net w : (forall m, (n <= m)%nat -> end_ <= clock_at m) -> (n - w_ticks w < length net)%nat ->
  ends (resolve_loop conn addr end_ l net) (eq None) w.
Proof.
  intros Hn. revert l w. induction net as [|f net IH]; intros l w Hl; [cbn in Hl; lia|]. cbn [length] in Hl.
  set (w1 := mkWorld (w_router w) (f (w_links w)) (S (w_ticks w))). unfold ends.
  change (resolve_loop conn addr end_ l (f :: net) w) with ((if end_ <=? clock_at (w_ticks w) then throw (Core Timeout) else
    next ← resolve_turn conn addr l; match next with inl k => mret (Some k) | inr l => resolve_loop conn addr end_ l net end) w1).
  destruct (Z.leb_spec end_ (clock_at (w_ticks w))) as [He|He]; [right; do 2 eexists; by split|].
  assert (w_ticks w < n)%nat as Hlt. { destruct (decide (n <= w_ticks w)%nat) as [Hw|]; [|lia]. specialize (Hn _ Hw). lia. }
  assert (follows tick_rel (resolve_turn conn addr l)) as Ht by (unfold resolve_turn; follows_tac). specialize (Ht w1).
  pose proof (total_resolve_turn conn addr l w1) as Hf. unfold wp, tick_rel, mbind, M_bind in *. destruct (resolve_turn conn addr l w1) as [w2 [[k|l']|e]| |]; [| | |by left|done].
  - right. do 2 eexists. split; [reflexivity|]. by intros a [= <-].
  - apply IH. cbn in Ht. lia.
  - right. do 2 eexists. split; [reflexivity|]. by intros a [=].
Qed.

Lemma resolve_ends `{!ClockPasses} conn addr timeout w : exists n, forall net, (n <= length net)%nat -> ends (resolve conn addr timeout net) (eq None) w.
Proof.
  destruct (clock_passes (clock_at (w_ticks w) + timeout)) as [n Hn]. exists (S n). intros net Hl. unfold ends.
  change (resolve conn addr timeout net w) with (match peer_of (w_links w) conn with None => throw (Core NoLink) | Some _ =>
     start ← instant_now; last_maintain ← instant_now; resolve_loop conn addr (start + timeout) last_maintain net end w).
  destruct (peer_of (w_links w) conn); [|right; do 2 eexists; by split].
  apply (resolve_loop_ends n conn addr _ (clock_at (S (w_ticks w))) net (mkWorld (w_router w) (w_links w) (S (S (w_ticks w))))); [exact Hn|cbn; lia].
Qed.

(** Without a deadline the loop is left only by an error. *)
Lemma serve_loop_forever l o net w w' r : serve_loop None l o net w = Done w' r -> forall o', r <> Ok (Ok true, o').
Proof.
  revert l o w. induction net as [|f net IH]; intros l o w; cbn [serve_loop]; [by intros [= <- <-]|].
  unfold mbind, M_bind, attempt, arrive. destruct (serve_turn None l o _) as [w1 [[[l' o']|]|e]| |] eqn:E; [| | |done..].
  - apply IH.
  - exfalso. revert E. unfold serve_turn, mbind, M_bind, instant_now, tick, asks_links.
    repeat (case_match; simplify_eq; try done).
  - by intros [= <- <-].
Qed.

(** ** The property *)

(** C5: the protocol comes to rest. On a clock that passes every time, serving for
    a bounded time and resolving come to their end within some number of turns,
    whatever arrives in them and however the router's state came about: they
    panic or return, and not because nothing more arrives. Serving without a bound
    ends by an error alone. Every other operation ends on any clock, and the
    cycle of lookup, notify and send is entered at most twice: allowing more
    nested sends changes nothing. *)
Theorem protocol_terminates (w : World) :
  (ClockPasses -> forall hold out, exists n, forall net, (n <= length net)%nat -> ends (serve_links (Some hold) out net) serving w) /\
  (ClockPasses -> forall conn addr timeout, exists n, forall net, (n <= length net)%nat -> ends (resolve conn addr timeout net) (eq None) w) /\
  (forall out net w' out', serve_links None out net w <> Done w' (Ok (Ok true, out'))) /\
  (forall conn t p, dispatch_frame conn t p w <> OutOfFuel) /\ maintain w <> OutOfFuel /\
  (forall via dest p, send_or_resolve via dest p w <> OutOfFuel) /\
  (forall n dest p, pathfinder_send (SEND_FUEL + n) dest p w = pathfinder_send SEND_FUEL dest p w).
Proof.
  split; [intros Hc hold out; by apply serve_ends|]. split; [intros Hc conn addr t; by apply resolve_ends|].
  split; [|split; [intros; apply total_dispatch_frame|split; [apply total_maintain|split; [intros; apply total_send_or_resolve|intros; apply send_fuel_irrelevant]]]].
  intros out net w' out'. destruct (serve_links_start None out net w) as (r & o & l & ->). unfold mbind, M_bind, attempt.
  destruct (maintain_soft _) as [w1 [u|e]| |]; [|done..]. intros E. by eapply serve_loop_forever in E.
Qed.
End rest.

(** ** Witness *)

#[export] Instance demo_clock_passes : @ClockPasses demo_env.
Proof.
  constructor. intros t. exists (Z.to_nat t). intros m Hm. unfold demo_env, clock_at, from_secs. lia.
Qed.

Lemma protocol_terminates_witness : exists n, forall net, (n <= length net)%nat ->
  @ends _ (@serve_links toy_ed25519 toy_box demo_env (Some (from_secs 3)) [] net) serving demo_world.
Proof. exact (proj1 (@protocol_terminates toy_ed25519 toy_box demo_env demo_world) demo_clock_passes (from_secs 3) []). Defined.

(** The bound is met: three seconds are over after a few turns of silence. *)
Example serves_three_seconds :
  (match @serve_links toy_ed25519 toy_box demo_env (Some (from_secs 3)) [] (replicate 20 (fun ls => ls)) demo_world with Done _ (Ok (r, _)) => r | _ => Ok false end) = Ok true.
Proof. vm_compute. reflexivity. Qed.
