(* ===== verification/NodeRun.v ===== *)
(** * NodeRun: runs of the whole client node.

    The node task composes the router, the links, the link manager and the
    bridge. Whatever commands, dial results and bytes reach it, its router stays
    sound and its link table consistent; remote questions are answered once. *)
From stdpp Require Import base tactics list numbers gmap.
From S2P Require Import Prelude Errors Clock Frame Address Table Bloom Wire Handshake LinkSet Router Hoare Tree BloomTree Session Pathfind Protocol Driver Invariant Demo Text Uri Peers Tun Views Node Carry.

Local Open Scope Z_scope.

(** ** Streams hold bytes *)

Definition conn_bytes (c : AnyConn) : Prop := bytes_ok (st_in (c_stream c)).
Definition links_bytes (ls : LinkSet) : Prop := Forall (fun e => conn_bytes (le_link e)) (ls_entries ls).

Lemma conn_write_in c t p c' r : conn_write_frame c t p = Some (c', r) -> st_in (c_stream c') = st_in (c_stream c).
Proof.
  unfold conn_write_frame, stream_write. destruct (write_frame_to t p); [|done]. cbn [mbind option_bind].
  destruct (st_wres (c_stream c)) as [|[e|] w]; cbn; by intros [= <- _].
Qed.

Lemma Forall_vec_remove {A} (Q : A -> Prop) i l : Forall Q l -> Forall Q (vec_remove l i).
Proof. intros Hl. apply Forall_app; split; [by apply Forall_take|by apply Forall_drop]. Qed.

Lemma send_links_bytes now ls id t p ls' r : links_bytes ls -> LinkSet_send now ls id t p = Some (ls', r) -> links_bytes ls'.
Proof.
  intros Hl. unfold LinkSet_send. destruct (position _ _) as [i|]; [|by intros [= <- _]].
  destruct (ls_entries ls !! i) as [e|] eqn:Ee; [|done]. cbn [mbind option_bind].
  destruct (conn_write_frame (le_link e) t p) as [[c r']|] eqn:Ec; [|done]. cbn [mbind option_bind].
  apply conn_write_in in Ec. destruct r'; intros [= <- _].
  - apply Forall_insert; [exact Hl|]. unfold conn_bytes. cbn. rewrite Ec. eapply Forall_lookup_1 in Ee; [|exact Hl]. exact Ee.
  - by apply Forall_vec_remove.
Qed.

#[export] Instance links_bytes_allowed : Allowed (link_rel links_bytes) := link_allowed _ send_links_bytes.

Lemma read_frame_bytes s e t p rest : bytes_ok s -> read_frame_from s e = Ok ((t, p), rest) -> bytes_ok p /\ bytes_ok rest.
Proof.
  intros Hs E. apply read_frame_sound in E as (_ & c & -> & _). apply bytes_ok_app in Hs as [_ Hs].
  apply bytes_ok_cons in Hs as [_ Hs]. by apply bytes_ok_app in Hs.
Qed.

Lemma stream_read_bytes s : bytes_ok (st_in s) ->
  bytes_ok (st_in (stream_read_slice s).1) /\ forall t p, (stream_read_slice s).2 = ReadFrame t p -> bytes_ok p.
Proof.
  intros Hs. unfold stream_read_slice. destruct (st_end s) as [e|].
  - destruct (read_frame_from (st_in s) e) as [[[t p] rest]|er] eqn:E; [|done].
    destruct (read_frame_bytes _ _ _ _ _ Hs E). split; [done|]. by intros ? ? [= _ <-].
  - destruct (read_frame_from (st_in s) WOULD_BLOCK) as [[[t p] rest]|er] eqn:E.
    + destruct (read_frame_bytes _ _ _ _ _ Hs E). split; [done|]. by intros ? ? [= _ <-].
    + destruct (decide _); [|done]. split; [constructor|done].
Qed.

Lemma read_links_bytes ls id ls' r : links_bytes ls -> read_frame_slice ls id = (ls', r) ->
  links_bytes ls' /\ forall t p, r = ReadFrame t p -> bytes_ok p.
Proof.
  intros Hl. unfold read_frame_slice. destruct (position _ _) as [i|]; [|by intros [= <- <-]].
  destruct (ls_entries ls !! i) as [e|] eqn:Ee; [|by intros [= <- <-]].
  pose proof (stream_read_bytes (c_stream (le_link e))) as Hr. destruct (stream_read_slice _) as [s r']. intros [= <- <-].
  destruct Hr as [Hs Hp]; [eapply Forall_lookup_1 in Ee; [exact Ee|exact Hl]|]. split; [|exact Hp].
  apply Forall_insert; [exact Hl|]. unfold conn_bytes. by destruct r'.
Qed.

(** ** Operations on a sound world *)

Section node_sound.
Context `{!Hex} `{!Ed25519} `{!Ed25519Laws} `{!NaclBox} `{!NaclBoxLaws} `{!Env}.

Definition world_ok (w : World) : Prop := router_inv (w_router w) /\ links_bytes (w_links w).

(** [m] keeps the world sound and returns only what satisfies [Q]. *)
Definition sound {A} (m : M A) (Q : A -> Prop) : Prop :=
  forall w, world_ok w -> wp m (fun r w' => world_ok w' /\ forall a, r = Ok a -> Q a) w.

Abbreviation sound_op m := (sound m (fun _ => True)).

Lemma sound_of {A} (m : M A) : keeps router_inv m -> carries links_bytes m -> sound_op m.
Proof.
  intros Hk Hc w [Hr Hl]. specialize (Hk w Hr). specialize (Hc w). unfold wp, link_rel in *. destruct (m w); [|done..].
  split; [|done]. split; [exact Hk|by apply Hc].
Qed.

Lemma sound_ret {A} (a : A) (Q : A -> Prop) : Q a -> sound (mret a) Q.
Proof. intros Ha w Hw. split; [exact Hw|]. by intros ? [= <-]. Qed.

Lemma sound_bind {A B} (m : M A) (k : A -> M B) (P : A -> Prop) (Q : B -> Prop) :
  sound m P -> (forall a, P a -> sound (k a) Q) -> sound (m ≫= k) Q.
Proof.
  intros Hm Hk w Hw. specialize (Hm w Hw). unfold wp, mbind, M_bind in *.
  destruct (m w) as [w' [a|e]| |]; try done; destruct Hm as [Hw' Ha]; [|by split]. by apply Hk; [apply Ha|].
Qed.

Lemma sound_then {A B} (m : M A) (k : A -> M B) (Q : B -> Prop) :
  sound_op m -> (forall a, sound (k a) Q) -> sound (m ≫= k) Q.
Proof. intros Hm Hk. eapply sound_bind; [exact Hm|]. auto. Qed.

Lemma sound_weaken {A} (m : M A) (P Q : A -> Prop) : sound m P -> (forall a, P a -> Q a) -> sound m Q.
Proof.
  intros Hm Hq w Hw. specialize (Hm w Hw). unfold wp in *. destruct (m w) as [w' r| |]; try done.
  destruct Hm as [Hw' Ha]. split; [done|]. auto.
Qed.

Lemma sound_throw {A} e (Q : A -> Prop) : sound (throw e) Q.
Proof. intros w Hw. by split. Qed.

Lemma sound_attempt {A} (m : M A) (Q : A -> Prop) : sound m Q -> sound (attempt m) (fun r => forall a, r = Ok a -> Q a).
Proof.
  intros Hm w Hw. specialize (Hm w Hw). unfold wp, attempt in *. destruct (m w) as [w' r| |]; try done.
  destruct Hm as [Hw' Ha]. split; [done|]. by intros ? [= <-].
Qed.

Lemma sound_try {A} (m : M A) : sound_op m -> sound_op (attempt m).
Proof. intros Hm. eapply sound_weaken; [by apply sound_attempt|done]. Qed.

Lemma sound_tick {A} (f : nat -> A) : sound_op (tick f).
Proof. intros w Hw. by split. Qed.
Lemma sound_now : sound_op instant_now.
Proof. apply sound_tick. Qed.
Lemma sound_asks {A} (f : Router -> A) : sound_op (asks f).
Proof. intros w Hw. by split. Qed.
Lemma sound_asks_links {A} (f : LinkSet -> A) : sound_op (asks_links f).
Proof. intros w Hw. by split. Qed.
Lemma sound_get : sound_op get_world.
Proof. intros w Hw. by split. Qed.
Lemma sound_free f : keeps router_inv (modify f) -> sound_op (modify f).
Proof. intros Hf. apply sound_of; [exact Hf|apply (follows_modify _)]. Qed.

Lemma sound_session_send d m : sound_op (session_send send d m).
Proof. apply sound_of; [apply keeps_session_send|apply (follows_session_send _)]. Qed.
Lemma sound_maintain : sound_op maintain.
Proof. apply sound_of; [apply keeps_maintain|apply (follows_maintain _)]. Qed.
Lemma sound_dispatch c t p : bytes_ok p -> sound_op (dispatch_frame c t p).
Proof. intros Hp. apply sound_of; [by apply keeps_dispatch_frame|apply (follows_dispatch_frame _)]. Qed.
Lemma sound_keepalive c : sound_op (keepalive_if_idle c).
Proof. apply sound_of; [apply keeps_keepalive|apply (follows_keepalive _)]. Qed.
Lemma sound_send_or_resolve v d p : sound_op (send_or_resolve v d p).
Proof. apply sound_of; [apply keeps_send_or_resolve|apply (follows_send_or_resolve _)]. Qed.
Lemma sound_proto_send d p : sound_op (proto_send d p).
Proof. apply sound_of; [apply keeps_session_send|apply (follows_proto_send _)]. Qed.
Lemma sound_unless_fatal e k : sound_op k -> sound_op (unless_fatal e k).
Proof. intros Hk. unfold unless_fatal. apply sound_then; [apply sound_asks_links|intros ls]. destruct (fatal_link_error ls e); [apply sound_throw|exact Hk]. Qed.

(** ** Serving *)

Lemma sound_links_read id : sound (links_read id) (fun r => forall t p, r = ReadFrame t p -> bytes_ok p).
Proof.
  intros w [Hr Hl]. unfold wp, links_read. destruct (read_frame_slice (w_links w) id) as [ls r] eqn:E.
  destruct (read_links_bytes _ _ _ _ Hl E) as [Hl' Hp]. split; [by split|]. by intros ? [= <-].
Qed.

Lemma sound_links_remove id : sound_op (links_remove id).
Proof.
  intros w [Hr Hl]. split; [|done]. split; [exact Hr|]. cbn. unfold LinkSet_remove. destruct (position _ _); [|exact Hl].
  by apply Forall_vec_remove.
Qed.

Lemma sound_forget_link id : sound_op (forget_link id).
Proof.
  apply sound_of; [|apply (follows_modify_tree _)]. unfold forget_link. apply keeps_same_infos. done.
Qed.

Lemma sound_count_frame t : sound_op (modify (count_frame t)).
Proof. apply sound_free. free_field. Qed.

Lemma sound_read_links ids : sound_op (read_links ids).
Proof.
  induction ids as [|id ids IH]; cbn [read_links]; [by apply sound_ret|].
  eapply sound_bind; [apply sound_links_read|]. intros [t p|e|] Hf.
  - apply sound_then; [apply sound_count_frame|intros _].
    apply sound_then; [by apply sound_try, sound_dispatch, (Hf t)|]. intros [u|e]; [exact IH|by apply sound_unless_fatal, sound_ret].
  - apply sound_then; [apply sound_links_remove|intros _]. apply sound_then; [apply sound_forget_link|intros _].
    apply sound_then; [apply sound_asks_links|]. intros [|]; [apply sound_throw|exact IH].
  - apply sound_then; [apply sound_try, sound_keepalive|]. intros [u|e]; [exact IH|by apply sound_unless_fatal].
Qed.

Lemma sound_send_outgoing out : sound_op (send_outgoing out).
Proof.
  induction out as [|[d m] out IH]; cbn [send_outgoing]; [by apply sound_ret|].
  apply sound_then; [apply sound_try, sound_session_send|]. intros [u|e]; [exact IH|by apply sound_unless_fatal, sound_ret].
Qed.

Lemma sound_maintain_soft : sound_op maintain_soft.
Proof.
  apply sound_then; [apply sound_try, sound_maintain|]. intros [u|e]; [by apply sound_ret|by apply sound_unless_fatal, sound_ret].
Qed.

Lemma sound_when b m : sound_op m -> sound_op (when b m).
Proof. destruct b; [done|intros _; by apply sound_ret]. Qed.

Lemma sound_serve_turn e l o : sound_op (serve_turn e l o).
Proof.
  unfold serve_turn. apply sound_then; [apply sound_now|intros now]. destruct (match e with Some _ => _ | None => _ end); [by apply sound_ret|].
  apply sound_then; [apply sound_asks_links|]. intros [|id ids]; [by apply sound_ret|].
  apply sound_then; [apply sound_send_outgoing|intros _]. apply sound_then; [apply sound_when, sound_maintain_soft|intros _].
  apply sound_then; [apply sound_asks_links|intros ids']. apply sound_then; [apply sound_read_links|intros _]. by apply sound_ret.
Qed.

(** What the network brings is bytes. *)
Definition net_ok (net : list (LinkSet -> LinkSet)) : Prop := Forall (fun f => forall ls, links_bytes ls -> links_bytes (f ls)) net.

Lemma sound_serve_loop e l o net : net_ok net -> sound_op (serve_loop e l o net).
Proof.
  intros Hn. revert l o. induction Hn as [|f net Hf Hn IH]; intros l o; cbn [serve_loop]; [by apply sound_ret|].
  apply sound_then; [|intros _].
  { intros w [Hr Hl]. split; [|done]. split; [exact Hr|]. by apply Hf. }
  apply sound_then; [apply sound_try, sound_serve_turn|]. intros [[[l' o']|]|er]; [apply IH|by apply sound_ret..].
Qed.

Lemma sound_serve_links h o net : net_ok net -> sound_op (serve_links h o net).
Proof.
  intros Hn. unfold serve_links. apply sound_then; [apply sound_asks|intros rs].
  apply sound_then; [apply sound_free, keeps_resend|intros _]. apply sound_then; [apply sound_now|intros start].
  apply sound_then; [apply sound_now|intros lm]. apply sound_then; [apply sound_try, sound_maintain_soft|].
  intros [u|er]; [by apply sound_serve_loop|by apply sound_ret].
Qed.

(** ** Registration *)

(** [m] returns a connection with the unread bytes [s]. *)
Definition returns_conn (m : M (AnyConn * result ())) (s : bytes) : Prop :=
  forall w, wp m (fun r _ => forall c res, r = Ok (c, res) -> st_in (c_stream c) = s) w.

Lemma returns_bind {A} (m : M A) k s : (forall a, returns_conn (k a) s) -> returns_conn (m ≫= k) s.
Proof.
  intros Hk w. unfold wp, mbind, M_bind. destruct (m w) as [w' [a|e]| |]; try done. apply Hk.
Qed.

Lemma returns_conn_write c t p k : (forall c', st_in (c_stream c') = st_in (c_stream c) -> returns_conn (k c') (st_in (c_stream c))) ->
  returns_conn (conn_write c t p k) (st_in (c_stream c)).
Proof.
  intros Hk. unfold conn_write. destruct (conn_write_frame c t p) as [[c' [u|e]]|] eqn:E; [..|done]; apply conn_write_in in E.
  - by apply Hk.
  - intros w c1 res [= <- _]. exact E.
Qed.

Lemma returns_replay anns c s : st_in (c_stream c) = s -> returns_conn (replay_announces c anns) s.
Proof.
  revert c. induction anns as [|a anns IH]; intros c Hc; cbn [replay_announces]; [by intros w c1 res [= <- _]|].
  rewrite <-Hc. apply returns_conn_write. intros c' Hc'. apply returns_bind. intros _. rewrite Hc. apply IH. congruence.
Qed.

Lemma returns_register c k id : returns_conn (register c k id) (st_in (c_stream c)).
Proof.
  unfold register. do 7 (apply returns_bind; intros ?). destruct (BloomFilter_encode <$> _) as [[f|]|]; [|done|];
    (apply returns_conn_write; intros c1 E1; rewrite <-E1; apply returns_conn_write; intros c2 E2; by apply returns_replay).
Qed.

Lemma sound_register c k id : conn_bytes c -> sound (register c k id) (fun cr => conn_bytes cr.1).
Proof.
  intros Hc w Hw. pose proof (sound_of _ (keeps_register c k id) (follows_register _ c k id) w Hw) as Hs.
  pose proof (returns_register c k id w) as Hr. unfold wp in *. destruct (register c k id w) as [w' r| |]; try done.
  split; [apply Hs|]. intros [c' res] ->. unfold conn_bytes. cbn. by rewrite (Hr c' res eq_refl).
Qed.

Lemma sound_links_add c : conn_bytes c -> sound_op (links_add c).
Proof.
  intros Hc w [Hr Hl]. split; [|done]. split; [exact Hr|]. apply Forall_app. split; [exact Hl|]. by constructor.
Qed.

(** ** The link table through a turn *)

Definition peers_ok (l : Links) : Prop := links_inv l /\ 0 <= lk_next_token l.

(** The table is sound and has room for [k] more rows and a dial of each. *)
Definition room (k : nat) (n : NodeState) : Prop :=
  peers_ok (nd_peers n) /\ lk_next_token (nd_peers n) + Z.of_nat (length (lk_entries (nd_peers n)) + k) < 2 ^ 64.

Lemma length_vec_remove {A} (l : list A) i : (length (vec_remove l i) <= length l)%nat.
Proof. unfold vec_remove. rewrite length_app, length_take, length_drop. lia. Qed.

(** A step that adds at most [j] rows and starts no dial. *)
Lemma room_step k j l e n : room (k + j) n -> nd_peers n = l -> peers_event_ok l e ->
  lk_next_token (peers_step l e) = lk_next_token l -> (length (lk_entries (peers_step l e)) <= length (lk_entries l) + j)%nat ->
  room k (set_peers_n (peers_step l e) n).
Proof.
  intros [[Hi Hz] Hb] <- He Ht Hl. split; [split|].
  - by apply peers_step_inv.
  - cbn [nd_peers set_peers_n]. by rewrite Ht.
  - cbn [nd_peers set_peers_n]. rewrite Ht. lia.
Qed.

Lemma add_grows l uri sintf kind now : lk_next_token (Links_add l uri sintf kind now).1 = lk_next_token l /\
  (length (lk_entries (Links_add l uri sintf kind now).1) <= length (lk_entries l) + 1)%nat.
Proof.
  unfold Links_add. destruct (parse_link_uri uri); [|cbn; split; [done|lia]]. destruct (Links_find l uri sintf); cbn.
  - rewrite length_alter. split; [done|lia].
  - rewrite length_app. cbn. split; [done|lia].
Qed.

Lemma accept_grows l uri conn now : lk_next_token (Links_accept l uri conn now) = lk_next_token l /\
  (length (lk_entries (Links_accept l uri conn now)) <= length (lk_entries l) + 1)%nat.
Proof.
  unfold Links_accept. destruct (Links_find l uri []); cbn.
  - rewrite length_alter. split; [done|lia].
  - rewrite length_app. cbn. split; [done|lia].
Qed.

Lemma remove_grows l uri sintf : lk_next_token (Links_remove l uri sintf).1 = lk_next_token l /\
  (length (lk_entries (Links_remove l uri sintf).1) <= length (lk_entries l) + 0)%nat.
Proof.
  unfold Links_remove. destruct (Links_find l uri sintf) as [i|]; cbn; [|split; [done|lia]].
  pose proof (length_vec_remove (lk_entries l) i). split; [done|lia].
Qed.

Lemma live_grows l token conn now : lk_next_token (mark_live l token conn now).1 = lk_next_token l /\
  (length (lk_entries (mark_live l token conn now).1) <= length (lk_entries l) + 0)%nat.
Proof. unfold mark_live. destruct (position _ _); cbn; [rewrite length_alter|]; (split; [done|lia]). Qed.

Lemma failed_grows l token err t t' : lk_next_token (mark_failed l token err t t') = lk_next_token l /\
  (length (lk_entries (mark_failed l token err t t')) <= length (lk_entries l) + 0)%nat.
Proof.
  unfold mark_failed. destruct (position _ _) as [i|]; [|split; [done|lia]]. destruct (lk_entries l !! i); [|split; [done|lia]].
  case_bool_decide; cbn; [|rewrite length_alter; split; [done|lia]].
  pose proof (length_vec_remove (lk_entries l) i). split; [done|lia].
Qed.

Lemma note_shrinks links clk i es : (length (note_rows links clk i es) <= length es)%nat.
Proof. revert i. induction es as [|e es IH]; intros i; cbn; [lia|]. specialize (IH (S i)). destruct (note_row _ _ e); cbn; lia. Qed.

Lemma room_less k n : room (S k) n -> room k n.
Proof. intros [Hp Hb]. split; [exact Hp|lia]. Qed.

(** The other fields of the node do not matter. *)
Lemma room_same k n n' : nd_peers n' = nd_peers n -> room k n -> room k n'.
Proof. intros E. unfold room. by rewrite E. Qed.

Lemma sound_dial_failed k n token e : room k n -> sound (dial_failed n token e) (room k).
Proof.
  intros Hn. unfold dial_failed. apply sound_then; [apply sound_now|intros now]. apply sound_then; [apply sound_now|intros now'].
  apply sound_ret. destruct (failed_grows (nd_peers n) token e now now') as [E1 E2].
  apply (room_step k 0 _ (EvFailed token e now now')); [by rewrite Nat.add_0_r|done..].
Qed.

Lemma sound_on_dial k n token outcome : room k n ->
  match outcome with inl c => conn_bytes c | inr _ => True end -> sound (on_dial n token outcome) (room k).
Proof.
  intros Hn Hc. unfold on_dial. destruct outcome as [conn|e]; [|by apply sound_dial_failed].
  eapply sound_bind; [by apply sound_register|]. intros [c [u|e]] Hc'; [|by apply sound_dial_failed].
  apply sound_then; [apply sound_now|intros now]. destruct (live_grows (nd_peers n) token c now) as [E1 E2].
  assert (room k (set_peers_n (mark_live (nd_peers n) token c now).1 n)) as Hr
    by (apply (room_step k 0 _ (EvLive token c now)); [by rewrite Nat.add_0_r|done..]).
  destruct (mark_live (nd_peers n) token c now) as [peers taken].
  apply sound_then; [by apply sound_when, sound_links_add|intros _]. by apply sound_ret.
Qed.

Lemma reply_to_room k c r n : room k n -> room k (reply_to c r n).
Proof. destruct c; [|done]. by apply room_same. Qed.

Definition cmd_ok (cmd : Cmd) : Prop := match cmd with CmdAccept conn _ => conn_bytes conn | _ => True end.

Lemma sound_on_cmd k n cmd : room (S k) n -> cmd_ok cmd -> sound (on_cmd n cmd) (room k).
Proof.
  intros Hn Hc. pose proof (room_less k n Hn) as Hk. assert (room (k + 1) n) as Hn1 by (by rewrite Nat.add_1_r).
  destruct cmd as [uri sintf pers c|uri sintf c|conn uri|dest p|c|key what c|c|]; cbn [on_cmd cmd_ok] in *.
  - apply sound_then; [apply sound_now|intros now]. set (kind := if pers then Persistent else Ephemeral).
    destruct (add_grows (nd_peers n) uri sintf kind now) as [E1 E2].
    assert (room k (set_peers_n (Links_add (nd_peers n) uri sintf kind now).1 n)) as Hr
      by (apply (room_step k 1 _ (EvAdd uri sintf kind now)); [done|done|by destruct pers|done..]).
    destruct (Links_add _ _ _ _ _) as [peers out]. apply sound_ret. by apply reply_to_room.
  - destruct (remove_grows (nd_peers n) uri sintf) as [E1 E2].
    assert (room k (set_peers_n (Links_remove (nd_peers n) uri sintf).1 n)) as Hr
      by (apply (room_step k 0 _ (EvRemove uri sintf)); [by rewrite Nat.add_0_r|done..]).
    destruct (Links_remove _ _ _) as [peers out]. apply sound_then; [|intros _; apply sound_ret; by apply reply_to_room].
    destruct out; [|by apply sound_ret]. destruct (live_id _ _ _); [|by apply sound_ret].
    apply sound_then; [apply sound_links_remove|intros _; apply sound_forget_link].
  - destruct (match uri with Some _ => _ | None => _ end); [by apply sound_ret|].
    eapply sound_bind; [by apply sound_register|]. intros [c [u|e]] Hc'; [|by apply sound_ret].
    apply sound_then; [apply sound_now|intros now]. apply sound_then; [by apply sound_links_add|intros _]. apply sound_ret.
    destruct uri as [uri|]; [|done]. destruct (accept_grows (nd_peers n) uri c now) as [E1 E2].
    by apply (room_step k 1 _ (EvAccept uri c now)).
  - apply sound_ret. by apply (room_same k n).
  - apply sound_then; [apply sound_now|intros now]. apply sound_then; [apply sound_get|intros w]. apply sound_ret. by apply (room_same k n).
  - apply sound_then.
    { apply sound_try. destruct what; apply sound_proto_send. }
    intros [u|e]; [apply sound_then; [apply sound_now|intros now]|]; apply sound_ret; by apply (room_same k n).
  - apply sound_ret. by apply (room_same k n).
  - apply sound_ret. by apply (room_same k n).
Qed.

Lemma sound_drain_cmds k cmds n : Forall cmd_ok cmds -> room (k + length cmds) n -> sound (drain on_cmd n cmds) (room k).
Proof.
  intros Hc. revert n. induction Hc as [|c cmds Hc Hcs IH]; intros n Hn; cbn [drain length] in *.
  - apply sound_ret. by rewrite Nat.add_0_r in Hn.
  - eapply sound_bind; [apply (sound_on_cmd (k + length cmds)); [by rewrite <-Nat.add_succ_r|done]|]. intros n' Hn'. by apply IH.
Qed.

Definition dial_ok (d : Z * (AnyConn + Error)) : Prop := match d.2 with inl c => conn_bytes c | inr _ => True end.

Lemma sound_drain_dials k ds n : Forall dial_ok ds -> room k n -> sound (drain (fun n d => on_dial n d.1 d.2) n ds) (room k).
Proof.
  intros Hd. revert n. induction Hd as [|d ds Hd Hds IH]; intros n Hn; cbn [drain]; [by apply sound_ret|].
  eapply sound_bind; [by apply sound_on_dial|]. intros n' Hn'. by apply IH.
Qed.

Abbreviation table_ok := (fun n => peers_ok (nd_peers n)).

Lemma sound_settle_remote n : peers_ok (nd_peers n) -> sound (settle_remote n) table_ok.
Proof.
  intros Hn. unfold settle_remote. destruct (nd_pending n) as [|q qs]; [by apply sound_ret|].
  apply sound_then; [apply sound_now|intros now]. apply sound_then; [apply sound_asks|intros inbox].
  destruct (settle now inbox (q :: qs)) as [[inbox' still] out].
  apply sound_then; [apply sound_free; free_field|intros _]. by apply sound_ret.
Qed.

Lemma sound_pump_reads d via reads h : sound_op (pump_reads d via reads h).
Proof.
  revert h. induction reads as [|r reads IH]; intros h; cbn [pump_reads]; [by apply sound_ret|]. destruct (_ <=? _); [by apply sound_ret|].
  destruct r as [raw|e]; [|by apply sound_ret]. destruct (take _ raw) as [|b p]; [by apply sound_ret|]. destruct (negb _); [apply IH|].
  destruct (destination _) as [dst|]; [|apply IH]. destruct via as [id|]; [|by apply sound_ret].
  apply sound_then; [apply sound_try, sound_send_or_resolve|]. intros [u|e]; [apply IH|by apply sound_ret].
Qed.

Lemma sound_pump d via : sound_op (pump d via).
Proof. unfold pump. apply sound_then; [apply sound_pump_reads|]. intros [reads r]. by apply sound_ret. Qed.

Lemma sound_pump_tun n : peers_ok (nd_peers n) -> sound (pump_tun n) table_ok.
Proof.
  intros Hn. unfold pump_tun. destruct (nd_tun n) as [d|]; [|by apply sound_ret].
  apply sound_then; [apply sound_asks|intros inbox]. apply sound_then; [apply sound_free; free_field|intros _].
  apply sound_then; [apply sound_asks_links|intros via]. apply sound_then; [destruct via; [apply sound_pump|by apply sound_ret]|].
  intros [d' [u|e]]; [|destruct (Error_is_link e); [|by apply sound_ret]]; destruct (flush d'); by apply sound_ret.
Qed.

Lemma sound_update_rates : sound_op links_update_rates.
Proof.
  intros w [Hr Hl]. split; [|done]. split; [exact Hr|]. cbn. unfold update_rates. destruct (match sampled_at _ with Some _ => _ | None => _ end); [|exact Hl].
  unfold links_bytes. cbn. apply Forall_fmap. exact Hl.
Qed.

(** Inputs of a turn whose streams carry bytes. *)
Definition turn_ok (i : turn_input) : Prop := Forall cmd_ok (ti_cmds i) /\ Forall dial_ok (ti_dials i) /\ net_ok (ti_net i).

Lemma sound_run_turn tick n i : turn_ok i -> room (length (ti_cmds i)) n ->
  sound (run_turn tick n i) (fun nd => peers_ok (nd_peers nd.1)).
Proof.
  intros (Hc & Hd & Hnet) Hn. unfold run_turn.
  eapply sound_bind; [by apply (sound_drain_cmds 0)|]. intros n1 Hn1. eapply sound_bind; [by apply (sound_drain_dials 0)|]. intros n2 Hn2.
  apply sound_then; [apply sound_get|intros w]. set (l := note_liveness _ _ _).
  apply sound_then; [apply sound_update_rates|intros _]. apply sound_then; [apply sound_now|intros now].
  assert (peers_ok (start_due l now).1) as Hp.
  { destruct Hn2 as [[Hi Hz] Hb]. pose proof (note_shrinks (w_links w) (fun i => clock_at (w_ticks w + i)) 0 (lk_entries (nd_peers n2))) as Hs.
    destruct (start_due_inv l now) as [Hi' Hz']; [by apply note_liveness_inv|exact Hz| |].
    - unfold l. cbn [note_liveness lk_entries lk_next_token]. lia.
    - split; [exact Hi'|]. unfold l in *. cbn [note_liveness lk_next_token] in *. lia. }
  destruct (start_due l now) as [peers dials]. cbn [fst] in Hp.
  apply sound_then; [by apply sound_serve_links|]. intros [served outbox].
  set (n3 := set_outbox_n outbox (set_peers_n peers n2)).
  assert (sound (n4 ← settle_remote n3; n5 ← pump_tun n4; mret (n5, dials)) (fun nd => peers_ok (nd_peers nd.1))) as Hend.
  { eapply sound_bind; [by apply sound_settle_remote|]. intros n4 Hn4. eapply sound_bind; [by apply sound_pump_tun|]. intros n5 Hn5. by apply sound_ret. }
  destruct served as [b|e]; [exact Hend|]. destruct (Error_is_link e); [exact Hend|apply sound_throw].
Qed.
End node_sound.

(** ** Runs *)

Section runs.
Context `{!Hex} `{!Ed25519} `{!NaclBox} `{!Env}.

(** The states of a node after its turns, from an empty one; a turn leaves room
    in the 64-bit counter of dials. *)
Inductive node_run (key : bytes) (clock : StdClock) (tick : Z) : NodeState -> World -> Prop :=
  | node_start tun ticks :
      node_run key clock tick (set_tun_n tun Node_new) (mkWorld (with_clock key clock) LinkSet_new ticks)
  | node_turn n w i n' dials w' : node_run key clock tick n w -> turn_ok i ->
      lk_next_token (nd_peers n) + Z.of_nat (length (lk_entries (nd_peers n)) + length (ti_cmds i)) < 2 ^ 64 ->
      run_turn tick n i w = Done w' (Ok (n', dials)) -> node_run key clock tick n' w'.
End runs.

Section run_sound.
Context `{!Hex} `{!Ed25519} `{!Ed25519Laws} `{!NaclBox} `{!NaclBoxLaws} `{!Env}.

(** C2: the whole node stays sound. After any number of turns, with any
    commands, dial results and bytes from the network, the router holds only
    what its peers signed and sessions that are coherent, and the link table has
    at most one row per peering and per dial in flight. *)
Theorem node_run_sound (key : bytes) (clock : StdClock) (tick : Z) (n : NodeState) (w : World) :
  node_run key clock tick n w ->
  router_inv (w_router w) /\ links_bytes (w_links w) /\ links_inv (nd_peers n).
Proof.
  intros Hr. cut (world_ok w /\ peers_ok (nd_peers n)); [by intros [[? ?] [? _]]|].
  induction Hr as [tun ticks|n w i n' dials w' Hr [Hw Hp] Hi Hb E].
  - split; [split; [apply initial_inv|constructor]|]. split; [|done].
    split; [apply NoDup_nil_2|]. split; [apply NoDup_nil_2|constructor].
  - assert (room (length (ti_cmds i)) n) as Hroom by (by split).
    pose proof (sound_run_turn tick n i Hi Hroom w Hw) as Hs. unfold wp in Hs. rewrite E in Hs. destruct Hs as [Hw' Hq].
    split; [exact Hw'|]. exact (Hq _ eq_refl).
Qed.
End run_sound.

(** ** Every turn ends *)

Section node_total.
Context `{!Hex} `{!Ed25519} `{!NaclBox} `{!Env}.

Lemma total_proto_send d p : total (proto_send d p).
Proof. apply total_session_send. Qed.

Lemma total_links_add c : total (links_add c).
Proof. done. Qed.

Lemma total_get_world : total get_world.
Proof. done. Qed.

Lemma total_links_update_rates : total links_update_rates.
Proof. done. Qed.

#[local] Hint Resolve total_proto_send total_links_add total_get_world total_links_update_rates total_register
  total_links_remove total_serve_links total_pump_reads : total.

Lemma total_dial_failed n t e : total (dial_failed n t e).
Proof. unfold dial_failed. total_tac. Qed.
#[local] Hint Resolve total_dial_failed : total.

Lemma total_on_dial n t o : total (on_dial n t o).
Proof. unfold on_dial. total_tac. Qed.

Lemma total_on_cmd n c : total (on_cmd n c).
Proof. unfold on_cmd, request_nodeinfo, request_debug. total_tac. Qed.

Lemma total_settle_remote n : total (settle_remote n).
Proof. unfold settle_remote. total_tac. Qed.

Lemma total_pump_tun n : total (pump_tun n).
Proof. unfold pump_tun, pump. total_tac. Qed.

Lemma total_drain {A} (f : NodeState -> A -> M NodeState) n l : (forall n x, total (f n x)) -> total (drain f n l).
Proof. intros Hf. revert n. induction l as [|x l IH]; intros n; cbn [drain]; [total_tac|]. by apply total_bind. Qed.
#[local] Hint Resolve total_on_dial total_on_cmd total_settle_remote total_pump_tun : total.

Lemma total_run_turn tick n i : total (run_turn tick n i).
Proof.
  unfold run_turn. apply total_bind; [apply total_drain, total_on_cmd|intros n1].
  apply total_bind; [apply total_drain; intros; apply total_on_dial|intros n2]. total_tac.
Qed.

(** The node's loop never hangs in the router: from any state, with any
    commands, dial results and bytes, every turn comes back, with a new state,
    an error or a panic, and within the two nested sends the model allows. *)
Theorem node_turns_end (tick : Z) (n : NodeState) (inputs : list turn_input) (w : World) :
  run tick n inputs w <> OutOfFuel.
Proof.
  revert w. change (total (run tick n inputs)). revert n. induction inputs as [|i inputs IH]; intros n; cbn [run]; [total_tac|].
  case_match; [total_tac|]. apply total_bind; [apply total_run_turn|]. intros [n' ds]. apply IH.
Qed.
End node_total.

(** ** Remote questions *)

Definition answered (r : Chan * Reply) : bool := match r.2 with ReplyRemote (inl _) => true | _ => false end.

Lemma vec_remove_perm {A} (l : list A) i x : l !! i = Some x -> l ≡ₚ x :: vec_remove l i.
Proof.
  revert i. induction l as [|y l IH]; intros [|i] Hi; cbn in *; [done..|by injection Hi as ->|].
  rewrite (IH i Hi) at 1. change (vec_remove (y :: l) (S i)) with (y :: vec_remove l i). apply Permutation_swap.
Qed.

Lemma settle_keeps_out now inbox qs m : let '(inbox', _, _) := settle now inbox qs in m ∈ inbox' -> m ∈ inbox.
Proof.
  revert inbox. induction qs as [|q qs IH]; intros inbox; cbn [settle]; [done|]. destruct (_ <=? _).
  { specialize (IH inbox). by destruct (settle now inbox qs) as [[? ?] ?]. }
  destruct (position (answers q) inbox) as [i|] eqn:Ep.
  - specialize (IH (vec_remove inbox i)). destruct (settle now (vec_remove inbox i) qs) as [[inbox' ?] ?]. intros Hm.
    destruct (position_lookup _ _ _ Ep) as (x & Hx & _). rewrite (vec_remove_perm _ _ _ Hx). right. by apply IH.
  - specialize (IH inbox). by destruct (settle now inbox qs) as [[? ?] ?].
Qed.

(** C24: every remote question gets one outcome. When the questions are settled
    each of them is answered exactly once or waits on; one that waits is younger
    than six seconds and no message in the inbox answers it; an answer is a
    message that the very node asked sent for that question, and the messages
    that answered are the ones that left the inbox. *)
Theorem remote_settled (now : Z) (inbox : list (bytes * bytes)) (qs : list PendingRemote) :
  let '(inbox', still, out) := settle now inbox qs in
  pq_respond <$> qs ≡ₚ out.*1 ++ (pq_respond <$> still) /\
  Forall (fun q => q ∈ qs /\ std_duration_since now (pq_asked_at q) < REMOTE_TIMEOUT /\ Forall (fun m => answers q m = false) inbox') still /\
  Forall (fun cr => exists q, q ∈ qs /\ pq_respond q = cr.1 /\
    ((REMOTE_TIMEOUT <= std_duration_since now (pq_asked_at q) /\ cr.2 = ReplyRemote (inr (RemoteTimedOut (pq_what q)))) \/
     (exists m, m ∈ inbox /\ m.1 = pq_key q /\ answers q m = true /\
        cr.2 = ReplyRemote (inl (answer_body m.2 (answer_tag (pq_what q)).2))))) out /\
  exists used, inbox ≡ₚ used ++ inbox' /\ length used = length (filter (fun cr => answered cr = true) out).
Proof.
  revert inbox. induction qs as [|q qs IH]; intros inbox; cbn [settle].
  { split; [done|]. split; [constructor|]. split; [constructor|]. by exists []. }
  assert (forall inbox' (still : list PendingRemote),
    Forall (fun q0 => q0 ∈ qs /\ std_duration_since now (pq_asked_at q0) < REMOTE_TIMEOUT /\ Forall (fun m => answers q0 m = false) inbox') still ->
    Forall (fun q0 => q0 ∈ q :: qs /\ std_duration_since now (pq_asked_at q0) < REMOTE_TIMEOUT /\ Forall (fun m => answers q0 m = false) inbox') still)
    as Hmore by (intros inbox' still Hs; apply (Forall_impl _ _ _ Hs); intros q0 (? & ?); split; [by right|done]).
  destruct (Z.leb_spec REMOTE_TIMEOUT (std_duration_since now (pq_asked_at q))) as [Ht|Ht].
  - specialize (IH inbox). destruct (settle now inbox qs) as [[inbox' still] out]. destruct IH as (I1 & I2 & I3 & used & I4 & I5).
    split; [cbn; by rewrite I1|]. split; [by apply Hmore|]. split; [|by exists used].
    constructor; [exists q; split; [by left|]; split; [done|by left]|].
    apply (Forall_impl _ _ _ I3). intros cr (q0 & ? & ?). exists q0. split; [by right|done].
  - destruct (position (answers q) inbox) as [i|] eqn:Ep.
    + destruct (position_lookup _ _ _ Ep) as ([from payload] & Hm & Ha). pose proof (vec_remove_perm inbox i _ Hm) as Hperm.
      rewrite Hm. cbn [fmap option_fmap option_map unwrap_or snd].
      specialize (IH (vec_remove inbox i)). destruct (settle now (vec_remove inbox i) qs) as [[inbox' still] out].
      destruct IH as (I1 & I2 & I3 & used & I4 & I5). split; [cbn; by rewrite I1|]. split; [by apply Hmore|]. split.
      * constructor.
        -- exists q. split; [by left|]. split; [done|]. right. exists (from, payload). split; [by eapply list_elem_of_lookup_2|].
           split; [|done]. unfold answers in Ha. destruct (answer_tag (pq_what q)). apply andb_true_iff in Ha as [Ha _].
           by apply bool_decide_eq_true in Ha.
        -- apply (Forall_impl _ _ _ I3). intros cr (q0 & Hq & Hc & Ho). exists q0. split; [by right|]. split; [done|].
           destruct Ho as [Ho|(m & Hin & ?)]; [by left|]. right. exists m. split; [|done]. rewrite Hperm. by right.
      * exists ((from, payload) :: used). split; [rewrite Hperm, I4; done|]. rewrite filter_cons_True by done. cbn. by rewrite I5.
    + pose proof (settle_keeps_out now inbox qs) as Hout.
      specialize (IH inbox). destruct (settle now inbox qs) as [[inbox' still] out]. destruct IH as (I1 & I2 & I3 & used & I4 & I5).
      split; [cbn; rewrite I1; apply Permutation_middle|]. split.
      * constructor; [|by apply Hmore]. split; [by left|]. split; [done|]. apply Forall_forall. intros m Hin.
        apply position_None in Ep. rewrite Forall_forall in Ep. by apply Ep, Hout.
      * split; [|by exists used]. apply (Forall_impl _ _ _ I3). intros cr (q0 & ? & ?). exists q0. split; [by right|done].
Qed.

(** ** Witnesses *)

Definition demo_turn : turn_input :=
  mkTurn [CmdDial demo_peer_uri [] true (Some 1%nat); CmdAccept (demo_conn (demo_key 1) 7) (Some [116; 99; 112; 58; 47; 47; 104]);
          CmdSend (demo_key 5) [1; 2; 3]] [] [(fun ls => ls); (fun ls => ls); (fun ls => ls)].

Lemma demo_turn_ok : turn_ok demo_turn.
Proof.
  split; [|split].
  - repeat constructor.
  - constructor.
  - repeat constructor; intros ls Hl; exact Hl.
Qed.

Lemma demo_node_turns : match @run_turn std_hex toy_ed25519 toy_box demo_env (from_secs 5) Node_new demo_turn
    (mkWorld (@with_clock toy_ed25519 (demo_key 2) (mkStdClock 0)) LinkSet_new 0) with
  | Done w' (Ok (n', dials)) => bool_decide (length (lk_entries (nd_peers n')) = 2%nat /\ dials.*1 = [0] /\ link_ids (w_links w') = [7])
  | _ => false
  end = true.
Proof. vm_compute. reflexivity. Qed.

Lemma demo_room : lk_next_token (nd_peers Node_new) +
  Z.of_nat (length (lk_entries (nd_peers Node_new)) + length (ti_cmds demo_turn)) < 2 ^ 64.
Proof. vm_compute. reflexivity. Qed.

(** The three commands of [demo_turn] served by a fresh node leave two rows in
    its link table, one link in its router's set, and a sound state. *)
Lemma node_run_sound_witness : exists n w,
  @node_run std_hex toy_ed25519 toy_box demo_env (demo_key 2) (mkStdClock 0) (from_secs 5) n w /\
  length (lk_entries (nd_peers n)) = 2%nat /\ link_ids (w_links w) = [7] /\
  @router_inv toy_ed25519 toy_box (w_router w) /\ links_bytes (w_links w) /\ @links_inv std_hex (nd_peers n).
Proof.
  pose proof demo_node_turns as Ht. revert Ht.
  destruct (@run_turn std_hex toy_ed25519 toy_box demo_env (from_secs 5) Node_new demo_turn
    (mkWorld (@with_clock toy_ed25519 (demo_key 2) (mkStdClock 0)) LinkSet_new 0)) as [w' [[n' dials]|e]| |] eqn:E; intros Ht; [|discriminate..].
  apply bool_decide_eq_true in Ht as (Hn & _ & Hl).
  assert (@node_run std_hex toy_ed25519 toy_box demo_env (demo_key 2) (mkStdClock 0) (from_secs 5) n' w') as Hr.
  { exact (@node_turn std_hex toy_ed25519 toy_box demo_env _ _ _ _ _ demo_turn n' dials w'
      (@node_start std_hex toy_ed25519 toy_box demo_env _ _ _ None 0) demo_turn_ok demo_room E). }
  exists n', w'. split; [exact Hr|]. split; [exact Hn|]. split; [exact Hl|].
  exact (@node_run_sound std_hex toy_ed25519 toy_ed25519_laws toy_box toy_box_laws demo_env _ _ _ _ _ Hr).
Defined.

(** A dial that comes back after its row is gone is registered with the router
    before the link table turns it away, so the router keeps a link that no
    socket carries. *)
Example stale_dial_leaks :
  match @on_dial demo_env Node_new 0 (inl (demo_conn (demo_key 1) 7))
    (mkWorld (@with_clock toy_ed25519 (demo_key 2) (mkStdClock 0)) LinkSet_new 0) with
  | Done w (Ok n) => bool_decide (is_Some (t_links (r_tree (w_router w)) !! 7) /\ link_ids (w_links w) = [] /\ lk_entries (nd_peers n) = [])
  | _ => false
  end = true.
Proof. vm_compute. reflexivity. Qed.
