(* ===== verification/AdminRun.v ===== *)
(** * AdminRun: conversations on the admin socket.

    Arguments are checked before a command runs; every listed command is
    answered; a connection is answered one for one, whatever pieces its bytes
    come in, and ends; and what a request asks of the node is answered by it. *)
From Stdlib Require Import Strings.String.
From stdpp Require Import base tactics list numbers gmap sorting.
From S2P Require Import Prelude Errors Clock Frame Address Table Bloom Wire Handshake LinkSet Router Hoare Session Protocol Text Words Uri Peers Tun Views Node Discover Config PeerList Admin Demo Delivery NodeRun.

Local Open Scope Z_scope.

(** ** Commands and arguments *)

(** Case analysis on the commands. *)
Ltac each_command H :=
  repeat (apply elem_of_cons in H as [H|H]; [injection H as -> -> ->|]); [..|by apply not_elem_of_nil in H].

Lemma known_elem name : known name = true <-> exists c, c ∈ COMMANDS /\ c.1.1 = name.
Proof.
  unfold known. rewrite existsb_exists. setoid_rewrite bool_decide_eq_true. by setoid_rewrite list_elem_of_In.
Qed.

(** An argument a command may be given for one of its fields. *)
Definition arg_ok (m : option Value) : Prop := match m with None | Some VNull | Some (VString _) => True | _ => False end.

Lemma bad_field_exact struct_name ms fields : bad_field struct_name ms fields = None <-> forall f, f ∈ fields -> arg_ok (member ms f).
Proof.
  induction fields as [|f fields IH]; cbn [bad_field].
  { split; [intros _ f Hin; by apply not_elem_of_nil in Hin|done]. }
  transitivity (arg_ok (member ms f) /\ bad_field struct_name ms fields = None).
  - destruct (member ms f) as [v|]; [|by cbn; intuition]. destruct v; cbn; intuition done.
  - rewrite IH. split; [intros [H1 H2] g [->|Hg]%elem_of_cons; auto|]. intros H. split; [apply H; by left|]. intros g Hg. apply H. by right.
Qed.

(** A command runs only on arguments of its own shape. For every command of
    the list but [list] itself, the arguments are accepted exactly when they are
    [null], or an object in which each argument the list names for the command
    is a string, [null] or absent. *)
Theorem decode_args_exact (name description : bytes) (fields : list bytes) (args : Value) :
  (name, description, fields) ∈ COMMANDS -> name <> str "list" ->
  (decode_args name args = None <->
   args = VNull \/ exists ms, args = VObject ms /\ forall f, f ∈ fields -> arg_ok (member ms f)).
Proof.
  intros Hin Hl. assert (exists s, request_struct name = Some (s, fields)) as [s E].
  { unfold COMMANDS in Hin. each_command Hin; try done; eexists; reflexivity. }
  unfold decode_args. rewrite E. destruct args as [| | | | |ms]; try (split; [done|]; by intros [?|(? & ? & _)]).
  - split; [by left|done].
  - rewrite bad_field_exact. split; [intros H; right; by exists ms|]. by intros [?|(ms' & [= <-] & H)].
Qed.

(** No listed command is unreachable, whatever the node answers. *)
Lemma dispatch_total `{!Hex} `{!HexReport} `{!Unicode} `{!Json} now name args ifaces a :
  known name = true -> is_Some (conclude (dispatch now name args ifaces) a).
Proof.
  intros (c & Hin & <-)%known_elem. assert (forall what args, is_Some (conclude (remote_query what args) a)) as Hr.
  { intros what args'. unfold remote_query. destruct (_ && _); [by eexists|]. by destruct (decode_remote_key _); eexists. }
  unfold COMMANDS in Hin. destruct c as [[n d] f]. each_command Hin; try (by eexists); try apply Hr;
    (destruct a as [| |r]; [by eexists..|]); destruct r; by eexists.
Qed.

(** ** A connection ends *)

(** What the stream deserializer promises: a value takes bytes of the slice; and
    objects delimit themselves, so that what follows an opening brace is an
    object, an error or cut short, and bytes after an object or after an error
    change neither. *)
Class JsonLaws `{!Json} : Prop := {
  json_used b v n : json_next b = JValue v n -> (0 < n <= length b)%nat;
  json_brace b : match json_next (123 :: b) with JValue v _ => exists ms, v = VObject ms | JEof | JError => True | JEnd => False end;
  json_value_stable b x v n : json_next (123 :: b) = JValue v n -> json_next (123 :: b ++ x) = JValue v n;
  json_error_stable b x : json_next (123 :: b) = JError -> json_next (123 :: b ++ x) = JError }.

Definition event_bytes (e : read_event) : bytes := match e with Data b => b | ReadError => [] end.
Definition read_bytes (reads : list read_event) : bytes := concat (event_bytes <$> reads).

Section conn.
Context `{!Hex} `{!HexReport} `{!Unicode} `{!Json} `{!JsonLaws}.

Lemma skip_spaces_suffix b : exists sp, b = sp ++ skip_spaces b /\ forallb is_json_space sp = true.
Proof.
  induction b as [|x b (sp & E & Hs)]; [by exists []|]. cbn [skip_spaces]. destruct (is_json_space x) eqn:Ex.
  - exists (x :: sp). cbn. by rewrite Ex, Hs, <-E.
  - by exists [].
Qed.

Lemma skip_spaces_length b : (length (skip_spaces b) <= length b)%nat.
Proof. destruct (skip_spaces_suffix b) as (sp & E & _). apply (f_equal length) in E. rewrite length_app in E. lia. Qed.

Lemma skip_spaces_app b x : skip_spaces b <> [] -> skip_spaces (b ++ x) = skip_spaces b ++ x.
Proof. induction b as [|y b IH]; [done|]. cbn [skip_spaces app]. destruct (is_json_space y); [exact IH|done]. Qed.

Lemma skip_spaces_blank b x : skip_spaces b = [] -> skip_spaces (b ++ x) = skip_spaces x.
Proof. induction b as [|y b IH]; [done|]. cbn [skip_spaces app]. destruct (is_json_space y); [exact IH|done]. Qed.

Lemma take_value_shorter b v rest : take_value b = TakenValue v rest -> (length rest < length b)%nat.
Proof.
  unfold take_value. pose proof (skip_spaces_length b). destruct (skip_spaces b) as [|x r]; [done|].
  destruct (json_next (x :: r)) as [v' n| | |] eqn:E; try done. intros [= <- <-]. apply json_used in E. rewrite length_drop. cbn [length] in *. lia.
Qed.

(** A value that is got uses up bytes. *)
Lemma next_value_shorter reads buf at_eof v reads' buf' at_eof' :
  next_value reads buf at_eof = (Some v, reads', buf', at_eof') ->
  (length buf' + length (read_bytes reads') < length buf + length (read_bytes reads))%nat.
Proof.
  revert buf at_eof. induction reads as [|e reads IH]; intros buf at_eof; cbn [next_value].
  - destruct (take_value buf) as [v0 rest| |] eqn:E; [|by destruct at_eof|done]. intros [= <- <- <- <-]. apply take_value_shorter in E. lia.
  - destruct (take_value buf) as [v0 rest| |] eqn:E; [| |done].
    + intros [= <- <- <- <-]. apply take_value_shorter in E. lia.
    + destruct at_eof; [done|]. destruct e as [[|y b]|]; [done| |done]. intros Hn. apply IH in Hn.
      unfold read_bytes in *. rewrite fmap_cons, concat_cons. cbn [event_bytes]. rewrite length_app in *. lia.
Qed.

Lemma conclude_handled now ifaces v a i echo keepalive :
  handle_value now ifaces v = (i, echo, keepalive) -> is_Some (conclude i a) /\ (keepalive = true -> is_Some v).
Proof.
  unfold handle_value. destruct v as [v|]; [|by intros [= <- <- <-]; split; [eexists|]].
  destruct (parse_request v) as [rq|]; [|by intros [= <- <- <-]; split; [eexists|]].
  intros E. split; [|by eexists]. revert E. case_bool_decide; [by intros [= <- <- <-]; eexists|].
  destruct (known _) eqn:Ek; cbn [negb]; [|by intros [= <- <- <-]; eexists].
  destruct (decode_args _ _); intros [= <- <- <-]; [by eexists|by apply dispatch_total].
Qed.

(** Every connection is served to its end. Whatever bytes and errors are
    read, whatever the node answers and whether or not writes succeed, the loop
    answers at least once and closes the connection, within as many turns as
    there are bytes and one more; no turn meets a command without a handler; and
    every response but the last is to a request that asked to be kept alive. *)
Theorem admin_conn_ends (env : Around) (n : nat) (reads : list read_event) (buf : bytes) (at_eof : bool) (fuel : nat) :
  (length buf + length (read_bytes reads) < fuel)%nat ->
  exists exchanges last, admin_conn fuel env n reads buf at_eof = (exchanges ++ [last], Closed) /\
    Forall (fun x => rq_keepalive (rs_request x.2) = true) exchanges /\ (length exchanges <= length buf + length (read_bytes reads))%nat.
Proof.
  revert n reads buf at_eof. induction fuel as [|fuel IH]; intros n reads buf at_eof Hf; [lia|].
  cbn [admin_conn]. unfold handle_one. destruct (next_value reads buf at_eof) as [[[v reads'] buf'] at_eof'] eqn:En.
  destruct (handle_value (ar_now env n) (ar_ifaces env n) v) as [[i echo] keepalive] eqn:Eh.
  destruct (conclude_handled _ _ _ (ar_answer env n) _ _ _ Eh) as [[r Er] Hv]. rewrite Er.
  destruct (negb (ar_write env n) || negb keepalive) eqn:Ego; [exists [], (command_sent i n (ar_answer env n), response_of echo r); split; [done|split; [constructor|cbn; lia]]|].
  apply orb_false_iff in Ego as [_ Ekeep]. apply negb_false_iff in Ekeep. destruct (Hv Ekeep) as [v' ->].
  apply next_value_shorter in En. destruct (IH (S n) reads' buf' at_eof') as (xs & last & E & Hxs & Hl); [lia|]. rewrite E.
  exists ((command_sent i n (ar_answer env n), response_of echo r) :: xs), last. split; [done|]. split; [|cbn [length]; lia]. constructor; [|done]. cbn [snd].
  assert (rq_keepalive echo = keepalive) as Hk.
  { revert Eh. unfold handle_value. destruct (parse_request v'); [|intros [= <- <- <-]; done]. repeat case_match; by intros [= <- <- <-]. }
  destruct r; cbn; congruence.
Qed.
(** ** Pieces *)

(** A stream of objects with space between them, up to its end or an error. *)
Inductive object_stream : bytes -> Prop :=
  | stream_end d : skip_spaces d = [] -> object_stream d
  | stream_object d rest : skip_spaces d = 123 :: rest ->
      (forall v n, json_next (123 :: rest) = JValue v n -> object_stream (drop n (123 :: rest))) -> object_stream d.

(** More bytes change neither a value that was taken nor an error. *)
Lemma take_value_app b x : object_stream (b ++ x) ->
  match take_value b with
  | TakenValue v rest => take_value (b ++ x) = TakenValue v (rest ++ x)
  | TakenError => take_value (b ++ x) = TakenError
  | TakenNone => True
  end.
Proof.
  intros Hs. unfold take_value. destruct (skip_spaces b) as [|c r] eqn:Eb; [done|]. rewrite (skip_spaces_app b x) by (by rewrite Eb).
  rewrite Eb. cbn [app]. assert (c = 123) as ->.
  { inversion Hs as [d Hd|d rest Hd _]; subst; rewrite (skip_spaces_app b x) in Hd by (by rewrite Eb); rewrite Eb in Hd; [done|]. by injection Hd. }
  destruct (json_next (123 :: r)) as [v n| | |] eqn:E; [|done| |done].
  - rewrite (json_value_stable _ x _ _ E). apply json_used in E. change (123 :: r ++ x) with ((123 :: r) ++ x). by rewrite drop_app_le by lia.
  - by rewrite (json_error_stable _ x E).
Qed.

Lemma object_stream_rest d v rest : object_stream d -> take_value d = TakenValue v rest -> object_stream rest.
Proof.
  unfold take_value. intros Hs. inversion Hs as [d' Hd|d' r Hd Hn]; subst; rewrite Hd; [done|].
  destruct (json_next (123 :: r)) as [v' n| | |] eqn:E; try done. intros [= <- <-]. by eapply Hn.
Qed.

(** The next value of a stream that comes in pieces is the first of the whole. *)
Lemma next_value_pieces pieces buf : Forall (fun b => b <> []) pieces -> object_stream (buf ++ concat pieces) ->
  match take_value (buf ++ concat pieces) with
  | TakenValue v rest => exists pieces' buf', next_value (Data <$> pieces) buf false = (Some v, Data <$> pieces', buf', false) /\
      Forall (fun b => b <> []) pieces' /\ buf' ++ concat pieces' = rest
  | _ => (next_value (Data <$> pieces) buf false).1.1.1 = None
  end.
Proof.
  intros Hne. revert buf. induction Hne as [|b pieces Hb Hne IH]; intros buf Hs.
  - cbn [concat] in *. rewrite app_nil_r in *. cbn. destruct (take_value buf) as [v rest| |]; [|done..].
    exists [], rest. cbn. by rewrite app_nil_r.
  - rewrite fmap_cons. cbn [next_value]. pose proof (take_value_app buf (concat (b :: pieces)) Hs) as Ht.
    destruct (take_value buf) as [v rest| |].
    + rewrite Ht. exists (b :: pieces), rest. rewrite fmap_cons. split; [done|]. split; [by constructor|done].
    + destruct b as [|x b]; [done|]. cbn [concat] in *. rewrite app_assoc in *. by apply IH.
    + by rewrite Ht.
Qed.

(** Without a value there is one answer, and the connection is closed. *)
Lemma no_value_closes fuel env n reads buf at_eof : (next_value reads buf at_eof).1.1.1 = None ->
  admin_conn (S fuel) env n reads buf at_eof = ([(None, response_of zero_request (inr FAILED_TO_FIND))], Closed).
Proof.
  intros E. cbn [admin_conn]. unfold handle_one. destruct (next_value reads buf at_eof) as [[[v ?] ?] ?]. cbn [fst] in E. subst v.
  cbn [handle_value conclude negb]. rewrite orb_true_r. by destruct (ar_answer env n).
Qed.

(** C28: it does not matter in what pieces requests arrive. For a stream of JSON
    objects with space between them, however a value is split across reads and
    however many share one, the commands sent to the node, the responses and
    the end of the connection are those of the same bytes read at once. *)
Theorem admin_conn_pieces (fuel : nat) (env : Around) (pieces : list bytes) :
  Forall (fun b => b <> []) pieces -> object_stream (concat pieces) ->
  admin_conn fuel env 0 (Data <$> pieces) [] false = admin_conn fuel env 0 [Data (concat pieces)] [] false.
Proof.
  assert (forall fuel n pieces pieces' buf buf', Forall (fun b => b <> []) pieces -> Forall (fun b => b <> []) pieces' ->
    buf ++ concat pieces = buf' ++ concat pieces' -> object_stream (buf ++ concat pieces) ->
    admin_conn fuel env n (Data <$> pieces) buf false = admin_conn fuel env n (Data <$> pieces') buf' false) as Hg.
  { clear fuel pieces. induction fuel as [|fuel IH]; intros n p p' buf buf' Hp Hp' E Hs; [done|].
    pose proof (next_value_pieces p buf Hp Hs) as Hn1. rewrite E in Hs. pose proof (next_value_pieces p' buf' Hp' Hs) as Hn2. rewrite E in Hn1.
    destruct (take_value (buf' ++ concat p')) as [v rest| |] eqn:Et.
    - cbn [admin_conn]. unfold handle_one. destruct Hn1 as (q & b & -> & Hq & Eq), Hn2 as (q' & b' & -> & Hq' & Eq').
      destruct (handle_value _ _ (Some v)) as [[i echo] keepalive]. destruct (conclude i _); [|done].
      destruct (_ || _); [done|]. rewrite (IH (S n) q q' b b'); [done|done|done|congruence|]. rewrite Eq. by eapply object_stream_rest.
    - by rewrite !no_value_closes.
    - by rewrite !no_value_closes. }
  intros Hp Hs. destruct (concat pieces) as [|x d] eqn:Ec.
  - destruct pieces as [|b pieces]; [|apply Forall_cons in Hp as [Hb _]; by destruct b]. destruct fuel; [done|]. reflexivity.
  - change [Data (x :: d)] with (Data <$> [x :: d]). apply Hg; [done|by repeat constructor|by rewrite Ec; cbn; rewrite app_nil_r|by rewrite Ec].
Qed.
End conn.

(** ** What the node answers *)

(** A reply of the type the question waits for. *)
Definition expects (i : Interaction) (r : Reply) : bool :=
  match i, r with
  | AskReport _, ReplyReport _ | AskPeer _ _, ReplyPeer _ | AskRemote _ _ _, ReplyRemote _ | AskTun _, ReplyTun _ => true
  | _, _ => false
  end.

Section node.
Context `{!Hex} `{!HexReport} `{!Unicode} `{!Json} `{!Ed25519} `{!NaclBox} `{!Env}.

(** The commands handlers send: every one carries the channel it waits on. *)
Lemma dispatch_asks now name args ifaces :
  match dispatch now name args ifaces with
  | AskPeer cmd _ => exists uri sintf, (cmd = fun chan => CmdDial uri sintf true (Some chan)) \/ (cmd = fun chan => CmdDrop uri sintf (Some chan))
  | _ => True
  end.
Proof.
  unfold dispatch. case_bool_decide; [done|]. destruct (_ || _).
  - unfold change_peer. case_bool_decide; do 2 eexists; [by left|by right].
  - destruct (for_command name) as [what|].
    + unfold remote_query. destruct (_ && _); [done|]. by destruct (decode_remote_key _).
    + by repeat case_bool_decide.
Qed.

Lemma on_add_done n uri sintf (persistent : bool) respond w :
  let r := Links_add (nd_peers n) uri sintf (if persistent then Persistent else Ephemeral) (clock_at (w_ticks w)) in
  exists w', on_cmd n (CmdDial uri sintf persistent respond) w = Done w' (Ok (reply_to respond (ReplyPeer r.2) (set_peers_n r.1 n))) /\
    w_router w' = w_router w /\ w_links w' = w_links w.
Proof.
  unfold on_cmd. unfold mbind at 1, M_bind at 1, instant_now, tick. cbn zeta. destruct (Links_add _ _ _ _ _) as [peers outcome].
  eexists. split; [reflexivity|done].
Qed.

Lemma on_drop_done n uri sintf respond w : exists w' peers, on_cmd n (CmdDrop uri sintf respond) w =
  Done w' (Ok (reply_to respond (ReplyPeer (Links_remove (nd_peers n) uri sintf).2) (set_peers_n peers n))) /\
  peers = (Links_remove (nd_peers n) uri sintf).1.
Proof.
  unfold on_cmd. destruct (Links_remove (nd_peers n) uri sintf) as [peers [u|e]]; cbn [fst snd].
  - destruct (live_id (nd_peers n) uri sintf); do 2 eexists; split; reflexivity.
  - do 2 eexists; split; reflexivity.
Qed.

(** C25: a question to the node gets its answer. Whatever command a request
    makes the socket send, handling it in the node either appends exactly one
    reply, on the channel the request waits on and of the type it waits for, or
    files a remote question with that channel and answers nothing yet; the
    handling fails in no other way than a panic, and only a remote question can
    panic. *)
Theorem admin_answered (now : Z) (name : bytes) (args : Value) (ifaces : option (list MulticastInterfaceState)) (c : nat) (cmd : Cmd)
    (n : NodeState) (w : World) :
  command_of (dispatch now name args ifaces) c = Some cmd ->
  match on_cmd n cmd w with
  | Done _ (Ok n') =>
    (exists r, nd_replies n' = nd_replies n ++ [(c, r)] /\ nd_pending n' = nd_pending n /\ expects (dispatch now name args ifaces) r = true) \/
    (exists key what asked_at, cmd = CmdRemote key what c /\ nd_replies n' = nd_replies n /\
       nd_pending n' = nd_pending n ++ [mkPending key what asked_at c])
  | Panic => exists key what, cmd = CmdRemote key what c
  | _ => False
  end.
Proof.
  pose proof (dispatch_asks now name args ifaces) as Hd. pose proof (total_on_cmd n cmd w) as Ht.
  destruct (dispatch now name args ifaces) as [r|k|cmd' k|key what k|k]; cbn [command_of]; intros [= <-].
  - cbn. left. by eexists.
  - destruct Hd as (uri & sintf & [->| ->]).
    + destruct (on_add_done n uri sintf true (Some c) w) as (w' & -> & _). left. by eexists.
    + destruct (on_drop_done n uri sintf (Some c) w) as (w' & peers & -> & _). left. by eexists.
  - unfold on_cmd, mbind, M_bind, attempt in *.
    set (m := match what with NodeInfo => _ | SelfInfo => _ | Peers => _ | Tree => _ end) in *.
    destruct (m w) as [w' [u|e]| |]; cbn; [right; by eexists _, _, _|left; by eexists|by eexists _, _|].
    by destruct Ht.
  - cbn. left. by eexists.
Qed.

(** ** From request to response *)

(** A request, the command it sends handled by the node, and the response; no
    response yet for a question that waits for a remote node. *)
Definition admin_request (now : Z) (ifaces : option (list MulticastInterfaceState)) (c : nat) (v : Value) (n : NodeState)
  : M (NodeState * option Response) :=
  let '(i, echo, _) := handle_value now ifaces (Some v) in
  match command_of i c with
  | None => mret (n, response_of echo <$> conclude i NoAnswer)
  | Some cmd =>
    n' ← on_cmd n cmd;
    mret (n', match drop (length (nd_replies n)) (nd_replies n') with
              | [(c', r)] => if bool_decide (c' = c) then response_of echo <$> conclude i (Got r) else None
              | _ => None
              end)
  end.

(** A request as [yggdrasilctl] sends it. *)
Definition ctl_request (request : bytes) (args : Value) : Value := VObject [(str "arguments", args); (str "request", VString request)].

Lemma ctl_request_handled now ifaces request args : request <> [] -> known (to_lowercase request) = true ->
  decode_args (to_lowercase request) args = None ->
  handle_value now ifaces (Some (ctl_request request args)) = (dispatch now (to_lowercase request) args ifaces, mkRequest request (Some args) false, false).
Proof.
  intros Hne Hk Hd. unfold handle_value. change (parse_request (ctl_request request args)) with (Some (mkRequest request (Some args) false)).
  cbn [rq_request rq_keepalive rq_arguments unwrap_or]. by rewrite bool_decide_eq_false_2, Hk, Hd.
Qed.

(** A request for a peer. *)
Definition peer_arguments (uri sintf : bytes) : Value := VObject [(str "interface", VString sintf); (str "uri", VString uri)].
Definition peer_request (request uri sintf : bytes) : Value := ctl_request request (peer_arguments uri sintf).

Lemma peer_request_handled now ifaces request name uri sintf :
  request <> [] -> to_lowercase request = name -> name = str "addpeer" \/ name = str "removepeer" ->
  handle_value now ifaces (Some (peer_request request uri sintf)) =
    (change_peer name (peer_arguments uri sintf), mkRequest request (Some (peer_arguments uri sintf)) false, false).
Proof.
  intros Hne Hl Hn. unfold peer_request. rewrite ctl_request_handled; rewrite ?Hl; by destruct Hn as [-> | ->].
Qed.

(** One peer command, from the request to the response. *)
Lemma peer_request_done now ifaces c request name uri sintf n w :
  request <> [] -> to_lowercase request = name -> name = str "addpeer" \/ name = str "removepeer" ->
  let add := Links_add (nd_peers n) uri sintf Persistent (clock_at (w_ticks w)) in
  let r := if bool_decide (name = str "addpeer") then add else Links_remove (nd_peers n) uri sintf in
  exists w' n', admin_request now ifaces c (peer_request request uri sintf) n w =
    Done w' (Ok (n', Some (response_of (mkRequest request (Some (peer_arguments uri sintf)) false)
      (match r.2 with inl _ => inl BodyEmpty | inr e => inr (LinkError_message e) end)))) /\ nd_peers n' = r.1.
Proof.
  intros Hne Hl Hn. cbn zeta. unfold admin_request. rewrite (peer_request_handled _ _ _ _ _ _ Hne Hl Hn). cbn [change_peer command_of].
  change (arg_str (peer_arguments uri sintf) (str "uri")) with (Some uri).
  change (arg_str (peer_arguments uri sintf) (str "interface")) with (Some sintf). cbn [unwrap_or].
  case_bool_decide as Ha.
  - destruct (on_add_done n uri sintf true (Some c) w) as (w' & E & _). change (if true then Persistent else Ephemeral) with Persistent in E.
    unfold mbind, M_bind. rewrite E. match type of E with _ = Done ?w1 (Ok ?n1) => exists w1, n1 end. split; [|done].
    cbn [reply_to reply nd_replies set_peers_n]. rewrite drop_app_length, bool_decide_eq_true_2 by done. by destruct (Links_add _ _ _ _ _).2.
  - destruct (on_drop_done n uri sintf (Some c) w) as (w' & peers & E & ->). unfold mbind, M_bind. rewrite E. match type of E with _ = Done ?w1 (Ok ?n1) => exists w1, n1 end. split; [|done].
    cbn [reply_to reply nd_replies set_peers_n]. rewrite drop_app_length, bool_decide_eq_true_2 by done. by destruct (Links_remove _ _ _).2.
Qed.

(** A table whose last row is the only one for a peering: it is the one found,
    and removing it leaves the rows before it. *)
Lemma find_last l uri sintf es e : Links_find (mkLinks es (lk_next_token l)) uri sintf = None -> lk_entries l = es ++ [e] ->
  entry_info e = LinkInfo_new uri sintf -> Links_find l uri sintf = Some (length es).
Proof.
  unfold Links_find. cbn [lk_entries]. intros Hn -> He. apply position_None in Hn. induction Hn as [|y es Hy Hn IH]; cbn [app position].
  - by rewrite bool_decide_eq_true_2.
  - by rewrite Hy, IH.
Qed.

Lemma remove_last {A} (es : list A) e : vec_remove (es ++ [e]) (length es) = es.
Proof. unfold vec_remove. rewrite take_app_length, drop_ge by (rewrite length_app; cbn; lia). apply app_nil_r. Qed.

(** C27: peers are added and removed through the socket as asked. A peer that is
    not in the table and whose URI parses is added with a persistent row, and
    the response is a success; asked again, the response says that it is
    configured already and no row is added or lost; asked to remove it, the
    response is a success and the rows are those of before; and asked once
    more, the response says that it is not configured and the rows stay. *)
Theorem admin_peer_roundtrip (now : Z) (ifaces : option (list MulticastInterfaceState)) (c : nat) (add remove uri sintf : bytes) (p : Scheme * PeerUri)
    (n : NodeState) (w : World) :
  to_lowercase add = str "addpeer" -> to_lowercase remove = str "removepeer" -> add <> [] -> remove <> [] ->
  parse_link_uri uri = Ok p -> Links_find (nd_peers n) uri sintf = None ->
  let added := mkRequest add (Some (peer_arguments uri sintf)) false in
  let removed := mkRequest remove (Some (peer_arguments uri sintf)) false in
  exists w1 n1 w2 n2 w3 n3 w4 n4 e,
    admin_request now ifaces c (peer_request add uri sintf) n w = Done w1 (Ok (n1, Some (response_of added (inl BodyEmpty)))) /\
    lk_entries (nd_peers n1) = lk_entries (nd_peers n) ++ [e] /\ row_shape e = idle_row uri sintf /\
    admin_request now ifaces c (peer_request add uri sintf) n1 w1 =
      Done w2 (Ok (n2, Some (response_of added (inr (Said (str "peer is already configured")))))) /\
    row_shapes n2 = row_shapes n1 /\
    admin_request now ifaces c (peer_request remove uri sintf) n2 w2 = Done w3 (Ok (n3, Some (response_of removed (inl BodyEmpty)))) /\
    lk_entries (nd_peers n3) = lk_entries (nd_peers n) /\
    admin_request now ifaces c (peer_request remove uri sintf) n3 w3 =
      Done w4 (Ok (n4, Some (response_of removed (inr (Said (str "peer is not configured")))))) /\
    lk_entries (nd_peers n4) = lk_entries (nd_peers n).
Proof.
  intros Hla Hlr Hna Hnr Hp Hf added removed.
  assert (forall n w, exists w' n', admin_request now ifaces c (peer_request add uri sintf) n w = Done w' (Ok (n', Some (response_of added
    (match (Links_add (nd_peers n) uri sintf Persistent (clock_at (w_ticks w))).2 with inl _ => inl BodyEmpty | inr e => inr (LinkError_message e) end)))) /\
    nd_peers n' = (Links_add (nd_peers n) uri sintf Persistent (clock_at (w_ticks w))).1) as Hadd
    by (intros n0 w0; exact (peer_request_done now ifaces c add (str "addpeer") uri sintf n0 w0 Hna Hla (or_introl eq_refl))).
  assert (forall n w, exists w' n', admin_request now ifaces c (peer_request remove uri sintf) n w = Done w' (Ok (n', Some (response_of removed
    (match (Links_remove (nd_peers n) uri sintf).2 with inl _ => inl BodyEmpty | inr e => inr (LinkError_message e) end)))) /\
    nd_peers n' = (Links_remove (nd_peers n) uri sintf).1) as Hrem
    by (intros n0 w0; exact (peer_request_done now ifaces c remove (str "removepeer") uri sintf n0 w0 Hnr Hlr (or_intror eq_refl))).
  destruct (Hadd n w) as (w1 & n1 & E1 & P1). unfold Links_add in E1, P1. rewrite Hp, Hf in E1, P1. cbn [fst snd] in E1, P1.
  set (e := new_entry uri sintf Persistent None (clock_at (w_ticks w))) in P1.
  assert (Links_find (nd_peers n1) uri sintf = Some (length (lk_entries (nd_peers n)))) as Hf1
    by (rewrite P1; by eapply (find_last (mkLinks _ _))).
  destruct (Hadd n1 w1) as (w2 & n2 & E2 & P2). unfold Links_add in E2, P2. rewrite Hp, Hf1 in E2, P2. cbn [fst snd] in E2, P2.
  assert (exists e2, lk_entries (nd_peers n2) = lk_entries (nd_peers n) ++ [e2] /\ row_shape e2 = row_shape e) as (e2 & L2 & S2).
  { rewrite P2, P1. cbn [update_entry lk_entries]. rewrite alter_app_r_alt, Nat.sub_diag by lia. cbn. by eexists. }
  assert (Links_find (nd_peers n2) uri sintf = Some (length (lk_entries (nd_peers n)))) as Hf2.
  { eapply find_last; [|exact L2|exact (f_equal (fun s => s.1.1.1) S2)]. exact Hf. }
  destruct (Hrem n2 w2) as (w3 & n3 & E3 & P3). unfold Links_remove in E3, P3. rewrite Hf2 in E3, P3. cbn [fst snd] in E3, P3.
  assert (lk_entries (nd_peers n3) = lk_entries (nd_peers n)) as L3 by (rewrite P3, L2; cbn [lk_entries]; apply remove_last).
  assert (Links_find (nd_peers n3) uri sintf = None) as Hf3 by (unfold Links_find in *; by rewrite L3).
  destruct (Hrem n3 w3) as (w4 & n4 & E4 & P4). unfold Links_remove in E4, P4. rewrite Hf3 in E4, P4. cbn [fst snd] in E4, P4.
  exists w1, n1, w2, n2, w3, n3, w4, n4, e. split; [exact E1|]. split; [by rewrite P1|]. split; [done|]. split; [exact E2|]. split.
  { unfold row_shapes. rewrite L2, P1. cbn [lk_entries]. rewrite !fmap_app. cbn. by rewrite S2. }
  split; [exact E3|]. split; [exact L3|]. split; [exact E4|]. by rewrite P4.
Qed.

(** Asking a node without a session, whose key is not a curve point, panics. *)
Lemma proto_send_panics key payload w : ss_sessions (r_sess (w_router w)) !! key = None -> to_montgomery key = None ->
  proto_send key payload w = Panic.
Proof.
  intros Hs Hm. unfold proto_send, session_send_kind. unfold mbind at 1, M_bind at 1, asks at 1. rewrite Hs.
  unfold mbind at 1, M_bind at 1, instant_now, tick. unfold mbind at 1, M_bind at 1.
  destruct (next_init_seq _) as [w1 [q|e]| |] eqn:Eq; [|discriminate Eq..]. unfold mbind at 1, M_bind at 1, asks at 1.
  unfold mbind at 1, M_bind at 1. destruct (ss_bufs (r_sess (w_router w1)) !! key) as [b|].
  - cbn [mret M_ret]. unfold mbind at 1, M_bind at 1, modify. unfold mbind, M_bind. by rewrite seal_init_panics.
  - unfold mbind at 1, M_bind at 1. destruct (fresh_box w1) as [w2 [[cp cs]|e]| |] eqn:E2; [|discriminate E2..]. unfold mbind at 1, M_bind at 1.
    destruct (fresh_box w2) as [w3 [[np ns]|e]| |] eqn:E3; [|discriminate E3..]. cbn [mret M_ret].
    unfold mbind at 1, M_bind at 1, modify. unfold mbind, M_bind. by rewrite seal_init_panics.
Qed.

(** A request about a key. *)
Definition key_request (request text : bytes) : Value := ctl_request request (VObject [(str "key", VString text)]).

(** A mistyped key stops the node. A remote question about 32 bytes that
    are not the encoding of a curve point, and with which no session is open,
    passes every check of the socket and makes the node task panic. *)
Theorem admin_key_panics (now : Z) (ifaces : option (list MulticastInterfaceState)) (c : nat) (request text key : bytes) (what : RemoteQuery)
    (n : NodeState) (w : World) :
  request <> [] -> text <> [] -> for_command (to_lowercase request) = Some what -> decode_remote_key text = inl key ->
  ss_sessions (r_sess (w_router w)) !! key = None -> to_montgomery key = None ->
  admin_request now ifaces c (key_request request text) n w = Panic.
Proof.
  intros Hr Ht Hw Hk Hs Hm. unfold admin_request.
  assert (known (to_lowercase request) = true /\ decode_args (to_lowercase request) (VObject [(str "key", VString text)]) = None /\
    dispatch now (to_lowercase request) (VObject [(str "key", VString text)]) ifaces = remote_query what (VObject [(str "key", VString text)])) as (Hn & Hd & Hq).
  { revert Hw. generalize (to_lowercase request) as name. intros name Hw. unfold for_command in Hw.
    repeat case_bool_decide; subst; try done; injection Hw as <-; (split; [done|by split]). }
  unfold key_request. rewrite ctl_request_handled, Hq by done.
  unfold remote_query. change (arg_str (VObject [(str "key", VString text)]) (str "key")) with (Some text). cbn [unwrap_or].
  rewrite (bool_decide_eq_false_2 (text = [])), andb_false_r by done. rewrite Hk. cbn [command_of].
  unfold mbind at 1, M_bind at 1, on_cmd. unfold mbind at 1, M_bind at 1, attempt. unfold request_nodeinfo, request_debug.
  by destruct what; rewrite proto_send_panics.
Qed.

(** The answers to [debug_remoteGetPeers] and [debug_remoteGetTree] are keys, not
    JSON, and are refused unless the keys happen to be a JSON text. *)
Lemma remote_keys_refused what body : json_from_slice body = None -> remote_body what body = inr BadRemoteJson.
Proof. intros E. unfold remote_body. by rewrite E. Qed.
End node.

(** ** Witnesses *)

(** A toy JSON: an object is its bytes between braces, a request name, preceded
    by [k] when the connection is to be kept. *)
Definition toy_object (b : bytes) : Value :=
  match b with
  | 107 :: name => VObject [(str "keepalive", VBool true); (str "request", VString name)]
  | _ => VObject [(str "request", VString b)]
  end.

Definition toy_json : Json := {|
  json_next b := match b with
                 | 123 :: r => match find_char 125 r with Some k => JValue (toy_object (take k r)) (S (S k)) | None => JEof end
                 | _ => JError
                 end;
  json_from_slice _ := None |}.

Definition toy_unicode : Unicode := {| to_lowercase := map (fun b => if is_ascii_upper b then b + 32 else b) |}.
Definition toy_report : HexReport := {| hex_error _ := InvalidStringLength |}.

Lemma find_char_app c s x i : find_char c s = Some i -> find_char c (s ++ x) = Some i.
Proof.
  rewrite !find_char_Some. intros (a & b & -> & Hn & ->). exists a, (b ++ x). by rewrite <-app_assoc.
Qed.

Lemma toy_json_laws : @JsonLaws toy_json.
Proof.
  split.
  - intros b v n. cbn. destruct b as [|x r]; [done|]. destruct (decide (x = 123)) as [->|Hx].
    + destruct (find_char 125 r) as [k|] eqn:E; [|done]. intros [= <- <-]. apply find_char_Some in E as (a & r' & -> & _ & ->).
      cbn [length]. rewrite length_app. cbn [length]. lia.
    + by repeat case_match.
  - intros b. cbn. destruct (find_char 125 b); [|done]. unfold toy_object. repeat case_match; by eexists.
  - intros b x v n. cbn. destruct (find_char 125 b) as [k|] eqn:E; [|done]. rewrite (find_char_app _ _ x _ E). intros [= <- <-].
    apply find_char_Some in E as (a & r & -> & _ & ->). by rewrite <-app_assoc, !take_app_length.
  - intros b x. cbn. by destruct (find_char 125 b).
Qed.

Definition demo_around : Around := mkAround (fun _ => 0) (fun _ => Some []) (fun _ => NoAnswer) (fun _ => true).

Lemma decode_args_exact_witness : decode_args (str "getpeers") (VObject [(str "sort", VString (str "cost"))]) = None.
Proof.
  apply (proj2 (decode_args_exact (str "getpeers") (str "Show directly connected peers") [str "sort"] _ ltac:(by_dec) ltac:(by_dec))).
  right. eexists. split; [reflexivity|]. intros f Hf. apply list_elem_of_singleton in Hf as ->. exact I.
Defined.

Definition demo_reads : list read_event := [Data (str " {kget"); Data (str "Self} {li"); ReadError].

Lemma admin_conn_ends_witness : exists exchanges last,
  @admin_conn std_hex toy_report toy_unicode toy_json 20 demo_around 0 demo_reads [] false = (exchanges ++ [last], Closed) /\ length exchanges = 1%nat.
Proof.
  destruct (@admin_conn_ends std_hex toy_report toy_unicode toy_json toy_json_laws demo_around 0 demo_reads [] false 20) as (xs & last & E & _ & _);
    [vm_compute; lia|].
  exists xs, last. split; [exact E|].
  assert (length (xs ++ [last]) = 2%nat) as Hl by (change (xs ++ [last]) with (xs ++ [last], Closed).1; rewrite <-E; vm_compute; reflexivity).
  rewrite length_app in Hl. cbn in Hl. lia.
Defined.

Lemma demo_requests : @object_stream toy_json (str " {klist} {list}").
Proof.
  apply (@stream_object toy_json _ (str "klist} {list}")); [reflexivity|]. intros v n [= <- <-].
  apply (@stream_object toy_json _ (str "list}")); [reflexivity|]. intros v n [= <- <-]. by apply stream_end.
Qed.

Lemma admin_conn_pieces_witness :
  @admin_conn std_hex toy_report toy_unicode toy_json 20 demo_around 0 (Data <$> [str " {kl"; str "ist} {li"; str "st}"]) [] false =
  @admin_conn std_hex toy_report toy_unicode toy_json 20 demo_around 0 [Data (str " {klist} {list}")] [] false.
Proof.
  apply (@admin_conn_pieces std_hex toy_report toy_unicode toy_json toy_json_laws 20 demo_around [str " {kl"; str "ist} {li"; str "st}"]);
    [repeat constructor; discriminate|exact demo_requests].
Defined.

Lemma admin_answered_witness :
  exists w' n' r, @on_cmd std_hex toy_ed25519 toy_box demo_env Node_new (CmdReport 3) demo_world = Done w' (Ok n') /\ nd_replies n' = [(3%nat, ReplyReport r)].
Proof.
  pose proof (@admin_answered std_hex toy_report toy_unicode toy_json toy_ed25519 toy_box demo_env 0 (str "getself") VNull None 3 (CmdReport 3)
    Node_new demo_world ltac:(reflexivity)) as Ha.
  destruct (on_cmd Node_new (CmdReport 3) demo_world) as [w' [n'|e]| |]; [|destruct Ha|destruct Ha as (? & ? & ?); discriminate|destruct Ha].
  destruct Ha as [(r & E & _ & Hx)|(? & ? & ? & ? & _)]; [|discriminate]. exists w', n'.
  destruct r as [|s| |]; try discriminate Hx. exists s. split; [reflexivity|exact E].
Defined.

Lemma admin_peer_roundtrip_witness : exists w1 n1,
  @admin_request std_hex toy_report toy_unicode toy_json toy_ed25519 toy_box demo_env 0 None 3 (peer_request (str "addPeer") (str "tcp://h:1") []) Node_new demo_world =
  Done w1 (Ok (n1, Some (response_of (mkRequest (str "addPeer") (Some (peer_arguments (str "tcp://h:1") [])) false) (inl BodyEmpty)))).
Proof.
  destruct (@parse_link_uri std_hex (str "tcp://h:1")) as [p|e] eqn:Ep; [|exfalso; revert Ep; vm_compute; discriminate].
  destruct (@admin_peer_roundtrip std_hex toy_report toy_unicode toy_json toy_ed25519 toy_box demo_env 0 None 3 (str "addPeer") (str "removePeer")
    (str "tcp://h:1") [] p Node_new demo_world) as (w1 & n1 & w2 & n2 & w3 & n3 & w4 & n4 & e & E1 & _);
    [reflexivity|reflexivity|discriminate|discriminate|exact Ep|reflexivity|].
  exists w1, n1. exact E1.
Defined.

Lemma admin_key_panics_witness :
  @admin_request std_hex toy_report toy_unicode toy_json toy_ed25519 strict_box demo_env 0 None 3
    (key_request (str "getNodeInfo") (@hex_encode std_hex (demo_key 200))) Node_new demo_world = Panic.
Proof.
  apply (@admin_key_panics std_hex toy_report toy_unicode toy_json toy_ed25519 strict_box demo_env 0 None 3 (str "getNodeInfo")
    (@hex_encode std_hex (demo_key 200)) (demo_key 200) NodeInfo Node_new demo_world);
    [discriminate|discriminate|reflexivity|vm_compute; reflexivity|reflexivity|reflexivity].
Defined.
