(* ===== verification/Ipv6.v ===== *)
(** * Ipv6: reading IPv6 addresses ([Ipv6Addr::from_str] of the Rust standard
    library).

    The parser reads groups from the front up to eight or to a [::], then groups
    from the back; the last two groups may be written as an IPv4 address. What
    [Display] prints of an address reads back as that address. *)
From Stdlib Require Import Strings.String.
From stdpp Require Import base tactics list numbers.
From S2P Require Import Prelude Text.

Local Open Scope Z_scope.

(** ** The parser: a value and the bytes left *)

Definition read_given_char (c : Z) (s : bytes) : option bytes :=
  match s with x :: s' => if x =? c then Some s' else None | [] => None end.

(** [read_separator]: no separator before the first. *)
Definition read_separator {A} (c : Z) (index : nat) (inner : bytes -> option (A * bytes)) (s : bytes) : option (A * bytes) :=
  match index with
  | O => inner s
  | S _ => s' ← read_given_char c s; inner s'
  end.

(** The digits of a number of at most [max] digits: value, count, rest. *)
Fixpoint number_loop (radix : Z) (max : nat) (acc : Z) (count : nat) (s : bytes) : option (Z * nat * bytes) :=
  match s with
  | [] => Some (acc, count, s)
  | b :: s' =>
    match to_digit radix b with
    | None => Some (acc, count, s)
    | Some d => if bool_decide (max <= count)%nat then None else number_loop radix max (acc * radix + d) (S count) s'
    end
  end.

Definition read_number (radix : Z) (max : nat) (allow_zero_prefix : bool) (limit : Z) (s : bytes) : option (Z * bytes) :=
  '(v, count, rest) ← number_loop radix max 0 0 s;
  if bool_decide (count = O) then None
  else if negb allow_zero_prefix && bool_decide (head s = Some 48) && bool_decide (1 < count)%nat then None
  else if v <=? limit then Some (v, rest) else None.

Definition read_octet (index : nat) (s : bytes) : option (Z * bytes) := read_separator 46 index (read_number 10 3 false U8_MAX) s.

Definition read_ipv4_addr (s : bytes) : option (list Z * bytes) :=
  '(a, s) ← read_octet 0 s;
  '(b, s) ← read_octet 1 s;
  '(c, s) ← read_octet 2 s;
  '(d, s) ← read_octet 3 s;
  Some ([a; b; c; d], s).

(** Up to [left] groups, the first with number [index]: the groups, whether they
    end in an IPv4 address, and the rest. *)
Fixpoint read_groups (left index : nat) (s : bytes) : list Z * bool * bytes :=
  match left with
  | O => ([], false, s)
  | S left' =>
    let ipv4 := match left' with O => None | S _ => read_separator 58 index read_ipv4_addr s end in
    match ipv4 with
    | Some (v4, rest) => ([(v4 !!! 0%nat) * 256 + v4 !!! 1%nat; (v4 !!! 2%nat) * 256 + v4 !!! 3%nat], true, rest)
    | None =>
      match read_separator 58 index (read_number 16 4 true U16_MAX) s with
      | Some (g, rest) => let '(gs, v4, rest) := read_groups left' (S index) rest in (g :: gs, v4, rest)
      | None => ([], false, s)
      end
    end
  end.

Definition read_ipv6_addr (s : bytes) : option (Ipv6Addr * bytes) :=
  let '(head, head_ipv4, s) := read_groups 8 0 s in
  if bool_decide (length head = 8)%nat then Some (head, s)
  else if head_ipv4 then None
  else
    s ← read_given_char 58 s;
    s ← read_given_char 58 s;
    let '(tail, _, s) := read_groups (8 - (length head + 1)) 0 s in
    Some (head ++ replicate (8 - length head - length tail) 0 ++ tail, s).

Definition ipv6_parse (s : bytes) : option Ipv6Addr :=
  match read_ipv6_addr s with Some (a, []) => Some a | _ => None end.

(** ** What is printed reads back *)

(** Text the group reader stops at. *)
Definition stops (radix : Z) (s : bytes) : Prop := match s with [] => True | b :: _ => to_digit radix b = None end.

Lemma number_loop_app radix max limit acc v count ds rest : digits_val radix limit acc ds = Some v -> stops radix rest ->
  (count + length ds <= max)%nat -> number_loop radix max acc count (ds ++ rest) = Some (v, (count + length ds)%nat, rest).
Proof.
  intros Hv Hs. revert acc count Hv. induction ds as [|b ds IH]; intros acc count Hv Hl; cbn [app length] in *.
  - injection Hv as ->. rewrite Nat.add_0_r. destruct rest as [|b rest]; [done|]. cbn in Hs |- *. by rewrite Hs.
  - cbn [digits_val] in Hv. cbn [number_loop]. destruct (to_digit radix b) as [d|]; [|done]. cbn zeta in Hv.
    destruct (limit <? acc * radix + d); [done|]. rewrite bool_decide_eq_false_2 by lia. rewrite (IH _ (S count) Hv) by lia. do 2 f_equal. f_equal. lia.
Qed.

Lemma print_digits_length radix fuel n k acc : 2 <= radix -> 0 <= n < radix ^ Z.of_nat (S k) ->
  (length (print_digits fuel radix n acc) <= S k + length acc)%nat.
Proof.
  intros Hr. revert n k acc. induction fuel as [|fuel IH]; intros n k acc Hn; cbn [print_digits]; [lia|].
  destruct (Z.ltb_spec n radix); [cbn [length]; lia|]. destruct k as [|k].
  - change (Z.of_nat 1) with 1 in Hn. rewrite Z.pow_1_r in Hn. lia.
  - rewrite Nat2Z.inj_succ, Z.pow_succ_r in Hn by lia.
    assert (0 <= n / radix < radix ^ Z.of_nat (S k)) as Hd by (split; [apply Z.div_pos; lia|apply Z.div_lt_upper_bound; lia]).
    specialize (IH _ _ (digit_char (n mod radix) :: acc) Hd). cbn [length] in *. lia.
Qed.

Lemma group_reads g rest : is_u16 g -> stops 16 rest -> read_number 16 4 true U16_MAX (lower_hex g ++ rest) = Some (g, rest).
Proof.
  unfold is_u16. intros Hg Hs. unfold read_number. unfold U16_MAX.
  assert (digits_val 16 (2 ^ 16 - 1) 0 (lower_hex g) = Some g) as Hv
    by (unfold lower_hex; rewrite (digits_val_print 16 (2 ^ 16 - 1) 15 g []); [done|lia|lia|]; change (16 ^ Z.of_nat 16) with 18446744073709551616; lia).
  pose proof (print_digits_length 16 16 g 3 [] ltac:(lia) ltac:(change (16 ^ Z.of_nat 4) with 65536; lia)) as Hl.
  change (print_digits 16 16 g []) with (lower_hex g) in Hl. cbn [length] in Hl.
  rewrite (number_loop_app 16 4 _ 0 g 0 (lower_hex g) rest Hv Hs) by lia. cbn [mbind option_bind].
  destruct (print_digits_cons 16 15 g []) as (c & l & Ec). change (print_digits 16 16 g []) with (lower_hex g) in Ec.
  rewrite bool_decide_eq_false_2 by (rewrite Ec; cbn; lia). cbn [negb andb]. by rewrite (proj2 (Z.leb_le _ _)) by lia.
Qed.

(** Text without a dot holds no IPv4 address. *)
Lemma number_rest radix max acc count s v n rest : number_loop radix max acc count s = Some (v, n, rest) -> exists ds, s = ds ++ rest.
Proof.
  revert acc count. induction s as [|b s IH]; intros acc count; cbn [number_loop]; [intros [= <- <- <-]; by exists []|].
  destruct (to_digit radix b); [|intros [= <- <- <-]; by exists []]. case_bool_decide; [done|]. intros E. apply IH in E as [ds ->]. by exists (b :: ds).
Qed.

Lemma no_dot_no_ipv4 s : 46 ∉ s -> read_ipv4_addr s = None.
Proof.
  intros Hn. unfold read_ipv4_addr, read_octet. cbn [read_separator].
  destruct (read_number 10 3 false U8_MAX s) as [[a rest]|] eqn:E; [|done]. cbn [mbind option_bind].
  assert (46 ∉ rest) as Hr.
  { unfold read_number in E. destruct (number_loop 10 3 0 0 s) as [[[v n] r]|] eqn:El; [|done]. cbn [mbind option_bind] in E.
    assert (r = rest) as -> by (by repeat case_match; simplify_eq).
    apply number_rest in El as [ds ->]. intros Hin. apply Hn, elem_of_app. by right. }
  destruct rest as [|b rest]; [done|]. cbn [read_given_char]. apply not_elem_of_cons in Hr as [Hb _].
  by rewrite (proj2 (Z.eqb_neq b 46)) by auto.
Qed.

Lemma no_dot_separator index s : 46 ∉ s -> read_separator 58 index read_ipv4_addr s = None.
Proof.
  intros Hn. destruct index as [|index]; cbn [read_separator]; [by apply no_dot_no_ipv4|].
  destruct s as [|b s]; [done|]. cbn [read_given_char]. destruct (b =? 58); [|done]. cbn. apply no_dot_no_ipv4.
  by apply not_elem_of_cons in Hn as [_ Hn].
Qed.

(** The groups after the first, each with its separator. *)
Definition more_groups (segs : list Z) : bytes := flat_map (fun s => 58 :: lower_hex s) segs.

Lemma lower_hex_no_dot g : is_u16 g -> 46 ∉ lower_hex g.
Proof.
  unfold is_u16. intros Hg Hin. assert (Forall (fun b => b <> 46) (lower_hex g)) as Hc.
  { apply print_digits_all; [lia|lia| |constructor]. intros d Hd. unfold digit_char. destruct (Z.ltb_spec d 10); lia. }
  rewrite list_elem_of_In in Hin. rewrite Forall_forall in Hc. exact (Hc 46 Hin eq_refl).
Qed.

Lemma more_groups_no_dot segs : Forall is_u16 segs -> 46 ∉ more_groups segs.
Proof.
  induction 1 as [|g segs Hg Hs IH]; cbn; [apply not_elem_of_nil|]. rewrite not_elem_of_cons, not_elem_of_app. split; [lia|].
  split; [by apply lower_hex_no_dot|exact IH].
Qed.

(** Text at which the reading of groups ends. *)
Definition ends_groups (s : bytes) : Prop := s = [] \/ exists t, s = 58 :: 58 :: t.

Lemma ends_stops s : ends_groups s -> stops 16 s.
Proof. by intros [->|[t ->]]. Qed.

Lemma ends_read index s : ends_groups s -> read_separator 58 index (read_number 16 4 true U16_MAX) s = None.
Proof. intros [->|[t ->]]; destruct index; reflexivity. Qed.

Lemma read_more left index segs rest : Forall is_u16 segs -> (length segs <= left)%nat -> 46 ∉ rest -> ends_groups rest ->
  read_groups left (S index) (more_groups segs ++ rest) = (segs, false, rest).
Proof.
  intros Hu. revert left index. induction Hu as [|g segs Hg Hu IH]; intros left index Hl Hd He.
  - destruct left as [|left]; [done|]. cbn [read_groups more_groups flat_map app]. rewrite (ends_read (S index) rest He).
    destruct left; [done|]. by rewrite no_dot_separator.
  - destruct left as [|left]; [cbn in Hl; lia|]. cbn [read_groups length] in *.
    assert (46 ∉ more_groups (g :: segs) ++ rest) as Hn
      by (rewrite not_elem_of_app; split; [apply more_groups_no_dot; by constructor|done]).
    rewrite (no_dot_separator (S index) _ Hn). replace (match left with O => None | S _ => None end) with (@None (list Z * bytes)) by (by destruct left).
    cbn [more_groups flat_map]. change (flat_map (fun s => 58 :: lower_hex s) segs) with (more_groups segs). cbn [app]. rewrite <-app_assoc.
    cbn [read_separator read_given_char]. rewrite Z.eqb_refl. cbn [mbind option_bind]. rewrite group_reads; [|done|].
    + rewrite IH by (done || lia). done.
    + destruct segs; [by apply ends_stops|reflexivity].
Qed.

Lemma read_first left segs rest : Forall is_u16 segs -> (length segs <= left)%nat -> 46 ∉ rest -> ends_groups rest ->
  read_groups left 0 (fmt_subslice segs ++ rest) = (segs, false, rest).
Proof.
  intros Hu Hl Hd He. destruct Hu as [|g segs Hg Hu].
  - destruct left as [|left]; [done|]. cbn [read_groups fmt_subslice app]. rewrite (ends_read 0 rest He).
    destruct left; [done|]. by rewrite no_dot_separator.
  - destruct left as [|left]; [cbn in Hl; lia|]. cbn [read_groups fmt_subslice length] in *.
    change (flat_map (fun s => 58 :: lower_hex s) segs) with (more_groups segs). rewrite <-app_assoc.
    rewrite no_dot_separator by (rewrite !not_elem_of_app; split; [by apply lower_hex_no_dot|]; split; [by apply more_groups_no_dot|done]).
    replace (match left with O => None | S _ => None end) with (@None (list Z * bytes)) by (by destruct left).
    cbn [read_separator]. rewrite group_reads; [|done|destruct segs; [by apply ends_stops|reflexivity]].
    rewrite read_more by (done || lia). done.
Qed.

(** The run of zeros is one. *)
Definition zeros_at (a : list Z) (run : nat * nat) : Prop := forall k, (run.1 <= k < run.1 + run.2)%nat -> a !! k = Some 0.

Lemma zero_run_zeros a i cur best : zeros_at a best -> zeros_at a cur -> (cur.2 = 0 \/ cur.1 + cur.2 = i)%nat ->
  zeros_at a (zero_run i (drop i a) cur best).
Proof.
  intros Hb Hc He. remember (drop i a) as segs eqn:Es. revert i cur best Hb Hc He Es. induction segs as [|s segs IH]; intros i cur best Hb Hc He Es; [done|].
  assert (a !! i = Some s) as Hi by (rewrite <-(Nat.add_0_r i), <-lookup_drop, <-Es; done).
  assert (segs = drop (S i) a) as Es' by (rewrite <-Nat.add_1_r, <-drop_drop, <-Es; done).
  cbn [zero_run]. destruct (Z.eqb_spec s 0) as [->|Hs].
  - set (cur' := if bool_decide (cur.2 = 0)%nat then (i, 1)%nat else (cur.1, S cur.2)).
    assert (zeros_at a cur' /\ (cur'.1 + cur'.2 = S i)%nat) as [Hc' He'].
    { unfold cur'. case_bool_decide as H0; cbn [fst snd].
      - split; [|lia]. intros k Hk. cbn in Hk. by replace k with i by lia.
      - split; [|destruct He; lia]. intros k Hk. cbn in Hk. destruct (decide (k = i)) as [->|]; [done|]. apply Hc. destruct He; lia. }
    apply IH; [by case_bool_decide|done|by right|done].
  - apply IH; [done| |by left|done]. intros k Hk. cbn in Hk. lia.
Qed.

Lemma zeros_split a start len : zeros_at a (start, len) -> (0 < len)%nat -> a = take start a ++ replicate len 0 ++ drop (start + len) a.
Proof.
  intros Hz Hl. rewrite <-(take_drop start a) at 1. f_equal. rewrite <-(take_drop len (drop start a)), drop_drop. f_equal.
  symmetry. apply replicate_as_elem_of. assert (is_Some (a !! (start + len - 1)%nat)) as Hlast by (exists 0; apply Hz; cbn; lia).
  apply lookup_lt_is_Some in Hlast. split; [rewrite length_take, length_drop; lia|].
  intros x Hx. apply list_elem_of_lookup in Hx as [k Hk]. apply lookup_take_Some in Hk as [Hk Hlt]. rewrite lookup_drop in Hk.
  rewrite (Hz (start + k)%nat) in Hk by (cbn; lia). congruence.
Qed.

Lemma fmt_subslice_no_dot segs : Forall is_u16 segs -> 46 ∉ fmt_subslice segs.
Proof.
  intros Hs. destruct Hs; cbn; [apply not_elem_of_nil|]. rewrite not_elem_of_app.
  split; [by apply lower_hex_no_dot|by apply more_groups_no_dot].
Qed.

Lemma ipv6_display_no_dot a : ipv6_ok a -> take 6 a <> [0; 0; 0; 0; 0; 65535] -> 46 ∉ ipv6_display a.
Proof.
  intros [Hl Hu] Hm. unfold ipv6_display. rewrite bool_decide_eq_false_2 by done. destruct (zero_run _ _ _ _) as [start len].
  case_bool_decide; [|by apply fmt_subslice_no_dot].
  rewrite !not_elem_of_app. split; [by apply fmt_subslice_no_dot, Forall_take|].
  split; [by_dec|by apply fmt_subslice_no_dot, Forall_drop].
Qed.

(** An address whose text is not that of a mapped IPv4 address reads back. *)
Lemma ipv6_reads_back a : ipv6_ok a -> take 6 a <> [0; 0; 0; 0; 0; 65535] -> ipv6_parse (ipv6_display a) = Some a.
Proof.
  intros [Hl Hu] Hm. unfold ipv6_display. rewrite bool_decide_eq_false_2 by done.
  pose proof (zero_run_zeros a 0 (0, 0)%nat (0, 0)%nat ltac:(intros k Hk; cbn in Hk; lia) ltac:(intros k Hk; cbn in Hk; lia) ltac:(by left)) as Hz.
  rewrite drop_0 in Hz. destruct (zero_run 0 a (0, 0)%nat (0, 0)%nat) as [start len]. unfold ipv6_parse, read_ipv6_addr. case_bool_decide as Hlen.
  - pose proof (zeros_split _ _ _ Hz ltac:(lia)) as Ea. assert (start + len <= 8)%nat as Hle.
    { destruct (decide (start + len <= 8)%nat); [done|]. assert (is_Some (a !! (start + len - 1)%nat)) as Hs by (exists 0; apply Hz; cbn; lia).
      apply lookup_lt_is_Some in Hs. lia. }
    assert (length (take start a) = start) as Ht by (rewrite length_take; lia). assert (length (drop (start + len) a) = 8 - (start + len))%nat as Hd by (rewrite length_drop; lia).
    change (str "::" ++ fmt_subslice (drop (start + len) a)) with (58 :: 58 :: fmt_subslice (drop (start + len) a)).
    rewrite read_first; [|by apply Forall_take|lia| |right; by eexists].
    2: { rewrite !not_elem_of_cons. split; [lia|]. split; [lia|]. by apply fmt_subslice_no_dot, Forall_drop. }
    rewrite bool_decide_eq_false_2 by lia. cbn [read_given_char]. rewrite !Z.eqb_refl. cbn [mbind option_bind read_given_char]. rewrite Z.eqb_refl. cbn [mbind option_bind].
    rewrite <-(app_nil_r (fmt_subslice (drop (start + len) a))). rewrite read_first; [|by apply Forall_drop|lia|apply not_elem_of_nil|by left].
    rewrite Ht, Hd. replace (8 - start - (8 - (start + len)))%nat with len by lia. by rewrite <-Ea.
  - rewrite <-(app_nil_r (fmt_subslice a)). rewrite read_first; [|done|lia|apply not_elem_of_nil|by left].
    by rewrite bool_decide_eq_true_2.
Qed.
