(* ===== verification/Ws.v ===== *)
(** * Ws: a byte stream over WebSocket messages ([src/ws.rs]).

    Bytes written are kept until a flush sends them as one binary message; the
    binary messages that arrive are appended to a buffer that reads drain. The
    WebSocket of [tokio_tungstenite] is what its polls return, in order. *)
From Stdlib Require Import Strings.String.
From stdpp Require Import base tactics list numbers.
From S2P Require Import Prelude Errors Text.

Local Open Scope Z_scope.

Definition WS_SUBPROTOCOL : bytes := str "ygg-ws".

Inductive poll (A : Type) : Type := Ready (a : A) | Pending.
Arguments Ready {A} a.
Arguments Pending {A}.

(** What [poll_next] returns: a binary message, another one, an error, the end,
    or nothing yet. When the list is used up there is nothing yet. *)
Inductive ws_next : Type := NextBinary (b : bytes) | NextOther | NextError (e : IoError) | NextEnd | NextPending.

Inductive ws_message : Type := Binary (b : bytes) | Close.

(** What the sink answers to one flush or shutdown of ours. *)
Record sink_answer : Type := mkSink { sk_ready : poll (option IoError); sk_send : option IoError; sk_flush : poll (option IoError) }.

(** The stream; the messages handed to the WebSocket are kept in order. *)
Record WsStream : Type := mkWsStream { ws_in : list ws_next; ws_rx : bytes; ws_tx : bytes; ws_closed : bool; ws_sent : list ws_message }.

Definition WsStream_new (incoming : list ws_next) : WsStream := mkWsStream incoming [] [] false [].

(** The next message, into the read buffer. *)
Definition poll_fill (s : WsStream) : WsStream * poll (result ()) :=
  match ws_in s with
  | NextBinary b :: rest => (mkWsStream rest (ws_rx s ++ b) (ws_tx s) (ws_closed s) (ws_sent s), Ready (Ok ()))
  | NextOther :: rest => (mkWsStream rest (ws_rx s) (ws_tx s) (ws_closed s) (ws_sent s), Pending)
  | NextError e :: rest => (mkWsStream rest (ws_rx s) (ws_tx s) (ws_closed s) (ws_sent s), Ready (Err (Io e)))
  | NextEnd :: rest => (mkWsStream rest (ws_rx s) (ws_tx s) true (ws_sent s), Ready (Ok ()))
  | NextPending :: rest => (mkWsStream rest (ws_rx s) (ws_tx s) (ws_closed s) (ws_sent s), Pending)
  | [] => (s, Pending)
  end.

(** The loop of [poll_read]: every turn but the last takes a message, so one more
    turn than there are messages is enough. *)
Fixpoint read_loop (fuel : nat) (remaining : nat) (s : WsStream) : WsStream * poll (result bytes) :=
  match fuel with
  | O => (s, Pending)
  | S fuel =>
    match ws_rx s with
    | _ :: _ =>
      let n := (remaining `min` length (ws_rx s))%nat in
      (mkWsStream (ws_in s) (drop n (ws_rx s)) (ws_tx s) (ws_closed s) (ws_sent s), Ready (Ok (take n (ws_rx s))))
    | [] =>
      if ws_closed s then (s, Ready (Ok []))
      else match poll_fill s with
      | (s, Ready (Ok _)) => read_loop fuel remaining s
      | (s, Ready (Err e)) => (s, Ready (Err e))
      | (s, Pending) => (s, Pending)
      end
    end
  end.

(** Reads at most [remaining] bytes; no bytes are the end. *)
Definition poll_read (remaining : nat) (s : WsStream) : WsStream * poll (result bytes) := read_loop (S (S (length (ws_in s)))) remaining s.

Definition poll_write (buf : bytes) (s : WsStream) : WsStream :=
  mkWsStream (ws_in s) (ws_rx s) (ws_tx s ++ buf) (ws_closed s) (ws_sent s).

Definition set_ws_tx (tx : bytes) (s : WsStream) : WsStream := mkWsStream (ws_in s) (ws_rx s) tx (ws_closed s) (ws_sent s).
Definition send_message (m : ws_message) (s : WsStream) : WsStream :=
  mkWsStream (ws_in s) (ws_rx s) (ws_tx s) (ws_closed s) (ws_sent s ++ [m]).

(** A failed send has taken the bytes. *)
Definition poll_flush (a : sink_answer) (s : WsStream) : WsStream * poll (option IoError) :=
  match ws_tx s with
  | [] => (s, sk_flush a)
  | data =>
    match sk_ready a with
    | Ready (Some e) => (set_ws_tx [] s, Ready (Some e))
    | Pending => (s, Pending)
    | Ready None =>
      match sk_send a with
      | Some e => (set_ws_tx [] s, Ready (Some e))
      | None => (send_message (Binary data) (set_ws_tx [] s), sk_flush a)
      end
    end
  end.

Definition poll_shutdown (a : sink_answer) (s : WsStream) : WsStream * poll (option IoError) :=
  match sk_ready a with
  | Ready (Some e) => (s, Ready (Some e))
  | Pending => (s, Pending)
  | Ready None => (match sk_send a with Some _ => s | None => send_message Close s end, Ready None)
  end.

(** ** Subprotocol *)

(** [str::trim] of a header value, whose bytes are visible ASCII or tabs. *)
Definition is_blank (b : Z) : bool := (b =? 32) || (b =? 9).
Fixpoint trim_start (s : bytes) : bytes := match s with [] => [] | b :: s' => if is_blank b then trim_start s' else s end.
Definition trim (s : bytes) : bytes := reverse (trim_start (reverse (trim_start s))).

(** The server's test of the client's offer; a header that is absent or not text
    is an empty offer. *)
Definition offer_accepted (offered : option bytes) : bool :=
  existsb (fun p => bool_decide (trim p = WS_SUBPROTOCOL)) (split 44 (unwrap_or offered [])).

(** The client's test of the server's answer. *)
Definition agreed (answer : option bytes) : result () :=
  if bool_decide (unwrap_or answer [] = WS_SUBPROTOCOL) then Ok () else Err (Core BadSubprotocol).

(** ** A byte stream *)

(** The bytes still to be read. *)
Fixpoint payload (l : list ws_next) : bytes :=
  match l with
  | [] => []
  | NextBinary b :: l => b ++ payload l
  | NextEnd :: _ => []
  | _ :: l => payload l
  end.

Definition unread (s : WsStream) : bytes := ws_rx s ++ (if ws_closed s then [] else payload (ws_in s)).

Definition read_out (r : poll (result bytes)) : bytes := match r with Ready (Ok b) => b | _ => [] end.

(** A read takes the next bytes, at most as many as there is room for; only at
    the end of the stream, or for want of room, does it return none. *)
Lemma read_loop_spec fuel remaining s : (length (ws_in s) + 2 <= fuel)%nat ->
  let '(s', r) := read_loop fuel remaining s in
  unread s = read_out r ++ unread s' /\ ws_tx s' = ws_tx s /\ ws_sent s' = ws_sent s /\ (length (read_out r) <= remaining)%nat /\
  (r = Ready (Ok []) -> unread s = [] \/ remaining = 0%nat) /\ (length (ws_in s') <= length (ws_in s))%nat.
Proof.
  revert s. induction fuel as [|fuel IH]; intros s Hf; [lia|]. cbn [read_loop]. destruct (ws_rx s) as [|x rx] eqn:Erx.
  - destruct (ws_closed s) eqn:Ec.
    + unfold unread. rewrite Erx, Ec. cbn. split; [done|]. do 2 (split; [done|]). split; [lia|]. split; [by left|lia].
    + unfold poll_fill. destruct (ws_in s) as [|e rest] eqn:Ei.
      { unfold unread. rewrite Erx, Ec, Ei. cbn. repeat split; try done; lia. }
      assert (unread s = payload (e :: rest)) as Hu by (unfold unread; by rewrite Erx, Ec, Ei).
      cbn [length] in *.
      destruct e as [b| |e| |].
      * specialize (IH (mkWsStream rest (ws_rx s ++ b) (ws_tx s) (ws_closed s) (ws_sent s)) ltac:(cbn; lia)).
        destruct (read_loop fuel remaining _) as [s' r].
        assert (unread (mkWsStream rest (ws_rx s ++ b) (ws_tx s) (ws_closed s) (ws_sent s)) = unread s) as <-
          by (rewrite Hu; unfold unread; cbn [ws_rx ws_closed ws_in]; by rewrite Erx, Ec).
        rewrite Erx in IH. destruct IH as (H1 & H2 & H3 & H4 & H5 & H6). rewrite Erx. cbn in *. repeat split; auto; lia.
      * rewrite Hu. unfold unread. cbn. rewrite Erx, Ec. repeat split; try done; lia.
      * rewrite Hu. unfold unread. cbn. rewrite Erx, Ec. repeat split; try done; lia.
      * specialize (IH (mkWsStream rest (ws_rx s) (ws_tx s) true (ws_sent s)) ltac:(cbn; lia)).
        destruct (read_loop fuel remaining _) as [s' r].
        assert (unread (mkWsStream rest (ws_rx s) (ws_tx s) true (ws_sent s)) = unread s) as <- by (rewrite Hu; unfold unread; cbn; by rewrite Erx).
        destruct IH as (H1 & H2 & H3 & H4 & H5 & H6). cbn in *. repeat split; auto; lia.
      * rewrite Hu. unfold unread. cbn. rewrite Erx, Ec. repeat split; try done; lia.
  - unfold unread. cbn [ws_rx ws_tx ws_sent ws_closed ws_in read_out]. set (n := (remaining `min` _)%nat). rewrite Erx.
    split; [by rewrite app_assoc, take_drop|]. do 2 (split; [done|]). split; [rewrite length_take; lia|]. split; [|lia].
    intros [= E]. right. apply (f_equal length) in E. rewrite length_take in E. cbn in *. lia.
Qed.

(** ** Runs *)

Inductive stream_op : Type := OpRead (remaining : nat) | OpWrite (buf : bytes) | OpFlush (a : sink_answer).

(** The bytes read come with the stream. *)
Definition stream_step (op : stream_op) (s : WsStream) : WsStream * bytes :=
  match op with
  | OpRead remaining => let '(s, r) := poll_read remaining s in (s, read_out r)
  | OpWrite buf => (poll_write buf s, [])
  | OpFlush a => ((poll_flush a s).1, [])
  end.

Fixpoint stream_run (ops : list stream_op) (s : WsStream) : WsStream * bytes :=
  match ops with
  | [] => (s, [])
  | op :: ops =>
    let '(s, got) := stream_step op s in
    let '(s, more) := stream_run ops s in
    (s, got ++ more)
  end.

Definition written (ops : list stream_op) : bytes := flat_map (fun op => match op with OpWrite buf => buf | _ => [] end) ops.
Definition sent_bytes (ms : list ws_message) : bytes := flat_map (fun m => match m with Binary b => b | Close => [] end) ms.

(** A sink that does not fail; it may have to wait. *)
Definition sink_ok (op : stream_op) : Prop :=
  match op with OpFlush a => (sk_ready a = Ready None \/ sk_ready a = Pending) /\ sk_send a = None | _ => True end.

Lemma poll_read_spec remaining s : let '(s', r) := poll_read remaining s in
  unread s = read_out r ++ unread s' /\ ws_tx s' = ws_tx s /\ ws_sent s' = ws_sent s /\ (length (read_out r) <= remaining)%nat /\
  (r = Ready (Ok []) -> unread s = [] \/ remaining = 0%nat) /\ (length (ws_in s') <= length (ws_in s))%nat.
Proof. unfold poll_read. apply (read_loop_spec _ remaining s). lia. Qed.

Lemma sent_bytes_app a b : sent_bytes (a ++ b) = sent_bytes a ++ sent_bytes b.
Proof. unfold sent_bytes. induction a as [|m a IH]; [done|]. cbn. by rewrite IH, app_assoc. Qed.

Lemma flush_keeps a s : sink_ok (OpFlush a) ->
  sent_bytes (ws_sent (poll_flush a s).1) ++ ws_tx (poll_flush a s).1 = sent_bytes (ws_sent s) ++ ws_tx s /\
  ws_in (poll_flush a s).1 = ws_in s /\ ws_rx (poll_flush a s).1 = ws_rx s /\ ws_closed (poll_flush a s).1 = ws_closed s.
Proof.
  intros [Hr Hs]. unfold poll_flush. destruct (ws_tx s) as [|x tx] eqn:Et; [by cbn; rewrite Et|]. destruct Hr as [-> | ->]; [|by cbn; rewrite Et].
  rewrite Hs. cbn [fst send_message set_ws_tx ws_sent ws_tx ws_in ws_rx ws_closed]. rewrite sent_bytes_app. cbn. by rewrite !app_nil_r.
Qed.

(** Everything a run reads and sends. *)
Lemma run_exact ops s : Forall sink_ok ops -> let '(s', got) := stream_run ops s in
  unread s = got ++ unread s' /\ sent_bytes (ws_sent s) ++ ws_tx s ++ written ops = sent_bytes (ws_sent s') ++ ws_tx s'.
Proof.
  intros Hok. revert s. induction Hok as [|op ops Ho Hok IH]; intros s; cbn [stream_run].
  { cbn. by rewrite app_nil_r. }
  destruct (stream_step op s) as [s1 got] eqn:E1. specialize (IH s1). destruct (stream_run ops s1) as [s2 more]. destruct IH as [Hr Hw].
  rewrite <-Hw. destruct op as [remaining|buf|a]; cbn [stream_step written flat_map] in *.
  - pose proof (poll_read_spec remaining s) as Hp. destruct (poll_read remaining s) as [s' r]. injection E1 as <- <-.
    destruct Hp as (H1 & H2 & H3 & _). rewrite H1, Hr, H2, H3. split; [by rewrite app_assoc|done].
  - injection E1 as <- <-. split; [exact Hr|]. cbn. by rewrite <-!app_assoc.
  - injection E1 as <- <-. destruct (flush_keeps a s Ho) as (F1 & F2 & F3 & F4). cbn [app]. rewrite <-Hr. unfold unread. rewrite F2, F3, F4. split; [done|].
    by rewrite app_assoc, <-F1, <-app_assoc.
Qed.

(** A read of a stream that has bytes left makes progress. *)
Lemma read_loop_progress fuel remaining s : (0 < remaining)%nat -> (length (ws_in s) + 2 <= fuel)%nat -> unread s <> [] ->
  let '(s', r) := read_loop fuel remaining s in
  (length (ws_in s') + length (unread s') < length (ws_in s) + length (unread s))%nat.
Proof.
  intros Hr.
  revert s. induction fuel as [|fuel IH]; intros s Hf Hu; [lia|]. cbn [read_loop]. destruct (ws_rx s) as [|x rx] eqn:Erx.
  - unfold unread in Hu. rewrite Erx in Hu. destruct (ws_closed s) eqn:Ec; [done|]. unfold poll_fill. destruct (ws_in s) as [|e rest] eqn:Ei; [done|].
    assert (unread s = payload (e :: rest)) as Hpl by (unfold unread; by rewrite Erx, Ec, Ei). rewrite Hpl. cbn [app payload length] in Hu, Hf |- *.
    destruct e as [b| |e| |]; try done; try (unfold unread; cbn; rewrite Erx, Ec; cbn; lia).
    specialize (IH (mkWsStream rest (ws_rx s ++ b) (ws_tx s) (ws_closed s) (ws_sent s)) ltac:(cbn; lia)).
    rewrite Erx, Ec in *. unfold unread in IH at 1 3. cbn [ws_rx ws_closed ws_in app] in IH. specialize (IH Hu).
    destruct (read_loop fuel remaining _) as [s' r]. lia.
  - unfold unread. cbn [ws_in ws_rx ws_closed]. rewrite Erx, !length_app, length_drop. cbn [length]. lia.
Qed.

Lemma read_progress remaining s : (0 < remaining)%nat -> unread s <> [] -> let '(s', r) := poll_read remaining s in
  (length (ws_in s') + length (unread s') < length (ws_in s) + length (unread s))%nat.
Proof. intros Hr Hu. unfold poll_read. apply (read_loop_progress _ remaining s); [done|lia|done]. Qed.

Lemma reads_ok caps : Forall sink_ok (OpRead <$> caps).
Proof. apply Forall_fmap, Forall_true. done. Qed.

Lemma read_all caps s : Forall (fun c => 0 < c)%nat caps -> (length (ws_in s) + length (unread s) <= length caps)%nat ->
  unread (stream_run (OpRead <$> caps) s).1 = [].
Proof.
  intros Hc. revert s. induction Hc as [|c caps Hc Hcs IH]; intros s Hl.
  { destruct (unread s) as [|] eqn:E; [done|cbn in Hl; lia]. }
  destruct (decide (unread s = [])) as [E|E].
  { pose proof (run_exact (OpRead <$> c :: caps) s (reads_ok _)) as Hx. destruct (stream_run _ s) as [s' got]. destruct Hx as [Hx _].
    rewrite E in Hx. symmetry in Hx. by apply app_nil in Hx as [_ Hx]. }
  rewrite fmap_cons. cbn [stream_run stream_step]. pose proof (read_progress c s Hc E) as Hp.
  destruct (poll_read c s) as [s1 r]. specialize (IH s1). destruct (stream_run (OpRead <$> caps) s1) as [s2 more]. cbn [fst] in *.
  apply IH. cbn [length] in Hl. lia.
Qed.

(** C35: message boundaries carry no meaning. Whatever is written and however it
    is flushed into messages, if all of it was flushed and the messages arrive,
    among others and with waits between them, then reads of any sizes return
    exactly the bytes written, in order. *)
Theorem ws_roundtrip (ops : list stream_op) (outgoing incoming : list ws_next) (caps : list nat) :
  let sender := (stream_run ops (WsStream_new outgoing)).1 in
  Forall sink_ok ops -> ws_tx sender = [] -> payload incoming = sent_bytes (ws_sent sender) ->
  Forall (fun c => 0 < c)%nat caps -> (length incoming + length (written ops) <= length caps)%nat ->
  (stream_run (OpRead <$> caps) (WsStream_new incoming)).2 = written ops.
Proof.
  intros sender Hok Htx Hp Hc Hl. pose proof (run_exact ops (WsStream_new outgoing) Hok) as Hs. unfold sender in *.
  destruct (stream_run ops (WsStream_new outgoing)) as [s got]. cbn [fst] in *. destruct Hs as [_ Hw]. rewrite Htx, app_nil_r in Hw. cbn in Hw.
  rewrite <-Hw in Hp. assert (unread (WsStream_new incoming) = written ops) as Hu by exact Hp.
  pose proof (read_all caps (WsStream_new incoming) Hc) as Ha. rewrite Hu in Ha. specialize (Ha Hl).
  pose proof (run_exact (OpRead <$> caps) (WsStream_new incoming) (reads_ok caps)) as Hr.
  destruct (stream_run (OpRead <$> caps) (WsStream_new incoming)) as [s' got']. cbn [fst snd] in *. destruct Hr as [Hr _].
  by rewrite Hu, Ha, app_nil_r in Hr.
Qed.

(** A flush that succeeds has handed everything over. *)
Lemma flush_done a s : poll_flush a s = ((poll_flush a s).1, Ready None) -> ws_tx (poll_flush a s).1 = [].
Proof.
  unfold poll_flush. destruct (ws_tx s) as [|x tx] eqn:E; [by cbn|]. destruct (sk_ready a) as [[e|]|]; [done| |done]. by destruct (sk_send a).
Qed.

(** The shutdown does not flush: bytes written just before it are never sent. *)
Example shutdown_drops_bytes : let a := mkSink (Ready None) None (Ready None) in
  let s := (poll_shutdown a (poll_write [1; 2] (WsStream_new []))).1 in
  (poll_shutdown a (poll_write [1; 2] (WsStream_new []))).2 = Ready None /\ sent_bytes (ws_sent s) = [] /\ ws_sent s = [Close].
Proof. split; [reflexivity|]. split; reflexivity. Qed.

(** The offer of our client is accepted by our server, with or without others. *)
Lemma offer_ours pre post : 44 ∉ pre -> 44 ∉ post ->
  offer_accepted (Some (pre ++ str ", ygg-ws ," ++ post)) = true /\ offer_accepted (Some WS_SUBPROTOCOL) = true /\ agreed (Some WS_SUBPROTOCOL) = Ok ().
Proof.
  intros H1 H2. split; [|by split]. unfold offer_accepted. cbn [unwrap_or].
  change (str ", ygg-ws ," ++ post) with (44 :: str " ygg-ws " ++ 44 :: post). rewrite split_app by done.
  rewrite split_app by (by_dec). cbn [existsb]. by rewrite orb_true_r.
Qed.

Lemma ws_roundtrip_witness :
  (stream_run (OpRead <$> replicate 12 2%nat) (WsStream_new [NextOther; NextBinary [1; 2; 3]; NextPending; NextBinary []; NextBinary [4; 5]; NextEnd])).2 = [1; 2; 3; 4; 5].
Proof.
  apply (ws_roundtrip [OpWrite [1; 2]; OpWrite [3]; OpFlush (mkSink Pending None Pending); OpFlush (mkSink (Ready None) None (Ready None));
    OpWrite [4; 5]; OpFlush (mkSink (Ready None) None (Ready None))] []);
    [repeat (constructor; [cbn; auto|]); constructor|reflexivity|reflexivity|apply Forall_replicate; lia|cbn; lia].
Defined.
