(* ===== verification/Dial.v ===== *)
(** * Dial: opening a link ([dial], [accept] and their tails of [src/link.rs],
    [src/tls.rs], [src/ws.rs], [src/quic.rs]).

    A dial parses the URI, connects, runs what the scheme asks for on top (TLS, a
    WebSocket, QUIC) and then the [meta] handshake; an accept does the same from
    an accepted socket. The kernel and the protocol stacks are a [Net]: what
    resolving, connecting, binding, TLS, the WebSocket upgrade and QUIC answer. A
    stream is what it will give, how it ends, whether writing to it fails, and
    whether the deadline of the handshake passes first. A listener is the loop
    of [client/src/listen.rs] over what its socket accepts. *)
From Stdlib Require Import Strings.String.
From stdpp Require Import base tactics list numbers gmap.
From S2P Require Import Prelude Errors Frame Address Wire Handshake LinkSet Text Words Ipv6 Uri Lan Node Discover Ws.

Local Open Scope Z_scope.

(** ** Addresses and names *)

(** [trim_start_matches(':')] *)
Fixpoint trim_colons (s : bytes) : bytes := match s with 58 :: s' => trim_colons s' | _ => s end.

#[export] Instance Scheme_eq_dec : EqDecision Scheme.
Proof. solve_decision. Defined.

Section zone.
Variable index : bytes -> option Z.

(** The scope a zone names: a number, or an interface of this host. *)
Definition scope_of (zone : option bytes) : option Z :=
  match zone with
  | None => Some 0
  | Some z => match parse_uint U32_MAX z with Some n => Some n | None => index z end
  end.

Definition socket_addr_with_zone (host_port : bytes) : option SocketAddrV6 :=
  '(host, rest) ← split_once 93 host_port;
  host ← strip_prefix (str "[") host;
  port ← parse_uint U16_MAX (trim_colons rest);
  let '(addr, zone) := match split_once 37 host with Some (a, z) => (a, Some z) | None => (host, None) end in
  addr ← ipv6_parse addr;
  scope ← scope_of zone;
  Some (mkSocketAddrV6 addr port 0 scope).
End zone.

Definition strip_suffix (c : Z) (s : bytes) : option bytes :=
  match last s with Some x => if x =? c then Some (take (length s - 1) s) else None | None => None end.

Definition sni_host (peer : PeerUri) : bytes :=
  match u_sni peer with
  | Some sni => sni
  | None =>
    let host := match rsplit_once 58 (u_host_port peer) with Some (h, _) => h | None => u_host_port peer end in
    let host := unwrap_or (strip_suffix 93 (unwrap_or (strip_prefix (str "[") host) host)) host in
    match split_once 37 host with Some (a, _) => a | None => host end
  end.

(** [IpAddr::from_str]: an IPv4 address is tried first. *)
Inductive IpAddr : Type := IpV4 (octets : list Z) | IpV6 (a : Ipv6Addr).

Definition ip_parse (s : bytes) : option IpAddr :=
  match read_ipv4_addr s with
  | Some (v4, []) => Some (IpV4 v4)
  | Some _ => None
  | None => IpV6 <$> ipv6_parse s
  end.

Inductive ServerName : Type := IpAddress (ip : IpAddr) | DnsName (name : bytes).

(** ** The network *)

Record RawStream : Type := mkRaw { raw_in : bytes; raw_end : IoError; raw_werr : option IoError; raw_late : bool }.

Inductive Target : Type := TargetV6 (a : SocketAddrV6) | TargetHost (host_port : bytes).

(** A call that may fail, and one under a deadline as well. *)
Definition fallible (A : Type) : Type := IoError + A.
Definition deadline (A : Type) : Type := option (fallible A).

Definition io {A} (x : fallible A) : result A := match x with inl e => Err (Io e) | inr a => Ok a end.
Definition timed {A} (x : deadline A) : result A := match x with None => Err (Core Timeout) | Some y => io y end.

Record Net : Type := mkNet {
  n_proc : option bytes;                                          (** [/proc/net/if_inet6] *)
  n_sys : bytes -> option Z;                                      (** an interface's own index file *)
  n_tcp : Target -> deadline RawStream;                           (** [TcpStream::connect] *)
  n_dns_name : bytes -> bool;                                     (** a name [ServerName::try_from] takes *)
  n_tls : ServerName -> RawStream -> deadline RawStream;          (** the TLS client *)
  n_url : bytes -> bool;                                          (** a URL the request builder takes *)
  n_upgrade : bytes -> RawStream -> deadline (RawStream * option bytes); (** [client_async], with the answered subprotocol *)
  n_lookup : bytes -> fallible (list bytes);                       (** [lookup_host] *)
  n_quic : bytes -> bytes -> deadline RawStream;                  (** a connection and its stream *)
  n_quic_late : bytes -> bool;                                    (** the dial's deadline passes first, in the lookup or after it *)
  n_bind : bytes -> fallible (fallible bytes);                      (** binding, then [local_addr] *)
  n_quic_bind : bytes -> fallible bytes;                           (** [Endpoint::server], then [local_addr] *)
  n_tls_server : RawStream -> deadline RawStream;                 (** the TLS acceptor *)
  n_upgrade_server : RawStream -> option (option bytes * fallible RawStream); (** the request's subprotocols, and the upgrade; [None]: no request comes *)
  n_refused : IoError                                             (** a refused upgrade *) }.

Definition n_index (net : Net) (name : bytes) : option Z := interface_index (n_proc net) (n_sys net) name.

Definition connect_tcp (net : Net) (host_port : bytes) : deadline RawStream :=
  n_tcp net (match socket_addr_with_zone (n_index net) host_port with Some addr => TargetV6 addr | None => TargetHost host_port end).

Definition server_name (net : Net) (sni : bytes) : result ServerName :=
  match ip_parse sni with
  | Some ip => Ok (IpAddress ip)
  | None => if n_dns_name net sni then Ok (DnsName sni) else Err (BadUri sni)
  end.

Definition tls_connect (net : Net) (host_port sni : bytes) : result RawStream :=
  tcp ← timed (connect_tcp net host_port);
  name ← server_name net sni;
  timed (n_tls net name tcp).

Definition ws_client_handshake (net : Net) (stream : RawStream) (host_port scheme : bytes) : result RawStream :=
  let url := scheme ++ str "://" ++ host_port ++ str "/" in
  if negb (n_url net url) then Err (BadUri url)
  else
    '(ws, answer) ← timed (n_upgrade net url stream);
    _ ← agreed answer;
    Ok ws.

Definition ws_connect (net : Net) (host_port : bytes) : result RawStream :=
  tcp ← timed (n_tcp net (TargetHost host_port)); ws_client_handshake net tcp host_port (str "ws").

Definition wss_connect (net : Net) (host_port sni : bytes) : result RawStream :=
  tls ← tls_connect net host_port sni; ws_client_handshake net tls host_port (str "wss").

Definition quic_connect (net : Net) (host_port sni : bytes) : result RawStream :=
  addrs ← io (n_lookup net host_port);
  match addrs with
  | [] => Err (BadUri host_port)
  | addr :: _ => timed (n_quic net addr sni)
  end.

(** [tokio::time::timeout(DIAL_TIMEOUT, quic_connect(..))]: the deadline of the
    whole, the name lookup included. *)
Definition quic_connect_within (net : Net) (host_port sni : bytes) : result RawStream :=
  if n_quic_late net host_port then Err (Core Timeout) else quic_connect net host_port sni.

(** [None]: the client never sends its request, and nothing bounds the wait. *)
Definition ws_server_handshake (net : Net) (sock : RawStream) : option (result RawStream) :=
  (fun '(offered, upgraded) => if offer_accepted offered then io upgraded else Err (Io (n_refused net))) <$> n_upgrade_server net sock.

(** ** The handshake on a stream *)

Section dial.
Context `{!Hex} `{!Ed25519} `{!Blake2}.

(** [run_handshake] under its deadline, and the link it makes; [id] is the next
    link number. *)
Definition complete (stream : RawStream) (local : bytes) (opts : LinkOptions) (inbound : bool) (remote_addr : option bytes) (id : LinkId)
  : result AnyConn :=
  if raw_late stream then Err (Core Timeout)
  else
    let '(out, r) := run_handshake (raw_in stream) (raw_end stream) (raw_werr stream) local opts inbound in
    '(remote_key, priority, kind, rest) ← r;
    Ok (mkAnyConn remote_key priority kind inbound id remote_addr (mkStream rest (Some (raw_end stream)) out [])).

Definition complete_dial (stream : RawStream) (peer : PeerUri) (local : bytes) (opts : LinkOptions) (id : LinkId) : result AnyConn :=
  complete stream local (merge_opts peer opts) false None id.

Definition complete_accept (stream : RawStream) (local : bytes) (opts : LinkOptions) (remote_addr : option bytes) (id : LinkId) : result AnyConn :=
  complete stream local opts true remote_addr id.

Definition dial (net : Net) (uri local : bytes) (opts : LinkOptions) (id : LinkId) : result AnyConn :=
  peer ← parse_peer_uri uri;
  stream ← timed (connect_tcp net (u_host_port peer));
  complete_dial stream peer local opts id.

(** What every other dial and every listener starts with: the URI has to be of
    its scheme. *)
Definition scheme_peer (want : Scheme) (uri : bytes) : result PeerUri :=
  '(scheme, peer) ← parse_link_uri uri;
  if bool_decide (scheme = want) then Ok peer else Err (BadUri uri).

Definition tls_dial (net : Net) (uri local : bytes) (opts : LinkOptions) (id : LinkId) : result AnyConn :=
  peer ← scheme_peer SchemeTls uri;
  stream ← tls_connect net (u_host_port peer) (sni_host peer);
  complete_dial stream peer local opts id.

Definition ws_dial (net : Net) (uri local : bytes) (opts : LinkOptions) (id : LinkId) : result AnyConn :=
  peer ← scheme_peer SchemeWs uri;
  stream ← ws_connect net (u_host_port peer);
  complete_dial stream peer local opts id.

Definition wss_dial (net : Net) (uri local : bytes) (opts : LinkOptions) (id : LinkId) : result AnyConn :=
  peer ← scheme_peer SchemeWss uri;
  stream ← wss_connect net (u_host_port peer) (sni_host peer);
  complete_dial stream peer local opts id.

Definition quic_dial (net : Net) (uri local : bytes) (opts : LinkOptions) (id : LinkId) : result AnyConn :=
  peer ← scheme_peer SchemeQuic uri;
  stream ← quic_connect_within net (u_host_port peer) (sni_host peer);
  complete_dial stream peer local opts id.

Definition dial_any (net : Net) (uri local : bytes) (opts : LinkOptions) (id : LinkId) : result AnyConn :=
  '(scheme, _) ← parse_link_uri uri;
  match scheme with
  | SchemeTcp => dial net uri local opts id
  | SchemeTls => tls_dial net uri local opts id
  | SchemeWs => ws_dial net uri local opts id
  | SchemeWss => wss_dial net uri local opts id
  | SchemeQuic => quic_dial net uri local opts id
  end.

(** ** Listening *)

(** Each of these answers the address the listener is bound to. *)
Definition listen (net : Net) (uri : bytes) : result bytes :=
  peer ← parse_peer_uri uri; bound ← io (n_bind net (u_host_port peer)); io bound.

Definition stream_listen (net : Net) (want : Scheme) (uri : bytes) : result bytes :=
  peer ← scheme_peer want uri; bound ← io (n_bind net (u_host_port peer)); io bound.

Definition quic_listen (net : Net) (uri : bytes) : result bytes :=
  peer ← scheme_peer SchemeQuic uri;
  addrs ← io (n_lookup net (u_host_port peer));
  match addrs with
  | [] => Err (BadUri uri)
  | addr :: _ => io (n_quic_bind net addr)
  end.

Definition listen_any (net : Net) (scheme : Scheme) (uri : bytes) : result bytes :=
  match scheme with
  | SchemeTcp => listen net uri
  | SchemeQuic => quic_listen net uri
  | _ => stream_listen net scheme uri
  end.

(** Accepting one link, from what the listening socket gave: a stream and its
    peer's address. *)
Definition accepted : Type := fallible (RawStream * bytes).

Definition tcp_accept (a : accepted) (local : bytes) (opts : LinkOptions) (id : LinkId) : result AnyConn :=
  '(stream, addr) ← io a; complete_accept stream local opts (Some addr) id.

Definition tls_accept (net : Net) (a : accepted) (local : bytes) (opts : LinkOptions) (id : LinkId) : result AnyConn :=
  '(sock, addr) ← io a; stream ← timed (n_tls_server net sock); complete_accept stream local opts (Some addr) id.

Definition ws_accept (net : Net) (a : accepted) (local : bytes) (opts : LinkOptions) (id : LinkId) : option (result AnyConn) :=
  match io a with
  | Err e => Some (Err e)
  | Ok (sock, addr) =>
    (fun upgraded => stream ← upgraded; complete_accept stream local opts (Some addr) id) <$> ws_server_handshake net sock
  end.

Definition wss_accept (net : Net) (a : accepted) (local : bytes) (opts : LinkOptions) (id : LinkId) : option (result AnyConn) :=
  match ('(sock, addr) ← io a; tls ← timed (n_tls_server net sock); Ok (tls, addr)) with
  | Err e => Some (Err e)
  | Ok (tls, addr) =>
    (fun upgraded => stream ← upgraded; complete_accept stream local opts (Some addr) id) <$> ws_server_handshake net tls
  end.

(** A QUIC endpoint's connection and first stream come under deadlines of
    their own. *)
Definition quic_accept (a : deadline (RawStream * bytes)) (local : bytes) (opts : LinkOptions) (id : LinkId) : result AnyConn :=
  '(stream, addr) ← timed a; complete_accept stream local opts (Some addr) id.

(** The task of one listener: what it tells the node, the connections it
    handled, and the next link number. [None] of an accept: the task waits on
    that connection for good. *)
Fixpoint accept_loop {A} (name : bytes) (accept : A -> LinkId -> option (result AnyConn)) (incoming : list A) (id : LinkId)
  : list Cmd * nat * LinkId :=
  match incoming with
  | [] => ([], 0%nat, id)
  | a :: rest =>
    match accept a id with
    | None => ([], 0%nat, id)
    | Some (Err _) => let '(cmds, n, id) := accept_loop name accept rest id in (cmds, S n, id)
    | Some (Ok conn) =>
      let '(cmds, n, id) := accept_loop name accept rest (id + 1) in (listen_accept name conn :: cmds, S n, id)
    end
  end.
End dial.

(** ** What an opened link is *)

Section spec.
Context `{!Ed25519} `{!Blake2}.

(** A link [c] opened over [stream]: its peer proved, with a signature of the
    hash keyed with our password, that it holds the key the link is filed under;
    it speaks our version; the key is not ours, is the pinned one and is allowed;
    the priority is the larger one; the rest of the stream is left to the link. *)
Definition opened (local : bytes) (opts : LinkOptions) (inb : bool) (addr : option bytes) (stream : RawStream) (c : AnyConn) : Prop :=
  c_inbound c = inb /\ c_remote_addr c = addr /\ raw_late stream = false /\
  c_remote_key c <> verifying_key local /\
  (forall pin, o_pinned_key opts = Some pin -> c_remote_key c = pin) /\
  (inb = true -> o_allowed_keys opts = [] \/ c_remote_key c ∈ o_allowed_keys opts) /\
  exists msg m hash, raw_in stream = msg ++ st_in (c_stream c) /\ Meta_decode msg (o_password opts) = Ok m /\ c_remote_key c = m_public_key m /\
    m_major m = PROTOCOL_MAJOR /\ m_minor m = PROTOCOL_MINOR /\ c_priority c = Z.max (m_priority m) (o_priority opts) /\
    c_kind c = Meta_peer_kind m /\ keyed_hash (c_remote_key c) (o_password opts) = Ok hash /\
    ed_verify (c_remote_key c) hash (drop (length msg - SIG_LEN) msg) = true.

Lemma complete_opened stream local opts inb addr id c :
  complete stream local opts inb addr id = Ok c -> opened local opts inb addr stream c /\ c_id c = id.
Proof.
  unfold complete. destruct (raw_late stream) eqn:El; [done|]. unfold run_handshake.
  destruct (Meta_encode _ _ _) as [ours|]; [|done]. destruct (raw_werr stream); [done|]. unfold read_exact.
  case_decide as H1; [|done]. case_decide as Hpre; [|done]. case_decide as H2; [|by destruct (raw_end stream)].
  destruct (accept_meta _ _ _ _) as [[[k p] kd]|] eqn:Ea; cbn [mbind result_bind]; [|done].
  intros [= <-]. apply accept_meta_inv in Ea as (m & Hdec & -> & Hmaj & Hmin & Hself & Hpin & Hallow & -> & ->).
  destruct (Meta_decode_verified _ _ _ Hdec) as (hash & Hh & Hv). split; [|done]. unfold opened. cbn.
  repeat (split; [done|]). split; [by intros pin ->%Hpin|]. split; [done|].
  eexists _, m, hash. split; [|done]. by rewrite <-app_assoc, take_drop, take_drop.
Qed.
End spec.

(** ** Dialing *)

Section dialing.
Context `{!Hex} `{!Ed25519} `{!Blake2}.

(** The stream a peering URI leads to. *)
Definition link_stream (net : Net) (scheme : Scheme) (peer : PeerUri) : result RawStream :=
  match scheme with
  | SchemeTcp => timed (connect_tcp net (u_host_port peer))
  | SchemeTls => tls_connect net (u_host_port peer) (sni_host peer)
  | SchemeWs => ws_connect net (u_host_port peer)
  | SchemeWss => wss_connect net (u_host_port peer) (sni_host peer)
  | SchemeQuic => quic_connect_within net (u_host_port peer) (sni_host peer)
  end.

(** The URI is parsed twice, to the same effect as once. *)
Lemma dial_any_eq net uri local opts id :
  dial_any net uri local opts id =
  ('(scheme, peer) ← parse_link_uri uri; stream ← link_stream net scheme peer; complete_dial stream peer local opts id).
Proof.
  unfold dial_any, dial, tls_dial, ws_dial, wss_dial, quic_dial, scheme_peer, parse_peer_uri.
  destruct (parse_link_uri uri) as [[scheme peer]|]; [|done]. by destruct scheme.
Qed.

(** C13: a dial, whatever the scheme and whatever the network answers, gives a link
    only if the URI parses, its transport delivered a stream and the peer on it
    proved itself: the link is outbound, has the number it was given and no
    address, and its key is the one the URI pins, or else the one the options
    pin. *)
Theorem dial_any_sound net uri local opts id c :
  dial_any net uri local opts id = Ok c ->
  exists scheme peer stream, parse_link_uri uri = Ok (scheme, peer) /\ link_stream net scheme peer = Ok stream /\
    opened local (merge_opts peer opts) false None stream c /\ c_id c = id /\
    (forall pin, u_pinned_key peer = Some pin -> c_remote_key c = pin) /\
    (forall pin, u_pinned_key peer = None -> o_pinned_key opts = Some pin -> c_remote_key c = pin).
Proof.
  rewrite dial_any_eq. destruct (parse_link_uri uri) as [[scheme peer]|]; cbn [mbind result_bind]; [|done].
  destruct (link_stream net scheme peer) as [stream|] eqn:Es; cbn [mbind result_bind]; [|done].
  intros [Ho Hid]%complete_opened. exists scheme, peer, stream. split; [done|]. split; [done|]. split; [done|]. split; [done|].
  destruct Ho as (_ & _ & _ & _ & Hpin & _). cbn in Hpin. split; intros pin Hp; [|intros Hq]; apply Hpin; by rewrite Hp.
Qed.

(** *** What a failed dial may say *)

(** The errors a result can hold. *)
Definition errs {A} (P : Error -> Prop) (r : result A) : Prop := match r with Err e => P e | Ok _ => True end.

Lemma errs_bind {A B} P (r : result A) (k : A -> result B) : errs P r -> (forall a, errs P (k a)) -> errs P (r ≫= k).
Proof. intros Hr Hk. destruct r; [apply Hk|exact Hr]. Qed.

(** An error that quotes no text. *)
Definition quotes_nothing (e : Error) : Prop := match e with Core _ | Io _ => True | BadUri _ | BadMaxBackoff _ => False end.

Lemma errs_fields fuel rest m : errs quotes_nothing (decode_fields fuel rest m).
Proof.
  revert rest m. induction fuel as [|fuel IH]; intros rest m; cbn [decode_fields]; [done|]. case_decide; [done|]. case_decide; [done|].
  apply errs_bind; [|intros; apply IH]. unfold store_field. by repeat case_match.
Qed.

Lemma errs_hash key pw : errs quotes_nothing (keyed_hash key pw).
Proof. unfold keyed_hash, ok_or. by repeat case_match. Qed.

Lemma errs_encode m secret pw : errs quotes_nothing (Meta_encode m secret pw).
Proof. unfold Meta_encode. case_decide; [done|]. by apply errs_bind; [apply errs_hash|]. Qed.

Lemma errs_accept key msg opts inb : errs quotes_nothing (accept_meta key msg opts inb).
Proof.
  unfold accept_meta. apply errs_bind.
  - unfold Meta_decode. case_match; [done|]. case_match; [done|]. apply errs_bind; [apply errs_fields|]. intros [meta rest].
    destruct rest; [|done]. apply errs_bind; [apply errs_hash|]. intros hash. by repeat case_match.
  - intros m. apply errs_bind; [unfold Meta_check; by case_match|]. intros _. case_decide; [done|]. by repeat case_match.
Qed.

Lemma errs_complete stream local opts inb addr id : errs quotes_nothing (complete stream local opts inb addr id).
Proof.
  unfold complete. destruct (raw_late stream); [done|]. unfold run_handshake.
  pose proof (errs_encode (Meta_local (verifying_key local) (o_priority opts)) local (o_password opts)) as He.
  destruct (Meta_encode _ _ _) as [ours|e]; [|exact He]. destruct (raw_werr stream); [done|]. unfold read_exact.
  case_decide; [|done]. case_decide; [|done]. case_decide; [|by destruct (raw_end stream)].
  apply errs_bind; [|by intros [[[? ?] ?] ?]]. apply errs_bind; [apply errs_accept|done].
Qed.

Lemma errs_timed {A} (x : deadline A) : errs quotes_nothing (timed x).
Proof. by destruct x as [[|]|]. Qed.

(** The texts a dial of [peer] may quote. *)
Definition quotes_of (peer : PeerUri) : list bytes :=
  [u_host_port peer; sni_host peer; str "ws://" ++ u_host_port peer ++ str "/"; str "wss://" ++ u_host_port peer ++ str "/"].

Definition quotes_only (peer : PeerUri) (e : Error) : Prop :=
  match e with Core _ | Io _ => True | BadUri t => t ∈ quotes_of peer | BadMaxBackoff _ => False end.

Lemma errs_mono {A} (P Q : Error -> Prop) (r : result A) : (forall e, P e -> Q e) -> errs P r -> errs Q r.
Proof. intros Hpq. destruct r; [done|]. apply Hpq. Qed.

Lemma quotes_weaken {A} peer (r : result A) : errs quotes_nothing r -> errs (quotes_only peer) r.
Proof. apply errs_mono. by intros []. Qed.

Lemma errs_tls net peer : errs (quotes_only peer) (tls_connect net (u_host_port peer) (sni_host peer)).
Proof.
  unfold tls_connect. apply errs_bind; [apply quotes_weaken, errs_timed|]. intros tcp. apply errs_bind; [|intros; apply quotes_weaken, errs_timed].
  unfold server_name. destruct (ip_parse _); [done|]. destruct (n_dns_name _ _); [done|]. cbn. right. by left.
Qed.

Lemma errs_ws net stream peer scheme : scheme = str "ws" \/ scheme = str "wss" ->
  errs (quotes_only peer) (ws_client_handshake net stream (u_host_port peer) scheme).
Proof.
  intros Hs. unfold ws_client_handshake. destruct (n_url _ _); cbn [negb].
  - apply errs_bind; [apply quotes_weaken, errs_timed|]. intros [ws answer]. apply errs_bind; [|done]. unfold agreed. by case_match.
  - destruct Hs as [-> | ->]; unfold quotes_only, errs, quotes_of.
    + right; right; by left.
    + right; right; right; by left.
Qed.

(** A dial that fails says nothing of the query of its URI, where passwords are:
    what it quotes is the host, the name or the address of the upgrade. *)
Theorem dial_errors_hide net uri local opts id scheme peer :
  parse_link_uri uri = Ok (scheme, peer) -> errs (quotes_only peer) (dial_any net uri local opts id).
Proof.
  intros Hp. rewrite dial_any_eq, Hp. cbn [mbind result_bind]. apply errs_bind; [|intros; apply quotes_weaken, errs_complete].
  destruct scheme; cbn [link_stream].
  - apply quotes_weaken, errs_timed.
  - apply errs_tls.
  - unfold ws_connect. apply errs_bind; [apply quotes_weaken, errs_timed|]. intros tcp. apply errs_ws. auto.
  - unfold wss_connect. apply errs_bind; [apply errs_tls|]. intros tls. apply errs_ws. auto.
  - unfold quic_connect_within. destruct (n_quic_late _ _); [by apply quotes_weaken|]. unfold quic_connect. apply errs_bind; [by destruct (n_lookup _ _)|]. intros [|addr addrs]; [left|apply quotes_weaken, errs_timed].
Qed.

(** *** A discovered neighbour *)

Lemma trim_colons_dec n : 0 <= n -> trim_colons (58 :: dec n) = dec n.
Proof.
  intros Hn. cbn [trim_colons]. pose proof (dec_digits n Hn) as Hd. destruct (dec n) as [|c l]; [done|].
  apply Forall_cons in Hd as [Hc _]. cbn [trim_colons]. destruct c as [|c|c]; try lia. by do 6 (destruct c as [c|c|]; try lia).
Qed.

Section neighbour.
Context (from : Ipv6Addr) (zone : bytes) (port : Z).
Hypothesis Hfrom : ipv6_ok from.
Hypothesis Hplain : take 6 from <> [0; 0; 0; 0; 0; 65535].
Hypothesis Hzone : 93 ∉ zone.
Hypothesis Hport : is_u16 port.

Let host_port : bytes := str "[" ++ ipv6_display from ++ str "%" ++ zone ++ str "]:" ++ dec port.

Lemma display_no c : ~ addr_char c -> c ∉ ipv6_display from.
Proof. apply not_in_chars. by apply ipv6_display_chars. Qed.

Lemma zoned_address index scope : scope_of index (Some zone) = Some scope ->
  socket_addr_with_zone index host_port = Some (mkSocketAddrV6 from port 0 scope).
Proof.
  intros Hs. unfold socket_addr_with_zone.
  assert (split_once 93 host_port = Some (str "[" ++ ipv6_display from ++ 37 :: zone, 58 :: dec port)) as ->.
  { apply split_once_Some. split; [unfold host_port; by rewrite <-!app_assoc|]. rewrite !not_elem_of_app.
    split; [by_dec|]. split; [apply display_no; unfold addr_char; lia|]. by apply not_elem_of_cons. }
  cbn [mbind option_bind]. rewrite strip_prefix_app. cbn [mbind option_bind]. destruct Hport as [Hp _].
  rewrite trim_colons_dec by done. rewrite parse_dec by (unfold is_u16, U16_MAX in *; lia). cbn [mbind option_bind].
  assert (split_once 37 (ipv6_display from ++ 37 :: zone) = Some (ipv6_display from, zone)) as ->.
  { apply split_once_Some. split; [done|]. apply display_no. unfold addr_char. lia. }
  rewrite ipv6_reads_back by done. cbn [mbind option_bind]. by rewrite Hs.
Qed.

Lemma zoned_sni pw prio pin cap : sni_host (mkPeerUri host_port pw prio pin None cap) = ipv6_display from.
Proof.
  unfold sni_host. cbn [u_sni u_host_port].
  assert (rsplit_once 58 host_port = Some (str "[" ++ ipv6_display from ++ 37 :: zone ++ [93], dec port)) as ->.
  { apply rsplit_once_Some. split; [unfold host_port; by rewrite <-!app_assoc, <-app_comm_cons, <-app_assoc|].
    destruct Hport as [Hp _]. apply (not_in_chars _ _ _ (dec_digits port Hp)). lia. }
  rewrite strip_prefix_app. cbn [unwrap_or].
  assert (forall l, strip_suffix 93 (l ++ [93]) = Some l) as Hsuf.
  { intros l. unfold strip_suffix. rewrite last_snoc, Z.eqb_refl, length_app, take_app_length'; [done|cbn; lia]. }
  replace (ipv6_display from ++ 37 :: zone ++ [93]) with ((ipv6_display from ++ 37 :: zone) ++ [93]) by (by rewrite <-app_assoc).
  rewrite Hsuf. cbn [unwrap_or].
  assert (split_once 37 (ipv6_display from ++ 37 :: zone) = Some (ipv6_display from, zone)) as ->; [|done].
  apply split_once_Some. split; [done|]. apply display_no. unfold addr_char. lia.
Qed.

Lemma zoned_name net : server_name net (ipv6_display from) = Ok (IpAddress (IpV6 from)).
Proof.
  unfold server_name, ip_parse. rewrite no_dot_no_ipv4 by (by apply ipv6_display_no_dot). by rewrite ipv6_reads_back.
Qed.
End neighbour.
End dialing.

Section reach.
Context `{!Hex} `{!HexLaws} `{!Ed25519} `{!Blake2}.

(** The options a discovered neighbour is dialled with. *)
Definition neighbour_opts (cfg : InterfaceConfig) (key : bytes) (opts : LinkOptions) : LinkOptions :=
  mkLinkOptions (match if_password cfg with [] => o_password opts | pw => pw end)
    (Z.max (o_priority opts) (if_priority cfg)) (Some key) (o_allowed_keys opts).

Lemma neighbour_dial net cfg adv from zone local opts id scope :
  iface_cfg_ok cfg -> ipv6_ok from -> take 6 from <> [0; 0; 0; 0; 0; 65535] -> (63 ∉ zone) -> (93 ∉ zone) ->
  is_u16 (adv_port adv) -> bytes_ok (adv_pubkey adv) -> length (adv_pubkey adv) = KEY_LEN ->
  scope_of (n_index net) (Some zone) = Some scope ->
  dial_any net (dial_uri cfg adv from zone) local opts id =
    (tcp ← timed (n_tcp net (TargetV6 (mkSocketAddrV6 from (adv_port adv) 0 scope)));
     tls ← timed (n_tls net (IpAddress (IpV6 from)) tcp);
     complete tls local (neighbour_opts cfg (adv_pubkey adv) opts) false None id).
Proof.
  intros Hc Hf Hm Hz Hz' Hp Hkb Hkl Hs. rewrite dial_any_eq, dial_uri_parses by done. cbn [mbind result_bind link_stream u_host_port].
  unfold tls_connect, connect_tcp. rewrite (zoned_address from zone (adv_port adv) Hf Hm Hz' Hp _ scope Hs).
  destruct (timed (n_tcp _ _)) as [tcp|]; cbn [mbind result_bind]; [|done].
  rewrite zoned_sni, zoned_name by done. cbn [mbind result_bind].
  destruct (timed (n_tls _ _ _)); cbn [mbind result_bind]; [|done].
  unfold complete_dial, merge_opts, neighbour_opts. cbn [u_password u_priority u_pinned_key]. by destruct (if_password cfg).
Qed.

(** A heard beacon leads to its sender. When a beacon makes the node dial, the
    dial connects to the address the beacon came from, at the advertised port and
    in the scope of the interface it was heard on, opens TLS to that address
    without a server name, and runs the handshake pinned to the advertised key
    under the interface's password: a link comes up only with the node that
    sent the beacon. *)
Theorem lan_dial_reaches net m zone from buf uri sintf key local opts id scope :
  receive m zone from buf = Some (DialPeer uri sintf key) ->
  (forall st cfg, mc_ifaces m !! zone = Some st -> is_cfg st = Some cfg -> iface_cfg_ok cfg) ->
  ipv6_ok (sa_ip from) -> take 6 (sa_ip from) <> [0; 0; 0; 0; 0; 65535] -> bytes_ok buf -> (63 ∉ zone) -> (93 ∉ zone) ->
  scope_of (n_index net) (Some zone) = Some scope ->
  exists adv cfg, Advertisement_decode buf = Ok adv /\ key = adv_pubkey adv /\ sintf = zone /\
    (is_cfg <$> mc_ifaces m !! zone) = Some (Some cfg) /\
    dial_any net uri local opts id =
      (tcp ← timed (n_tcp net (TargetV6 (mkSocketAddrV6 (sa_ip from) (adv_port adv) 0 scope)));
       tls ← timed (n_tls net (IpAddress (IpV6 (sa_ip from))) tcp);
       complete tls local (neighbour_opts cfg key opts) false None id) /\
    (forall c, dial_any net uri local opts id = Ok c -> c_remote_key c = key).
Proof.
  intros Hr Hcfg Hf Hm Hb Hz Hz' Hs. apply receive_Some in Hr as (adv & st & cfg & Ed & _ & _ & _ & Hst & Hc & _ & _ & [= -> -> ->]).
  exists adv, cfg. split; [done|]. split; [done|]. split; [done|]. split; [by rewrite Hst, <-Hc|].
  destruct (decode_adv_ok buf adv Hb Ed) as (_ & Hkb & (_ & _ & Hkl & Hp & _)).
  rewrite (neighbour_dial net cfg adv (sa_ip from) zone local opts id scope) by eauto. split; [done|].
  intros c. destruct (timed (n_tcp _ _)) as [tcp|]; cbn [mbind result_bind]; [|done].
  destruct (timed (n_tls _ _ _)); cbn [mbind result_bind]; [|done].
  intros [(_ & _ & _ & _ & Hpin & _) _]%complete_opened. by apply Hpin.
Qed.
End reach.

(** *** Two neighbours *)

Section neighbours.
Context `{!Hex} `{!HexLaws} `{!Ed25519} `{!Ed25519Laws} `{!Blake2} `{!Blake2Laws}.

(** A greeting that passes every check of its reader. *)
Lemma accept_hello msg sk p opts inb local : Meta_decode msg (o_password opts) = Ok (Meta_local (verifying_key sk) p) ->
  verifying_key sk <> verifying_key local -> (forall pin, o_pinned_key opts = Some pin -> pin = verifying_key sk) ->
  (inb = true -> o_allowed_keys opts = [] \/ verifying_key sk ∈ o_allowed_keys opts) ->
  accept_meta (verifying_key local) msg opts inb = Ok (verifying_key sk, Z.max p (o_priority opts), Roots 0).
Proof.
  intros Hd Hne Hpin Hall. unfold accept_meta. rewrite Hd. cbn [mbind result_bind].
  change (Meta_check (Meta_local (verifying_key sk) p)) with (Ok ()). cbn [mbind result_bind Meta_local m_public_key m_priority].
  rewrite decide_False by done.
  assert (match o_pinned_key opts with Some pin => negb (bool_decide (pin = verifying_key sk)) | None => false end = false) as ->.
  { destruct (o_pinned_key opts) as [pin|]; [|done]. by rewrite bool_decide_eq_true_2 by (by apply Hpin). }
  assert (inb && bool_decide (o_allowed_keys opts <> []) && bool_decide (verifying_key sk ∉ o_allowed_keys opts) = false) as ->; [|done].
  destruct inb; [|done]. cbn [andb]. apply andb_false_iff.
  destruct (Hall eq_refl) as [E|E]; [left|right]; apply bool_decide_eq_false_2; intros Hn; by apply Hn.
Qed.

(** C18: neighbours link up. Node [b], which heard the beacon of node [a], dials it;
    [a] listens with the password [b] dials with and allows the key of [b]. If
    the network connects them, each reading what the other writes, then both ends
    have a link to the other's key, at the same priority, and whatever follows
    the greetings is left for the link. *)
Theorem lan_neighbours_link a b adv cfg from zone optsA optsB scope e e' ta tb idA idB addr sock tcp :
  let merged := neighbour_opts cfg (adv_pubkey adv) optsB in
  iface_cfg_ok cfg -> ipv6_ok from -> take 6 from <> [0; 0; 0; 0; 0; 65535] -> (63 ∉ zone) -> (93 ∉ zone) ->
  is_u16 (adv_port adv) -> adv_pubkey adv = verifying_key a -> verifying_key a <> verifying_key b ->
  o_password optsA = o_password merged -> (length (o_password optsA) <= MAX_PASSWORD_LEN)%nat -> is_u8 (o_priority optsA) -> is_u8 (o_priority merged) ->
  o_pinned_key optsA = None -> (o_allowed_keys optsA = [] \/ verifying_key b ∈ o_allowed_keys optsA) ->
  exists ma mb, forall netA netB,
    scope_of (n_index netB) (Some zone) = Some scope ->
    n_tcp netB (TargetV6 (mkSocketAddrV6 from (adv_port adv) 0 scope)) = Some (inr tcp) ->
    n_tls netB (IpAddress (IpV6 from)) tcp = Some (inr (mkRaw (ma ++ ta) e None false)) ->
    n_tls_server netA sock = Some (inr (mkRaw (mb ++ tb) e' None false)) ->
    exists ca cb,
      dial_any netB (dial_uri cfg adv from zone) b optsB idB = Ok cb /\ tls_accept netA (inr (sock, addr)) a optsA idA = Ok ca /\
      c_remote_key cb = verifying_key a /\ c_remote_key ca = verifying_key b /\ c_priority ca = c_priority cb /\
      st_out (c_stream cb) = mb /\ st_out (c_stream ca) = ma /\ st_in (c_stream cb) = ta /\ st_in (c_stream ca) = tb.
Proof.
  intros merged Hc Hf Hm Hz Hz' Hp Hk Hne Hpw Hlen HpA HpB Hpin Hall.
  destruct (hello_spec a (o_priority optsA) (o_password optsA) HpA Hlen) as (ma & Ea & Da & Ra).
  destruct (hello_spec b (o_priority merged) (o_password optsA) HpB Hlen) as (mb & Eb & Db & Rb).
  exists ma, mb. intros netA netB Hs Ht Htls Hsrv. destruct (verifying_key_ok a) as [Hkb Hkl].
  rewrite (neighbour_dial netB cfg adv from zone b optsB idB scope) by (done || by rewrite Hk).
  rewrite Ht. cbn [timed io mbind result_bind]. rewrite Htls. cbn [timed io mbind result_bind]. fold merged.
  unfold tls_accept. cbn [io mbind result_bind]. rewrite Hsrv. cbn [timed io mbind result_bind]. unfold complete_accept, complete. cbn [raw_late raw_in raw_end raw_werr].
  rewrite (Ra ta e b merged false mb) by (by rewrite <-Hpw). rewrite (Rb tb e' a optsA true ma) by done.
  rewrite (accept_hello ma a (o_priority optsA) merged false b), (accept_hello mb b (o_priority merged) optsA true a);
    [|done|congruence|by rewrite Hpin|done|by rewrite <-Hpw|done|intros pin; cbn; rewrite Hk; congruence|done].
  cbn [mbind result_bind]. do 2 eexists. do 2 (split; [reflexivity|]). cbn. repeat (split; [done|]). split; [lia|]. done.
Qed.
End neighbours.

(** ** Accepting *)

Section accepting.
Context `{!Hex} `{!Ed25519} `{!Blake2}.

(** A listener's accept, as its scheme makes it. *)
Definition accept_any (net : Net) (scheme : Scheme) (local : bytes) (opts : LinkOptions) (a : deadline (RawStream * bytes)) (id : LinkId)
  : option (result AnyConn) :=
  match scheme, a with
  | SchemeQuic, _ => Some (quic_accept a local opts id)
  | _, None => None
  | SchemeTcp, Some a => Some (tcp_accept a local opts id)
  | SchemeTls, Some a => Some (tls_accept net a local opts id)
  | SchemeWs, Some a => ws_accept net a local opts id
  | SchemeWss, Some a => wss_accept net a local opts id
  end.

Lemma accept_opened net scheme local opts a id c : accept_any net scheme local opts a id = Some (Ok c) ->
  exists sock stream addr, a = Some (inr (sock, addr)) /\ opened local opts true (Some addr) stream c /\ c_id c = id.
Proof.
  unfold accept_any, quic_accept, tcp_accept, tls_accept, ws_accept, wss_accept, complete_accept, ws_server_handshake.
  destruct scheme, a as [[e|[sock addr]]|]; cbn [io timed mbind result_bind]; try done.
  - intros [= [Ho Hid]%complete_opened]. eauto 10.
  - destruct (timed (n_tls_server net sock)) as [stream|]; cbn [mbind result_bind]; [|done].
    intros [= [Ho Hid]%complete_opened]. eauto 10.
  - destruct (n_upgrade_server net sock) as [[offered [e|stream]]|]; cbn; [| |done]; destruct (offer_accepted offered); try done.
    cbn. intros [= [Ho Hid]%complete_opened]. eauto 10.
  - destruct (timed (n_tls_server net sock)) as [tls|]; cbn [mbind result_bind]; [|done].
    destruct (n_upgrade_server net tls) as [[offered [e|stream]]|]; cbn; [| |done]; destruct (offer_accepted offered); try done.
    cbn. intros [= [Ho Hid]%complete_opened]. eauto 10.
  - intros [= [Ho Hid]%complete_opened]. eauto 10.
Qed.

Lemma complete_id stream local opts inb addr id id' c : complete stream local opts inb addr id = Ok c ->
  exists c', complete stream local opts inb addr id' = Ok c' /\ c_remote_key c' = c_remote_key c.
Proof.
  unfold complete. destruct (raw_late stream); [done|]. destruct (run_handshake _ _ _ _ _ _) as [out r].
  destruct r as [[[[k p] kd] rest]|]; [|done]. cbn [mbind result_bind]. intros [= <-]. eauto.
Qed.

(** Whether a connection is accepted does not depend on the number the link gets. *)
Lemma accept_id net scheme local opts a id id' c : accept_any net scheme local opts a id = Some (Ok c) ->
  exists c', accept_any net scheme local opts a id' = Some (Ok c') /\ c_remote_key c' = c_remote_key c.
Proof.
  assert (forall (stream : RawStream) (addr : bytes), Some (complete stream local opts true (Some addr) id) = Some (Ok c) ->
    exists c', Some (complete stream local opts true (Some addr) id') = Some (Ok c') /\ c_remote_key c' = c_remote_key c) as Hc.
  { intros stream addr [= (c' & -> & Hk)%(complete_id _ _ _ _ _ _ id')]. eauto. }
  unfold accept_any, quic_accept, tcp_accept, tls_accept, ws_accept, wss_accept, complete_accept, ws_server_handshake.
  destruct scheme, a as [[e|[sock addr]]|]; cbn [io timed mbind result_bind]; try done; try apply Hc.
  - destruct (timed (n_tls_server net sock)) as [stream|]; cbn [mbind result_bind]; [apply Hc|done].
  - destruct (n_upgrade_server net sock) as [[offered [e|stream]]|]; cbn; [| |done]; destruct (offer_accepted offered); try done; apply Hc.
  - destruct (timed (n_tls_server net sock)) as [tls|]; cbn [mbind result_bind]; [|done].
    destruct (n_upgrade_server net tls) as [[offered [e|stream]]|]; cbn; [| |done]; destruct (offer_accepted offered); try done; apply Hc.
Qed.

Lemma accept_loop_sound {A} name (accept : A -> LinkId -> option (result AnyConn)) incoming id cmds n id' :
  accept_loop name accept incoming id = (cmds, n, id') ->
  forall cmd, cmd ∈ cmds -> exists a k c, a ∈ incoming /\ accept a k = Some (Ok c) /\ cmd = listen_accept name c.
Proof.
  revert id cmds n id'. induction incoming as [|a rest IH]; intros id cmds n id'; cbn [accept_loop].
  - intros [= <- _ _] cmd Hin. by apply not_elem_of_nil in Hin.
  - destruct (accept a id) as [[c|e]|] eqn:Ea.
    + destruct (accept_loop name accept rest (id + 1)) as [[cmds' m] j] eqn:El. intros [= <- _ _] cmd [->|Hin]%elem_of_cons.
      * exists a, id, c. split; [by left|done].
      * destruct (IH _ _ _ _ El cmd Hin) as (b & k & c' & Hb & E). exists b, k, c'. split; [by right|done].
    + destruct (accept_loop name accept rest id) as [[cmds' m] j] eqn:El. intros [= <- _ _] cmd Hin.
      destruct (IH _ _ _ _ El cmd Hin) as (b & k & c' & Hb & E). exists b, k, c'. split; [by right|done].
    + intros [= <- _ _] cmd Hin. by apply not_elem_of_nil in Hin.
Qed.

Lemma accept_loop_complete {A} name (accept : A -> LinkId -> option (result AnyConn)) incoming id cmds n id' :
  (forall a k, a ∈ incoming -> accept a k <> None) -> accept_loop name accept incoming id = (cmds, n, id') ->
  n = length incoming /\ forall a, a ∈ incoming -> exists k, forall c, accept a k = Some (Ok c) -> listen_accept name c ∈ cmds.
Proof.
  revert id cmds n id'. induction incoming as [|a rest IH]; intros id cmds n id' Hn; cbn [accept_loop].
  - intros [= <- <- _]. split; [done|]. by intros a ?%not_elem_of_nil.
  - assert (forall b k, b ∈ rest -> accept b k <> None) as Hrest by (intros b k Hb; apply Hn; by right).
    destruct (accept a id) as [[c|e]|] eqn:Ea; [| |exfalso; by apply (Hn a id); [left|]].
    + destruct (accept_loop name accept rest (id + 1)) as [[cmds' m] j] eqn:El. intros [= <- <- _].
      destruct (IH _ _ _ _ Hrest El) as [-> Hin]. split; [done|]. intros b [->|Hb]%elem_of_cons.
      * exists id. intros c' Hc. rewrite Ea in Hc. injection Hc as ->. by left.
      * destruct (Hin b Hb) as [k Hk]. exists k. intros c' Hc. right. by apply Hk.
    + destruct (accept_loop name accept rest id) as [[cmds' m] j] eqn:El. intros [= <- <- _].
      destruct (IH _ _ _ _ Hrest El) as [-> Hin]. split; [done|]. intros b [->|Hb]%elem_of_cons; [|by apply Hin].
      exists id. intros c' Hc. by rewrite Ea in Hc.
Qed.

(** A connection whose accept returns. The plain TCP and TLS accepts wait only
    for the listening socket; a WebSocket's waits, without a deadline, for the
    client's request. *)
Definition accept_returns (net : Net) (scheme : Scheme) (a : deadline (RawStream * bytes)) : Prop :=
  match scheme, a with
  | SchemeQuic, _ => True
  | _, None => False
  | SchemeWs, Some (inr (sock, _)) => is_Some (n_upgrade_server net sock)
  | SchemeWss, Some (inr (sock, _)) => forall tls, timed (n_tls_server net sock) = Ok tls -> is_Some (n_upgrade_server net tls)
  | _, Some _ => True
  end.

Lemma returns_some net scheme local opts a id : accept_returns net scheme a -> accept_any net scheme local opts a id <> None.
Proof.
  unfold accept_returns, accept_any, ws_accept, wss_accept, ws_server_handshake.
  destruct scheme, a as [[e|[sock addr]]|]; cbn [io timed mbind result_bind]; try done.
  - by intros [x ->].
  - intros Hu. destruct (timed (n_tls_server net sock)) as [tls|]; cbn [mbind result_bind]; [|done].
    by destruct (Hu tls eq_refl) as [x ->].
Qed.

(** C14: a listener goes on. Whatever connections it is given, as long as each of
    them answers, it handles them all: a failed handshake costs only its own
    connection, every connection whose handshake succeeds reaches the node, and
    what reaches the node is a link accepted from one of them, to a peer that
    proved a key of the allow-list, under a URI of the listener's scheme and
    the peer's address. *)
Theorem listener_serves net scheme local opts incoming id : Forall (accept_returns net scheme) incoming ->
  let '(cmds, n, _) := accept_loop (scheme_name scheme) (accept_any net scheme local opts) incoming id in
  n = length incoming /\
  (forall a k c, a ∈ incoming -> accept_any net scheme local opts a k = Some (Ok c) ->
    exists c', CmdAccept c' ((fun addr => scheme_name scheme ++ str "://" ++ addr) <$> c_remote_addr c') ∈ cmds /\
      c_remote_key c' = c_remote_key c) /\
  (forall cmd, cmd ∈ cmds -> exists sock addr stream c,
    cmd = CmdAccept c (Some (scheme_name scheme ++ str "://" ++ addr)) /\ Some (inr (sock, addr)) ∈ incoming /\
    opened local opts true (Some addr) stream c).
Proof.
  intros Ha. destruct (accept_loop _ _ _ _) as [[cmds n] id'] eqn:El.
  assert (forall a k, a ∈ incoming -> accept_any net scheme local opts a k <> None) as Hn.
  { intros a k Hin. apply returns_some. rewrite Forall_forall in Ha. by apply Ha. }
  destruct (accept_loop_complete _ _ _ _ _ _ _ Hn El) as [-> Hc]. split; [done|]. split.
  - intros a k c Hin Hok. destruct (Hc a Hin) as [j Hj]. destruct (accept_id _ _ _ _ _ _ j _ Hok) as (c' & Hc' & Hk). eauto.
  - intros cmd Hin. destruct (accept_loop_sound _ _ _ _ _ _ _ El cmd Hin) as (a & k & c & Hi & Hok & ->).
    destruct (accept_opened _ _ _ _ _ _ _ Hok) as (sock & stream & addr & -> & Ho & _). exists sock, addr, stream, c.
    split; [|by split]. unfold listen_accept. destruct Ho as (_ & -> & _). done.
Qed.
End accepting.

(** ** Witnesses *)

Definition demo_meta (seed pw : bytes) : bytes :=
  unwrap_or (result_ok (@Meta_encode toy_ed25519 toy_blake2 (Meta_local (@verifying_key toy_ed25519 seed) 3) seed pw)) [].

(** A stream on which node [seed] greets, and goes on with a byte 99. *)
Definition demo_raw (seed pw : bytes) : RawStream := mkRaw (demo_meta seed pw ++ [99]) UnexpectedEof None false.

(** Node 1 is on interface 4 of this network, behind TLS, and nothing else is
    reachable. A client that sends nothing makes no WebSocket request. *)
Definition demo_net : Net := mkNet None (fun name => if bool_decide (name = str "wlan0") then Some 4 else None)
  (fun target => Some (match target with
     | TargetV6 a => if sa_scope_id a =? 4 then inr (demo_raw (replicate 32 1) (str "a b")) else inl UnexpectedEof
     | TargetHost _ => inl UnexpectedEof end))
  (fun _ => true) (fun _ tcp => Some (inr tcp)) (fun _ => true) (fun _ tcp => Some (inr (tcp, Some WS_SUBPROTOCOL)))
  (fun _ => inr []) (fun _ _ => None) (fun _ => false) (fun addr => inr (inr addr)) inr
  (fun sock => Some (inr sock))
  (fun sock => match raw_in sock with [] => None | _ => Some (Some WS_SUBPROTOCOL, inr sock) end) UnexpectedEof.

Definition demo_opts : LinkOptions := mkLinkOptions (str "a b") 5 None [].
Definition demo_dial_uri : bytes := str "tls://[fe80::1%wlan0]:4444".

Lemma dial_any_sound_witness :
  exists c, @dial_any std_hex toy_ed25519 toy_blake2 demo_net demo_dial_uri (replicate 32 2) demo_opts 7 = Ok c /\
    c_remote_key c = replicate 32 1 /\ c_id c = 7 /\ c_priority c = 5 /\ st_in (c_stream c) = [99] /\
    c_remote_key c <> @verifying_key toy_ed25519 (replicate 32 2).
Proof.
  destruct (@dial_any std_hex toy_ed25519 toy_blake2 demo_net demo_dial_uri (replicate 32 2) demo_opts 7) as [c|] eqn:E; [|vm_compute in E; discriminate E].
  assert ((fun c => (c_remote_key c, c_priority c, st_in (c_stream c))) <$>
    result_ok (@dial_any std_hex toy_ed25519 toy_blake2 demo_net demo_dial_uri (replicate 32 2) demo_opts 7) = Some (replicate 32 1, 5, [99])) as E2
    by (vm_compute; reflexivity).
  rewrite E in E2. injection E2 as Hk Hp Hi.
  destruct (@dial_any_sound std_hex toy_ed25519 toy_blake2 demo_net demo_dial_uri (replicate 32 2) demo_opts 7 c E)
    as (scheme & peer & stream & _ & _ & (_ & _ & _ & Hne & _) & Hid & _).
  exists c. split; [reflexivity|]. repeat split; assumption.
Defined.

(** Node 2 hears node 1's beacon on [wlan0] and links up with it, in scope 4. *)
Lemma lan_dial_reaches_witness :
  exists uri, @receive toy_blake2 std_hex (@set_interfaces toy_blake2 (Multicast_new (replicate 32 2)) [demo_lan_b]) (str "wlan0") demo_from
      (Advertisement_encode (mkAdvertisement 0 5 (replicate 32 1) 4444 (@membership_hash toy_blake2 (str "a b") (replicate 32 1)))) =
      Some (DialPeer uri (str "wlan0") (replicate 32 1)) /\
    exists c, @dial_any std_hex toy_ed25519 toy_blake2 demo_net uri (replicate 32 2) demo_opts 7 = Ok c /\ c_remote_key c = replicate 32 1.
Proof.
  set (buf := Advertisement_encode _). set (m := @set_interfaces _ _ _).
  set (uri := str "tls://[fe80::1%wlan0]:4444?key=0101010101010101010101010101010101010101010101010101010101010101&password=a+b&priority=0").
  assert (@receive toy_blake2 std_hex m (str "wlan0") demo_from buf = Some (DialPeer uri (str "wlan0") (replicate 32 1))) as E
    by (vm_compute; reflexivity).
  exists uri. split; [exact E|].
  destruct (@lan_dial_reaches std_hex std_hex_laws toy_ed25519 toy_blake2 demo_net m (str "wlan0") demo_from buf uri (str "wlan0")
    (replicate 32 1) (replicate 32 2) demo_opts 7 4 E) as (adv & cfg & _ & _ & _ & _ & _ & Hkey).
  - intros st cfg Hst Hc. assert ((mc_ifaces m !! str "wlan0") ≫= is_cfg = Some demo_lan_b) as E2 by (vm_compute; reflexivity).
    rewrite Hst in E2. cbn in E2. rewrite Hc in E2. injection E2 as ->. apply demo_iface_ok. auto.
  - split; [reflexivity|]. repeat constructor; unfold is_u16; lia.
  - discriminate.
  - by_dec.
  - by_dec.
  - by_dec.
  - reflexivity.
  - destruct (@dial_any std_hex toy_ed25519 toy_blake2 demo_net uri (replicate 32 2) demo_opts 7) as [c|] eqn:Ed; [|vm_compute in Ed; discriminate Ed].
    exists c. split; [reflexivity|]. by apply Hkey.
Defined.

(** Node 2 hears node 1 on [wlan0]; node 1 listens under the interface's password. *)
Definition demo_adv : Advertisement := mkAdvertisement 0 5 (replicate 32 1) 4444 (@membership_hash toy_blake2 (str "a b") (replicate 32 1)).
Definition demo_listen_opts (pw : bytes) : LinkOptions := mkLinkOptions pw 3 None [].

(** A network in which dials and accepts get the streams given. *)
Definition demo_cross (dialed acceptd : RawStream) : Net := mkNet None (fun name => if bool_decide (name = str "wlan0") then Some 4 else None)
  (fun target => Some (inr dialed)) (fun _ => true) (fun _ tcp => Some (inr tcp)) (fun _ => true) (fun _ tcp => Some (inr (tcp, None)))
  (fun _ => inr []) (fun _ _ => None) (fun _ => false) (fun addr => inr (inr addr)) inr (fun _ => Some (inr acceptd)) (fun _ => None) UnexpectedEof.

Lemma lan_neighbours_link_witness : exists net sock ca cb,
  @dial_any std_hex toy_ed25519 toy_blake2 net (@dial_uri std_hex demo_lan_b demo_adv (sa_ip demo_from) (str "wlan0")) (replicate 32 2) (demo_listen_opts []) 7 = Ok cb /\
  @tls_accept toy_ed25519 toy_blake2 net (inr (sock, str "[fe80::2]:5")) (replicate 32 1) (demo_listen_opts (str "a b")) 8 = Ok ca /\
  c_remote_key cb = @verifying_key toy_ed25519 (replicate 32 1) /\ c_remote_key ca = @verifying_key toy_ed25519 (replicate 32 2) /\
  c_priority ca = c_priority cb /\ st_in (c_stream cb) = [1] /\ st_in (c_stream ca) = [2].
Proof.
  destruct (@lan_neighbours_link std_hex std_hex_laws toy_ed25519 toy_ed25519_laws toy_blake2 toy_blake2_laws (replicate 32 1) (replicate 32 2)
    demo_adv demo_lan_b (sa_ip demo_from) (str "wlan0") (demo_listen_opts (str "a b")) (demo_listen_opts []) 4 UnexpectedEof UnexpectedEof [1] [2] 8 7
    (str "[fe80::2]:5") (mkRaw [] UnexpectedEof None false) (mkRaw [] UnexpectedEof None false)) as (ma & mb & Hnet);
    [apply demo_iface_ok; auto|split; [reflexivity|repeat constructor; unfold is_u16; lia]|discriminate|by_dec|by_dec|split; [discriminate|reflexivity]
    |reflexivity|discriminate|reflexivity|cbn; unfold MAX_PASSWORD_LEN; lia|split; [discriminate|reflexivity]|split; [discriminate|reflexivity]|reflexivity|by left|].
  set (cross := mkNet None (fun name => if bool_decide (name = str "wlan0") then Some 4 else None)
    (fun _ => Some (inr (mkRaw [] UnexpectedEof None false))) (fun _ => true) (fun _ _ => Some (inr (mkRaw (ma ++ [1]) UnexpectedEof None false)))
    (fun _ => true) (fun _ tcp => Some (inr (tcp, None))) (fun _ => inr []) (fun _ _ => None) (fun _ => false) (fun addr => inr (inr addr)) inr
    (fun _ => Some (inr (mkRaw (mb ++ [2]) UnexpectedEof None false))) (fun _ => None) UnexpectedEof).
  destruct (Hnet cross cross) as (ca & cb & H1 & H2 & H3 & H4 & H5 & _ & _ & H6 & H7); [reflexivity..|].
  exists cross, (mkRaw [] UnexpectedEof None false), ca, cb. auto 10.
Defined.

(** What the client does instead: its listeners run under the options of the
    configuration, which have no password, so neither end of a dial that a beacon
    of an interface with a password triggers accepts the other. *)
Example lan_password_refused :
  let net := demo_cross (demo_raw (replicate 32 1) []) (demo_raw (replicate 32 2) (str "a b")) in
  @dial_any std_hex toy_ed25519 toy_blake2 net (@dial_uri std_hex demo_lan_b demo_adv (sa_ip demo_from) (str "wlan0")) (replicate 32 2) (demo_listen_opts []) 7 =
    Err (Core BadPassword) /\
  @tls_accept toy_ed25519 toy_blake2 net (inr (mkRaw [] UnexpectedEof None false, str "[fe80::2]:5")) (replicate 32 1) (demo_listen_opts []) 8 = Err (Core BadPassword).
Proof. vm_compute. done. Qed.

(** Three connections to a TLS listener: one that says nothing, node 1, one that
    does not shake hands. *)
Definition demo_incoming : list (deadline (RawStream * bytes)) :=
  [Some (inr (mkRaw [] UnexpectedEof None true, str "[fe80::3]:1")); Some (inr (demo_raw (replicate 32 1) (str "a b"), str "[fe80::1]:2")); Some (inl (OtherIo 24))].

Lemma listener_serves_witness :
  exists c uri cmds id, accept_loop (str "tls") (@accept_any toy_ed25519 toy_blake2 demo_net SchemeTls (replicate 32 2) demo_opts) demo_incoming 7 = (cmds, 3%nat, id) /\
    CmdAccept c uri ∈ cmds /\ c_remote_key c = replicate 32 1.
Proof.
  pose proof (@listener_serves toy_ed25519 toy_blake2 demo_net SchemeTls (replicate 32 2) demo_opts demo_incoming 7
    ltac:(unfold demo_incoming; repeat constructor)) as Hl. change (scheme_name SchemeTls) with (str "tls") in Hl.
  destruct (accept_loop _ _ _ _) as [[cmds n] id] eqn:El. destruct Hl as (-> & Hall & _).
  set (a := Some (inr (demo_raw (replicate 32 1) (str "a b"), str "[fe80::1]:2")) : deadline (RawStream * bytes)).
  assert (c_remote_key <$> (@accept_any toy_ed25519 toy_blake2 demo_net SchemeTls (replicate 32 2) demo_opts a 7 ≫= result_ok) = Some (replicate 32 1)) as Ek
    by (vm_compute; reflexivity).
  destruct (@accept_any toy_ed25519 toy_blake2 demo_net SchemeTls (replicate 32 2) demo_opts a 7) as [[c|]|] eqn:Ea; [|discriminate Ek..].
  injection Ek as Hk. destruct (Hall a 7 c) as (c' & Hin & Hk'); [right; by left|exact Ea|].
  eexists c', _, cmds, id. split; [reflexivity|]. split; [exact Hin|]. by rewrite Hk'.
Defined.

(** The same connections to a WebSocket listener: the silent client holds the
    task for good, and node 1 is never accepted. *)
Example silent_client_stops_ws :
  accept_loop (str "ws") (@accept_any toy_ed25519 toy_blake2 demo_net SchemeWs (replicate 32 2) demo_opts) demo_incoming 7 = ([], 0%nat, 7).
Proof. vm_compute. reflexivity. Qed.

(** A zone leads nowhere over [ws://]: the text goes to name resolution as it is. *)
Example ws_keeps_the_zone :
  @dial_any std_hex toy_ed25519 toy_blake2 demo_net (str "ws://[fe80::1%wlan0]:4444") (replicate 32 2) demo_opts 7 = Err (Io UnexpectedEof) /\
  c_remote_key <$> result_ok (@dial_any std_hex toy_ed25519 toy_blake2 demo_net (str "wss://[fe80::1%wlan0]:4444") (replicate 32 2) demo_opts 7) = Some (replicate 32 1).
Proof. vm_compute. done. Qed.
