(* ===== verification/Report.v ===== *)
(** * Report: the text of errors and the responses of the admin socket as they
    are serialised ([Display] of [core/src/error.rs] and [src/error.rs], the
    [Serialize] impls of [client/src/admin.rs]).

    A response is what the serializer is told: structs with their members in
    order, less the ones Go's [omitempty] hides. How that becomes JSON text is
    the serializer's. *)
From Stdlib Require Import Strings.String Floats.SpecFloat.
From stdpp Require Import base tactics list numbers gmap.
From S2P Require Import Prelude Errors Clock Frame Address Table Bloom Wire Handshake LinkSet Router Session Protocol Driver Text Uri Peers Tun Views Node Discover Config PeerList Admin.
From S2P Require Import Lan Dial Demo Delivery AdminRun.

Local Open Scope Z_scope.

(** ** Error texts *)

(** What the libraries say of an I/O error and of a text that is not JSON. *)
Class Texts := { io_text : IoError -> bytes; json_text : bytes }.

Definition CoreError_text (e : CoreError) : bytes :=
  match e with
  | InvalidPreamble => str "invalid handshake, remote side is not Yggdrasil"
  | InvalidLength => str "invalid handshake length, possible version mismatch"
  | BadPassword => str "password does not match remote side"
  | BadVersion theirs ours => str "incompatible version " ++ dec theirs ++ str "." ++ dec ours ++ str ", expected 0.5"
  | SelfDial => str "node cannot connect to self"
  | KeyNotAllowed => str "remote key not in allowlist"
  | PinnedMismatch => str "pinned key mismatch"
  | PasswordTooLong => str "password longer than 64 bytes"
  | UnrecognisedSchema => str "link schema unknown"
  | PinnedKeyInvalid => str "pinned public key is invalid"
  | PriorityInvalid => str "priority value is invalid"
  | PasswordInvalid => str "invalid password supplied"
  | MaxBackoffInvalid => str "max backoff duration invalid"
  | BadSubprotocol => str "websocket subprotocol mismatch, expected ygg-ws"
  | Timeout => str "handshake timed out"
  | NoLink => str "no open link to this peer"
  end.

Section texts.
Context `{!Texts}.

Definition Error_text (e : Error) : bytes :=
  match e with
  | Core e => CoreError_text e
  | Io e => str "io: " ++ io_text e
  | BadUri u => str "bad peer URI: " ++ u
  | BadMaxBackoff m => str "max backoff duration invalid: " ++ m
  end.

Definition AdminError_text (e : AdminError) : bytes :=
  match e with
  | Said text => text
  | ErrorText e => Error_text e
  | BadRemoteJson => str "invalid character in remote response: " ++ json_text
  end.
End texts.

(** ** Serialised values *)

Inductive Out : Type :=
  | OUnit
  | OBool (b : bool)
  | OU64 (n : Z)
  | OF64 (x : f64)
  | OStr (s : bytes)
  | OSeq (l : list Out)
  | OStruct (members : list (bytes * Out))
  | OValue (v : Value).

(** [skip_serializing_if] *)
Definition unless (skip : bool) (name : bytes) (v : Out) : list (bytes * Out) := if skip then [] else [(name, v)].

Definition is_zero_f64 (x : f64) : bool := match x with S754_zero _ => true | _ => false end.

(** [fract() == 0.0] *)
Definition f64_whole (x : f64) : bool :=
  match x with
  | S754_zero _ => true
  | S754_finite _ m e => (0 <=? e) || (Z.pos m mod 2 ^ (- e) =? 0)
  | _ => false
  end.

(** [as u64]: towards zero, saturating, and 0 for NaN. *)
Definition f64_as_u64 (x : f64) : Z :=
  match x with
  | S754_zero _ | S754_nan => 0
  | S754_infinity s => if s then 0 else U64_MAX
  | S754_finite s m e => if s then 0 else Z.min (Z.shiftl (Z.pos m) e) U64_MAX
  end.

Definition go_seconds (x : f64) : Out := if f64_whole x then OU64 (f64_as_u64 x) else OF64 x.

Definition Request_out (r : Request) : Out :=
  OStruct ([(str "request", OStr (rq_request r))] ++
    match rq_arguments r with Some v => [(str "arguments", OValue v)] | None => [] end ++
    unless (negb (rq_keepalive r)) (str "keepalive") (OBool (rq_keepalive r))).

Definition ListEntry_out (e : ListEntry) : Out :=
  OStruct ([(str "command", OStr (le_command e)); (str "description", OStr (le_description e))] ++
    unless (is_empty (le_fields e)) (str "fields") (OSeq (OStr <$> le_fields e))).

Definition GetSelf_out (b : GetSelfResponse) : Out :=
  OStruct [(str "build_name", OStr (gs_build_name b)); (str "build_version", OStr (gs_build_version b)); (str "key", OStr (gs_key b));
    (str "address", OStr (gs_address b)); (str "routing_entries", OU64 (Z.of_nat (gs_routing_entries b))); (str "subnet", OStr (gs_subnet b))].

Definition TreeEntry_out (e : TreeEntry) : Out :=
  OStruct [(str "address", OStr (te_address e)); (str "key", OStr (te_key e)); (str "parent", OStr (te_parent e)); (str "sequence", OU64 (te_sequence e))].

Definition PathRow_out (e : PathRow) : Out :=
  OStruct [(str "address", OStr (pw_address e)); (str "key", OStr (pw_key e)); (str "path", OSeq (OU64 <$> pw_path e)); (str "sequence", OU64 (pw_sequence e))].

Definition SessionEntry_out (e : SessionEntry) : Out := OStruct [(str "address", OStr (se_address e)); (str "key", OStr (se_key e))].

Definition MulticastState_out (s : MulticastInterfaceState) : Out :=
  OStruct [(str "name", OStr (ms_name s)); (str "address", OStr (ms_address s)); (str "beacon", OBool (ms_beacon s)); (str "listen", OBool (ms_listen s));
    (str "password", OBool (ms_password s))].

Definition GetTun_out (b : GetTunResponse) : Out :=
  OStruct ([(str "enabled", OBool (gt_enabled b))] ++
    match gt_name b with Some n => [(str "name", OStr n)] | None => [] end ++
    match gt_mtu b with Some n => [(str "mtu", OU64 n)] | None => [] end).

Section responses.
Context `{!Texts}.

Definition last_error_text (p : PeerEntry) : bytes := unwrap_or (Error_text <$> pe_last_error p) [].

Definition PeerEntry_out (p : PeerEntry) : Out :=
  OStruct (
    unless (is_empty (pe_remote p)) (str "remote") (OStr (pe_remote p)) ++
    [(str "up", OBool (pe_up p)); (str "inbound", OBool (pe_inbound p))] ++
    unless (is_empty (pe_address p)) (str "address") (OStr (pe_address p)) ++
    [(str "key", OStr (pe_key p)); (str "port", OU64 (pe_port p)); (str "priority", OU64 (pe_priority p)); (str "cost", OU64 (pe_cost p))] ++
    unless (pe_bytes_recvd p =? 0) (str "bytes_recvd") (OU64 (pe_bytes_recvd p)) ++
    unless (pe_bytes_sent p =? 0) (str "bytes_sent") (OU64 (pe_bytes_sent p)) ++
    unless (pe_rate_recvd p =? 0) (str "rate_recvd") (OU64 (pe_rate_recvd p)) ++
    unless (pe_rate_sent p =? 0) (str "rate_sent") (OU64 (pe_rate_sent p)) ++
    unless (is_zero_f64 (pe_uptime p)) (str "uptime") (go_seconds (pe_uptime p)) ++
    unless (pe_latency p =? 0) (str "latency") (OU64 (pe_latency p)) ++
    unless (pe_last_error_time p =? 0) (str "last_error_time") (OU64 (pe_last_error_time p)) ++
    unless (is_empty (last_error_text p)) (str "last_error") (OStr (last_error_text p))).

Definition Body_out (b : Body) : Out :=
  match b with
  | BodyNull => OUnit
  | BodyEmpty => OStruct []
  | BodyList l => OStruct [(str "list", OSeq (ListEntry_out <$> l))]
  | BodySelf b => GetSelf_out b
  | BodyPeers l => OStruct [(str "peers", OSeq (PeerEntry_out <$> l))]
  | BodyTree l => OStruct [(str "tree", OSeq (TreeEntry_out <$> l))]
  | BodyPaths l => OStruct [(str "paths", OSeq (PathRow_out <$> l))]
  | BodySessions l => OStruct [(str "sessions", OSeq (SessionEntry_out <$> l))]
  | BodyMulticast l => OStruct [(str "multicast_interfaces", OSeq (MulticastState_out <$> l))]
  | BodyTun b => GetTun_out b
  | BodyMap v => OValue v
  end.

Definition error_text (r : Response) : bytes := unwrap_or (AdminError_text <$> rs_error r) [].

Definition Response_out (r : Response) : Out :=
  OStruct ([(str "status", OStr (rs_status r))] ++ unless (is_empty (error_text r)) (str "error") (OStr (error_text r)) ++
    [(str "request", Request_out (rs_request r)); (str "response", Body_out (rs_response r))]).
End responses.

(** ** Reading a response *)

Fixpoint out_member (ms : list (bytes * Out)) (name : bytes) : option Out :=
  match ms with
  | [] => None
  | (n, v) :: ms => if bool_decide (n = name) then Some v else out_member ms name
  end.

(** Go's [json.Unmarshal] of a member: absent is the zero value, another type is
    an error. *)
Definition read_str (ms : list (bytes * Out)) (name : bytes) : option bytes :=
  match out_member ms name with None => Some [] | Some (OStr s) => Some s | Some _ => None end.
Definition read_bool (ms : list (bytes * Out)) (name : bytes) : option bool :=
  match out_member ms name with None => Some false | Some (OBool b) => Some b | Some _ => None end.
Definition read_u64 (ms : list (bytes * Out)) (name : bytes) : option Z :=
  match out_member ms name with None => Some 0 | Some (OU64 n) => Some n | Some _ => None end.

(** A float member; a whole number is read as one. *)
Inductive seconds : Type := Whole (n : Z) | Fraction (x : f64).
Definition read_seconds (ms : list (bytes * Out)) (name : bytes) : option seconds :=
  match out_member ms name with None => Some (Whole 0) | Some (OU64 n) => Some (Whole n) | Some (OF64 x) => Some (Fraction x) | Some _ => None end.
Definition seconds_of (x : f64) : seconds := if f64_whole x then Whole (f64_as_u64 x) else Fraction x.

Lemma out_member_unless skip n v ms name :
  out_member (unless skip n v ++ ms) name = if bool_decide (n = name) then (if skip then out_member ms name else Some v) else out_member ms name.
Proof. unfold unless. destruct skip; cbn; by case_bool_decide. Qed.

Lemma out_member_unless_last skip n v name :
  out_member (unless skip n v) name = if bool_decide (n = name) then (if skip then None else Some v) else None.
Proof. rewrite <-(app_nil_r (unless skip n v)). apply out_member_unless. Qed.

Lemma out_member_cons n v ms name : out_member ((n, v) :: ms) name = if bool_decide (n = name) then Some v else out_member ms name.
Proof. done. Qed.

(** Finds a member by computing the comparisons of the names only. *)
Ltac find_member :=
  repeat (rewrite <-?app_comm_cons; cbn [app];
    first [rewrite out_member_cons | rewrite out_member_unless | rewrite out_member_unless_last];
    match goal with |- context [bool_decide (?a = ?b)] =>
      first [replace (bool_decide (a = b)) with true by (vm_compute; reflexivity)
            |replace (bool_decide (a = b)) with false by (vm_compute; reflexivity)] end; cbv iota).

Lemma out_member_nil name : out_member [] name = None.
Proof. done. Qed.

(** A row of [getPeers], as its reader has it. *)
Record PeerRead : Type := mkPeerRead {
  rd_remote : bytes; rd_up : bool; rd_inbound : bool; rd_address : bytes; rd_key : bytes; rd_port : Z; rd_priority : Z; rd_cost : Z;
  rd_bytes_recvd : Z; rd_bytes_sent : Z; rd_rate_recvd : Z; rd_rate_sent : Z; rd_uptime : seconds; rd_latency : Z;
  rd_last_error_time : Z; rd_last_error : bytes }.

Definition read_peer (o : Out) : option PeerRead :=
  match o with
  | OStruct ms =>
    remote ← read_str ms (str "remote"); up ← read_bool ms (str "up"); inbound ← read_bool ms (str "inbound");
    address ← read_str ms (str "address"); key ← read_str ms (str "key"); port ← read_u64 ms (str "port");
    priority ← read_u64 ms (str "priority"); cost ← read_u64 ms (str "cost"); rx ← read_u64 ms (str "bytes_recvd");
    tx ← read_u64 ms (str "bytes_sent"); rxr ← read_u64 ms (str "rate_recvd"); txr ← read_u64 ms (str "rate_sent");
    uptime ← read_seconds ms (str "uptime"); latency ← read_u64 ms (str "latency"); et ← read_u64 ms (str "last_error_time");
    err ← read_str ms (str "last_error");
    Some (mkPeerRead remote up inbound address key port priority cost rx tx rxr txr uptime latency et err)
  | _ => None
  end.

Lemma read_unless_str (s : bytes) :
  match (if is_empty s then None else Some (OStr s)) with None => Some [] | Some (OStr s) => Some s | Some _ => None end = Some s.
Proof. by destruct s. Qed.

Lemma read_unless_u64 (n : Z) :
  match (if n =? 0 then None else Some (OU64 n)) with None => Some 0 | Some (OU64 n) => Some n | Some _ => None end = Some n.
Proof. by destruct (Z.eqb_spec n 0) as [->|]. Qed.

Lemma read_unless_seconds (x : f64) :
  match (if is_zero_f64 x then None else Some (go_seconds x)) with
  | None => Some (Whole 0) | Some (OU64 n) => Some (Whole n) | Some (OF64 x) => Some (Fraction x) | Some _ => None end = Some (seconds_of x).
Proof. unfold go_seconds, seconds_of. destruct x as [| | |]; try done. cbn [is_zero_f64]. by destruct (f64_whole _). Qed.

Section reading.
Context `{!Texts}.

Definition peer_read (p : PeerEntry) : PeerRead :=
  mkPeerRead (pe_remote p) (pe_up p) (pe_inbound p) (pe_address p) (pe_key p) (pe_port p) (pe_priority p) (pe_cost p) (pe_bytes_recvd p)
    (pe_bytes_sent p) (pe_rate_recvd p) (pe_rate_sent p) (seconds_of (pe_uptime p)) (pe_latency p) (pe_last_error_time p) (last_error_text p).

Lemma peer_reads_back p : read_peer (PeerEntry_out p) = Some (peer_read p).
Proof.
  unfold read_peer, PeerEntry_out.
  do 16 (first [unfold read_str at 1|unfold read_bool at 1|unfold read_u64 at 1|unfold read_seconds at 1]; find_member; rewrite ?out_member_nil;
    rewrite ?read_unless_str, ?read_unless_u64, ?read_unless_seconds; cbn [mbind option_bind]).
  done.
Qed.

Definition read_request (o : Out) : option Request :=
  match o with
  | OStruct ms =>
    request ← read_str ms (str "request"); keepalive ← read_bool ms (str "keepalive");
    arguments ← match out_member ms (str "arguments") with None => Some None | Some (OValue v) => Some (Some v) | Some _ => None end;
    Some (mkRequest request arguments keepalive)
  | _ => None
  end.

Definition read_response (o : Out) : option (bytes * bytes * Request * Out) :=
  match o with
  | OStruct ms =>
    status ← read_str ms (str "status"); error ← read_str ms (str "error"); request ← out_member ms (str "request") ≫= read_request;
    body ← out_member ms (str "response"); Some (status, error, request, body)
  | _ => None
  end.

Definition read_peers (o : Out) : option (list PeerRead) :=
  match o with
  | OStruct ms => match out_member ms (str "peers") with Some (OSeq l) => mapM read_peer l | _ => None end
  | _ => None
  end.

Lemma request_reads_back r : read_request (Request_out r) = Some r.
Proof.
  destruct r as [request arguments keepalive]. unfold read_request, Request_out, read_str, read_bool. cbn [rq_request rq_arguments rq_keepalive].
  destruct arguments as [v|], keepalive; reflexivity.
Qed.

Lemma peers_read_back l : read_peers (Body_out (BodyPeers l)) = Some (peer_read <$> l).
Proof.
  unfold read_peers, Body_out. find_member. induction l as [|p l IH]; [done|]. rewrite !fmap_cons.
  change (mapM read_peer (?o :: ?os)) with (y ← read_peer o; k ← mapM read_peer os; mret (M := option) (y :: k)).
  rewrite peer_reads_back, IH. done.
Qed.

(** What a reader has of a response, and of a list of peers in it, is what the
    socket meant, although zero values are left out: the status, the error's
    text, the request, every field of every peer. *)
Theorem response_reads_back echo r :
  read_response (Response_out (response_of echo r)) =
    Some (match r with
          | inl b => (str "success", [], echo, Body_out b)
          | inr e => (str "error", AdminError_text e, echo, OUnit)
          end) /\
  (forall l, r = inl (BodyPeers l) -> read_peers (Body_out (rs_response (response_of echo r))) = Some (peer_read <$> l)).
Proof.
  split; [|intros l ->; apply peers_read_back].
  unfold read_response, Response_out, read_str. find_member. cbn [mbind option_bind]. rewrite read_unless_str. cbn [mbind option_bind].
  rewrite request_reads_back. cbn [mbind option_bind]. by destruct r.
Qed.
End reading.

(** ** What the socket does not show *)

(** Two nodes that differ only in the queries of their peers' URIs, which hold
    passwords, and in when they dial. *)
Definition same_shown (e e' : Entry) : Prop :=
  link_id (en_uri e) = link_id (en_uri e') /\ en_sintf e = en_sintf e' /\ en_kind e = en_kind e' /\ en_live e = en_live e' /\
  en_last_error e = en_last_error e' /\ en_err_at e = en_err_at e'.

Lemma peer_row_same links known now e e' : same_shown e e' -> peer_row links known now e = peer_row links known now e'.
Proof. intros (Hu & Hs & Hk & Hl & He & Ha). unfold peer_row. by rewrite Hu, Hs, Hk, Hl, He, Ha. Qed.

Lemma link_id_no_query uri : 63 ∉ link_id uri.
Proof.
  unfold link_id. destruct (split_once 63 uri) as [[a b]|] eqn:E; [by apply split_once_Some in E as [_ E]|].
  by apply split_once_None in E.
Qed.

(** Two outcomes of a step: the same world and results that are alike. *)
Definition both {A} (R : A -> A -> Prop) (o o' : outcome A) : Prop :=
  match o, o' with
  | Done w (Ok a), Done w' (Ok a') => w = w' /\ R a a'
  | Done w (Err e), Done w' (Err e') => w = w' /\ e = e'
  | Panic, Panic | OutOfFuel, OutOfFuel => True
  | _, _ => False
  end.

Lemma both_bind {A B} (R : B -> B -> Prop) (m : M A) (k k' : A -> M B) w :
  (forall a w, both R (k a w) (k' a w)) -> both R ((m ≫= k) w) ((m ≫= k') w).
Proof. intros Hk. unfold mbind, M_bind. destruct (m w) as [w' [a|e]| |]; [apply Hk|done..]. Qed.

Lemma both_ret {A} (R : A -> A -> Prop) a a' w : R a a' -> both R (mret (M := M) a w) (mret (M := M) a' w).
Proof. by split. Qed.

Record alike (n n' : NodeState) : Prop := mkAlike {
  al_rows : Forall2 same_shown (lk_entries (nd_peers n)) (lk_entries (nd_peers n'));
  al_token : lk_next_token (nd_peers n) = lk_next_token (nd_peers n');
  al_rest : set_peers_n Links_new n = set_peers_n Links_new n' }.

Lemma same_shown_refl e : same_shown e e.
Proof. by repeat split. Qed.

Lemma find_alike n n' uri sintf : alike n n' -> Links_find (nd_peers n) uri sintf = Links_find (nd_peers n') uri sintf.
Proof.
  intros [Hr _ _]. unfold Links_find. induction Hr as [|e e' es es' (Hu & Hs & _) Hr IH]; [done|]. cbn [position]. rewrite IH.
  unfold entry_info, LinkInfo_new. by rewrite Hu, Hs.
Qed.

(** A change of the rows that keeps them alike keeps the nodes alike. *)
Lemma alike_rows n n' es es' : alike n n' -> Forall2 same_shown es es' ->
  alike (set_peers_n (mkLinks es (lk_next_token (nd_peers n))) n) (set_peers_n (mkLinks es' (lk_next_token (nd_peers n'))) n').
Proof. intros [_ Ht He] Hr. by split. Qed.

Lemma alike_update n n' i f : alike n n' -> (forall e e', same_shown e e' -> same_shown (f e) (f e')) ->
  alike (set_peers_n (update_entry (nd_peers n) i f) n) (set_peers_n (update_entry (nd_peers n') i f) n').
Proof.
  intros Ha Hf. apply alike_rows; [done|]. destruct Ha as [Hr _ _]. revert i.
  induction Hr as [|e e' es es' He Hr IH]; intros i; [constructor|]. destruct i as [|i]; constructor; auto.
Qed.

Lemma alike_reply n n' c r : alike n n' -> alike (reply c r n) (reply c r n').
Proof. intros [Hr Ht He]. split; [done|done|]. destruct n, n'. cbn in *. by injection He as -> -> -> -> ->. Qed.

Lemma alike_reply_to n n' c r : alike n n' -> alike (reply_to c r n) (reply_to c r n').
Proof. destruct c; [apply alike_reply|done]. Qed.

Section hiding.
Context `{!Hex} `{!HexReport} `{!Unicode} `{!Json} `{!Ed25519} `{!NaclBox} `{!Env} `{!Texts}.

Lemma links_add_alike n n' uri sintf kind now : alike n n' ->
  alike (set_peers_n (Links_add (nd_peers n) uri sintf kind now).1 n) (set_peers_n (Links_add (nd_peers n') uri sintf kind now).1 n') /\
  (Links_add (nd_peers n) uri sintf kind now).2 = (Links_add (nd_peers n') uri sintf kind now).2.
Proof.
  intros Ha. unfold Links_add. rewrite (find_alike n n' _ _ Ha). destruct (parse_link_uri uri); [|split; [by destruct Ha|done]].
  destruct (Links_find (nd_peers n') uri sintf) as [i|]; (split; [|done]).
  - apply alike_update; [done|]. intros e e' (? & ? & ? & ? & ? & ?). by repeat split.
  - apply alike_rows; [done|]. destruct Ha as [Hr _ _]. apply Forall2_app; [done|]. repeat constructor.
Qed.

Lemma links_remove_alike n n' uri sintf : alike n n' ->
  alike (set_peers_n (Links_remove (nd_peers n) uri sintf).1 n) (set_peers_n (Links_remove (nd_peers n') uri sintf).1 n') /\
  (Links_remove (nd_peers n) uri sintf).2 = (Links_remove (nd_peers n') uri sintf).2.
Proof.
  intros Ha. unfold Links_remove. rewrite (find_alike n n' _ _ Ha). destruct (Links_find (nd_peers n') uri sintf) as [i|]; (split; [|done]); [|by destruct Ha].
  apply alike_rows; [done|]. destruct Ha as [Hr _ _]. apply Forall2_app; [by apply Forall2_take|by apply Forall2_drop].
Qed.

Lemma row_alike n n' i : alike n n' -> (lk_entries (nd_peers n) !! i ≫= en_live) = (lk_entries (nd_peers n') !! i ≫= en_live).
Proof.
  intros [Hr _ _]. revert i. induction Hr as [|e e' es es' He Hr IH]; intros i; [done|]. destruct i as [|i]; cbn; [|apply IH].
  by destruct He as (_ & _ & _ & -> & _).
Qed.

Lemma live_id_alike n n' uri sintf : alike n n' -> live_id (nd_peers n) uri sintf = live_id (nd_peers n') uri sintf.
Proof.
  intros Ha. unfold live_id. rewrite (find_alike n n' _ _ Ha). destruct (Links_find _ _ _) as [i|]; [|done]. cbn [mbind option_bind].
  by rewrite (row_alike n n').
Qed.

Lemma busy_alike n n' uri : alike n n' -> busy (nd_peers n) uri = busy (nd_peers n') uri.
Proof.
  intros Ha. unfold busy. rewrite (find_alike n n' _ _ Ha). destruct (Links_find _ _ _) as [i|]; [|done]. cbn [mbind option_bind].
  pose proof (row_alike n n' i Ha) as He.
  destruct (lk_entries (nd_peers n) !! i) eqn:E1, (lk_entries (nd_peers n') !! i) eqn:E2; cbn in He |- *.
  - by rewrite He.
  - by rewrite He.
  - by rewrite <-He.
  - done.
Qed.

Lemma snapshot_alike n n' r links now : alike n n' -> snapshot r links (nd_peers n) now = snapshot r links (nd_peers n') now.
Proof.
  intros [Hr _ _]. unfold snapshot. f_equal. induction Hr as [|e e' es es' He Hr IH]; [done|]. rewrite !fmap_cons.
  by rewrite IH, (peer_row_same _ _ _ e e').
Qed.

Lemma alike_accept n n' uri conn now : alike n n' ->
  alike (set_peers_n (Links_accept (nd_peers n) uri conn now) n) (set_peers_n (Links_accept (nd_peers n') uri conn now) n').
Proof.
  intros Ha. unfold Links_accept. rewrite (find_alike n n' _ _ Ha). destruct (Links_find (nd_peers n') uri []) as [i|].
  - apply alike_update; [done|]. intros e e' (? & ? & ? & ? & ? & ?). by repeat split.
  - apply alike_rows; [done|]. destruct Ha as [Hr _ _]. apply Forall2_app; [done|]. repeat constructor.
Qed.

(** Every command leaves two nodes that are alike in the same world, alike. *)
Lemma on_cmd_alike n n' cmd w : alike n n' -> both alike (on_cmd n cmd w) (on_cmd n' cmd w).
Proof.
  intros Ha. destruct cmd as [uri sintf persistent respond|uri sintf respond|conn uri|dest payload|respond|key what respond|respond|]; cbn [on_cmd].
  - apply both_bind. intros now w1.
    destruct (links_add_alike n n' uri sintf (if persistent then Persistent else Ephemeral) now Ha) as [Hl Hr].
    destruct (Links_add (nd_peers n) _ _ _ _) as [p o], (Links_add (nd_peers n') _ _ _ _) as [p' o']. cbn [fst snd] in *. subst o'.
    by apply both_ret, alike_reply_to.
  - rewrite (live_id_alike n n' _ _ Ha). destruct (links_remove_alike n n' uri sintf Ha) as [Hl Hr].
    destruct (Links_remove (nd_peers n) _ _) as [p o], (Links_remove (nd_peers n') _ _) as [p' o']. cbn [fst snd] in *. subst o'.
    apply both_bind. intros _ w1. by apply both_ret, alike_reply_to.
  - assert (match uri with Some uri => busy (nd_peers n) uri | None => false end = match uri with Some uri => busy (nd_peers n') uri | None => false end) as ->
      by (destruct uri; [by apply busy_alike|done]).
    destruct (match uri with Some uri => busy (nd_peers n') uri | None => false end); [by apply both_ret|].
    apply both_bind. intros [conn' registered] w1. destruct registered; [|by apply both_ret].
    apply both_bind. intros now w2. apply both_bind. intros _ w3. apply both_ret. destruct uri; [by apply alike_accept|done].
  - apply both_ret. destruct Ha as [Hr Ht He]. split; [done|done|]. destruct n, n'. cbn in *. by injection He as -> -> -> -> ->.
  - apply both_bind. intros now w1. apply both_bind. intros w2 w3. apply both_ret.
    rewrite (snapshot_alike n n' _ _ _ Ha). by apply alike_reply.
  - apply both_bind. intros sent w1. destruct sent; [|by apply both_ret, alike_reply].
    apply both_bind. intros now w2. apply both_ret. destruct Ha as [Hr Ht He]. split; [done|done|]. destruct n, n'. cbn in *. by injection He as -> -> -> -> ->.
  - apply both_ret. replace (nd_tun n') with (nd_tun n); [by apply alike_reply|]. destruct Ha as [_ _ He]. destruct n, n'. cbn in *. by injection He as -> -> -> -> ->.
  - apply both_ret. destruct Ha as [Hr Ht He]. split; [done|done|]. destruct n, n'. cbn in *. by injection He as -> -> -> -> ->.
Qed.

(** A request of the socket: the time and the table of interfaces it sees, its
    channel, and the value read. *)
Record asked : Type := mkAsked { as_now : Z; as_ifaces : option (list MulticastInterfaceState); as_chan : Chan; as_value : option Value }.

Definition replied (n : NodeState) (chan : Chan) : Asked Reply :=
  match last (filter (fun r => r.1 = chan) (nd_replies n)) with Some (_, r) => Got r | None => NoAnswer end.

(** The responses, as serialised, to requests the node handles one after the
    other. *)
Fixpoint responses (n : NodeState) (w : World) (reqs : list asked) : list (option Out) :=
  match reqs with
  | [] => []
  | q :: reqs =>
    let '(i, echo, _) := handle_value (as_now q) (as_ifaces q) (as_value q) in
    let response a := (fun r => Response_out (response_of echo r)) <$> conclude i a in
    match command_of i (as_chan q) with
    | None => response NoAnswer :: responses n w reqs
    | Some cmd =>
      match on_cmd n cmd w with
      | Done w' (Ok n') => response (replied n' (as_chan q)) :: responses n' w' reqs
      | _ => []
      end
    end
  end.

(** C26: the admin socket does not show passwords. Two nodes that differ in nothing
    but the queries of their peering URIs, which carry the passwords and pinned
    keys, and in when they will dial, give byte for byte the same responses to
    every sequence of requests, peers added and removed between them included;
    and no URI that is listed has a query. *)
Theorem admin_hides_passwords n n' w reqs : alike n n' ->
  responses n w reqs = responses n' w reqs /\
  (forall now, Forall (fun p => 63 ∉ pr_uri p) (sn_peers (snapshot (w_router w) (w_links w) (nd_peers n) now))).
Proof.
  intros Ha. split.
  - revert n n' w Ha. induction reqs as [|q reqs IH]; intros n n' w Ha; [done|]. cbn [responses].
    destruct (handle_value (as_now q) (as_ifaces q) (as_value q)) as [[i echo] keepalive].
    destruct (command_of i (as_chan q)) as [cmd|]; [|f_equal; by apply IH].
    pose proof (on_cmd_alike n n' cmd w Ha) as Hb. unfold both in Hb.
    destruct (on_cmd n cmd w) as [w1 [n1|e]| |], (on_cmd n' cmd w) as [w2 [n2|e']| |]; try done. destruct Hb as [<- Hb].
    rewrite (IH n1 n2 w1 Hb). f_equal. unfold replied. destruct Hb as [_ _ He]. destruct n1, n2. cbn in *. by injection He as _ _ _ _ ->.
  - intros now. unfold snapshot. cbn [sn_peers]. apply Forall_fmap, Forall_true. intros e. unfold compose, peer_row.
    destruct (match _ with Some p => _ | None => _ end) as [[[port prio] cost] lat]. apply link_id_no_query.
Qed.
End hiding.

(** ** Witness *)

Definition toy_texts : Texts := {| io_text _ := str "refused"; json_text := str "eof" |}.

Definition demo_peer_node (pw : bytes) : NodeState :=
  mkNode (mkLinks [@new_entry std_hex (str "tls://h:1?password=" ++ pw) [] Persistent None 0] 1) [] false [] None [].

Definition demo_asked (chan : Chan) (request : bytes) (args : list (bytes * Value)) : asked :=
  mkAsked 0 None chan (Some (VObject [(str "arguments", VObject args); (str "request", VString request)])).

Definition demo_requests : list asked :=
  [demo_asked 1 (str "getPeers") []; demo_asked 2 (str "removePeer") [(str "uri", VString (str "tls://h:1"))]; demo_asked 3 (str "getPeers") []].

Definition demo_responses (pw : bytes) : list (option Out) :=
  @responses std_hex toy_report toy_unicode toy_json toy_ed25519 strict_box demo_env toy_texts (demo_peer_node pw) demo_world demo_requests.

Lemma admin_hides_passwords_witness :
  demo_responses (str "x") = demo_responses (str "why") /\
  (fun o => match o with Some (OStruct ms) => out_member ms (str "response") | _ => None end) <$> demo_responses (str "x") =
    [Some (OStruct [(str "peers", OSeq [OStruct [(str "remote", OStr (str "tls://h:1")); (str "up", OBool false); (str "inbound", OBool false);
       (str "key", OStr []); (str "port", OU64 0); (str "priority", OU64 0); (str "cost", OU64 0)]])]); Some (OStruct []); Some (OStruct [(str "peers", OSeq [])])].
Proof.
  split; [|vm_compute; reflexivity].
  apply (@admin_hides_passwords std_hex toy_report toy_unicode toy_json toy_ed25519 strict_box demo_env toy_texts
    (demo_peer_node (str "x")) (demo_peer_node (str "why")) demo_world demo_requests).
  split; [repeat constructor|reflexivity|reflexivity].
Defined.
