(* ===== verification/Boot.v ===== *)
(** * Boot: how a node comes up ([boot] of [client/src/main.rs], [open] of
    [client/src/tun.rs], [open_tun] and [from_client] of [client/src/node.rs]).

    The stages in their order, each of which may end the process: identity and
    options, the admin socket, the listeners, the TUN interface. What they ask of
    the kernel are a [SocketHost], a [Host] and a [TunHost]. *)
From Stdlib Require Import Strings.String.
From stdpp Require Import base tactics list numbers gmap.
From S2P Require Import Prelude Errors Clock Frame Address Table Bloom Wire Handshake LinkSet Router Session Protocol Driver Text Uri Peers Tun Views Node Discover LanTask Config PeerList Admin Lan Dial Demo Delivery.

Local Open Scope Z_scope.

(** Creating the device, and a run of [ip]; errors are [Some]. *)
Record TunHost : Type := mkTunHost { th_create : bytes -> Z -> option IoError; th_ip : list bytes -> option IoError }.

Definition open (h : TunHost) (ifname : bytes) (local : Address) (mtu : Z) : Device + IoError :=
  match th_create h ifname mtu with
  | Some e => inr e
  | None =>
    match th_ip h [str "addr"; str "add"; Address_text local ++ str "/128"; str "dev"; ifname; str "nodad"] with
    | Some e => inr e
    | None =>
      match th_ip h [str "link"; str "set"; ifname; str "up"] with
      | Some e => inr e
      | None => inl (Device_new ifname local mtu)
      end
    end
  end.

Definition open_tun (h : TunHost) (n : NodeState) (ifname : bytes) (local : Address) (mtu : Z) : NodeState + Error :=
  match open h ifname local (supported_mtu mtu) with
  | inl device => inl (set_tun_n (Some device) n)
  | inr e => inr (Io e)
  end.

(** Why the process ended, and a node about to run: its identity, the admin
    socket, what the listeners serve, the commands queued, the rows handed to
    discovery, the node and its router. *)
Inductive BootError : Type := BootConfig (e : ConfigError) | BootAdmin (e : AdminError) | BootListener (e : Error) | BootTun (e : Error).

Record Booted : Type := mkBooted {
  bn_key : bytes; bn_opts : LinkOptions; bn_admin : option Bound; bn_served : list bytes; bn_cmds : list Cmd; bn_rows : list MulticastRow;
  bn_node : NodeState; bn_router : Router }.

Section boot.
Context `{!Hex} `{!Unicode} `{!Ed25519}.

Definition wants_tun (c : Config) : bool := negb (bool_decide (cf_if_name c = [])) && negb (bool_decide (cf_if_name c = str "auto")).

(** The configured MTU is cast to 16 bits. *)
Definition boot_tun (th : TunHost) (c : Config) (pubkey : bytes) (n : NodeState) : NodeState + Error :=
  if wants_tun c then open_tun th n (cf_if_name c) (addr_for_key pubkey) (wrap16 (cf_if_mtu c)) else inl n.

Definition boot (sh : SocketHost) (lh : Host) (th : TunHost) (clock : StdClock) (c : Config) : Booted + BootError :=
  match signing_key c, link_options c with
  | inr e, _ | _, inr e => inr (BootConfig e)
  | inl key, inl opts =>
    let pubkey := verifying_key key in
    match (bind_admin sh (cf_admin_listen c)).1 with
    | inr e => inr (BootAdmin e)
    | inl admin =>
      match spawn_listeners lh (cf_listen c) with
      | Err e => inr (BootListener e)
      | Ok served =>
        match boot_tun th c pubkey Node_new with
        | inr e => inr (BootTun e)
        | inl n => inl (mkBooted key opts admin served (boot_cmds c) (multicast_rows c) n (with_clock key clock))
        end
      end
    end
  end.

Lemma supported_mtu_range m : is_u16 m -> MIN_MTU <= supported_mtu m <= U16_MAX.
Proof. unfold is_u16, supported_mtu, MIN_MTU, DEFAULT_MTU, U16_MAX. intros Hm. case_match; [lia|]. destruct (Z.ltb_spec m 1280); lia. Qed.

Lemma spawn_served h uris served : spawn_listeners h uris = Ok served ->
  Forall2 (fun uri s => exists scheme peer addr, parse_link_uri uri = Ok (scheme, peer) /\ s = scheme_name scheme ++ str "://" ++ addr) uris served.
Proof.
  revert served. induction uris as [|uri uris IH]; intros served; cbn [spawn_listeners]; [by intros [= <-]; constructor|].
  destruct (parse_link_uri uri) as [[scheme peer]|] eqn:Ep; cbn [mbind result_bind]; [|done].
  destruct (h_listen h scheme uri) as [addr|]; cbn [mbind result_bind]; [|done].
  destruct (spawn_listeners h uris) as [rest|]; cbn [mbind result_bind]; [|done].
  intros [= <-]. constructor; [by exists scheme, peer, addr|by apply IH].
Qed.

(** C23: a node that comes up is the one configured. Its router runs under the key
    whose public half the configuration names, it accepts the configured keys,
    every [Listen] URI is served under its own scheme, and it has a TUN interface
    exactly if one is named, with the name, with the address of its key and with
    an MTU that IPv6 allows, whatever [IfMTU] says. *)
Theorem boot_as_configured sh lh th clock c b : boot sh lh th clock c = inl b ->
  verifying_key (bn_key b) = drop 32 (cf_private_key c) /\ r_pubkey (bn_router b) = verifying_key (bn_key b) /\
  link_options c = inl (bn_opts b) /\ bn_cmds b = boot_cmds c /\
  Forall2 (fun uri s => exists scheme peer addr, parse_link_uri uri = Ok (scheme, peer) /\ s = scheme_name scheme ++ str "://" ++ addr)
    (cf_listen c) (bn_served b) /\
  lk_entries (nd_peers (bn_node b)) = [] /\
  match nd_tun (bn_node b) with
  | None => wants_tun c = false
  | Some d => wants_tun c = true /\ dv_name d = cf_if_name c /\ dv_local d = addr_for_key (verifying_key (bn_key b)) /\
      MIN_MTU <= dv_mtu d <= U16_MAX /\ dv_buf_len d = (Z.to_nat (dv_mtu d) + 64)%nat
  end.
Proof.
  unfold boot. destruct (signing_key c) as [key|] eqn:Ek; [|done]. destruct (link_options c) as [opts|]; [|done].
  destruct (bind_admin sh (cf_admin_listen c)).1 as [admin|]; [|done]. destruct (spawn_listeners lh (cf_listen c)) as [served|] eqn:Es; [|done].
  destruct (boot_tun th c (verifying_key key) Node_new) as [n|] eqn:Et; [|done]. intros [= <-]. cbn.
  unfold signing_key in Ek. case_bool_decide; [done|]. case_bool_decide as Hk; [done|]. injection Ek as <-.
  split; [exact Hk|]. split; [done|]. split; [done|]. split; [done|]. split; [by eapply spawn_served|].
  unfold boot_tun in Et. destruct (wants_tun c) eqn:Ew; [|by injection Et as <-]. unfold open_tun, open in Et.
  destruct (th_create _ _ _); [done|]. destruct (th_ip _ _); [done|]. destruct (th_ip _ _); [done|]. injection Et as <-. cbn.
  do 4 (split; [done|]). split; [apply supported_mtu_range; unfold is_u16, wrap16; apply Z.mod_pos_bound; lia|done].
Qed.
End boot.

(** ** Witness *)

Definition demo_seed : bytes := replicate 32 7.

Definition demo_cfg (mtu : Z) : Config :=
  mkConfig (demo_seed ++ @verifying_key toy_ed25519 demo_seed) [] [] [] [str "tls://[::]:0"] (str "none") [] [] [] (str "tun0") mtu false false None.

Definition demo_tun_host : TunHost := mkTunHost (fun _ _ => None) (fun _ => None).
Definition demo_socket_host : SocketHost := mkSocketHost (fun _ => false) (fun _ => ProbeRefused) (fun _ => None) (fun _ => None) (fun _ => None).
Definition demo_boot_host : Host := mkHost (fun _ => None) (fun _ => None) (fun _ => None) (fun _ => true) (fun _ => true) (fun _ _ => Ok (str "[::]:9001")).

Definition demo_boot (mtu : Z) : Booted + BootError :=
  @boot std_hex {| to_lowercase := fun b => b |} toy_ed25519 demo_socket_host demo_boot_host demo_tun_host (mkStdClock 0) (demo_cfg mtu).

Lemma boot_as_configured_witness :
  exists b d, demo_boot 1400 = inl b /\ nd_tun (bn_node b) = Some d /\ dv_mtu d = 1400 /\ bn_served b = [str "tls://[::]:9001"] /\
    r_pubkey (bn_router b) = @verifying_key toy_ed25519 (bn_key b) /\ MIN_MTU <= dv_mtu d <= U16_MAX.
Proof.
  assert (match demo_boot 1400 with inl b => Some (dv_mtu <$> nd_tun (bn_node b), bn_served b) | inr _ => None end =
    Some (Some 1400, [str "tls://[::]:9001"])) as E by (vm_compute; reflexivity).
  destruct (demo_boot 1400) as [b|] eqn:Eb; [|discriminate E]. injection E as Em Es.
  destruct (@boot_as_configured std_hex {| to_lowercase := fun b => b |} toy_ed25519 demo_socket_host demo_boot_host demo_tun_host (mkStdClock 0)
    (demo_cfg 1400) b Eb) as (_ & Hr & _ & _ & _ & _ & Ht).
  destruct (nd_tun (bn_node b)) as [d|] eqn:Ed; [|discriminate Em]. injection Em as Em.
  exists b, d. split; [reflexivity|]. split; [exact Ed|]. split; [exact Em|]. split; [exact Es|]. split; [exact Hr|]. apply Ht.
Defined.

(** The cast loses an MTU that does not fit: 65536 comes up as 1280. *)
Example mtu_wraps : (match demo_boot 65536 with inl b => dv_mtu <$> nd_tun (bn_node b) | inr _ => None end) = Some 1280.
Proof. vm_compute. reflexivity. Qed.
