(* ===== verification/Dump.v ===== *)
(** * Dump: the router's diagnostic text ([Router::dump] of [src/views.rs]) and the
    view trait ([src/traits.rs]). *)
From Stdlib Require Import Strings.String.
From stdpp Require Import base tactics list numbers sorting gmap.
From S2P Require Import Prelude Errors Clock Frame Address Table Bloom Wire Handshake LinkSet Router Pathfind Text Uri Lan Demo Views.

Local Open Scope Z_scope.

(** [{:?}] of a vector of numbers, and of an optional one. *)
Definition debug_items (l : list Z) : bytes :=
  match l with [] => [] | x :: l => dec x ++ flat_map (fun y => str ", " ++ dec y) l end.
Definition debug_vec (l : list Z) : bytes := str "[" ++ debug_items l ++ str "]".
Definition debug_option (o : option (list Z)) : bytes := match o with Some l => str "Some(" ++ debug_vec l ++ str ")" | None => str "None" end.

(** [sort_by_key(|l| (l.peer, l.order))] *)
Definition link_le (a b : LinkState) : Prop := lex_lt (l_peer a) (l_peer b) \/ (l_peer a = l_peer b /\ l_order a <= l_order b).
#[export] Instance link_le_dec : RelDecision link_le.
Proof. intros a b. unfold link_le, lex_lt. apply _. Defined.

Section dump.
Context `{!Hex}.

Definition dump_peer (l : LinkState) : bytes :=
  str "PEER key=" ++ hex_encode (l_peer l) ++ str " prio=" ++ dec (l_prio l) ++ str " order=" ++ dec (l_order l) ++ str " impl=" ++
  (if is_roots (l_kind l) then str "roots" else str "go") ++ [10].

Definition dump_info (ki : bytes * Info) : bytes :=
  str "INFO key=" ++ hex_encode ki.1 ++ str " parent=" ++ hex_encode (i_parent ki.2) ++ str " seq=" ++ dec (req_seq (res_req (i_res ki.2))) ++
  str " port=" ++ dec (res_port (i_res ki.2)) ++ [10].

Definition dump_path (ke : bytes * PathEntry) : bytes :=
  str "PATH key=" ++ hex_encode ke.1 ++ str " path=" ++ debug_vec (pe_path ke.2) ++ str " seq=" ++ dec (pe_seq ke.2) ++ [10].

Definition dump (r : Router) : bytes :=
  flat_map dump_peer (merge_sort link_le (map_to_list (t_links (r_tree r))).*2) ++
  flat_map dump_info (sort_on fst (map_to_list (t_infos (r_tree r)))) ++
  flat_map dump_path (sort_on fst (map_to_list (pa_entries (r_path r)))) ++
  str "SELF coords=" ++ debug_option (root_path r) ++ [10].
End dump.

(** ** The trait *)

Class Snapshot (R : Type) := {
  view_parent : R -> option bytes; view_root_and_depth : R -> option (bytes * nat); view_known_nodes : R -> nat;
  view_has_path : R -> bytes -> bool; view_has_session : R -> bytes -> bool; view_path_details : R -> bytes -> option (list Z * Z);
  view_get_paths : R -> list (bytes * list Z * Z); view_get_sessions : R -> list bytes; view_link_peers : R -> list LinkPeer;
  view_tree_entries : R -> list (bytes * bytes * Z); view_dump : R -> bytes }.

#[export] Instance Router_Snapshot `{!Hex} : Snapshot Router := {|
  view_parent := parent; view_root_and_depth := root_and_depth; view_known_nodes := known_nodes; view_has_path := has_path;
  view_has_session := has_session; view_path_details := path_details; view_get_paths := get_paths; view_get_sessions := get_sessions;
  view_link_peers := Router_link_peers; view_tree_entries := tree_entries; view_dump := dump |}.

(** ** One line per entry *)

Fixpoint lines_in (s : bytes) : nat := match s with [] => 0 | b :: s => ((if (b =? 10)%Z then 1 else 0) + lines_in s)%nat end.

Lemma lines_app a b : lines_in (a ++ b) = (lines_in a + lines_in b)%nat.
Proof. induction a as [|x a IH]; cbn; [done|]. rewrite IH. lia. Qed.

Lemma lines_none s : 10 ∉ s -> lines_in s = 0%nat.
Proof.
  induction s as [|x s IH]; [done|]. rewrite not_elem_of_cons. intros [Hx Hs]. cbn [lines_in].
  destruct (Z.eqb_spec x 10); [congruence|]. by rewrite IH.
Qed.

Lemma lines_dec n : 0 <= n -> lines_in (dec n) = 0%nat.
Proof. intros Hn. apply lines_none, (not_in_chars _ _ _ (dec_digits n Hn)). lia. Qed.

Lemma lines_tail l : Forall (fun x => 0 <= x) l -> lines_in (flat_map (fun y => str ", " ++ dec y) l) = 0%nat.
Proof. induction 1 as [|y l Hy Hl IH]; [done|]. cbn [flat_map]. by rewrite !lines_app, IH, (lines_dec y). Qed.

Lemma lines_debug l : Forall (fun x => 0 <= x) l -> lines_in (debug_vec l) = 0%nat.
Proof.
  intros Hl. unfold debug_vec. rewrite !lines_app. destruct Hl as [|x l Hx Hl]; [done|].
  cbn [debug_items]. by rewrite lines_app, (lines_dec x), lines_tail.
Qed.

Lemma lines_flat_map {A} (f : A -> bytes) l : Forall (fun x => lines_in (f x) = 1%nat) l -> lines_in (flat_map f l) = length l.
Proof. induction 1 as [|x l Hx Hl IH]; [done|]. cbn [flat_map length]. by rewrite lines_app, Hx, IH. Qed.

Section lines.
Context `{!Hex} `{!HexLaws}.

Lemma lines_hex k : lines_in (hex_encode k) = 0%nat.
Proof. apply lines_none, (not_in_chars _ _ _ (hex_encode_chars k)). unfold hex_char. lia. Qed.

(** What the fields of the tables are: no number is negative. *)
Definition dumpable (r : Router) : Prop :=
  map_Forall (fun _ l => 0 <= l_prio l /\ 0 <= l_order l) (t_links (r_tree r)) /\
  map_Forall (fun _ i => 0 <= req_seq (res_req (i_res i)) /\ 0 <= res_port (i_res i)) (t_infos (r_tree r)) /\
  map_Forall (fun _ e => Forall (fun x => 0 <= x) (pe_path e) /\ 0 <= pe_seq e) (pa_entries (r_path r)) /\
  match root_path r with Some p => Forall (fun x => 0 <= x) p | None => True end.

(** The dump has a line for every link, every announce and every path, and one for
    the node itself. *)
Theorem dump_lines r : dumpable r ->
  lines_in (dump r) = (size (t_links (r_tree r)) + size (t_infos (r_tree r)) + size (pa_entries (r_path r)) + 1)%nat.
Proof.
  intros (Hl & Hi & Hp & Hs). unfold dump. rewrite !lines_app, !lines_flat_map.
  - rewrite merge_sort_Permutation. unfold sort_on. rewrite !merge_sort_Permutation, length_fmap, !length_map_to_list.
    assert (lines_in (debug_option (root_path r)) = 0%nat) as ->.
    { unfold debug_option. destruct (root_path r) as [p|]; [|done]. rewrite !lines_app, lines_debug by done. done. }
    change (lines_in (str "SELF coords=")) with 0%nat. change (lines_in [10]) with 1%nat. lia.
  - unfold sort_on. rewrite merge_sort_Permutation. apply Forall_forall. intros [k e] Hin. apply elem_of_map_to_list in Hin.
    destruct (Hp k e Hin) as [H1 H2]. unfold dump_path. cbn [fst snd]. rewrite !lines_app, lines_hex, lines_debug, lines_dec by done. done.
  - unfold sort_on. rewrite merge_sort_Permutation. apply Forall_forall. intros [k i] Hin. apply elem_of_map_to_list in Hin.
    destruct (Hi k i Hin) as [H1 H2]. unfold dump_info. cbn [fst snd]. rewrite !lines_app, !lines_hex, !lines_dec by done. done.
  - rewrite merge_sort_Permutation. apply Forall_forall. intros l Hin. apply list_elem_of_fmap in Hin as ([id l'] & -> & Hin).
    apply elem_of_map_to_list in Hin. destruct (Hl id l' Hin) as [H1 H2]. unfold dump_peer. cbn [snd].
    rewrite !lines_app, lines_hex, !lines_dec by done. by destruct (is_roots (l_kind l')).
Qed.
End lines.

Example dump_demo : @dump std_hex (set_tree (fun _ => set_links (fun _ => ∅) (set_infos (fun _ => ∅) demo_tree)) demo_router) = str "SELF coords=None" ++ [10].
Proof. vm_compute. reflexivity. Qed.
