(* ===== verification/Resolve.v ===== *)
(** * Resolve: finding the owner of an address ([resolve] and [send_or_resolve] of
    [src/driver.rs], with the lookups and notifies of [src/pathfind.rs]).

    An address resolves only to a key that owns it and that signed the path to
    it; a packet for an unknown owner is held and goes out to the owner when its
    notify arrives. *)
From stdpp Require Import base tactics list numbers gmap.
From S2P Require Import Prelude Errors Clock Frame Address Table Bloom Wire Handshake LinkSet Router Hoare Demo Tree BloomTree Session Pathfind Protocol Driver Invariant Carry NodeRun.

Local Open Scope Z_scope.

(** ** Resolving *)

Section resolving.
Context `{!Ed25519} `{!Ed25519Laws} `{!NaclBox} `{!NaclBoxLaws} `{!Env}.

Abbreviation sound_op m := (sound m (fun _ => True)).

Lemma sound_rumor_lookup d : sound_op (rumor_lookup send d).
Proof.
  apply sound_of; [apply keeps_rumor_lookup, keeps_send|].
  apply (follows_rumor_lookup _), (follows_send _).
Qed.

Lemma sound_resolve_turn conn addr l : sound_op (resolve_turn conn addr l).
Proof.
  unfold resolve_turn. apply sound_then; [apply sound_rumor_lookup|intros _]. apply sound_then; [apply sound_now|intros now].
  apply sound_then; [apply sound_when, sound_maintain|intros _]. eapply sound_bind; [apply sound_links_read|]. intros frame Hf.
  apply sound_then; [|intros _; apply sound_then; [apply sound_asks|intros found; by apply sound_ret]].
  destruct frame as [t p|e|]; [|apply sound_throw|apply sound_keepalive].
  apply sound_then; [apply sound_count_frame|intros _]. by apply sound_dispatch, (Hf t).
Qed.

(** What a turn returns is read off the router it leaves. *)
Lemma resolve_turn_found conn addr l w w' k : resolve_turn conn addr l w = Done w' (Ok (inl k)) -> resolved (w_router w') addr = Some k.
Proof.
  unfold resolve_turn.
  assert (forall A (m : M A) (f : A -> M (bytes + Z)) w, (m ≫= f) w = Done w' (Ok (inl k)) -> exists a w1, f a w1 = Done w' (Ok (inl k))) as Hb.
  { intros A m f w0. unfold mbind, M_bind. destruct (m w0) as [w1 [a|e]| |]; [eauto|done..]. }
  intros E. do 5 (apply Hb in E as (? & ? & E)). unfold asks, mbind, M_bind, mret, M_ret in E.
  injection E as <- E. destruct (resolved _ addr) as [k'|] eqn:Er; [|done]. by injection E as ->.
Qed.

Lemma resolve_loop_found conn addr end_ l net w w' k : world_ok w -> net_ok net ->
  resolve_loop conn addr end_ l net w = Done w' (Ok (Some k)) -> world_ok w' /\ resolved (w_router w') addr = Some k.
Proof.
  intros Hw Hn. revert l w Hw. induction Hn as [|f net Hf Hn IH]; intros l w Hw; cbn [resolve_loop]; [done|].
  set (w1 := mkWorld (w_router w) (f (w_links w)) (w_ticks w)).
  assert (world_ok w1) as Hw1 by (destruct Hw as [Hr Hl]; split; [exact Hr|by apply Hf]).
  set (w2 := mkWorld (w_router w) (f (w_links w)) (S (w_ticks w))).
  assert (world_ok w2) as Hw2 by exact Hw1.
  intros E. change ((if end_ <=? clock_at (w_ticks w) then throw (Core Timeout)
    else next ← resolve_turn conn addr l; match next with inl k => mret (Some k) | inr last_maintain => resolve_loop conn addr end_ last_maintain net end)
      w2 = Done w' (Ok (Some k))) in E.
  destruct (end_ <=? clock_at (w_ticks w)); [done|]. unfold mbind, M_bind in E.
  pose proof (sound_resolve_turn conn addr l w2 Hw2) as Hs. unfold wp in Hs.
  destruct (resolve_turn conn addr l w2) as [w3 [[k'|l']|e]| |] eqn:Et; [| |done..]; destruct Hs as [Hw3 _].
  - injection E as <- <-. split; [done|]. by eapply resolve_turn_found.
  - by apply (IH l' w3).
Qed.

Lemma resolve_found conn addr timeout net w w' k : world_ok w -> net_ok net ->
  resolve conn addr timeout net w = Done w' (Ok (Some k)) -> world_ok w' /\ resolved (w_router w') addr = Some k.
Proof.
  intros Hw Hn E. unfold resolve in E.
  change ((match peer_of (w_links w) conn with None => throw (Core NoLink) | Some _ =>
     start ← instant_now; last_maintain ← instant_now; resolve_loop conn addr (start + timeout) last_maintain net end) w = Done w' (Ok (Some k))) in E.
  destruct (peer_of (w_links w) conn); [|done].
  change (resolve_loop conn addr (clock_at (w_ticks w) + timeout) (clock_at (S (w_ticks w))) net
    (mkWorld (w_router w) (w_links w) (S (S (w_ticks w)))) = Done w' (Ok (Some k))) in E.
  apply resolve_loop_found in E; done.
Qed.

(** Whether or not it finds a key, resolving keeps the node sound. *)
Lemma sound_resolve conn addr timeout net : net_ok net -> sound_op (resolve conn addr timeout net).
Proof.
  intros Hn. unfold resolve. apply sound_then; [apply sound_asks_links|intros [p|]; [|apply sound_throw]].
  apply sound_then; [apply sound_now|intros start]. apply sound_then; [apply sound_now|intros l]. generalize (start + timeout). intros e. revert l.
  induction Hn as [|f net Hf Hn IH]; intros l; cbn [resolve_loop]; [by apply sound_ret|].
  apply sound_then; [intros w [Hr Hl]; split; [|done]; split; [exact Hr|by apply Hf]|intros _].
  apply sound_then; [apply sound_now|intros now]. destruct (e <=? now); [apply sound_throw|].
  apply sound_then; [apply sound_resolve_turn|]. intros [k|l']; [by apply sound_ret|apply IH].
Qed.

Lemma resolved_owned r addr k : resolved r addr = Some k -> owns addr k = true /\ exists e, pa_entries (r_path r) !! k = Some e.
Proof.
  unfold resolved. intros [Hin Ho]%find_first_Some. split; [exact Ho|].
  apply list_elem_of_fmap in Hin as ([k' e] & -> & Hin). apply elem_of_map_to_list in Hin. by exists e.
Qed.

Lemma owns_spec addr k : owns addr k = true ->
  addr_octets (addr_for_key k) = addr_octets addr \/
  (Address_is_subnet addr = true /\ snet_octets (subnet_for_key k) = take SUBNET_LEN (addr_octets addr)).
Proof.
  unfold owns. intros [Ho|[Hs Ho]%andb_true_iff]%orb_true_iff; apply bool_decide_eq_true in Ho; [by left|right]. by split.
Qed.

(** C8: an address resolves only to its owner. Whatever frames arrive meanwhile, a
    key that [resolve] returns derives the address, or the routed subnet the
    address is in, and the router holds a path to it that this key signed. *)
Theorem resolve_authentic conn addr timeout net w w' k : world_ok w -> net_ok net ->
  resolve conn addr timeout net w = Done w' (Ok (Some k)) ->
  (addr_octets (addr_for_key k) = addr_octets addr \/
   (Address_is_subnet addr = true /\ snet_octets (subnet_for_key k) = take SUBNET_LEN (addr_octets addr))) /\
  (exists e, pa_entries (r_path (w_router w')) !! k = Some e /\ path_signed k e) /\ world_ok w'.
Proof.
  intros Hw Hn [Hw' [Ho [e He]]%resolved_owned]%resolve_found; [|done..]. split; [by apply owns_spec|]. split; [|exact Hw'].
  exists e. split; [exact He|]. destruct Hw' as [(_ & _ & Hp & _) _]. by apply (Hp k e).
Qed.
End resolving.

(** ** Holding *)

Section holding.
Context `{!Ed25519} `{!NaclBox} `{!Env}.

Lemma xkey_unfold k : xkey k = key_for_subnet (subnet_for_key k).
Proof. reflexivity. Qed.

(** The key of an address's owner and the key that is looked up for it are one
    to the DHT. *)
Lemma owner_rendezvous addr k : key_ok k -> owns addr k = true -> xkey (lookup_key_for_addr addr) = xkey k.
Proof.
  intros Hk Ho. unfold owns in Ho. apply orb_true_iff in Ho as [Ho|Ho].
  - apply bool_decide_eq_true in Ho. assert (forall a b, addr_octets a = addr_octets b -> a = b) as Hinj by (intros [a] [b]; cbn; by intros ->).
    apply Hinj in Ho. subst addr.
    by apply lookup_addr_xkey.
  - apply andb_true_iff in Ho as [Hs Ho]. apply bool_decide_eq_true in Ho. unfold lookup_key_for_addr. rewrite Hs, <-Ho.
    assert (forall s, mkSubnet (snet_octets s) = s) as -> by (by intros []).
    rewrite <-xkey_unfold. by apply xkey_idempotent.
Qed.

(** The router of node [me] knows the paths [es] and holds an application's
    payload under [x]. *)
Definition holding (me : bytes) (es : gmap bytes PathEntry) (x payload : bytes) (r : Router) : Prop :=
  r_pubkey r = me /\ pa_entries (r_path r) = es /\
  exists ru, pa_rumors (r_path r) !! x = Some ru /\ r_pending ru = Some payload /\ r_pending_is_app ru = true.

Lemma keeps_multicast_path I f t ft p : (forall r, I r -> I (count_drop r)) -> keeps I (multicast f t ft p).
Proof.
  intros Hd. unfold multicast, write_via. assert (keeps I (modify count_drop)) by (by apply keeps_modify). keeps_tac.
Qed.

Lemma rumor_lookup_holds me es x payload dest : xkey dest = x -> x <> xkey me -> keeps (holding me es x payload) (rumor_lookup send dest).
Proof.
  intros Hx Hne. unfold rumor_lookup. apply keeps_bind; [apply keeps_tick|intros now]. apply keeps_asks. intros r0 _.
  destruct (throttled (r_path r0) (xkey dest) now); [apply keeps_ret|].
  apply keeps_bind; [|intros _].
  - apply keeps_modify. intros r (Hm & He & ru & Hr & Hp & Ha). rewrite Hx. split; [exact Hm|]. split; [exact He|].
    exists (set_r_sent now ru). split; [|done]. cbn. unfold rumor_entry. by rewrite Hr, lookup_insert_eq.
  - unfold send_lookup. apply keeps_asks. intros r _. unfold handle_lookup. apply keeps_bind; [by apply keeps_multicast_path|intros _].
    apply keeps_asks. intros r1 (Hm & _). cbn [lk_dest]. rewrite Hx, Hm, bool_decide_eq_false_2 by done. apply keeps_ret.
Qed.

Lemma hold_holds x dest payload w : xkey dest = x -> x <> xkey (r_pubkey (w_router w)) ->
  wp (hold_for_lookup send dest payload)
    (fun _ w' => holding (r_pubkey (w_router w)) (pa_entries (r_path (w_router w))) x payload (w_router w')) w.
Proof.
  intros Hx Hne. unfold hold_for_lookup. rewrite Hx. set (r := w_router w).
  set (now := clock_at (w_ticks w)). set (r1 := set_path (set_rumors (rumor_entry x dest now (hold_app payload))) r).
  change (wp (if throttled (r_path r) x now then mret () else rumor_lookup send dest)
    (fun _ w' => holding (r_pubkey r) (pa_entries (r_path r)) x payload (w_router w')) (mkWorld r1 (w_links w) (S (w_ticks w)))).
  assert (holding (r_pubkey r) (pa_entries (r_path r)) x payload r1) as Hh.
  { split; [done|]. split; [done|]. eexists. cbn. unfold rumor_entry. rewrite lookup_insert_eq. split; [done|]. by destruct (pa_rumors _ !! x). }
  destruct (throttled (r_path r) x now); [exact Hh|]. by apply rumor_lookup_holds.
Qed.

(** C9: a held packet goes to its owner. A packet for an address whose owner is not
    known is queued; when a notify that the owner of the address signed reaches
    this node, its path is stored and the packet is sent to that owner in a
    session, with nothing else in between. *)
Theorem held_packet_released via addr payload w w1 k n :
  key_ok k -> owns addr k = true -> xkey k <> xkey (r_pubkey (w_router w)) ->
  send_or_resolve via addr payload w = Done w1 (Ok Queued) ->
  pn_source n = k -> pn_dest n = r_pubkey (w_router w) -> PathNotify_check n = true ->
  (greedy_next (w_router w1) (w_links w1) (pn_path n) (pn_watermark n)).1 = None ->
  exists w2, handle_notify send n w1 = session_send send k payload w2 /\
    (exists e, pa_entries (r_path (w_router w2)) !! k = Some e /\ pe_path e = ni_path (pn_info n) /\ pe_broken e = false) /\
    (exists ru, pa_rumors (r_path (w_router w2)) !! xkey k = Some ru /\ r_pending ru = None) /\
    r_sess (w_router w2) = r_sess (w_router w1) /\ w_links w2 = w_links w1.
Proof.
  intros Hk Ho Hne E Hsrc Hdst Hchk Hg. unfold send_or_resolve in E.
  change ((match peer_of (w_links w) via with None => throw (Core NoLink) | Some _ =>
     key ← asks (fun r => key_for_addr_known r addr);
     match key with
     | Some key => _ ← session_send send key payload; mret Sent
     | None => _ ← hold_for_lookup send (lookup_key_for_addr addr) payload; mret Queued
     end end) w = Done w1 (Ok Queued)) in E.
  destruct (peer_of (w_links w) via); [|done]. unfold asks, mbind, M_bind in E.
  destruct (key_for_addr_known (w_router w) addr) as [key|] eqn:Ek.
  { destruct (session_send send key payload w) as [w' [u|e]| |]; [|done..]. unfold mret, M_ret in E. by injection E. }
  pose proof (hold_holds (xkey k) (lookup_key_for_addr addr) payload w (owner_rendezvous addr k Hk Ho) Hne) as Hh. unfold wp in Hh.
  destruct (hold_for_lookup send (lookup_key_for_addr addr) payload w) as [w' [u|e]| |]; [|done..]. injection E as <-.
  destruct Hh as (Hme & Hes & ru & Hru & Hp & Ha).
  assert (pa_entries (r_path (w_router w')) !! k = None) as Hnone.
  { rewrite Hes. destruct (pa_entries (r_path (w_router w)) !! k) as [e|] eqn:Ee; [|done]. exfalso.
    unfold key_for_addr_known in Ek. rewrite find_first_None in Ek. specialize (Ek k). rewrite Ho in Ek.
    assert (true = false); [|done]. apply Ek. apply elem_of_app. left. apply list_elem_of_fmap. exists (k, e). split; [done|].
    by apply elem_of_map_to_list. }
  unfold handle_notify, asks, asks_links, mbind, M_bind, id.
  destruct (greedy_next (w_router w') (w_links w') (pn_path n) (pn_watermark n)) as [next wm]. cbn [fst] in Hg. subst next.
  rewrite Hme, bool_decide_eq_true_2 by done. cbn [negb]. unfold accept_notify, asks, mbind, M_bind. rewrite Hsrc, Hnone, Hru, Hchk. cbn [negb].
  eexists. split.
  - unfold instant_now, tick, modify, mret, M_ret, take_held, asks, mbind, M_bind.
    cbn [w_router w_links w_ticks r_path set_path pa_rumors set_entries_p]. rewrite Hru, Hp, Ha. cbn. reflexivity.
  - cbn. split; [|split; [|by split]].
    + eexists. rewrite lookup_insert_eq. split; [done|]. by split.
    + eexists. rewrite lookup_insert_eq. split; [done|]. done.
Qed.
End holding.

(** ** Witnesses *)

(** Node 3 signs a path; the notify reaches node 2, which has just started, over
    link 7. *)
Definition demo_notify : PathNotify :=
  mkPathNotify [] U64_MAX (demo_key 3) (demo_key 2) (@NotifyInfo_sign toy_ed25519 (mkNotifyInfo 4 [6; 8] (replicate 64 0)) (demo_key 3)).

Definition demo_notify_world (frames : bytes) : World :=
  mkWorld (@with_clock toy_ed25519 (demo_key 2) (mkStdClock 0))
    (LinkSet_single 0 (mkAnyConn (demo_key 1) 0 Go false 7 None (mkStream frames None [] []))) 0.

Definition demo_notify_frame : bytes := unwrap_or (write_frame_to TPathNotify (PathNotify_encode demo_notify [])) [].

Definition demo_target : Address := addr_for_key (demo_key 3).

Lemma resolve_authentic_witness : exists w',
  @resolve toy_ed25519 toy_box demo_env 7 demo_target (from_secs 60) [fun ls => ls] (demo_notify_world demo_notify_frame) = Done w' (Ok (Some (demo_key 3))) /\
  exists e, pa_entries (r_path (w_router w')) !! demo_key 3 = Some e /\ @path_signed toy_ed25519 (demo_key 3) e.
Proof.
  set (o := @resolve _ _ _ _ _ _ _ _).
  assert (match o with Done _ (Ok r) => Some r | _ => None end = Some (Some (demo_key 3))) as Er by (vm_compute; reflexivity).
  destruct o as [w' [r|]| |] eqn:E; [|discriminate Er..]. injection Er as ->. exists w'. split; [reflexivity|].
  apply (@resolve_authentic toy_ed25519 toy_ed25519_laws toy_box toy_box_laws demo_env 7 demo_target (from_secs 60) [fun ls => ls]
    (demo_notify_world demo_notify_frame) w' (demo_key 3)); [|repeat constructor; auto|exact E].
  split; [apply initial_inv|]. constructor; [|constructor]. unfold conn_bytes. apply (bool_decide_unpack _). vm_compute. exact I.
Defined.

Definition demo_held : World :=
  match @send_or_resolve toy_ed25519 toy_box demo_env 7 demo_target [1; 2; 3] (demo_notify_world []) with Done w _ => w | _ => demo_notify_world [] end.

Lemma held_packet_released_witness : exists w2,
  @handle_notify toy_ed25519 toy_box demo_env (@send toy_ed25519 toy_box demo_env) demo_notify demo_held =
    @session_send toy_ed25519 toy_box demo_env (@send toy_ed25519 toy_box demo_env) (demo_key 3) [1; 2; 3] w2 /\
  exists e, pa_entries (r_path (w_router w2)) !! demo_key 3 = Some e /\ pe_path e = [6; 8].
Proof.
  assert (key_ok (demo_key 3)) as Hk by (apply (bool_decide_unpack _); vm_compute; exact I).
  assert (@send_or_resolve toy_ed25519 toy_box demo_env 7 demo_target [1; 2; 3] (demo_notify_world []) = Done demo_held (Ok Queued)) as E
    by (vm_compute; reflexivity).
  assert (owns demo_target (demo_key 3) = true) as Ho by (vm_compute; reflexivity).
  assert (xkey (demo_key 3) <> xkey (r_pubkey (w_router (demo_notify_world [])))) as Hne by (vm_compute; discriminate).
  assert (@PathNotify_check toy_ed25519 demo_notify = true) as Hc by (vm_compute; reflexivity).
  assert ((greedy_next (w_router demo_held) (w_links demo_held) (pn_path demo_notify) (pn_watermark demo_notify)).1 = None) as Hg by (vm_compute; reflexivity).
  destruct (@held_packet_released toy_ed25519 toy_box demo_env 7 demo_target [1; 2; 3] (demo_notify_world []) demo_held (demo_key 3) demo_notify
    Hk Ho Hne E eq_refl eq_refl Hc Hg) as (w2 & H1 & (e & H2 & H3 & _) & _).
  exists w2. split; [exact H1|]. exists e. split; [exact H2|exact H3].
Defined.
