(* ===== verification/Mesh.v ===== *)
(** * Mesh: nodes joined by cables.

    A mesh is a list of worlds, one per node, and cables between their links: the
    bytes one end writes are what the other end reads, when and in the order a
    schedule delivers them. Every schedule keeps every node sound
    ([mesh_keeps_nodes]); on a line of three nodes the tree converges and a
    payload crosses both hops: announcements, filters, a lookup, the handshake of
    a session and its ratchet, all of them the operations of the other files
    ([payload_crosses]). *)
From stdpp Require Import base tactics list numbers gmap.
From S2P Require Import Prelude Errors Clock Frame Address Table Bloom Wire Handshake LinkSet Router Hoare Demo Tree BloomTree Session Pathfind Protocol Driver Invariant Views Node Carry NodeRun.

Local Open Scope Z_scope.

(** ** Cables *)

Record Cable : Type := mkCable { cb_a : nat; cb_la : LinkId; cb_b : nat; cb_lb : LinkId }.

Abbreviation Mesh := (list World) (only parsing).

Definition map_stream (f : LinkStream -> LinkStream) (c : AnyConn) : AnyConn :=
  mkAnyConn (c_remote_key c) (c_priority c) (c_kind c) (c_inbound c) (c_id c) (c_remote_addr c) (f (c_stream c)).

Definition map_link (id : LinkId) (f : LinkStream -> LinkStream) (ls : LinkSet) : LinkSet :=
  set_entries ls ((fun e => if entry_id e =? id then
    mkLinkEntry (le_peer e) (map_stream f (le_link e)) (le_up e) (le_rx e) (le_tx e) (le_lastrx e) (le_lasttx e) (le_rxrate e) (le_txrate e)
    else e) <$> ls_entries ls).

(** What was written to a link, and the link with it taken. *)
Definition written (id : LinkId) (ls : LinkSet) : bytes :=
  concat ((fun e => if entry_id e =? id then st_out (c_stream (le_link e)) else []) <$> ls_entries ls).
Definition taken_out (id : LinkId) (ls : LinkSet) : LinkSet := map_link id (fun s => mkStream (st_in s) (st_end s) [] (st_wres s)) ls.
(** A cable carries bytes. *)
Definition on_wire (b : bytes) : bytes := (fun x => x mod 256) <$> b.
Definition put_in (id : LinkId) (b : bytes) (ls : LinkSet) : LinkSet :=
  map_link id (fun s => mkStream (st_in s ++ on_wire b) (st_end s) (st_out s) (st_wres s)) ls.

Definition with_links (f : LinkSet -> LinkSet) (w : World) : World := mkWorld (w_router w) (f (w_links w)) (w_ticks w).

(** The bytes written at one end arrive at the other. *)
Definition carry_over (i : nat) (li : LinkId) (j : nat) (lj : LinkId) (m : Mesh) : Mesh :=
  match m !! i with
  | Some w => alter (with_links (put_in lj (written li (w_links w)))) j (alter (with_links (taken_out li)) i m)
  | None => m
  end.

Definition deliver_cable (c : Cable) (m : Mesh) : Mesh := carry_over (cb_b c) (cb_lb c) (cb_a c) (cb_la c) (carry_over (cb_a c) (cb_la c) (cb_b c) (cb_lb c) m).

(** ** Schedules *)

Section mesh.
Context `{!Ed25519} `{!NaclBox} `{!Env}.

(** A link comes up at node [i], to [peer]; a turn of serving with the payloads
    given to send; a delivery over a cable. *)
Inductive mesh_event : Type :=
  | MLink (i : nat) (peer : bytes) (id : LinkId)
  | MTurn (i : nat) (outgoing : list (bytes * bytes))
  | MDeliver (c : Cable).

Definition link_up (peer : bytes) (id : LinkId) : M () :=
  '(conn, r) ← register (mkAnyConn peer 0 (Roots 0) false id None (mkStream [] None [] [])) peer id;
  match r with Ok _ => links_add conn | Err e => throw e end.

Definition serve_one (outgoing : list (bytes * bytes)) : M () :=
  '(r, _) ← serve_links None outgoing [fun ls => ls];
  match r with Ok _ => mret () | Err e => throw e end.

(** A step at a node: [None] if it panics, runs out of fuel or fails. *)
Definition at_node (i : nat) (op : M ()) (m : Mesh) : option Mesh :=
  w ← m !! i;
  match op w with Done w' (Ok _) => Some (<[i := w']> m) | _ => None end.

Definition mesh_step (e : mesh_event) (m : Mesh) : option Mesh :=
  match e with
  | MLink i peer id => at_node i (link_up peer id) m
  | MTurn i outgoing => at_node i (serve_one outgoing) m
  | MDeliver c => Some (deliver_cable c m)
  end.

Fixpoint mesh_run (es : list mesh_event) (m : Mesh) : option Mesh :=
  match es with
  | [] => Some m
  | e :: es => m ← mesh_step e m; mesh_run es m
  end.

(** ** Every schedule keeps every node sound *)

Context `{!Ed25519Laws} `{!NaclBoxLaws}.

#[local] Abbreviation sound_op m := (sound m (fun _ => True)).

Lemma on_wire_ok b : bytes_ok (on_wire b).
Proof. apply Forall_fmap, Forall_true. intros x. apply Z.mod_pos_bound. done. Qed.

Lemma links_bytes_map id f ls : (forall s, bytes_ok (st_in s) -> bytes_ok (st_in (f s))) ->
  links_bytes ls -> links_bytes (map_link id f ls).
Proof.
  intros Hf Hl. apply Forall_fmap. eapply Forall_impl; [exact Hl|]. intros e He. unfold compose.
  destruct (entry_id e =? id); [|exact He]. by apply Hf.
Qed.

Lemma world_ok_with f w : (forall ls, links_bytes ls -> links_bytes (f ls)) -> world_ok w -> world_ok (with_links f w).
Proof. intros Hf [Hr Hl]. split; [exact Hr|]. by apply Hf. Qed.

Lemma carry_over_ok i li j lj m : Forall world_ok m -> Forall world_ok (carry_over i li j lj m).
Proof.
  intros Hm. unfold carry_over. destruct (m !! i) as [w|]; [|done]. apply Forall_alter; [apply Forall_alter; [done|]|].
  - intros w0 _. apply world_ok_with. intros ls. by apply links_bytes_map.
  - intros w0 _. apply world_ok_with. intros ls. apply links_bytes_map. intros s Hs. cbn. apply Forall_app. split; [done|apply on_wire_ok].
Qed.

Lemma sound_link_up peer id : sound_op (link_up peer id).
Proof.
  unfold link_up. eapply sound_bind; [apply sound_register; constructor|]. intros [c [u|e]] Hc; [by apply sound_links_add|apply sound_throw].
Qed.

Lemma sound_serve_one out : sound_op (serve_one out).
Proof.
  apply sound_then; [apply sound_serve_links; by repeat constructor|]. intros [[u|e] o]; [by apply sound_ret|apply sound_throw].
Qed.

Lemma at_node_ok i op m m' : sound_op op -> Forall world_ok m -> at_node i op m = Some m' -> Forall world_ok m'.
Proof.
  intros Hop Hm. unfold at_node. destruct (m !! i) as [w|] eqn:E; [|done]. cbn.
  pose proof (Hop w (Forall_lookup_1 _ _ _ _ Hm E)) as Hw. unfold wp in Hw. destruct (op w) as [w' [u|e]| |]; try done.
  intros [= <-]. apply Forall_insert; [done|apply Hw].
Qed.

Lemma mesh_step_ok e m m' : Forall world_ok m -> mesh_step e m = Some m' -> Forall world_ok m'.
Proof.
  intros Hm. destruct e as [i peer id|i out|c]; cbn [mesh_step].
  - apply at_node_ok; [apply sound_link_up|done].
  - apply at_node_ok; [apply sound_serve_one|done].
  - intros [= <-]. by apply carry_over_ok, carry_over_ok.
Qed.

(** Whatever links come up, whatever payloads are sent and however deliveries
    interleave, every node of a mesh keeps the router invariant. *)
Theorem mesh_keeps_nodes es m m' : Forall world_ok m -> mesh_run es m = Some m' -> Forall world_ok m'.
Proof.
  revert m. induction es as [|e es IH]; intros m Hm; cbn [mesh_run]; [by intros [= <-]|].
  destruct (mesh_step e m) as [m1|] eqn:E; [|done]. cbn. apply IH. by eapply mesh_step_ok.
Qed.
End mesh.

(** ** Three nodes in a line *)

Definition mesh_env : Env := {|
  clock_at n := from_secs 3600 + 10000000 * Z.of_nat n;
  unix_at n := 1000 + Z.of_nat n;
  rand_at n := replicate 32 (Z.of_nat n mod 256)
|}.

Definition fresh_node (k : Z) : World := mkWorld (@with_clock toy_ed25519 (demo_key k) (mkStdClock 0)) LinkSet_new 0.

Definition cable_ab : Cable := mkCable 0 11 1 12.
Definition cable_bc : Cable := mkCable 1 13 2 14.
Definition plug_in : list mesh_event :=
  [MLink 0 (demo_key 2) 11; MLink 1 (demo_key 1) 12; MLink 1 (demo_key 3) 13; MLink 2 (demo_key 2) 14].
Definition round : list mesh_event := [MDeliver cable_ab; MDeliver cable_bc; MTurn 0 []; MTurn 1 []; MTurn 2 []].
Definition rounds (n : nat) : list mesh_event := concat (replicate n round).

Definition line_run (es : list mesh_event) : option (list World) :=
  @mesh_run toy_ed25519 toy_box mesh_env es [fresh_node 1; fresh_node 2; fresh_node 3].

(** What a node believes of the tree, and what was delivered to it. *)
Definition tree_and_inbox (w : World) : option bytes * option (bytes * nat) * list (bytes * bytes) :=
  (parent (w_router w), root_and_depth (w_router w), r_inbox (w_router w)).

(** The least key becomes the root of all three, each hangs below its neighbour
    towards it, and what the first sends to the third, which it has no link to,
    is in the third's inbox under the first's key, and in no other. *)
Example payload_crosses :
  option_map (fmap tree_and_inbox) (line_run (plug_in ++ rounds 14 ++ [MTurn 0 [(demo_key 3, [1; 2; 3])]] ++ rounds 18))
  = Some [(Some (demo_key 1), Some (demo_key 1, 0%nat), []);
          (Some (demo_key 1), Some (demo_key 1, 1%nat), []);
          (Some (demo_key 2), Some (demo_key 1, 2%nat), [(demo_key 1, [1; 2; 3])])].
Proof. vm_compute. reflexivity. Qed.
