(* ===== verification/Probe.v ===== *)
(** * Probe: the facade of the library ([Client] of [src/lib.rs]) and the run of
    the program against one peer ([run] and the end of [main] of
    [client/src/main.rs]).

    The probe registers one link, serves it until the node has a parent, resolves
    an address if one is given, asks its owner who it is, serves on, and reports.
    Its output is a list of lines; how it ends is a [ProbeEnd]. *)
From Stdlib Require Import Strings.String.
From stdpp Require Import base tactics list numbers gmap.
From S2P Require Import Prelude Errors Clock Frame Address Table Bloom Wire Handshake LinkSet Router Hoare Demo Tree BloomTree Session Pathfind Protocol Driver Invariant Delivery Text Uri Lan Discover Views Node Carry NodeRun PeerList Ipv6 Dial Dump Resolve Mesh.

Local Open Scope Z_scope.

(** ** [String::from_utf8_lossy]

    Each maximal start of a character that is not completed becomes one
    replacement character. *)

Definition REPLACEMENT : bytes := [239; 191; 189].

Definition second3 (b0 b1 : Z) : bool :=
  if b0 =? 224 then within 160 191 b1 else if b0 =? 237 then within 128 159 b1 else within 225 239 b0 && is_cont b1.
Definition second4 (b0 b1 : Z) : bool :=
  if b0 =? 240 then within 144 191 b1 else if b0 =? 244 then within 128 143 b1 else within 241 243 b0 && is_cont b1.

Fixpoint from_utf8_lossy (s : bytes) : bytes :=
  match s with
  | [] => []
  | b0 :: s0 =>
    if b0 <? 128 then b0 :: from_utf8_lossy s0
    else if within 194 223 b0 then
      match s0 with
      | b1 :: s1 => if is_cont b1 then b0 :: b1 :: from_utf8_lossy s1 else REPLACEMENT ++ from_utf8_lossy s0
      | [] => REPLACEMENT
      end
    else if within 224 239 b0 then
      match s0 with
      | b1 :: s1 =>
        if second3 b0 b1 then
          match s1 with
          | b2 :: s2 => if is_cont b2 then b0 :: b1 :: b2 :: from_utf8_lossy s2 else REPLACEMENT ++ from_utf8_lossy s1
          | [] => REPLACEMENT
          end
        else REPLACEMENT ++ from_utf8_lossy s0
      | [] => REPLACEMENT
      end
    else if within 240 244 b0 then
      match s0 with
      | b1 :: s1 =>
        if second4 b0 b1 then
          match s1 with
          | b2 :: s2 =>
            if is_cont b2 then
              match s2 with
              | b3 :: s3 => if is_cont b3 then b0 :: b1 :: b2 :: b3 :: from_utf8_lossy s3 else REPLACEMENT ++ from_utf8_lossy s2
              | [] => REPLACEMENT
              end
            else REPLACEMENT ++ from_utf8_lossy s1
          | [] => REPLACEMENT
          end
        else REPLACEMENT ++ from_utf8_lossy s0
      | [] => REPLACEMENT
      end
    else REPLACEMENT ++ from_utf8_lossy s0
  end.

Lemma lossy_ind (P : bytes -> Prop) : (forall s, (forall t, (length t < length s)%nat -> P t) -> P s) -> forall s, P s.
Proof. intros Hs. apply (induction_ltof1 _ (@length Z)). exact Hs. Qed.

(** What is shown is text, and text is shown as it is. *)
Lemma lossy_valid s : utf8_valid (from_utf8_lossy s) = true.
Proof.
  induction s as [s IH] using lossy_ind. destruct s as [|b0 s0]; [done|].
  assert (forall t, (length t < length (b0 :: s0))%nat -> utf8_valid (REPLACEMENT ++ from_utf8_lossy t) = true) as Hr.
  { intros t Ht. cbn. by apply IH. }
  cbn [from_utf8_lossy]. destruct (b0 <? 128) eqn:E0; [cbn [utf8_valid]; rewrite E0; apply IH; cbn; lia|].
  destruct (within 194 223 b0) eqn:E2.
  { destruct s0 as [|b1 s1]; [done|]. destruct (is_cont b1) eqn:C1; [|apply Hr; cbn; lia].
    cbn [utf8_valid]. rewrite E0, E2, C1. apply IH. cbn. lia. }
  destruct (within 224 239 b0) eqn:E3.
  { destruct s0 as [|b1 s1]; [done|]. destruct (second3 b0 b1) eqn:C1; [|apply Hr; cbn; lia].
    destruct s1 as [|b2 s2]; [done|]. destruct (is_cont b2) eqn:C2; [|apply Hr; cbn; lia].
    cbn [utf8_valid]. rewrite E0, E2, E3. fold (second3 b0 b1). rewrite C1, C2. apply IH. cbn. lia. }
  destruct (within 240 244 b0) eqn:E4; [|apply Hr; cbn; lia].
  destruct s0 as [|b1 s1]; [done|]. destruct (second4 b0 b1) eqn:C1; [|apply Hr; cbn; lia].
  destruct s1 as [|b2 s2]; [done|]. destruct (is_cont b2) eqn:C2; [|apply Hr; cbn; lia].
  destruct s2 as [|b3 s3]; [done|]. destruct (is_cont b3) eqn:C3; [|apply Hr; cbn; lia].
  cbn [utf8_valid]. rewrite E0, E2, E3. fold (second4 b0 b1). rewrite C1, C2, C3. apply IH. cbn. lia.
Qed.

Lemma lossy_text s : utf8_valid s = true -> from_utf8_lossy s = s.
Proof.
  induction s as [s IH] using lossy_ind. destruct s as [|b0 s0]; [done|]. cbn [utf8_valid from_utf8_lossy].
  destruct (b0 <? 128); [intros Hv; by rewrite IH by (cbn; lia || done)|].
  destruct s0 as [|b1 s1]; [done|]. destruct (within 194 223 b0).
  { intros [-> Hv]%andb_true_iff. by rewrite IH by (cbn; lia || done). }
  destruct s1 as [|b2 s2]; [done|]. fold (second3 b0 b1). destruct (within 224 239 b0).
  { intros [[-> ->]%andb_true_iff Hv]%andb_true_iff. by rewrite IH by (cbn; lia || done). }
  destruct s2 as [|b3 s3]; [done|]. fold (second4 b0 b1). intros [[[C1 ->]%andb_true_iff ->]%andb_true_iff Hv]%andb_true_iff.
  assert (within 240 244 b0 = true) as ->.
  { unfold second4, within in *. destruct (Z.eqb_spec b0 240); [lia|]. destruct (Z.eqb_spec b0 244); lia. }
  rewrite C1. by rewrite IH by (cbn; lia || done).
Qed.

(** ** The facade *)

Record Client : Type := mkClient { cl_key : bytes; cl_opts : LinkOptions }.

Definition LinkOptions_default : LinkOptions := mkLinkOptions [] 0 None [].
Definition Client_new (key : bytes) : Client := mkClient key LinkOptions_default.
Definition Client_with_options (key : bytes) (opts : LinkOptions) : Client := mkClient key opts.

Section facade.
Context `{!Hex} `{!Ed25519} `{!Blake2}.

Definition Client_address (c : Client) : Address := addr_for_key (verifying_key (cl_key c)).
Definition Client_subnet (c : Client) : Subnet := subnet_for_key (verifying_key (cl_key c)).
Definition connect (net : Net) (c : Client) (uri : bytes) (id : LinkId) : result AnyConn := dial net uri (cl_key c) (cl_opts c) id.
Definition connect_tls (net : Net) (c : Client) (uri : bytes) (id : LinkId) : result AnyConn := tls_dial net uri (cl_key c) (cl_opts c) id.
Definition connect_ws (net : Net) (c : Client) (uri : bytes) (id : LinkId) : result AnyConn := ws_dial net uri (cl_key c) (cl_opts c) id.
Definition connect_wss (net : Net) (c : Client) (uri : bytes) (id : LinkId) : result AnyConn := wss_dial net uri (cl_key c) (cl_opts c) id.
Definition connect_quic (net : Net) (c : Client) (uri : bytes) (id : LinkId) : result AnyConn := quic_dial net uri (cl_key c) (cl_opts c) id.
Definition connect_any (net : Net) (c : Client) (uri : bytes) (id : LinkId) : result AnyConn := dial_any net uri (cl_key c) (cl_opts c) id.
Definition Client_listen (net : Net) (c : Client) (uri : bytes) : result bytes := listen net uri.
Definition Client_accept (c : Client) (a : accepted) (id : LinkId) : result AnyConn := tcp_accept a (cl_key c) (cl_opts c) id.
End facade.

(** ** What is printed *)

(** [{tag:<8}] *)
Definition padded (tag : bytes) : bytes := tag ++ replicate (8 - length tag) 32.

Section report.
Context `{!Hex}.

Definition show (tag key : bytes) : bytes := padded tag ++ [32] ++ hex_encode key ++ [32] ++ Address_text (addr_for_key key) ++ [10].

Definition report (dump_it : bool) (r : Router) : bytes :=
  match parent r with Some p => show (str "parent") p | None => str "parent   <none>" ++ [10] end ++
  match root_and_depth r with
  | Some (k, d) => show (str "root") k ++ str "depth    " ++ dec (Z.of_nat d) ++ [10]
  | None => str "root     <unknown>" ++ [10]
  end ++
  str "known    " ++ dec (Z.of_nat (known_nodes r)) ++ str " nodes, announces sent " ++ dec (t_announces_sent (r_tree r)) ++ str "/" ++
  dec (t_announces_recv (r_tree r)) ++ str ", frames " ++ debug_vec (r_frames r) ++ [10] ++
  (if dump_it then dump r else []).

Definition nodeinfo_line (k p : bytes) : bytes := str "nodeinfo " ++ hex_encode k ++ str ": " ++ from_utf8_lossy (drop 1 p) ++ [10].
End report.

(** ** The run *)

(** What is written, how the run ends: the process exits with a message, or it
    reports; [Unfinished] when there is more of the network to come. *)
Inductive Line : Type :=
  | Out (text : bytes)
  | ResolveFailed (e : Error)
  | NodeinfoFailed (e : Error).

Inductive ProbeEnd : Type :=
  | RegisterFailed (e : Error)
  | LinkDropped (e : Error)
  | NotConverged
  | Reported
  | Unfinished.

(** A stretch of the run: its lines, and its value unless the run ended. *)
Abbreviation stretch A := (M (list Line * (A + ProbeEnd))%type).

Definition stop {A} (e : ProbeEnd) : stretch A := mret ([], inr e).
Definition give {A} (lines : list Line) (a : A) : stretch A := mret (lines, inl a).
Definition after {A B} (m : stretch A) (k : A -> stretch B) : stretch B :=
  '(lines, r) ← m;
  match r with
  | inl a => '(more, r) ← k a; mret (lines ++ more, r)
  | inr e => mret (lines, inr e)
  end.

Abbreviation Arrivals := (list (LinkSet -> LinkSet)).
Abbreviation Outbox := (list (bytes * bytes)).

(** What arrives during the slices of the first loop, the resolving, the slices
    of the second loop and the final hold. *)
Record ProbeNet : Type := mkProbeNet { pb_converge : list Arrivals; pb_resolve : Arrivals; pb_pump : list Arrivals; pb_hold : Arrivals }.

(** The seconds of an [Instant] are 63 bits wide; an addition beyond panics. *)
Definition instant_fits (t : Z) : bool := t <? from_secs (2 ^ 63).

Section run.
Context `{!Hex} `{!Ed25519} `{!NaclBox} `{!Blake2} `{!Env}.

(** [Router::serve]: how the slice went and what is left of the outbox. *)
Definition serve (hold : Z) (out : Outbox) (net : Arrivals) : stretch Outbox := fun w =>
  if instant_fits (clock_at (w_ticks w) + hold) then
    ('(r, out) ← serve_links (Some hold) out net;
     match r with
     | Err e => stop (LinkDropped e)
     | Ok false => stop Unfinished
     | Ok true => give [] out
     end) w
  else Panic.

Definition SLICE : Z := from_millis 250.

Fixpoint converge (end_ : Z) (out : Outbox) (nets : list Arrivals) : stretch Outbox :=
  p ← asks parent;
  match p with
  | Some _ => give [] out
  | None =>
    now ← instant_now;
    if end_ <=? now then give [] out
    else match nets with
         | [] => stop Unfinished
         | net :: nets => after (serve SLICE out net) (fun out => converge end_ out nets)
         end
  end.

Definition answered_by (key : bytes) (kp : bytes * bytes) : bool := bool_decide (kp.1 = key) && bool_decide (head kp.2 = Some PROTO_NODEINFO_RES).

Fixpoint pump_answer (end_ : Z) (key : bytes) (out : Outbox) (nets : list Arrivals) : stretch Outbox :=
  now ← instant_now;
  if end_ <=? now then give [] out
  else
    inbox ← asks r_proto_inbox;
    if existsb (answered_by key) inbox then give [] out
    else match nets with
         | [] => stop Unfinished
         | net :: nets => after (serve SLICE out net) (fun out => pump_answer end_ key out nets)
         end.

(** [p[1..]] panics on an empty [p]. *)
Fixpoint nodeinfo_lines (inbox : list (bytes * bytes)) : M (list Line) :=
  match inbox with
  | [] => mret []
  | (k, p) :: inbox =>
    match p with
    | [] => panic
    | _ :: _ => lines ← nodeinfo_lines inbox; mret (Out (nodeinfo_line k p) :: lines)
    end
  end.

Definition drain_nodeinfo (key : bytes) (out : Outbox) : stretch Outbox :=
  inbox ← asks r_proto_inbox;
  _ ← modify (set_proto_inbox []);
  lines ← nodeinfo_lines (filter (fun kp => kp.1 = key) inbox);
  give lines out.

Definition ask_nodeinfo (key : bytes) (out : Outbox) (nets : list Arrivals) : stretch Outbox :=
  asked ← attempt (request_nodeinfo key);
  match asked with
  | Err e => give [NodeinfoFailed e] out
  | Ok _ =>
    start ← instant_now;
    after (pump_answer (start + from_secs 15) key out nets) (drain_nodeinfo key)
  end.

Definition resolve_stage (id : LinkId) (addr : Address) (out : Outbox) (net : ProbeNet) : stretch Outbox :=
  found ← attempt (resolve id addr (from_secs 60) (pb_resolve net));
  match found with
  | Ok (Some key) => after (give [Out (show (str "target") key)] ()) (fun _ => ask_nodeinfo key out (pb_pump net))
  | Ok None => stop Unfinished
  | Err e => give [ResolveFailed e] out
  end.

Definition new_router (key : bytes) : M () :=
  origin ← instant_now;
  modify (fun _ => with_clock key (mkStdClock origin)).

Definition links_single (conn : AnyConn) : M () := fun w =>
  Done (mkWorld (w_router w) (LinkSet_single (clock_at (w_ticks w)) conn) (S (w_ticks w))) (Ok ()).

(** Up to the convergence. *)
Definition opening (c : Client) (conn : AnyConn) (net : ProbeNet) : stretch Outbox :=
  _ ← new_router (cl_key c);
  '(conn, registered) ← register conn (c_remote_key conn) (c_id conn);
  match registered with
  | Err e => stop (RegisterFailed e)
  | Ok _ => _ ← links_single conn; start ← instant_now; converge (start + from_secs 60) [] (pb_converge net)
  end.

(** After it: the address, the final hold and the report. *)
Definition closing (dump_it : bool) (id : LinkId) (hold : Z) (target : option Address) (net : ProbeNet) (out : Outbox) : stretch () :=
  p ← asks parent;
  match p with
  | None => stop NotConverged
  | Some _ =>
    after (match target with Some addr => resolve_stage id addr out net | None => give [] out end) (fun out =>
    after (serve hold out (pb_hold net)) (fun _ => r ← asks (fun r => r); mret ([Out (report dump_it r)], inr Reported)))
  end.

Definition run (dump_it : bool) (c : Client) (conn : AnyConn) (hold : Z) (target : option Address) (net : ProbeNet) : stretch () :=
  after (give [Out (show (str "remote") (c_remote_key conn))] ()) (fun _ =>
  after (opening c conn net) (closing dump_it (c_id conn) hold target net)).

(** The end of [main]: the arguments, the key and the dial. *)
Definition DEFAULT_PEER : bytes := str "tcp://bode.theender.net:42069".

Definition probe_args (positionals : list bytes) : bytes * Z * option Address :=
  (unwrap_or (positionals !! 0%nat) DEFAULT_PEER,
   unwrap_or (s ← positionals !! 1%nat; parse_uint U64_MAX s) 45,
   s ← positionals !! 2%nat; ip ← ipv6_parse s; Some (mkAddress (flat_map (fun g => [g / 256; g mod 256]) ip))).

Definition probe_main (n : Net) (dump_it : bool) (key : bytes) (id : LinkId) (positionals : list bytes) (net : ProbeNet)
  : stretch () + Error :=
  let '(uri, hold, target) := probe_args positionals in
  let client := Client_new key in
  match connect_any n client uri id with
  | Ok conn => inl (after (give [Out (str "local  addr " ++ Address_text (Client_address client) ++ [10])] ())
                     (fun _ => run dump_it client conn (from_secs hold) target net))
  | Err e => inr e
  end.
End run.

(** ** Answers are never empty *)

Definition answers_ok (r : Router) : Prop := Forall (fun kp => kp.2 <> []) (r_proto_inbox r).

Section answers.
Context `{!Ed25519} `{!NaclBox} `{!Env}.

Lemma answers_of {A} (m : M A) : (forall ib, keeps (inbox_is ib) m) -> keeps answers_ok m.
Proof.
  intros Hm w Hw. eapply wp_mono; [apply (Hm (inboxes (w_router w)) w); reflexivity|].
  intros r w' E. injection E as _ E. unfold answers_ok. by rewrite E.
Qed.

Lemma answers_handle_frame c k t p : keeps answers_ok (handle_frame c k t p).
Proof.
  intros w Hw. unfold wp. destruct (handle_frame c k t p w) as [w' r| |] eqn:E; [|done..].
  unfold answers_ok in *. apply frame_delivers in E as [E|(tr & s & a & f & t1 & t2 & s' & kind & m & _ & _ & _ & _ & _ & [[_ E]|(_ & Hm & E)])];
    injection E as _ ->; [done..|]. apply Forall_app. split; [done|]. by constructor.
Qed.
#[local] Hint Resolve answers_handle_frame : keeps.

Lemma answers_keepalive c : keeps answers_ok (keepalive_if_idle c).
Proof. apply answers_of. intros ib. apply inbox_keepalive. Qed.
Lemma answers_maintain : keeps answers_ok maintain.
Proof. apply answers_of. intros ib. apply inbox_maintain. Qed.
Lemma answers_session_send d k m : keeps answers_ok (session_send_kind send d k m).
Proof. apply answers_of. intros ib. apply inbox_session_send_kind, inbox_send. Qed.
Lemma answers_rumor_lookup d : keeps answers_ok (rumor_lookup send d).
Proof. apply answers_of. intros ib. apply inbox_rumor_lookup, inbox_send. Qed.
#[local] Hint Resolve answers_keepalive answers_maintain answers_session_send answers_rumor_lookup : keeps.
#[local] Hint Extern 1 (keeps answers_ok (modify _)) => (apply keeps_modify; intros ? Hx; exact Hx) : keeps.
#[local] Hint Extern 1 (keeps answers_ok (modify_tree _)) => (apply keeps_modify_tree; intros ? Hx; exact Hx) : keeps.

Lemma answers_dispatch c t p : keeps answers_ok (dispatch_frame c t p).
Proof. unfold dispatch_frame. keeps_tac. Qed.

Lemma keeps_links_read I id : keeps I (links_read id).
Proof. intros w Hw. unfold wp, links_read. by destruct (read_frame_slice _ _). Qed.
Lemma keeps_links_remove I id : keeps I (links_remove id).
Proof. intros w Hw. exact Hw. Qed.
Lemma keeps_arrive I f : keeps I (Driver.arrive f).
Proof. intros w Hw. exact Hw. Qed.
#[local] Hint Resolve answers_dispatch keeps_links_read keeps_links_remove keeps_arrive : keeps.

Lemma keeps_unless_fatal I e k : keeps I k -> keeps I (unless_fatal e k).
Proof. intros Hk. unfold unless_fatal. keeps_tac. Qed.
#[local] Hint Resolve keeps_unless_fatal : keeps.

Lemma answers_send_outgoing out : keeps answers_ok (send_outgoing out).
Proof. induction out as [|[d m] out IH]; cbn [send_outgoing]; unfold session_send; keeps_tac. Qed.
Lemma answers_read_links ids : keeps answers_ok (read_links ids).
Proof. induction ids as [|id ids IH]; cbn [read_links]; unfold forget_link; keeps_tac. Qed.
#[local] Hint Resolve answers_send_outgoing answers_read_links : keeps.

Lemma answers_serve_turn e l o : keeps answers_ok (serve_turn e l o).
Proof. unfold serve_turn, maintain_soft. keeps_tac. Qed.
#[local] Hint Resolve answers_serve_turn : keeps.

Lemma answers_serve_loop e l o net : keeps answers_ok (serve_loop e l o net).
Proof. revert l o. induction net as [|f net IH]; intros l o; cbn [serve_loop]; keeps_tac. Qed.
#[local] Hint Resolve answers_serve_loop : keeps.

Lemma answers_serve_links h o net : keeps answers_ok (serve_links h o net).
Proof. unfold serve_links, maintain_soft. keeps_tac. Qed.

Lemma answers_resolve c addr t net : keeps answers_ok (resolve c addr t net).
Proof.
  assert (forall e l, keeps answers_ok (resolve_loop c addr e l net)) as Hl.
  { intros e. induction net as [|f net IH]; intros l; cbn [resolve_loop]; unfold resolve_turn; keeps_tac. }
  unfold resolve. keeps_tac.
Qed.
End answers.

(** ** What a run writes *)

(** An operation that never fails: its errors are values. *)
Definition calm {A} (m : M A) : Prop := forall w, wp m (fun r _ => exists a, r = Ok a) w.

Lemma calm_ret {A} (a : A) : calm (mret a).
Proof. intros w. by exists a. Qed.
Lemma calm_bind {A B} (m : M A) (k : A -> M B) : calm m -> (forall a, calm (k a)) -> calm (m ≫= k).
Proof. intros Hm Hk w. apply wp_bind. eapply wp_mono; [apply Hm|]. intros r w' [a ->]. apply Hk. Qed.
Lemma calm_attempt {A} (m : M A) : calm (attempt m).
Proof. intros w. unfold wp, attempt. destruct (m w) as [w' r| |]; [by exists r|done..]. Qed.
Lemma calm_step {A} (m : M A) : (forall w, exists w' a, m w = Done w' (Ok a)) -> calm m.
Proof. intros Hm w. destruct (Hm w) as (w' & a & E). unfold wp. rewrite E. by exists a. Qed.

Create HintDb calm discriminated.
#[export] Hint Resolve calm_ret calm_attempt : calm.
#[export] Hint Extern 2 (calm _) => (apply calm_step; intros ?; by do 2 eexists) : calm.
Ltac calm_tac := repeat first [ solve [auto with calm] | apply calm_bind; [|intros ?] | case_match ].

Section calm.
Context `{!Ed25519} `{!NaclBox} `{!Env}.

Lemma calm_serve_loop e l o net : calm (serve_loop e l o net).
Proof. revert l o. induction net as [|f net IH]; intros l o; cbn [serve_loop]; calm_tac. Qed.
#[local] Hint Resolve calm_serve_loop : calm.

Lemma calm_serve_links h o net : calm (serve_links h o net).
Proof. unfold serve_links. calm_tac. Qed.

Lemma calm_conn_write c t p k : (forall c, calm (k c)) -> calm (conn_write c t p k).
Proof. intros Hk. unfold conn_write. destruct (conn_write_frame c t p) as [[c' [u|e]]|]; [apply Hk|auto with calm|done]. Qed.

Lemma calm_register c k id : calm (register c k id).
Proof.
  assert (forall anns c, calm (replay_announces c anns)) as Hr.
  { induction anns as [|a anns IH]; intros c'; cbn [replay_announces]; [auto with calm|]. apply calm_conn_write. intros c2. calm_tac. }
  unfold register, new_req. repeat (apply calm_bind; [calm_tac|intros ?]).
  destruct (BloomFilter_encode <$> _) as [[b|]|]; [|done|]; apply calm_conn_write; intros c1; by apply calm_conn_write.
Qed.
End calm.

Section written.
Context `{!Hex} `{!Ed25519} `{!Ed25519Laws} `{!NaclBox} `{!NaclBoxLaws} `{!Blake2} `{!Env}.

Definition probe_ok (w : World) : Prop := world_ok w /\ answers_ok (w_router w).

(** From a sound node the stretch ends in one, having written what satisfies [P],
    and does not report. *)
Definition writes {A} (m : stretch A) (P : list Line -> Prop) : Prop :=
  forall w, probe_ok w -> wp m (fun r w' => probe_ok w' /\ exists l x, r = Ok (l, x) /\ P l /\ x <> inr Reported) w.

(** A step of a stretch that writes nothing. *)
Definition quiet {A} (m : M A) : Prop := forall w, probe_ok w -> wp m (fun r w' => probe_ok w' /\ exists a, r = Ok a) w.

Lemma quiet_of {A} (m : M A) : sound m (fun _ => True) -> keeps answers_ok m -> calm m -> quiet m.
Proof.
  intros Hs Hk Hc w [Hw Ha]. specialize (Hs w Hw). specialize (Hk w Ha). specialize (Hc w). unfold wp, probe_ok in *.
  by destruct (m w) as [w' r| |]; [destruct Hs|..].
Qed.

Lemma quiet_try {A} (m : M A) : sound m (fun _ => True) -> keeps answers_ok m -> quiet (attempt m).
Proof. intros Hs Hk. apply quiet_of; [by apply sound_try|by apply keeps_attempt|apply calm_attempt]. Qed.

Lemma quiet_asks {A} (f : Router -> A) : quiet (asks f).
Proof. intros w Hw. split; [exact Hw|by eexists]. Qed.
Lemma quiet_now : quiet instant_now.
Proof. intros w [Hw Ha]. split; [by split|by eexists]. Qed.

Lemma writes_bind {A B} (m : M A) (k : A -> stretch B) P : quiet m -> (forall a, writes (k a) P) -> writes (m ≫= k) P.
Proof. intros Hm Hk w Hw. apply wp_bind. eapply wp_mono; [by apply Hm|]. intros r w' [Hw' [a ->]]. by apply Hk. Qed.

Lemma writes_give {A} l (a : A) (P : list Line -> Prop) : P l -> writes (give l a) P.
Proof. intros Hl w Hw. split; [exact Hw|]. by exists l, (inl a). Qed.
Lemma writes_stop {A} e (P : list Line -> Prop) : P [] -> e <> Reported -> writes (stop (A:=A) e) P.
Proof. intros Hl He w Hw. split; [exact Hw|]. exists [], (inr e). split; [done|]. split; [done|]. by intros [= ->]. Qed.

Lemma wp_after {A B} (m : stretch A) (k : A -> stretch B) Q w :
  wp m (fun r w' => match r with
    | Ok (l, inl a) => wp (k a) (fun r w'' => match r with Ok (l', x) => Q (Ok (l ++ l', x)) w'' | Err e => Q (Err e) w'' end) w'
    | Ok (l, inr e) => Q (Ok (l, inr e)) w'
    | Err e => Q (Err e) w'
    end) w -> wp (after m k) Q w.
Proof.
  intros Hm. unfold after. apply wp_bind. eapply wp_mono; [exact Hm|]. intros [[l [a|e]]|e] w'; [|done..].
  intros Hk. apply wp_bind. eapply wp_mono; [exact Hk|]. by intros [[l' x]|e] w''.
Qed.

(** What comes after a stretch that writes nothing, and after lines. *)
Lemma writes_after {A B} (m : stretch A) (k : A -> stretch B) P : writes m (eq []) -> P [] -> (forall a, writes (k a) P) -> writes (after m k) P.
Proof.
  intros Hm Hp Hk w Hw. apply wp_after. eapply wp_mono; [by apply Hm|]. intros r w' (Hw' & l & x & -> & <- & Hx). destruct x as [a|e].
  - eapply wp_mono; [by apply Hk|]. intros r w'' (Hw'' & l & x & -> & Hl & Hx'). split; [done|]. by exists l, x.
  - split; [done|]. exists [], (inr e). split; [done|]. split; [done|]. congruence.
Qed.

Lemma writes_lines {A B} l (a : A) (k : A -> stretch B) (P : list Line -> Prop) : writes (k a) (fun l' => P (l ++ l')) -> writes (after (give l a) k) P.
Proof.
  intros Hk w Hw. apply wp_after. unfold wp, give, mret, M_ret. eapply wp_mono; [by apply Hk|].
  intros r w' (Hw' & l' & x & -> & Hl & Hx). split; [done|]. by exists (l ++ l'), x.
Qed.

Lemma writes_serve hold out net : net_ok net -> writes (serve hold out net) (eq []).
Proof.
  intros Hn w Hw. unfold wp, serve. destruct (instant_fits (clock_at (w_ticks w) + hold)); [|done]. revert w Hw. change (writes ('(r, out) ← serve_links (Some hold) out net;
    match r with Err e => stop (LinkDropped e) | Ok false => stop Unfinished | Ok true => give [] out end) (eq [])).
  apply writes_bind; [apply quiet_of; [by apply sound_serve_links|apply answers_serve_links|apply calm_serve_links]|].
  intros [[[]|e] o]; [by apply writes_give|by apply writes_stop..].
Qed.

Lemma writes_converge end_ out nets : Forall net_ok nets -> writes (converge end_ out nets) (eq []).
Proof.
  intros Hn. revert out. induction Hn as [|net nets Hn Hns IH]; intros out; cbn [converge];
    (apply writes_bind; [apply quiet_asks|]; intros [p|]; [by apply writes_give|]; apply writes_bind; [apply quiet_now|]; intros now;
     destruct (end_ <=? now); [by apply writes_give|]).
  - by apply writes_stop.
  - by apply writes_after; [apply writes_serve|..].
Qed.

Lemma writes_pump end_ key out nets : Forall net_ok nets -> writes (pump_answer end_ key out nets) (eq []).
Proof.
  intros Hn. revert out. induction Hn as [|net nets Hn Hns IH]; intros out; cbn [pump_answer];
    (apply writes_bind; [apply quiet_now|]; intros now; destruct (end_ <=? now); [by apply writes_give|];
     apply writes_bind; [apply quiet_asks|]; intros inbox; destruct (existsb _ inbox); [by apply writes_give|]).
  - by apply writes_stop.
  - by apply writes_after; [apply writes_serve|..].
Qed.

(** One line per answer of the key; the others are dropped. *)
Lemma nodeinfo_lines_ok inbox w : Forall (fun kp => kp.2 <> []) inbox ->
  nodeinfo_lines inbox w = Done w (Ok ((fun kp => Out (nodeinfo_line kp.1 kp.2)) <$> inbox)).
Proof.
  induction 1 as [|[k [|b p]] inbox Hp Hi IH]; cbn [nodeinfo_lines]; [done|done|]. unfold mbind, M_bind. by rewrite IH.
Qed.

Lemma drain_ok key out w : answers_ok (w_router w) ->
  drain_nodeinfo key out w = Done (mkWorld (set_proto_inbox [] (w_router w)) (w_links w) (w_ticks w))
    (Ok ((fun kp => Out (nodeinfo_line kp.1 kp.2)) <$> filter (fun kp => kp.1 = key) (r_proto_inbox (w_router w)), inl out)).
Proof.
  intros Ha. unfold drain_nodeinfo, mbind, M_bind, asks, modify.
  rewrite nodeinfo_lines_ok; [done|]. apply Forall_forall. intros kp [_ Hin]%list_elem_of_filter. by apply (proj1 (Forall_forall _ _) Ha).
Qed.

Definition answer_lines (key : bytes) (l : list Line) : Prop := Forall (fun x => exists p, x = Out (nodeinfo_line key p)) l.

Lemma writes_drain key out : writes (drain_nodeinfo key out) (answer_lines key).
Proof.
  intros w [[Hr Hl] Ha]. unfold wp. rewrite drain_ok by done. split.
  - split; [split; [|exact Hl]|constructor]. eapply (sound_free (set_proto_inbox [])); [free_field|by split].
  - eexists _, _. split; [done|]. split; [|done]. apply Forall_fmap, Forall_forall. intros [k p] [E _]%list_elem_of_filter. cbn in E. subst k. by exists p.
Qed.

(** What is written of a resolved key: that it could not be asked, or answers. *)
Definition asked_lines (key : bytes) (l : list Line) : Prop := (exists e, l = [NodeinfoFailed e]) \/ answer_lines key l.

Lemma writes_ask key out nets : Forall net_ok nets -> writes (ask_nodeinfo key out nets) (asked_lines key).
Proof.
  intros Hn. apply writes_bind; [apply quiet_try; [apply sound_proto_send|apply answers_session_send]|].
  intros [u|e]; [|apply writes_give; by left; exists e]. apply writes_bind; [apply quiet_now|]. intros start.
  apply writes_after; [by apply writes_pump|by right; constructor|]. intros o w Hw.
  eapply wp_mono; [by apply writes_drain|]. intros r w' (Hw' & l & x & -> & Hl & Hx). split; [done|]. exists l, x. split; [done|]. split; [by right|done].
Qed.

(** What is written of an address: nothing, that it was not resolved, or a key
    that owns it and what is written of this key. *)
Definition target_lines (addr : Address) (l : list Line) : Prop :=
  l = [] \/ (exists e, l = [ResolveFailed e]) \/
  exists k l', owns addr k = true /\ l = Out (show (str "target") k) :: l' /\ asked_lines k l'.

Lemma writes_resolve id addr out net : net_ok (pb_resolve net) -> Forall net_ok (pb_pump net) -> writes (resolve_stage id addr out net) (target_lines addr).
Proof.
  intros Hn Hp w Hw. unfold resolve_stage. apply wp_bind.
  assert (quiet (attempt (resolve id addr (from_secs 60) (pb_resolve net)))) as Hq by (by apply quiet_try; [apply sound_resolve|apply answers_resolve]).
  specialize (Hq w Hw). unfold wp at 1 in Hq. unfold wp at 1. unfold attempt in *.
  destruct (resolve id addr (from_secs 60) (pb_resolve net) w) as [w1 [[k|]|e]| |] eqn:E; [| | |done..]; destruct Hq as [Hw1 _].
  - apply resolve_found in E as [_ [Ho _]%resolved_owned]; [|apply Hw|done]. revert w1 Hw1. apply writes_lines. intros w1 Hw1.
    eapply wp_mono; [by apply writes_ask|]. intros r w2 (Hw2 & l & x & -> & Hl & Hx). split; [done|]. exists l, x.
    split; [done|]. split; [|done]. right. right. by exists k, l.
  - clear E. revert w1 Hw1. apply writes_stop; [by left|done].
  - clear E. revert w1 Hw1. apply writes_give. right. left. by exists e.
Qed.

Definition probe_net_ok (net : ProbeNet) : Prop :=
  Forall net_ok (pb_converge net) /\ net_ok (pb_resolve net) /\ Forall net_ok (pb_pump net) /\ net_ok (pb_hold net).

Lemma new_router_eq key w :
  new_router key w = Done (mkWorld (with_clock key (mkStdClock (clock_at (w_ticks w)))) (w_links w) (S (w_ticks w))) (Ok ()).
Proof. reflexivity. Qed.

Lemma opening_ok c conn net w : conn_bytes conn -> Forall net_ok (pb_converge net) -> w_links w = LinkSet_new ->
  wp (opening c conn net) (fun r w' => probe_ok w' /\ exists l x, r = Ok (l, x) /\ l = [] /\ x <> inr Reported) w.
Proof.
  intros Hc Hn Hl. unfold opening. apply wp_bind. unfold wp at 1. rewrite new_router_eq.
  match goal with |- wp _ _ ?w0 => set (w1 := w0) end.
  assert (probe_ok w1) as Hw1.
  { split; [|constructor]. split; [apply initial_inv|]. unfold w1. cbn [w_links]. rewrite Hl. constructor. }
  apply wp_bind. pose proof (sound_register conn (c_remote_key conn) (c_id conn) Hc w1 (proj1 Hw1)) as Hs.
  pose proof (answers_of _ (fun ib => inbox_register ib conn (c_remote_key conn) (c_id conn)) w1 (proj2 Hw1)) as Ha.
  pose proof (calm_register conn (c_remote_key conn) (c_id conn) w1) as Hr. unfold wp in Hs, Ha, Hr. unfold wp at 1.
  destruct (register conn (c_remote_key conn) (c_id conn) w1) as [w2 r| |]; [|done..]. destruct Hr as [[conn' r'] ->].
  destruct Hs as [Hw2 Hc2]. specialize (Hc2 _ eq_refl). cbn in Hc2. assert (probe_ok w2) as Hw by (by split).
  assert (forall m : stretch Outbox, writes m (eq []) -> forall w, probe_ok w ->
    wp m (fun r w' => probe_ok w' /\ exists l x, r = Ok (l, x) /\ l = [] /\ x <> inr Reported) w) as Hm.
  { intros m Hm w3 Hw3. eapply wp_mono; [by apply Hm|]. intros r w4 (Hw4 & l & x & -> & <- & Hx). split; [done|]. by exists [], x. }
  destruct r' as [u|e]; [|apply Hm; [by apply writes_stop|exact Hw]]. apply wp_bind. unfold wp at 1, links_single. cbv beta iota.
  apply (Hm (start ← instant_now; converge (start + from_secs 60) [] (pb_converge net))).
  - apply writes_bind; [apply quiet_now|]. intros start. by apply writes_converge.
  - split; [split; [apply Hw2|]|apply Ha]. apply Forall_app. split; [constructor|]. by constructor.
Qed.

Definition about (target : option Address) (l : list Line) : Prop := match target with Some addr => target_lines addr l | None => l = [] end.

Definition reported (dump_it : bool) (e : ProbeEnd) (w : World) : list Line :=
  match e with Reported => [Out (report dump_it (w_router w))] | _ => [] end.

Lemma closing_ok dump_it id hold target net out w : probe_net_ok net -> probe_ok w ->
  wp (closing dump_it id hold target net out) (fun r w' => probe_ok w' /\ exists mid e, about target mid /\
    r = Ok (mid ++ reported dump_it e w', inr e)) w.
Proof.
  intros (_ & Hr & Hp & Hh) Hw. unfold closing. apply wp_bind. unfold wp at 1, asks at 1. destruct (parent (w_router w)) as [p|].
  2: { split; [done|]. exists [], NotConverged. split; [|done]. by destruct target; [left|]. }
  apply wp_after. assert (writes (match target with Some addr => resolve_stage id addr out net | None => give [] out end) (about target)) as Ht.
  { destruct target; [by apply writes_resolve|by apply writes_give]. }
  eapply wp_mono; [by apply Ht|]. intros r w1 (Hw1 & mid & x & -> & Hmid & Hx). destruct x as [out'|e].
  2: { split; [done|]. exists mid, e. split; [done|]. assert (reported dump_it e w1 = []) as -> by (by destruct e). by rewrite app_nil_r. }
  apply wp_after. eapply wp_mono; [by apply writes_serve|]. intros r w2 (Hw2 & l & x & -> & <- & Hx2). destruct x as [out2|e].
  - apply wp_bind. unfold wp, asks, mret, M_ret. split; [done|]. by exists mid, Reported.
  - split; [done|]. exists mid, e. split; [done|]. assert (reported dump_it e w2 = []) as -> by (by destruct e). by rewrite !app_nil_r.
Qed.

(** *** No run out of fuel *)

Lemma total_after {A B} (m : stretch A) (k : A -> stretch B) : total m -> (forall a, total (k a)) -> total (after m k).
Proof. intros Hm Hk. unfold after. apply total_bind; [exact Hm|]. intros [l [a|e]]; [|apply total_ret]. apply total_bind; [apply Hk|]. intros [l' x]. apply total_ret. Qed.

Lemma total_serve hold out net : total (serve hold out net).
Proof.
  intros w. unfold serve. destruct (instant_fits (clock_at (w_ticks w) + hold)); [|done]. revert w. apply total_bind; [apply total_serve_links|].
  intros [[[]|e] o]; apply total_ret.
Qed.

Lemma total_converge end_ out nets : total (converge end_ out nets).
Proof.
  revert out. induction nets as [|net nets IH]; intros out; cbn [converge]; (apply total_bind; [apply total_asks|]; intros [p|]; [apply total_ret|];
    apply total_bind; [apply total_instant_now|]; intros now; destruct (end_ <=? now); [apply total_ret|]); [apply total_ret|].
  apply total_after; [apply total_serve|exact IH].
Qed.

Lemma total_pump end_ key out nets : total (pump_answer end_ key out nets).
Proof.
  revert out. induction nets as [|net nets IH]; intros out; cbn [pump_answer]; (apply total_bind; [apply total_instant_now|]; intros now;
    destruct (end_ <=? now); [apply total_ret|]; apply total_bind; [apply total_asks|]; intros inbox; destruct (existsb _ inbox); [apply total_ret|]);
    [apply total_ret|]. apply total_after; [apply total_serve|exact IH].
Qed.

Lemma total_drain_nodeinfo key out : total (drain_nodeinfo key out).
Proof.
  assert (forall inbox, total (nodeinfo_lines inbox)) as Hl.
  { induction inbox as [|[k [|b p]] inbox IH]; cbn [nodeinfo_lines]; [apply total_ret|apply total_panic|].
    apply total_bind; [exact IH|]. intros l. apply total_ret. }
  unfold drain_nodeinfo. apply total_bind; [apply total_asks|intros inbox]. apply total_bind; [apply total_modify|intros _].
  apply total_bind; [apply Hl|]. intros l. apply total_ret.
Qed.

Lemma total_run dump_it c conn hold target net : total (run dump_it c conn hold target net).
Proof.
  apply total_after; [apply total_ret|intros _]. apply total_after.
  - apply total_bind; [done|intros _]. apply total_bind; [apply total_register|]. intros [conn' [u|e]]; [|apply total_ret].
    apply total_bind; [done|intros _]. apply total_bind; [apply total_instant_now|]. intros start. apply total_converge.
  - intros out. apply total_bind; [apply total_asks|]. intros [p|]; [|apply total_ret]. apply total_after.
    + destruct target as [addr|]; [|apply total_ret]. apply total_bind; [apply total_attempt, total_resolve|]. intros [[k|]|e]; [|apply total_ret..].
      apply total_after; [apply total_ret|intros _]. apply total_bind; [apply total_attempt, total_session_send|]. intros [u|e]; [|apply total_ret].
      apply total_bind; [apply total_instant_now|]. intros start. apply total_after; [apply total_pump|]. apply total_drain_nodeinfo.
    + intros o. apply total_after; [apply total_serve|intros _]. by apply total_bind; [apply total_asks|].
Qed.

(** Whatever the peer sends, a run of the probe that does not panic comes to an end
    on a sound node, and its output is what it is meant to be: the peer's key; then, if
    an address was given and the search ended, that it failed, or a key that owns
    the address, followed by this key's own answers and no other's; then, if the
    hold ended, the report of the router as it is. *)
Theorem probe_output dump_it c conn hold target net w : conn_bytes conn -> probe_net_ok net -> w_links w = LinkSet_new ->
  run dump_it c conn hold target net w = Panic \/
  exists w' mid e, run dump_it c conn hold target net w =
      Done w' (Ok (Out (show (str "remote") (c_remote_key conn)) :: mid ++ reported dump_it e w', inr e)) /\
    about target mid /\ world_ok w'.
Proof.
  intros Hc Hn Hl. enough (wp (run dump_it c conn hold target net) (fun r w' => world_ok w' /\ exists mid e, about target mid /\
    r = Ok (Out (show (str "remote") (c_remote_key conn)) :: mid ++ reported dump_it e w', inr e)) w) as Hw.
  { pose proof (total_run dump_it c conn hold target net w) as Ht. unfold wp in Hw.
    destruct (run dump_it c conn hold target net w) as [w' r| |]; [right|by left|done]. destruct Hw as (Hw & mid & e & Hm & ->). by exists w', mid, e. }
  unfold run.
  apply wp_after. unfold wp at 1, give, mret, M_ret. apply wp_after. eapply wp_mono; [apply opening_ok; [done|apply Hn|done]|].
  intros r w1 (Hw1 & l & x & -> & -> & Hx). destruct x as [out|e].
  - eapply wp_mono; [by apply closing_ok|]. intros r w2 (Hw2 & mid & e & Hmid & ->). split; [apply Hw2|]. by exists mid, e.
  - split; [apply Hw1|]. exists [], e. split; [by destruct target; [left|]|]. by destruct e.
Qed.
End written.

(** ** Runs *)

Definition still (n : nat) : Arrivals := replicate n (fun ls => ls).

(** A peer that completed the handshake and then says nothing. *)
Definition silent_run (hold : Z) (target : option Address) : outcome (list Line * (() + ProbeEnd)) :=
  @run std_hex toy_ed25519 toy_box mesh_env false (Client_new (demo_key 2)) (demo_conn (demo_key 1) 7) hold target
    (mkProbeNet (replicate 4 (still 30)) (still 20) [] (still 60)) (mkWorld demo_router LinkSet_new 0).

Lemma probe_output_witness : exists w' mid e, silent_run (from_secs 1) None =
  Done w' (Ok (Out (@show std_hex (str "remote") (demo_key 1)) :: mid ++ @reported std_hex false e w', inr e)) /\ mid = [] /\
  @world_ok toy_ed25519 toy_box w'.
Proof.
  destruct (@probe_output std_hex toy_ed25519 toy_ed25519_laws toy_box toy_box_laws mesh_env false (Client_new (demo_key 2)) (demo_conn (demo_key 1) 7)
    (from_secs 1) None (mkProbeNet (replicate 4 (still 30)) (still 20) [] (still 60)) (mkWorld demo_router LinkSet_new 0)) as [E|(w' & mid & e & E & Hm & Hw)].
  - constructor.
  - assert (forall n, net_ok (still n)) as Hs by (intros n; by apply Forall_replicate). split; [by apply Forall_replicate|]. split; [apply Hs|]. split; [constructor|apply Hs].
  - reflexivity.
  - exfalso. assert (match silent_run (from_secs 1) None with Panic => false | _ => true end = true) as Hc by (vm_compute; reflexivity).
    unfold silent_run in Hc. rewrite E in Hc. discriminate Hc.
  - exists w', mid, e. split; [exact E|]. split; [exact Hm|exact Hw].
Defined.

(** The node becomes its own root when no one answers, and that is taken for
    convergence: the probe reports itself as parent and root. *)
Example silence_converges :
  match silent_run (from_secs 1) None with
  | Done w (Ok (_, inr Reported)) => parent (w_router w) = Some (demo_key 2) /\ known_nodes (w_router w) = 1%nat
  | _ => False
  end.
Proof. vm_compute. split; reflexivity. Qed.

(** The first positional after the peer is taken as it is, and the hold it asks
    for is added to an [Instant]. *)
Example long_hold_panics :
  (probe_args [str "tcp://a:1"; str "18446744073709551615"]).1.2 = U64_MAX /\ silent_run (from_secs U64_MAX) None = Panic.
Proof. vm_compute. split; reflexivity. Qed.
