(* ===== verification/Process.v ===== *)
(** * Process: the whole program ([main] of [client/src/main.rs], with [load] and
    [to_json] of [client/src/config.rs]).

    A command line leads to a message and an exit, to a running node or to the
    probe of one peer; a configuration that the program prints is one it runs. *)
From Stdlib Require Import Strings.String.
From stdpp Require Import base tactics list numbers gmap sorting.
From S2P Require Import Prelude Errors Clock Frame Address Table Bloom Wire Handshake LinkSet Router Session Protocol Driver Text Uri Peers Tun Views Node Discover LanTask Config PeerList Admin Lan Dial Demo Delivery Boot Probe.

Local Open Scope Z_scope.

(** ** JSON text

    [serde_json::from_str] and [to_string_pretty]: what is printed is read back,
    objects by the order of their keys and floats as [refloat] says, and white
    space after it is ignored. *)
Class JsonText := { json_parse : bytes -> option Value; json_pretty : Value -> bytes }.

Class JsonTextLaws `{!JsonText} `{!FloatText} : Prop := {
  json_back v sp : forallb is_json_space sp = true -> json_parse (json_pretty v ++ sp) = Some (reread v) }.

(** ** The program *)

Definition USAGE : bytes :=
  str "roots - a Yggdrasil node

  -genconf              print a new config to stdout
  -useconf              read a JSON config from stdin
  -useconffile <path>   read a JSON config from a file
  -json                 accepted for compatibility; config output is always JSON
  -address              with -useconf/-useconffile, print this node's IPv6 address
  -subnet               with -useconf/-useconffile, print this node's IPv6 subnet
  -publickey            with -useconf/-useconffile, print this node's public key

  <peer-uri> [hold_secs] [target-ipv6]   run the demo probe against one peer".

(** Why the process complains. *)
Inductive Complaint : Type :=
  | BadFlags (msg usage : bytes)
  | BadConfig (e : ConfigError)
  | BootFailed (e : BootError)
  | ConnectFailed (e : Error).

Inductive Process : Type :=
  | Exits (code : Z) (out : bytes) (err : option Complaint)
  | RunsNode (b : Booted)
  | RunsProbe (run : stretch ()).

(** What the process finds around it: the documents and key files it can read,
    the keys it would generate for [-genconf], for the defaults of a document and
    for a probe, the kernel, the network, and whether a dump is asked for. *)
Record Surroundings : Type := mkSurroundings {
  su_read : ConfigSource -> option bytes; su_key_file : bytes -> option bytes; su_new_key : bytes; su_default_key : bytes; su_probe_key : bytes;
  su_sockets : SocketHost; su_host : Host; su_tun : TunHost; su_clock : StdClock;
  su_net : Net; su_dump : bool; su_link : LinkId; su_arrivals : ProbeNet }.

Section process.
Context `{!Hex} `{!Unicode} `{!Ed25519} `{!NaclBox} `{!Blake2} `{!Env} `{!JsonText}.

Definition from_json (su : Surroundings) (text : bytes) : Config + ConfigError :=
  Config_from_doc (su_default_key su) (su_key_file su) (json_parse text).

Definition load (su : Surroundings) (source : ConfigSource) : Config + ConfigError :=
  match su_read su source with None => inr ConfigIo | Some text => from_json su text end.

Definition println (text : bytes) : bytes := text ++ [10].

Definition main (su : Surroundings) (args : list bytes) : Process :=
  match startup (load su) args with
  | ExitUsage msg => Exits 2 [] (Some (BadFlags msg USAGE))
  | PrintUsage => Exits 0 (println USAGE) None
  | PrintConfig => Exits 0 (println (json_pretty (Config_generate (su_new_key su)))) None
  | ExitConfig e => Exits 1 [] (Some (BadConfig e))
  | PrintAddress a => Exits 0 (println (Address_text a)) None
  | PrintSubnet s => Exits 0 (println (Subnet_text s)) None
  | PrintKey k => Exits 0 (println (hex_encode k)) None
  | BootNode c =>
    match boot (su_sockets su) (su_host su) (su_tun su) (su_clock su) c with
    | inl b => RunsNode b
    | inr e => Exits 1 [] (Some (BootFailed e))
    end
  | Config.Probe positionals =>
    match probe_main (su_net su) (su_dump su) (su_probe_key su) (su_link su) positionals (su_arrivals su) with
    | inl run => RunsProbe run
    | inr e => Exits 1 (println (str "local  addr " ++ Address_text (Client_address (Client_new (su_probe_key su))))) (Some (ConnectFailed e))
    end
  end.
End process.

(** ** A printed configuration is one that runs *)

Section generated.
Context `{!Hex} `{!HexLaws} `{!Unicode} `{!Ed25519} `{!Ed25519Laws} `{!NaclBox} `{!Blake2} `{!Env} `{!JsonText} `{!FloatText} `{!JsonTextLaws}.

Lemma printed_loads su su' source : bytes_ok (su_new_key su) -> su_new_key su <> [] ->
  su_read su' source = Some (println (json_pretty (Config_generate (su_new_key su)))) -> load su' source = inl (defaults (su_new_key su)).
Proof.
  intros Hk Hne Hr. unfold load, from_json. rewrite Hr. unfold println. rewrite json_back by done.
  apply generated_loads; [done| |done]. apply verifying_key_ok.
Qed.

(** A run on a document, its answer flags last. *)
Definition document_args (source : ConfigSource) (flags : list bytes) : list bytes :=
  match source with Stdin => str "-useconf" :: flags | File path => str "-useconffile" :: path :: flags end.

Lemma document_startup ld source c : ld source = inl c ->
  startup ld (document_args source []) = BootNode c /\
  startup ld (document_args source [str "-address"]) = match config_address c with inl a => PrintAddress a | inr e => ExitConfig e end /\
  startup ld (document_args source [str "-subnet"]) = match config_subnet c with inl s => PrintSubnet s | inr e => ExitConfig e end /\
  startup ld (document_args source [str "-publickey"]) = match public_key c with inl k => PrintKey k | inr e => ExitConfig e end.
Proof.
  intros E. unfold startup.
  assert (forall a s p flags, Flags_parse (document_args source flags) = mkFlags false (match source with Stdin => true | File _ => false end)
      (match source with Stdin => None | File path => Some path end) a s p false false None [] ->
    match fl_rejected (Flags_parse (document_args source flags)) with
    | Some msg => ExitUsage msg
    | None => if fl_help (Flags_parse (document_args source flags)) then PrintUsage else
        match config_stage ld (Flags_parse (document_args source flags)) with Some x => x | None => Config.Probe (fl_positionals (Flags_parse (document_args source flags))) end
    end = match print_identity (mkFlags false false None a s p false false None []) c with inl (Some x) => x | inl None => BootNode c | inr e => ExitConfig e end) as Hs.
  { intros a s p flags ->. unfold config_stage, Flags_source. destruct source; cbn; by rewrite E. }
  rewrite (Hs false false false []), (Hs true false false [str "-address"]), (Hs false true false [str "-subnet"]), (Hs false false true [str "-publickey"])
    by (destruct source; vm_compute; reflexivity).
  unfold print_identity. cbn. split; [done|]. split; [by destruct (config_address c)|]. split; [by destruct (config_subnet c)|by destruct (public_key c)].
Qed.

(** What [-genconf] prints is a configuration of the node whose key it made: read
    back by any run of the program, from its input or from a file, it has that
    node's address, subnet and public key, and a node that comes up from it runs
    under that key. *)
Theorem genconf_runs su su' doc source : bytes_ok (su_new_key su) -> length (su_new_key su) = 32%nat ->
  main su [str "-genconf"] = Exits 0 doc None -> su_read su' source = Some doc ->
  let pubkey := verifying_key (su_new_key su) in
  main su' (document_args source [str "-address"]) = Exits 0 (println (Address_text (addr_for_key pubkey))) None /\
  main su' (document_args source [str "-subnet"]) = Exits 0 (println (Subnet_text (subnet_for_key pubkey))) None /\
  main su' (document_args source [str "-publickey"]) = Exits 0 (println (hex_encode pubkey)) None /\
  (forall b, main su' (document_args source []) = RunsNode b -> bn_key b = su_new_key su /\ r_pubkey (bn_router b) = pubkey).
Proof.
  intros Hk Hl Hg Hr pubkey. assert (su_new_key su <> []) as Hne by (by destruct (su_new_key su)).
  change (main su [str "-genconf"]) with (Exits 0 (println (json_pretty (Config_generate (su_new_key su)))) None) in Hg.
  injection Hg as <-. pose proof (printed_loads su su' source Hk Hne Hr) as Hload.
  destruct (signing_key_exact (defaults (su_new_key su)) (su_new_key su)) as (_ & Hid & Hsk). specialize (Hsk Hl). destruct (Hid Hsk) as (Hp & Ha & Hsn).
  destruct (document_startup (load su') source _ Hload) as (Eb & Ea & Es & Ep). unfold main. rewrite Ea, Es, Ep, Eb, Ha, Hsn, Hp.
  do 3 (split; [done|]). intros b. destruct (boot _ _ _ _ _) as [b'|] eqn:E; [|done]. intros [= ->]. unfold boot in E. rewrite Hsk in E.
  by repeat (case_match; try done); simplify_eq.
Qed.
End generated.

(** ** Witness *)

(** A text of values: a tag, a length, the parts. *)
Fixpoint toy_print (v : Value) : bytes :=
  match v with
  | VNull => [0]
  | VBool b => [1; if b then 1 else 0]
  | VNumber (PosInt n) => [2; n]
  | VNumber (NegInt n) => [3; n]
  | VNumber (Float n) => [4; n]
  | VString s => 5 :: Z.of_nat (length s) :: s
  | VArray items => 6 :: Z.of_nat (length items) :: flat_map toy_print items
  | VObject ms => 7 :: Z.of_nat (length ms) :: flat_map (fun km => Z.of_nat (length km.1) :: km.1 ++ toy_print km.2) ms
  end.

Fixpoint many {A} (n : nat) (read : bytes -> option (A * bytes)) (b : bytes) : option (list A * bytes) :=
  match n with
  | O => Some ([], b)
  | S n => '(a, b) ← read b; '(l, b) ← many n read b; Some (a :: l, b)
  end.

Fixpoint toy_read (fuel : nat) (b : bytes) : option (Value * bytes) :=
  match fuel with
  | O => None
  | S fuel =>
    match b with
    | 0 :: r => Some (VNull, r)
    | 1 :: x :: r => Some (VBool (x =? 1), r)
    | 2 :: n :: r => Some (VNumber (PosInt n), r)
    | 3 :: n :: r => Some (VNumber (NegInt n), r)
    | 4 :: n :: r => Some (VNumber (Float n), r)
    | 5 :: n :: r => Some (VString (take (Z.to_nat n) r), drop (Z.to_nat n) r)
    | 6 :: n :: r => '(l, r) ← many (Z.to_nat n) (toy_read fuel) r; Some (VArray l, r)
    | 7 :: n :: r =>
      '(l, r) ← many (Z.to_nat n) (fun b => match b with
         | k :: r => '(v, r') ← toy_read fuel (drop (Z.to_nat k) r); Some ((take (Z.to_nat k) r, v), r')
         | [] => None
         end) r;
      Some (VObject l, r)
    | _ => None
    end
  end.

Lemma many_back {A} (print : A -> bytes) (read : bytes -> option (A * bytes)) l rest :
  Forall (fun x => forall rest, read (print x ++ rest) = Some (x, rest)) l -> many (length l) read (flat_map print l ++ rest) = Some (l, rest).
Proof.
  intros Hl. revert rest. induction Hl as [|x l Hx Hl IH]; intros rest; [done|]. cbn [flat_map many length]. rewrite <-app_assoc, Hx.
  cbn. by rewrite IH.
Qed.

Lemma toy_back v : forall fuel rest, (length (toy_print v) <= fuel)%nat -> toy_read fuel (toy_print v ++ rest) = Some (v, rest).
Proof.
  assert (forall A (f : A -> bytes) x (l : list A), x ∈ l -> (length (f x) <= length (flat_map f l))%nat) as Hin.
  { intros A f x l Hx. induction Hx as [x l|x y l Hx IH]; cbn; rewrite length_app; lia. }
  induction v as [|b|n|s|items IH|ms IH] using value_ind; intros [|fuel] rest Hf; cbn [toy_print length] in Hf; try (destruct n; cbn in Hf); try lia.
  - done.
  - by destruct b.
  - done.
  - done.
  - done.
  - cbn. rewrite Nat2Z.id. by rewrite take_app_length, drop_app_length.
  - cbn [toy_print app toy_read]. rewrite Nat2Z.id, (many_back toy_print); [done|]. apply Forall_forall. intros v Hv rest'.
    apply (proj1 (Forall_forall _ _) IH v Hv). pose proof (Hin _ toy_print v items Hv). lia.
  - cbn [toy_print app toy_read]. rewrite Nat2Z.id, (many_back (fun km => Z.of_nat (length km.1) :: km.1 ++ toy_print km.2)); [done|].
    apply Forall_forall. intros [k v] Hv rest'. cbn [app fst snd]. rewrite Nat2Z.id, <-app_assoc, drop_app_length, take_app_length.
    pose proof (Hin _ (fun km => Z.of_nat (length km.1) :: km.1 ++ toy_print km.2) _ ms Hv) as Hs. cbn [fst snd length] in Hs. rewrite length_app in Hs.
    rewrite (proj1 (Forall_forall _ _) IH (k, v) Hv); [done|]. cbn. lia.
Qed.

Definition toy_json_text : JsonText := {|
  json_pretty := toy_print;
  json_parse b := '(v, rest) ← toy_read (length b) b; if forallb is_json_space rest then Some (@reread blunt_floats v) else None |}.

Lemma toy_json_text_laws : @JsonTextLaws toy_json_text blunt_floats.
Proof.
  constructor. intros v sp Hsp. cbn. rewrite toy_back by (rewrite length_app; lia). cbn. by rewrite Hsp.
Qed.

Definition demo_around (read : ConfigSource -> option bytes) : Surroundings :=
  mkSurroundings read (fun _ => None) (replicate 32 9) (replicate 32 8) (replicate 32 7) demo_socket_host demo_boot_host demo_tun_host (mkStdClock 0)
    demo_net false 7 (mkProbeNet [] [] [] []).

Definition demo_main := @main std_hex {| to_lowercase := fun b => b |} toy_ed25519 toy_box toy_blake2 demo_env toy_json_text.

Lemma genconf_runs_witness : exists doc, demo_main (demo_around (fun _ => None)) [str "-genconf"] = Exits 0 doc None /\
  demo_main (demo_around (fun _ => Some doc)) (document_args Stdin [str "-publickey"]) =
    Exits 0 (println (@hex_encode std_hex (@verifying_key toy_ed25519 (replicate 32 9)))) None.
Proof.
  eexists. split; [reflexivity|].
  refine (proj1 (proj2 (proj2 (@genconf_runs std_hex std_hex_laws {| to_lowercase := fun b => b |} toy_ed25519 toy_ed25519_laws toy_box toy_blake2 demo_env
    toy_json_text blunt_floats toy_json_text_laws (demo_around (fun _ => None)) (demo_around (fun _ => Some _)) _ Stdin _ eq_refl eq_refl eq_refl)))).
  apply bytes_ok_replicate. unfold is_u8. lia.
Defined.

(** An unknown flag ends the process, whatever else is asked. *)
Example unknown_flag_exits : match demo_main (demo_around (fun _ => None)) [str "-genconf"; str "-autoconf"] with Exits 2 [] (Some (BadFlags _ _)) => True | _ => False end.
Proof. vm_compute. exact I. Qed.
